(* ===== verification/_CoqProject ===== *)
-Q . S2P
Prelude.v
RustStr.v
Regex.v
Externals.v
Sample.v
Errors.v
NewTypes.v
Rules.v
Auth.v
Events.v
Db.v
Requests.v
Outbox.v
Consumer.v
ConsumerProps.v
CircuitBreaker.v
Gateway.v
Pagination.v
Redis.v
DistributedLock.v
Cart.v
CartProps.v
CartSpec.v
Relay.v
RelayProps.v
RelayTheorems.v
RelayLive.v
RelayWitness.v
Kafka.v
Jobs.v
JobRunner.v
JobProps.v
JobTheorems.v
JobResults.v
JobWitness.v
Server.v
Ledger.v
PaymentService.v
PaymentBook.v
PaymentSteps.v
PaymentProps.v
PaymentSpec.v
PaymentAnswers.v
PaymentTheorems.v
PaymentEvents.v
PaymentWitness.v
Labels.v
ShopTables.v
Inventory.v
InventoryProps.v
InventorySpec.v
InventoryWitness.v
ShopTypes.v
CategoryRepo.v
ProductRepo.v
CategoryService.v
ProductService.v
ShopProps.v
ShopRoutes.v
CategoryTree.v
ShopSteps.v
ShopTheorems.v
ShopAnswers.v
ShopWitness.v
OrderTypes.v
OrderReq.v
OrderRepo.v
OrderService.v
OrderLists.v
OrderProps.v
Saga.v
SagaLive.v
OrderWitness.v
UserTypes.v
UserRepo.v
UserService.v
UserProps.v
UserTheorems.v
UserSessions.v
UserWitness.v
