(* ===== verification/Prelude.v ===== *)
(** * Koupang: a verification library of the services

    Koupang is a shop made of services written in Rust: identity (accounts and sessions), catalog
    (categories, brands, products, stock), cart, order and payment, over a crate [shared] with
    what they have in common. Every service has a PostgreSQL database of its own; the services
    talk through events: an operation inserts an event into the outbox table of its service in
    its own transaction, a relay publishes it to Kafka, and the consumers of the other services
    handle it. Redis holds the carts, the locks and the caches. An order runs through a saga:
    OrderCreated (order) - stock reserved (catalog) - payment authorized (payment) - order
    confirmed (order) - payment captured (payment) - or, at any point, cancelled, released and
    voided. The catalog can also confirm reservations, but handles no event that does.

    The library is a shallow embedding of these services, with the names of the source. Every
    file opens with the paths it models; paths are below src/.

    ** How the code is modelled

    - A fallible call returns an [outcome]: [Ok], [Err], or [Panic] (a failed [assert_eq!], an
      overflow of a decimal). Stateful code is written in the monad [M S E A] of this file, a
      function from a state to an outcome and a state; [←] is the [?] of the source.
    - A database is the value of its tables, rows as records. A statement is a function on the
      tables with the constraints of the migrations (unique keys, foreign keys, checks, column
      widths, triggers, views) written out. Every statement, begin and commit takes one [fault]
      from a list: nothing happens, the statement is lost, or it takes effect and its answer is
      lost; the list is an argument, so a theorem over all lists covers every failure.
      A rejected statement fails its transaction (Db.v). Calls of Redis, of the gateway and
      of the broker answer by a class or a record of operations with documented laws, which
      allow errors, and errors after the effect.
    - Integers are [Z] with the wrap-around of their width written out where it can happen
      ([as_i32], [wrap_i64]); decimals have the overflow test of a 96-bit mantissa; the failure
      rate of the circuit breaker is computed in binary64.
    - Strings are byte strings in UTF-8, with [trim], [split] and case changes as Rust has them;
      the regular expressions are terms matched by derivatives (Regex.v).
    - A loop over a list is a Fixpoint on it. Loops with a counter take it as fuel: the retry
      loop of the consumer and the lock have the number of retries left, a walk along pages has
      one more than the number of rows. Theorems on these state that this is enough. The loops
      that wait ([tokio::select!]) run along a list of what woke them ([wake_loop] of Db.v); what
      several relays, runners and consumers do together is a step relation or a list of steps
      in any order, so their interleavings are covered.
    - Crates the code calls (uuid, rust_decimal, serde_json, jsonwebtoken, argon2, chrono's formats,
      the Unicode tables, the broker and its client, the Redis server, the collation and scan orders
      of PostgreSQL) are classes with the laws the theorems use. Sample.v and the Witness files give
      computable instances; there every theorem with a hypothesis is applied to a concrete run.

    ** The files

    Foundations: this file (outcomes, the monad, tactics, generic lemmas); RustStr, Regex
    (strings and characters); Externals, Sample (third-party components).

    The crate shared: Errors (errors.rs), NewTypes (new_types/, exact decimal sums), Rules
    (rules.rs), Auth (guards.rs, role.rs, dto_helpers.rs, jwt.rs, middleware.rs, auth_config.rs),
    Events (events/types.rs), Db (db/transaction_support.rs), Requests (responses.rs, and the common
    shape of the services' requests: reads, then one transaction), Outbox (outbox/repository.rs,
    processed.rs, types.rs; the class [OutboxTables] is what every service's tables promise to the
    shared code), Consumer and ConsumerProps (events/consumer.rs), Kafka (events/producer.rs,
    admin.rs, health.rs), Server (config/, server.rs, db/mod.rs and the main.rs of every service),
    CircuitBreaker, Pagination (db/pagination_support.rs), Redis (the commands, and cache/mod.rs),
    DistributedLock, Relay, RelayProps, RelayTheorems, RelayLive, RelayWitness (outbox/relay.rs,
    dedup.rs, metrics.rs), Jobs, JobRunner, JobProps, JobTheorems, JobResults, JobWitness (jobs/).

    Cart: Cart (the source), CartProps (the abstract cart), CartSpec (theorems, witnesses).

    Payment: Gateway (gateway/), Ledger (ledger/, error.rs), PaymentService (payments/, consumers/),
    PaymentBook, PaymentSteps, PaymentProps (the payment machine and its invariant), PaymentSpec,
    PaymentAnswers, PaymentTheorems, PaymentEvents, PaymentWitness.

    Catalog: Labels (value objects), ShopTables (rows), Inventory (inventory/, consumers/),
    InventoryProps, InventorySpec, InventoryWitness, ShopTypes (dtos.rs, domain.rs), CategoryRepo,
    ProductRepo (statements), CategoryService, ProductService (operations and handlers), ShopProps
    (the machine of the tables), CategoryTree (paths and ancestors), ShopSteps (well-formed tables),
    ShopRoutes (every route of the catalog, with the middleware), ShopTheorems, ShopAnswers, ShopWitness.

    Order: OrderTypes, OrderReq, OrderRepo, OrderService (the source), OrderLists (the paginated
    lists and routes.rs), OrderProps (theorems), OrderWitness.

    Saga: the order, catalog and payment services together, over one log of announced events;
    its theorem joins OrderProps, InventorySpec and PaymentSpec. SagaLive: calm runs of the
    handlers of the three, and an order brought to its end; both have their runs in OrderWitness.

    Identity: UserTypes, UserRepo, UserService (the source), UserProps (the machine),
    UserTheorems, UserSessions, UserWitness.

    ** What the theorems show

    - Delivery. The consumer refines a machine that applies every event at most once, and commits an
      offset only for a message that is accounted for (ConsumerProps). Under any interleaving of
      relays, crashes and failures no outbox event is lost, a claim is exclusive, and a calm relay
      publishes what it claims (RelayTheorems, RelayLive). A consumer reads back the event that was
      announced, in the order of its aggregate; but a message whose offset was not committed is lost
      once the next one is handled (Kafka). The cleanup of the markers keeps the young ones
      (ConsumerProps). The lock is held at most once between two expiries, and a guard that has
      expired frees no lock of another (DistributedLock); jobs move along their life cycle and every
      result is recorded as the reference says, and a runner drains what is in flight, up to a lost
      wake-up (JobTheorems, JobResults); the circuit breaker answers as one that keeps the whole
      history (CircuitBreaker); following the pages ends and visits every row once (Pagination).
    - Orders. Statuses move along legal transitions only, creation is atomic with its event, and
      idempotent, totals are exact, every saga event has its effect (OrderProps); the lists answer
      the first page and fail for a cursor (OrderLists).
    - The saga. Whatever the requests, deliveries, redeliveries and failures: no order is confirmed
      unless exactly its items were set aside and exactly its total was authorized, nobody is
      charged for anything else, and nothing is captured before the order is confirmed (Saga). And
      an order can always be brought to its end: from any state so reached, if it is pending and in
      stock and the gateway approves, five deliveries confirm it and capture its payment (SagaLive).
    - Stock. Reserved quantities are the sums of the open reservations along all runs, and no
      reservation, release, confirmation or event takes a SKU beyond its stock: only its owner or
      an administrator can, by setting the stock (ShopTheorems); an order is reserved as a whole or not at all, releasing
      undoes reserving (InventorySpec).
    - Payments. The ledger balances, a payment goes from new to authorized and then to captured or
      voided with one amount, every operation is at most one step of the payment machine, and the
      answers of the gateway are booked as specified (PaymentTheorems, PaymentAnswers).
    - The shop. The requests on categories, brands, products, SKUs and images are steps of a machine
      that checks the right to each change; a change needs a request on a route with a valid token
      of an administrator or the seller - of the seller of any product, to delete an image; the
      tables stay well formed along every run, together with the inventory; the hierarchy pages are
      exact; the public list is complete; a seller can take stock that is reserved, and what the
      confirmation then answers (ShopTheorems, CategoryTree, ShopAnswers, Labels).
    - Carts. Every request on the routes is refused or a step of the abstract cart of its token's
      user; carts keep their limits; totals are exact and the checkout decides exactly its
      conditions (CartSpec).
    - Accounts. Every request is at most one step of the account machine and takes it if it reports
      success - a lost lookup of forgot_password apart -, keys and tokens are unique, what changes
      an account is a request on the routes that had the right to, a reset token works once, a login
      gives a session of exactly that account, and the cached current user is the account
      (UserTheorems, UserSessions).
    - Start-up. A service that has started has the infrastructure and the tasks it declared, with
      checked configurations - except Redis and consumers whose connection failed, and only those;
      without Redis the cart does not start (Server).

    ** What is not modelled, and why

    The routers and the authentication middleware are modelled; what axum and serde do around them
    (parsing paths, queries and bodies, writing responses), the gRPC wiring, tracing, the
    health route and the mail mock are glue over libraries; a start is modelled up to the bound
    listener, and the shutdown has no effect on the tables. The mock publishers and the test
    utilities only record calls. The token and password cryptography is
    in crates: what the code relies on is a law. [debug_assert!] is not part of a release build
    and is left out. Concurrency inside one database is by whole statements or transactions:
    the row locks of a claim ([FOR UPDATE SKIP LOCKED]) are an argument of the claim; the
    services bff-gateway, moderation, notification, review and shipping are empty. *)

From Stdlib Require SpecFloat.
From stdpp Require Export prelude gmap strings pretty sorting.

(** ** Outcomes *)

(** The outcome of a Rust call that returns [Result<A, E>]: the value, the error,
    or a panic (a failed [assert_eq!], an arithmetic overflow of a library type). *)
Inductive outcome (E A : Type) : Type :=
| Ok (a : A)
| Err (e : E)
| Panic.
Arguments Ok {E A} _.
Arguments Err {E A} _.
Arguments Panic {E A}.

#[export] Instance outcome_ret {E} : MRet (outcome E) := λ A a, Ok a.
#[export] Instance outcome_bind {E} : MBind (outcome E) := λ A B f o,
  match o with Ok a => f a | Err e => Err e | Panic => Panic end.

Definition is_ok {E A} (o : outcome E A) : bool :=
  match o with Ok _ => true | _ => false end.

(** [Result::map_err]. *)
Definition omap_err {E F A} (f : E → F) (o : outcome E A) : outcome F A :=
  match o with Ok a => Ok a | Err e => Err (f e) | Panic => Panic end.

(** [Option::ok_or]. *)
Definition ok_or {E A} (e : E) (o : option A) : outcome E A :=
  match o with Some a => Ok a | None => Err e end.

(** [x as i32] keeps the low 32 bits. *)
Definition as_i32 (z : Z) : Z := ((z + 2 ^ 31) mod 2 ^ 32 - 2 ^ 31)%Z.
(** [x as i64] keeps the low 64 bits; so does an addition of the release build. *)
Definition wrap_i64 (z : Z) : Z := ((z + 2 ^ 63) mod 2 ^ 64 - 2 ^ 63)%Z.
Lemma wrap_i64_small z : (- 2 ^ 63 ≤ z < 2 ^ 63)%Z → wrap_i64 z = z.
Proof. intros Hz. unfold wrap_i64. rewrite Z.mod_small by lia. lia. Qed.

(** ** 64-bit floating point numbers, by the specification of IEEE 754 *)

Definition f64 : Type := SpecFloat.spec_float.
(** A count or an integer literal as a float. *)
Definition f64_of_Z (z : Z) : f64 := SpecFloat.binary_normalize 53 1024 z 0 false.
Definition f64_of_usize (n : nat) : f64 := f64_of_Z (Z.of_nat n).
Definition f64_div (a b : f64) : f64 := SpecFloat.SFdiv 53 1024 a b.
(** [a >= b] *)
Definition f64_geb (a b : f64) : bool := SpecFloat.SFleb b a.

(** ** The state and error monad *)

(** A piece of effectful code: it reads and updates a state [S] and ends in an
    outcome. An error or a panic keeps the state reached so far: undoing database
    writes is the business of transactions (file Db), not of the error itself. *)
Definition M (S E A : Type) : Type := S → outcome E A * S.

#[export] Instance M_ret {S E} : MRet (M S E) := λ A a s, (Ok a, s).
#[export] Instance M_bind {S E} : MBind (M S E) := λ A B f m s,
  match m s with
  | (Ok a, s') => f a s'
  | (Err e, s') => (Err e, s')
  | (Panic, s') => (Panic, s')
  end.

Section monad_ops.
Context {S E : Type}.

Definition fail {A} (e : E) : M S E A := λ s, (Err e, s).
Definition panic {A} : M S E A := λ s, (Panic, s).
Definition get : M S E S := λ s, (Ok s, s).
Definition gets {A} (f : S → A) : M S E A := λ s, (Ok (f s), s).
Definition put (s : S) : M S E unit := λ _, (Ok tt, s).
Definition modify (f : S → S) : M S E unit := λ s, (Ok tt, f s).

(** A pure fallible call inside effectful code. *)
Definition lift {A} (o : outcome E A) : M S E A := λ s, (o, s).

(** [assert_eq!]. *)
Definition assert_that (b : bool) : M S E unit := if b then mret tt else panic.

(** [for x in l { f(x)?; }] *)
Fixpoint for_each {A} (l : list A) (f : A → M S E unit) : M S E unit :=
  match l with
  | [] => mret tt
  | x :: l => _ ← f x; for_each l f
  end.

(** Run [m], and look at its outcome: [match m.await { Ok(..) => .., Err(..) => .. }].
    A panic unwinds through the match. *)
Definition catch {E' A B} (m : M S E' A) (k : A → M S E B) (h : E' → M S E B) : M S E B :=
  λ s, match m s with
       | (Ok a, s') => k a s'
       | (Err e, s') => h e s'
       | (Panic, s') => (Panic, s')
       end.
End monad_ops.

(** [m.map_err(f)] on effectful code. *)
Definition map_err {S E F A} (f : E → F) (m : M S E A) : M S F A :=
  λ s, let '(o, s') := m s in (omap_err f o, s').

(** Run code of a component of the state: [S] is the whole, [T] the part. *)
Definition zoom {S T E A} (gt : S → T) (st : T → S → S) (m : M T E A) : M S E A :=
  λ s, let '(o, t') := m (gt s) in (o, st t' s).

(** ** Inversion of successful runs *)

Section inversion.
Context {S E : Type}.
Implicit Types s : S.

Lemma bind_ok {A B} (m : M S E A) (k : A → M S E B) s b s' :
  (m ≫= k) s = (Ok b, s') ↔ ∃ a s1, m s = (Ok a, s1) ∧ k a s1 = (Ok b, s').
Proof.
  unfold mbind, M_bind. split.
  - destruct (m s) as [[a|e|] s1] eqn:Em; try discriminate. eauto.
  - intros (a & s1 & -> & H). exact H.
Qed.

(** The same for any outcome: either [m] ended the program, or it went on. *)
Lemma bind_inv {A B} (m : M S E A) (k : A → M S E B) s o s' :
  (m ≫= k) s = (o, s') →
  (∃ a s1, m s = (Ok a, s1) ∧ k a s1 = (o, s')) ∨
  (is_ok o = false ∧ ∃ o1, m s = (o1, s') ∧ is_ok o1 = false).
Proof.
  unfold mbind, M_bind. destruct (m s) as [[a|e|] s1] eqn:Em; intros; simplify_eq; eauto 8.
Qed.

(** As [bind_inv], with the error or the panic that ended the first part. *)
Lemma bind_cases {A B} (m : M S E A) (k : A → M S E B) s o s' :
  (m ≫= k) s = (o, s') →
  (∃ a s1, m s = (Ok a, s1) ∧ k a s1 = (o, s')) ∨
  (∃ e, o = Err e ∧ m s = (Err e, s')) ∨ (o = Panic ∧ m s = (Panic, s')).
Proof.
  unfold mbind, M_bind. destruct (m s) as [[a|e|] s1] eqn:Em; intros; simplify_eq; eauto 8.
Qed.

Lemma bind_assoc {A B C} (m : M S E A) (k : A → M S E B) (l : B → M S E C) s :
  ((m ≫= k) ≫= l) s = (m ≫= λ a, k a ≫= l) s.
Proof. unfold mbind, M_bind. by destruct (m s) as [[a|e|] s1]. Qed.

Lemma ret_ok {A} (a b : A) s s' : mret (M := M S E) a s = (Ok b, s') ↔ a = b ∧ s = s'.
Proof. unfold mret, M_ret. split; [by intros [= -> ->] | by intros [-> ->]]. Qed.

Lemma fail_ok {A} (e : E) (b : A) s s' : fail e s = (Ok b, s') ↔ False.
Proof. done. Qed.

Lemma panic_ok {A} (b : A) s s' : panic (E := E) s = (Ok b, s') ↔ False.
Proof. done. Qed.

Lemma get_ok s b s' : get (E := E) s = (Ok b, s') ↔ s = b ∧ s = s'.
Proof. unfold get. split; [by intros [= -> ->] | by intros [-> ->]]. Qed.

Lemma gets_ok {A} (f : S → A) s b s' : gets (E := E) f s = (Ok b, s') ↔ f s = b ∧ s = s'.
Proof. unfold gets. split; [by intros [= -> ->] | by intros [-> ->]]. Qed.

Lemma lift_ok {A} (o : outcome E A) b s s' : lift o s = (Ok b, s') ↔ o = Ok b ∧ s = s'.
Proof. unfold lift. split; [by intros [= -> ->] | by intros [-> ->]]. Qed.

Lemma assert_ok b u s s' : assert_that (E := E) b s = (Ok u, s') ↔ b = true ∧ s = s'.
Proof. destruct b, u; unfold assert_that, mret, M_ret, panic; naive_solver. Qed.

Lemma map_err_ok {F A} (f : F → E) (m : M S F A) s b s' :
  map_err f m s = (Ok b, s') ↔ m s = (Ok b, s').
Proof. unfold map_err. destruct (m s) as [[a|e|] s1]; naive_solver. Qed.

Lemma map_err_inv {F A} (f : F → E) (m : M S F A) s o s' :
  map_err f m s = (o, s') → ∃ o', m s = (o', s') ∧ o = omap_err f o'.
Proof. unfold map_err. destruct (m s) as [o1 s1]. intros [= <- <-]. eauto. Qed.

Lemma catch_ok {E' A B} (m : M S E' A) (k : A → M S E B) h s b s' :
  catch m k h s = (Ok b, s') ↔
  (∃ a s1, m s = (Ok a, s1) ∧ k a s1 = (Ok b, s')) ∨
  (∃ e s1, m s = (Err e, s1) ∧ h e s1 = (Ok b, s')).
Proof. unfold catch. destruct (m s) as [[a|e|] s1]; naive_solver. Qed.

Lemma omap_err_ok {F A} (f : F → E) (o : outcome F A) b :
  omap_err f o = Ok b ↔ o = Ok b.
Proof. destruct o; naive_solver. Qed.

Lemma ok_or_ok {A} (e : E) (o : option A) b : ok_or e o = Ok b ↔ o = Some b.
Proof. destruct o; naive_solver. Qed.

Lemma obind_ok {A B} (o : outcome E A) (k : A → outcome E B) b :
  (o ≫= k) = Ok b ↔ ∃ a, o = Ok a ∧ k a = Ok b.
Proof. destruct o; naive_solver. Qed.
End inversion.

Lemma zoom_ok {S T E A} (gt : S → T) (st : T → S → S) (m : M T E A) s b s' :
  zoom gt st m s = (Ok b, s') ↔ ∃ t', m (gt s) = (Ok b, t') ∧ s' = st t' s.
Proof. unfold zoom. destruct (m (gt s)) as [o t'] eqn:Em. naive_solver. Qed.

(** Runs that are known to have succeeded, by computing [is_ok]. *)
Lemma run_ok {S E A} (r : outcome E A * S) : is_ok r.1 = true → ∃ a, r = (Ok a, r.2).
Proof. destruct r as [[a|e|] s]; try done. by exists a. Qed.
Lemma run_ok_unit {S E} (r : outcome E unit * S) : is_ok r.1 = true → r = (Ok tt, r.2).
Proof. by destruct r as [[[]|e|] s]. Qed.

Lemma run_ok_default {S E A} (d : A) (r : outcome E A * S) :
  is_ok r.1 = true → r = (Ok (match r.1 with Ok a => a | _ => d end), r.2).
Proof. by destruct r as [[a|e|] s]. Qed.

Definition is_some {A} (o : option A) : bool := match o with Some _ => true | None => false end.
Lemma some_default {A} (d : A) (o : option A) : is_some o = true → o = Some (default d o).
Proof. by destruct o. Qed.
Lemma ok_default {E A} (d : A) (o : outcome E A) :
  is_ok o = true → o = Ok (match o with Ok a => a | _ => d end).
Proof. by destruct o. Qed.

(** [inv_ok H] takes a hypothesis that a composite program ended in [Ok] apart into
    the runs of its parts, every one of which ended in [Ok]. *)
Ltac inv_ok H :=
  lazymatch type of H with
  | (?m ≫= ?k) _ = (Ok _, _) =>
      let a := fresh "a" in let s := fresh "s" in
      let H1 := fresh "Hrun" in let H2 := fresh "Hrun" in
      apply bind_ok in H; destruct H as (a & s & H1 & H2); cbn beta in H2; inv_ok H1; inv_ok H2
  | mret _ _ = (Ok _, _) => apply ret_ok in H; destruct H as [? ?]; subst
  | fail _ _ = (Ok _, _) => apply fail_ok in H; destruct H
  | panic _ = (Ok _, _) => apply panic_ok in H; destruct H
  | get _ = (Ok _, _) => apply get_ok in H; destruct H as [? ?]; subst
  | gets _ _ = (Ok _, _) => apply gets_ok in H; destruct H as [? ?]; subst
  | lift _ _ = (Ok _, _) => apply lift_ok in H; destruct H as [? ?]; subst
  | assert_that _ _ = (Ok _, _) => apply assert_ok in H; destruct H as [? ?]; subst
  | map_err _ _ _ = (Ok _, _) => apply map_err_ok in H; inv_ok H
  | (?o ≫= ?k) = Ok _ =>
      let a := fresh "a" in let H1 := fresh "Hout" in let H2 := fresh "Hout" in
      apply obind_ok in H; destruct H as (a & H1 & H2); cbn beta in H2; inv_ok H1; inv_ok H2
  | omap_err _ _ = Ok _ => apply omap_err_ok in H; inv_ok H
  | ok_or _ _ = Ok _ => apply ok_or_ok in H
  | Err _ = Ok _ => discriminate H
  | Panic = Ok _ => discriminate H
  | (Err _, _) = (Ok _, _) => discriminate H
  | (Panic, _) = (Ok _, _) => discriminate H
  | (if ?b then _ else _) _ = (Ok _, _) =>
      let E := fresh "Hif" in destruct b eqn:E; inv_ok H
  | (if ?b then _ else _) = Ok _ =>
      let E := fresh "Hif" in destruct b eqn:E; inv_ok H
  | match ?o with Some _ => _ | None => _ end _ = (Ok _, _) =>
      let E := fresh "Hopt" in destruct o eqn:E; inv_ok H
  | match ?o with Some _ => _ | None => _ end = Ok _ =>
      let E := fresh "Hopt" in destruct o eqn:E; inv_ok H
  | let '(_, _) := ?p in _ = _ =>
      let E := fresh "Hpair" in destruct p eqn:E; inv_ok H
  | _ => idtac
  end.

(** ** Lists as tables *)

(** [SUM(..)] *)
Definition zsum (l : list Z) : Z := foldr Z.add 0%Z l.
Lemma zsum_cons x l : zsum (x :: l) = (x + zsum l)%Z.
Proof. done. Qed.
Lemma zsum_app l k : zsum (l ++ k) = (zsum l + zsum k)%Z.
Proof. unfold zsum. induction l as [|x l IH]; simpl; lia. Qed.

(** [ORDER BY key ASC] as a stable insertion sort; [DESC] sorts by the opposite key. *)
Section order_by.
Context {A : Type} (key : A → Z).

Fixpoint insert_by (x : A) (l : list A) : list A :=
  match l with
  | [] => [x]
  | y :: l => if (key x <=? key y)%Z then x :: y :: l else y :: insert_by x l
  end.
Definition order_by (l : list A) : list A := foldr insert_by [] l.

Lemma insert_by_perm x l : insert_by x l ≡ₚ x :: l.
Proof.
  induction l as [|y l IH]; simpl; [done|]. case_match; [done|].
  rewrite IH. by constructor.
Qed.
Lemma order_by_perm l : order_by l ≡ₚ l.
Proof. induction l as [|x l IH]; simpl; [done|]. by rewrite insert_by_perm, IH. Qed.

Lemma insert_by_sorted x l :
  StronglySorted (λ y z, key y ≤ key z)%Z l → StronglySorted (λ y z, key y ≤ key z)%Z (insert_by x l).
Proof.
  induction 1 as [|y l Hl IH Hy]; simpl; [repeat constructor|].
  destruct (Z.leb_spec (key x) (key y)).
  - repeat constructor; [done|done|done|]. eapply Forall_impl; [exact Hy|]. simpl. lia.
  - constructor; [done|]. rewrite insert_by_perm. constructor; [lia|done].
Qed.
Lemma order_by_sorted l : StronglySorted (λ y z, key y ≤ key z)%Z (order_by l).
Proof. induction l as [|x l IH]; simpl; [constructor|by apply insert_by_sorted]. Qed.

Lemma elem_of_order_by x l : x ∈ order_by l ↔ x ∈ l.
Proof. by rewrite order_by_perm. Qed.
(** The first row has the least key. *)
Lemma order_by_head l : match head (order_by l) with
  | Some x => x ∈ l ∧ ∀ y, y ∈ l → (key x ≤ key y)%Z
  | None => l = []
  end.
Proof.
  pose proof (order_by_sorted l) as Hs. pose proof (order_by_perm l) as Hp. destruct (order_by l) as [|x k]; simpl.
  - by apply Permutation_nil_l in Hp.
  - apply StronglySorted_inv in Hs as [_ Hx]. rewrite Forall_forall in Hx. rewrite <-Hp. split; [by left|].
    intros y Hy. rewrite <-Hp in Hy. apply elem_of_cons in Hy as [->|Hy]; [done|by apply Hx].
Qed.
End order_by.
Lemma order_by_fmap {A B} (f : A → B) (ka : A → Z) (kb : B → Z) (l : list A) :
  (∀ x, kb (f x) = ka x) → order_by kb (f <$> l) = f <$> order_by ka l.
Proof.
  intros Hk. assert (∀ x l, insert_by kb (f x) (f <$> l) = f <$> insert_by ka x l) as Hi.
  { intros x k. induction k as [|y k IH]; [done|]. rewrite fmap_cons. simpl. rewrite !Hk.
    case_match; [done|]. by rewrite IH. }
  induction l as [|x l IH]; [done|]. rewrite fmap_cons. simpl. by rewrite IH, Hi.
Qed.

(** [UPDATE .. SET .. WHERE p]: the new rows and the number of rows affected. *)
Section update_where.
Context {A : Type} (p : A → bool) (f : A → A).

Definition update_where (l : list A) : list A := (λ x, if p x then f x else x) <$> l.
Definition rows_affected (l : list A) : nat := length (List.filter p l).

Lemma elem_of_update_where y l :
  y ∈ update_where l ↔ ∃ x, x ∈ l ∧ y = if p x then f x else x.
Proof. unfold update_where. rewrite list_elem_of_fmap. naive_solver. Qed.

Lemma fmap_update_where {B} (g : A → B) l :
  (∀ x, p x = true → g (f x) = g x) → g <$> update_where l = g <$> l.
Proof.
  intros Hg. unfold update_where. rewrite <-list_fmap_compose. apply list_fmap_ext.
  intros _ x _. simpl. destruct (p x) eqn:E; auto.
Qed.

Lemma find_update_where (q : A → bool) l :
  (∀ x, q (f x) = q x) → (∀ x, q x = true → p x = true) →
  List.find q (update_where l) = f <$> List.find q l.
Proof.
  intros Hq Hp. induction l as [|x l IH]; [done|]. cbn.
  destruct (q x) eqn:Ex.
  - rewrite (Hp _ Ex). rewrite Hq, Ex. done.
  - destruct (p x); [rewrite Hq|]; rewrite Ex; apply IH.
Qed.

Lemma find_update_where_other (q : A → bool) l :
  (∀ x, p x = true → q x = false ∧ q (f x) = false) →
  List.find q (update_where l) = List.find q l.
Proof.
  intros Hp. induction l as [|x l IH]; [done|]. cbn.
  destruct (p x) eqn:Ex.
  - destruct (Hp _ Ex) as [-> ->]. apply IH.
  - case_match; [done|]. apply IH.
Qed.
End update_where.

Lemma existsb_find {A} (p : A → bool) l : existsb p l = false ↔ List.find p l = None.
Proof. induction l as [|x l IH]; simpl; [done|]. by destruct (p x). Qed.

Lemma find_app {A} (p : A → bool) l k :
  List.find p (l ++ k) = match List.find p l with Some x => Some x | None => List.find p k end.
Proof. induction l as [|x l IH]; simpl; [done|]. by destruct (p x). Qed.

Lemma filter_none {A} (p : A → bool) l : (∀ x, x ∈ l → p x = false) → List.filter p l = [].
Proof.
  induction l as [|x l IH]; intros Hp; [done|]. cbn [List.filter].
  rewrite (Hp x (list_elem_of_here _ _)). apply IH. intros y Hy. apply Hp. by right.
Qed.

Lemma filter_filter {A} (p q : A → bool) l :
  List.filter p (List.filter q l) = List.filter (λ x, q x && p x) l.
Proof.
  induction l as [|x l IH]; [done|]. simpl. destruct (q x); simpl; [|done].
  destruct (p x); by rewrite IH.
Qed.

(** Sublists and submultisets. *)
Lemma filter_sublist {A} (p : A → bool) l : List.filter p l `sublist_of` l.
Proof.
  induction l as [|x l IH]; simpl; [done|].
  destruct (p x); [by apply sublist_skip|by apply sublist_cons].
Qed.
Lemma sublist_omap {A B} (f : A → option B) l k :
  l `sublist_of` k → omap f l `sublist_of` omap f k.
Proof.
  induction 1 as [|x l k _ IH|x l k _ IH]; simpl; [done| |]; destruct (f x);
    by (apply sublist_skip || apply sublist_cons || idtac).
Qed.
Lemma submseteq_NoDup {A} (l k : list A) : NoDup k → l ⊆+ k → NoDup l.
Proof. intros Hk [k' E]%submseteq_Permutation. rewrite E in Hk. by apply NoDup_app in Hk as [? _]. Qed.

Lemma zsum_split {A} (g : A → Z) (p q : A → bool) l :
  zsum (g <$> List.filter p l) =
    (zsum (g <$> List.filter (λ x, p x && q x) l) +
     zsum (g <$> List.filter (λ x, p x && negb (q x)) l))%Z.
Proof.
  induction l as [|x l IH]; [done|]. cbn [List.filter].
  destruct (p x), (q x); cbn [andb negb]; rewrite ?fmap_cons, ?zsum_cons; lia.
Qed.

Lemma existsb_false_fmap {A B} (f : A → B) (p : A → bool) b l :
  (∀ x, f x = b → p x = true) → existsb p l = false → b ∉ (f <$> l).
Proof.
  intros Hp He (x & Hx & Hin)%list_elem_of_fmap.
  assert (existsb p l = true); [|congruence]. apply existsb_exists. exists x.
  split; [by apply list_elem_of_In|by apply Hp].
Qed.

Lemma NoDup_fmap_snoc {A B} (f : A → B) l x :
  NoDup (f <$> l) → (f x ∉ (f <$> l)) → NoDup (f <$> (l ++ [x])).
Proof.
  intros Hl Hx. rewrite fmap_app. apply NoDup_app. split_and!; [done| |apply NoDup_singleton].
  by intros y Hy ->%list_elem_of_singleton.
Qed.

Lemma NoDup_fmap_inj_in {A B} (f : A → B) l x y :
  NoDup (f <$> l) → x ∈ l → y ∈ l → f x = f y → x = y.
Proof.
  induction l as [|z l IH]; [by intros _ ?%not_elem_of_nil|].
  rewrite fmap_cons. intros [Hz Hl]%NoDup_cons [->|Hx]%elem_of_cons [->|Hy]%elem_of_cons E;
    [done| | |by apply IH]; exfalso; apply Hz, list_elem_of_fmap; eauto.
Qed.

Lemma Forall2_impl_in {A B} (P Q : A → B → Prop) l k :
  Forall2 P l k → (∀ x y, x ∈ l → P x y → Q x y) → Forall2 Q l k.
Proof.
  induction 1 as [|x y l k Hxy _ IH]; intros HPQ; constructor.
  - apply HPQ; [by left|done].
  - apply IH. intros x' y' Hin. apply HPQ. by right.
Qed.

(** A loop over a list that ends in [Ok] ran every round to the end. *)
Lemma for_each_inv {S E A} (I : S → Prop) (f : A → M S E unit) l s u s' :
  (∀ x s s' u, x ∈ l → I s → f x s = (Ok u, s') → I s') →
  I s → for_each l f s = (Ok u, s') → I s'.
Proof.
  revert s. induction l as [|x l IH]; intros s Hf HI Hr; simpl in Hr.
  - apply ret_ok in Hr as [_ ->]. done.
  - apply bind_ok in Hr as ([] & s1 & H1 & H2). eapply IH; [|eapply Hf; [|exact HI|exact H1]|exact H2].
    + intros y t t' v Hy. apply Hf. by right.
    + by left.
Qed.

(** ** Programs that stay inside a preorder

    [keeps R m]: whatever the outcome of [m], the state it leaves is related to the
    state it started from. For a preorder [R] the property is compositional; the hint
    database [keeps] holds the rules, and [keeps_tac] applies them. *)
Definition keeps {S E A} (R : S → S → Prop) (m : M S E A) : Prop :=
  ∀ s o s', m s = (o, s') → R s s'.

Section keeps.
Context {S E : Type} (R : S → S → Prop) `{!PreOrder R}.

Lemma keeps_ret {A} (a : A) : keeps R (mret (M := M S E) a).
Proof. intros s o s' [= <- <-]. reflexivity. Qed.
Lemma keeps_fail {A} (e : E) : keeps R (fail (A := A) e).
Proof. intros s o s' [= <- <-]. reflexivity. Qed.
Lemma keeps_panic {A} : keeps R (panic (S := S) (E := E) (A := A)).
Proof. intros s o s' [= <- <-]. reflexivity. Qed.
Lemma keeps_gets {A} (f : S → A) : keeps R (gets (E := E) f).
Proof. intros s o s' [= <- <-]. reflexivity. Qed.
Lemma keeps_lift {A} (x : outcome E A) : keeps R (lift x).
Proof. intros s o s' [= <- <-]. reflexivity. Qed.
Lemma keeps_assert b : keeps R (assert_that (S := S) (E := E) b).
Proof. destruct b; [apply keeps_ret|apply keeps_panic]. Qed.
Lemma keeps_modify (f : S → S) : (∀ s, R s (f s)) → keeps R (modify (E := E) f).
Proof. intros Hf s o s' [= <- <-]. apply Hf. Qed.

Lemma keeps_bind {A B} (m : M S E A) (k : A → M S E B) :
  keeps R m → (∀ a, keeps R (k a)) → keeps R (m ≫= k).
Proof.
  intros Hm Hk s o s'. unfold mbind, M_bind. destruct (m s) as [[a|e|] s1] eqn:Em;
    intros Hr; apply Hm in Em; simplify_eq; [|done..]. etrans; [done|]. by eapply Hk.
Qed.

Lemma keeps_map_err {F A} (f : F → E) (m : M S F A) : keeps R m → keeps R (map_err f m).
Proof.
  intros Hm s o s'. unfold map_err. destruct (m s) as [o1 s1] eqn:Em. intros [= _ <-].
  by eapply Hm.
Qed.

Lemma keeps_catch {E' A B} (m : M S E' A) (k : A → M S E B) (h : E' → M S E B) :
  keeps R m → (∀ a, keeps R (k a)) → (∀ e, keeps R (h e)) → keeps R (catch m k h).
Proof.
  intros Hm Hk Hh s o s'. unfold catch. destruct (m s) as [[a|e|] s1] eqn:Em;
    intros Hr; apply Hm in Em; simplify_eq; [| |done]; (etrans; [done|]);
    [by eapply Hk|by eapply Hh].
Qed.

Lemma keeps_for_each {A} (l : list A) (f : A → M S E unit) :
  (∀ x, x ∈ l → keeps R (f x)) → keeps R (for_each l f).
Proof.
  induction l as [|x l IH]; intros Hf; simpl; [apply keeps_ret|].
  apply keeps_bind; [apply Hf; by left|]. intros _. apply IH. intros y Hy. apply Hf. by right.
Qed.
End keeps.

Lemma keeps_zoom {S T E A} (R : S → S → Prop) (gt : S → T) (st : T → S → S) (m : M T E A) :
  keeps (λ t t', ∀ s, gt s = t → R s (st t' s)) m → keeps R (zoom gt st m).
Proof.
  intros Hm s o s'. unfold zoom. destruct (m (gt s)) as [o1 t1] eqn:Em. intros [= _ <-].
  by eapply Hm.
Qed.

Create HintDb keeps.
#[export] Hint Resolve keeps_ret keeps_fail keeps_panic keeps_gets keeps_lift keeps_assert
  keeps_bind keeps_map_err keeps_catch keeps_for_each : keeps.

(** Apply the rules, and case analysis on the values the program branches on. *)
Ltac keeps_tac :=
  repeat first
    [ match goal with |- ∀ _, _ => intros ? end
    | solve [eauto 4 with keeps typeclass_instances]
    | apply keeps_bind; [typeclasses eauto| |]
    | apply keeps_catch; [typeclasses eauto| | |]
    | apply keeps_map_err
    | apply keeps_for_each; [typeclasses eauto|]
    | match goal with
      | |- keeps _ (match ?x with _ => _ end) => destruct x
      end ].
