(* ===== verification/RustStr.v ===== *)
(** * Rust strings

    The operations of [str] and [String] the services use. A Rust string is a
    sequence of UTF-8 bytes, so a model string is the sequence of its bytes and
    [str::len] is its length. [str::trim] strips Unicode [White_Space] characters:
    their UTF-8 encodings are recognised here byte by byte. *)

From Stdlib Require Import Ascii.
From S2P Require Import Prelude.

(** Bytes of a string, as numbers. *)
Definition bytes (s : string) : list nat := nat_of_ascii <$> String.list_ascii_of_string s.
Definition of_bytes (l : list nat) : string := String.string_of_list_ascii (ascii_of_nat <$> l).

Definition str_len (s : string) : nat := String.length s.
(** The number of characters (PostgreSQL counts those in [VARCHAR(n)]): the bytes
    that are not UTF-8 continuation bytes. *)
Definition char_count (s : string) : nat :=
  length (List.filter (λ b, negb ((128 <=? b) && (b <=? 191))) (bytes s)).
Definition is_empty (s : string) : bool := match s with EmptyString => true | _ => false end.

(** [strs.join(sep)] *)
Definition join (sep : string) (l : list string) : string := String.concat sep l.

Definition is_ascii_uppercase (b : nat) : bool := (65 <=? b) && (b <=? 90).
Definition is_ascii_alphanumeric (b : nat) : bool :=
  ((48 <=? b) && (b <=? 57)) || ((65 <=? b) && (b <=? 90)) || ((97 <=? b) && (b <=? 122)).

(** [s.strip_prefix(p)], and [s.trim_start_matches(p)], which strips it as often as it can. *)
Definition strip_prefix (p s : string) : option string :=
  if String.prefix p s then Some (String.substring (str_len p) (str_len s - str_len p) s) else None.
Fixpoint strip_all_prefixes (fuel : nat) (p s : string) : string :=
  match fuel with
  | 0 => s
  | S fuel => match strip_prefix p s with Some t => strip_all_prefixes fuel p t | None => s end
  end.
Definition trim_start_matches (p s : string) : string := strip_all_prefixes (str_len s) p s.

(** ** White space *)

(** One-, two- and three-byte encodings of the [White_Space] characters:
    U+0009..U+000D and U+0020; U+0085 and U+00A0; U+1680, U+2000..U+200A, U+2028,
    U+2029, U+202F, U+205F and U+3000. *)
Definition ws1 (a : nat) : bool := ((9 <=? a) && (a <=? 13)) || (a =? 32).
Definition ws2 (a b : nat) : bool := (a =? 194) && ((b =? 133) || (b =? 160)).
Definition ws3 (a b c : nat) : bool :=
  ((a =? 225) && (b =? 154) && (c =? 128)) ||
  ((a =? 226) && (b =? 128) &&
     (((128 <=? c) && (c <=? 138)) || (c =? 168) || (c =? 169) || (c =? 175))) ||
  ((a =? 226) && (b =? 129) && (c =? 159)) ||
  ((a =? 227) && (b =? 128) && (c =? 128)).

(** The rest of the bytes after one leading white-space character, if there is one. *)
Definition strip_ws (l : list nat) : option (list nat) :=
  match l with
  | [] => None
  | a :: l1 =>
      if ws1 a then Some l1 else
      match l1 with
      | [] => None
      | b :: l2 =>
          if ws2 a b then Some l2 else
          match l2 with
          | [] => None
          | c :: l3 => if ws3 a b c then Some l3 else None
          end
      end
  end.

(** The same for a trailing character, on the reversed bytes. *)
Definition strip_ws_rev (l : list nat) : option (list nat) :=
  match l with
  | [] => None
  | a :: l1 =>
      if ws1 a then Some l1 else
      match l1 with
      | [] => None
      | b :: l2 =>
          if ws2 b a then Some l2 else
          match l2 with
          | [] => None
          | c :: l3 => if ws3 c b a then Some l3 else None
          end
      end
  end.

Fixpoint strip_all (strip : list nat → option (list nat)) (fuel : nat) (l : list nat) : list nat :=
  match fuel with
  | 0 => l
  | S fuel => match strip l with Some l' => strip_all strip fuel l' | None => l end
  end.

(** Every step removes a byte, so the length of the list is enough fuel. *)
Definition trim_start_bytes (l : list nat) : list nat := strip_all strip_ws (length l) l.
Definition trim_end_bytes (l : list nat) : list nat :=
  reverse (strip_all strip_ws_rev (length l) (reverse l)).
Definition trim (s : string) : string := of_bytes (trim_end_bytes (trim_start_bytes (bytes s))).

(** ** Trimming is idempotent *)

Lemma strip_ws_shorter l l' : strip_ws l = Some l' → length l' < length l.
Proof.
  destruct l as [|a [|b [|c l3]]]; simpl; [done|..];
    repeat case_match; intros [= <-] || intros [=]; simpl; lia.
Qed.

Lemma strip_ws_rev_shorter l l' : strip_ws_rev l = Some l' → length l' < length l.
Proof.
  destruct l as [|a [|b [|c l3]]]; simpl; [done|..];
    repeat case_match; intros [= <-] || intros [=]; simpl; lia.
Qed.

Section strip_all.
Context (strip : list nat → option (list nat)).
Context (strip_shorter : ∀ l l', strip l = Some l' → length l' < length l).

(** Enough fuel strips until nothing is left to strip. *)
Lemma strip_all_done fuel l : length l ≤ fuel → strip (strip_all strip fuel l) = None.
Proof.
  revert l. induction fuel as [|fuel IH]; intros l Hl; simpl.
  - destruct (strip l) as [l'|] eqn:E; [|done]. apply strip_shorter in E. lia.
  - destruct (strip l) as [l'|] eqn:E; [|done].
    apply IH. apply strip_shorter in E. lia.
Qed.

Lemma strip_all_none fuel l : strip l = None → strip_all strip fuel l = l.
Proof. intros E. destruct fuel; simpl; [done|]. by rewrite E. Qed.
End strip_all.

(** [strip_all] keeps a suffix of its input. *)
Lemma strip_ws_suffix l l' : strip_ws l = Some l' → ∃ k, l = k ++ l'.
Proof.
  destruct l as [|a [|b [|c l3]]]; simpl; [done|..]; repeat case_match; intros [=]; subst;
    solve [by eexists [a] | by eexists [a; b] | by eexists [a; b; c]].
Qed.
Lemma strip_ws_rev_suffix l l' : strip_ws_rev l = Some l' → ∃ k, l = k ++ l'.
Proof.
  destruct l as [|a [|b [|c l3]]]; simpl; [done|..]; repeat case_match; intros [=]; subst;
    solve [by eexists [a] | by eexists [a; b] | by eexists [a; b; c]].
Qed.
Lemma strip_all_suffix strip fuel l :
  (∀ l l', strip l = Some l' → ∃ k, l = k ++ l') → ∃ k, l = k ++ strip_all strip fuel l.
Proof.
  intros Hs. revert l. induction fuel as [|fuel IH]; intros l; simpl; [by exists []|].
  destruct (strip l) as [l'|] eqn:E; [|by exists []].
  destruct (Hs _ _ E) as [k ->]. destruct (IH l') as [k' Hk'].
  exists (k ++ k'). rewrite Hk' at 1. by rewrite app_assoc.
Qed.

(** A list without leading white space keeps that property when its end is cut off. *)
Lemma strip_ws_none_prefix l k : strip_ws (l ++ k) = None → strip_ws l = None.
Proof.
  destruct l as [|a [|b [|c l3]]]; simpl; [done|..]; repeat case_match; done.
Qed.

Lemma trim_start_bytes_done l : strip_ws (trim_start_bytes l) = None.
Proof. apply strip_all_done; [apply strip_ws_shorter|done]. Qed.

Lemma trim_end_bytes_done l : strip_ws_rev (reverse (trim_end_bytes l)) = None.
Proof.
  unfold trim_end_bytes. rewrite reverse_involutive.
  apply strip_all_done; [apply strip_ws_rev_shorter|by rewrite length_reverse].
Qed.

Lemma trim_end_bytes_prefix l : ∃ k, l = trim_end_bytes l ++ k.
Proof.
  destruct (strip_all_suffix strip_ws_rev (length l) (reverse l)) as [k Hk];
    [apply strip_ws_rev_suffix|].
  exists (reverse k). unfold trim_end_bytes. by rewrite <-reverse_app, <-Hk, reverse_involutive.
Qed.

Lemma bytes_of_bytes l : Forall (λ b, b < 256) l → bytes (of_bytes l) = l.
Proof.
  intros Hl. unfold bytes, of_bytes.
  rewrite String.list_ascii_of_string_of_list_ascii.
  induction Hl as [|b l Hb _ IH]; [done|].
  rewrite !fmap_cons, IH. by rewrite nat_ascii_embedding.
Qed.

Lemma of_bytes_bytes s : of_bytes (bytes s) = s.
Proof.
  unfold bytes, of_bytes. rewrite <-(String.string_of_list_ascii_of_string s) at 2. f_equal.
  induction (String.list_ascii_of_string s) as [|a l IH]; [done|].
  rewrite !fmap_cons, IH. by rewrite ascii_nat_embedding.
Qed.

Lemma bytes_bounded s : Forall (λ b, b < 256) (bytes s).
Proof.
  unfold bytes. apply Forall_fmap, Forall_true. intros a. apply nat_ascii_bounded.
Qed.

Lemma trim_bytes_bounded s : Forall (λ b, b < 256) (trim_end_bytes (trim_start_bytes (bytes s))).
Proof.
  pose proof (bytes_bounded s) as Hb.
  destruct (strip_all_suffix strip_ws (length (bytes s)) (bytes s)) as [k Hk];
    [apply strip_ws_suffix|].
  destruct (trim_end_bytes_prefix (trim_start_bytes (bytes s))) as [k' Hk'].
  unfold trim_start_bytes in *. rewrite Hk, Hk', !Forall_app in Hb. tauto.
Qed.

(** Trimming a trimmed string changes nothing. *)
Lemma trim_trim s : trim (trim s) = trim s.
Proof.
  unfold trim at 1. unfold trim at 1.
  rewrite (bytes_of_bytes _ (trim_bytes_bounded s)). unfold trim. f_equal.
  set (l := trim_end_bytes (trim_start_bytes (bytes s))).
  assert (trim_start_bytes l = l) as ->.
  { apply strip_all_none. destruct (trim_end_bytes_prefix (trim_start_bytes (bytes s))) as [k Hk].
    apply (strip_ws_none_prefix _ k). unfold l. rewrite <-Hk. apply trim_start_bytes_done. }
  unfold trim_end_bytes at 1. rewrite strip_all_none; [by rewrite reverse_involutive|].
  apply trim_end_bytes_done.
Qed.

(** A string without white-space bytes is its own trimming. *)
Lemma trim_no_ws s :
  Forall (λ b, ws1 b = false ∧ b ≤ 127) (bytes s) → trim s = s.
Proof.
  intros Hs. rewrite <-(of_bytes_bytes s) at 2. unfold trim. f_equal.
  assert (Hn : ∀ l, Forall (λ b, ws1 b = false ∧ b ≤ 127) l →
    strip_ws l = None ∧ strip_ws_rev l = None).
  { clear. intros l Hl.
    assert (H2 : ∀ a b, a ≤ 127 → ws2 a b = false).
    { intros a b Ha. unfold ws2. by rewrite (proj2 (Nat.eqb_neq a 194)) by lia. }
    assert (H3 : ∀ a b c, a ≤ 127 → ws3 a b c = false).
    { intros a b c Ha. unfold ws3.
      by rewrite (proj2 (Nat.eqb_neq a 225)), (proj2 (Nat.eqb_neq a 226)),
        (proj2 (Nat.eqb_neq a 227)) by lia. }
    destruct l as [|a [|b [|c l3]]]; simpl; [done|..]; rewrite !Forall_cons in Hl;
      destruct_and!; repeat case_match; simplify_eq; try done;
      try (by rewrite H2 in * by lia); try (by rewrite H3 in * by lia). }
  unfold trim_start_bytes. rewrite strip_all_none by by apply Hn.
  unfold trim_end_bytes. rewrite strip_all_none; [by rewrite reverse_involutive|].
  apply Hn. by apply Forall_reverse.
Qed.

Lemma uppercase_no_ws l :
  forallb is_ascii_uppercase l = true → Forall (λ b, ws1 b = false ∧ b ≤ 127) l.
Proof.
  intros Hl. apply Forall_forall. intros b Hb%list_elem_of_In.
  rewrite forallb_forall in Hl. apply Hl in Hb. unfold is_ascii_uppercase in Hb.
  apply andb_true_iff in Hb as [H1%Nat.leb_le H2%Nat.leb_le].
  split; [|lia]. unfold ws1.
  by rewrite (proj2 (Nat.leb_gt b 13)), (proj2 (Nat.eqb_neq b 32)), andb_false_r by lia.
Qed.
