(* ===== verification/Regex.v ===== *)
(** * Regular expressions

    The values of the services are checked against patterns of the [regex] crate. A pattern is
    a term over predicates on characters (Unicode scalar values); [is_match] runs an anchored
    pattern by derivatives, and decides what the pattern means ([matches]). The second
    part has the Unicode tables of the standard library and of the [regex] crate, classes of ASCII
    characters, and strings put together from characters ([collect::<String>()], [split], [join]). *)

From Stdlib Require Import Ascii.
From S2P Require Import Prelude RustStr.

(** ** The characters of a string *)

(** Decoding of UTF-8. A Rust string is well formed; a sequence cut off at the end would be read
    as the replacement character. *)
Fixpoint decode_utf8 (l : list nat) : list Z :=
  (match l with
   | [] => []
   | a :: l1 =>
       if (a <? 128)%nat then Z.of_nat a :: decode_utf8 l1
       else match l1 with
            | [] => [65533]
            | b :: l2 =>
                let z x := Z.of_nat x mod 64 in
                if (a <? 224)%nat then (Z.of_nat a mod 32) * 64 + z b :: decode_utf8 l2
                else match l2 with
                     | [] => [65533]
                     | c :: l3 =>
                         if (a <? 240)%nat then ((Z.of_nat a mod 16) * 64 + z b) * 64 + z c :: decode_utf8 l3
                         else match l3 with
                              | [] => [65533]
                              | d :: l4 =>
                                  (((Z.of_nat a mod 8) * 64 + z b) * 64 + z c) * 64 + z d :: decode_utf8 l4
                              end
                     end
            end
   end)%Z.
(** [str::chars] *)
Definition chars (s : string) : list Z := decode_utf8 (bytes s).

Lemma decode_utf8_ascii l : Forall (λ a, a < 128) l → decode_utf8 l = Z.of_nat <$> l.
Proof.
  induction 1 as [|a l Ha _ IH]; [done|]. cbn [decode_utf8]. rewrite (proj2 (Nat.ltb_lt a 128) Ha).
  by rewrite IH.
Qed.

Lemma chars_nil s : chars s = [] ↔ s = EmptyString.
Proof.
  unfold chars. destruct s as [|a s]; [done|]. split; [|done]. unfold bytes. simpl.
  destruct (String.list_ascii_of_string s) as [|b [|c [|d l]]]; simpl; repeat case_match; done.
Qed.

(** ** Patterns *)

Inductive regex : Type :=
| RNone
| REmpty
| RChar (p : Z → bool)
| RCat (r s : regex)
| RAlt (r s : regex)
| RStar (r : regex).

(** [r?], [r+], [r{n}], [r{n,}] and [r{0,n}]. *)
Definition RChr (c : Z) : regex := RChar (Z.eqb c).
Definition ROpt (r : regex) : regex := RAlt REmpty r.
Definition RPlus (r : regex) : regex := RCat r (RStar r).
Fixpoint RTimes (n : nat) (r : regex) : regex :=
  match n with 0 => REmpty | S n => RCat r (RTimes n r) end.
Definition RAtLeast (n : nat) (r : regex) : regex := RCat (RTimes n r) (RStar r).
Fixpoint RUpTo (n : nat) (r : regex) : regex :=
  match n with 0 => REmpty | S n => ROpt (RCat r (RUpTo n r)) end.

Inductive matches : regex → list Z → Prop :=
| m_empty : matches REmpty []
| m_char p c : p c = true → matches (RChar p) [c]
| m_cat r s l k : matches r l → matches s k → matches (RCat r s) (l ++ k)
| m_alt_l r s l : matches r l → matches (RAlt r s) l
| m_alt_r r s l : matches s l → matches (RAlt r s) l
| m_star_nil r : matches (RStar r) []
| m_star_cons r l k : l ≠ [] → matches r l → matches (RStar r) k → matches (RStar r) (l ++ k).

Fixpoint nullable (r : regex) : bool :=
  match r with
  | RNone | RChar _ => false
  | REmpty | RStar _ => true
  | RCat r s => nullable r && nullable s
  | RAlt r s => nullable r || nullable s
  end.
Fixpoint deriv (c : Z) (r : regex) : regex :=
  match r with
  | RNone | REmpty => RNone
  | RChar p => if p c then REmpty else RNone
  | RCat r s =>
      if nullable r then RAlt (RCat (deriv c r) s) (deriv c s) else RCat (deriv c r) s
  | RAlt r s => RAlt (deriv c r) (deriv c s)
  | RStar r => RCat (deriv c r) (RStar r)
  end.
Fixpoint is_match_chars (r : regex) (l : list Z) : bool :=
  match l with [] => nullable r | c :: l => is_match_chars (deriv c r) l end.
(** [Regex::is_match] of a pattern between [^] and [$]. *)
Definition is_match (r : regex) (s : string) : bool := is_match_chars r (chars s).

(** ** The matcher decides the meaning *)

Lemma cat_inv r s l : matches (RCat r s) l → ∃ l1 l2, l = l1 ++ l2 ∧ matches r l1 ∧ matches s l2.
Proof. inversion 1; subst. eauto 8. Qed.
Lemma alt_inv r s l : matches (RAlt r s) l → matches r l ∨ matches s l.
Proof. inversion 1; subst; auto. Qed.

Lemma nullable_spec r : nullable r = true ↔ matches r [].
Proof.
  induction r as [| |p|r IHr s IHs|r IHr s IHs|r IHr]; simpl.
  - split; [done|inversion 1].
  - split; [intros _; constructor|done].
  - split; [done|inversion 1].
  - rewrite andb_true_iff, IHr, IHs. split.
    + intros [Hr Hs]. apply (m_cat r s [] []); done.
    + intros (l1 & l2 & E & Hr & Hs)%cat_inv. symmetry in E. apply app_nil in E as [-> ->]. done.
  - rewrite orb_true_iff, IHr, IHs. split; [intros [?|?]; [by apply m_alt_l|by apply m_alt_r]|apply alt_inv].
  - split; [intros _; constructor|done].
Qed.

Lemma star_inv_cons r c l : matches (RStar r) (c :: l) →
  ∃ l1 l2, l = l1 ++ l2 ∧ matches r (c :: l1) ∧ matches (RStar r) l2.
Proof.
  remember (c :: l) as k eqn:Ek. intros Hm. inversion Hm as [| | | | |r'|r' l1 l2 Hne Hr Hs]; subst; [done|].
  destruct l1 as [|c' l1]; [done|]. simpl in *. simplify_eq. eauto.
Qed.

Lemma deriv_spec c r l : matches (deriv c r) l ↔ matches r (c :: l).
Proof.
  revert l. induction r as [| |p|r IHr s IHs|r IHr s IHs|r IHr]; intros l; cbn [deriv].
  - split; inversion 1.
  - split; inversion 1.
  - destruct (p c) eqn:E.
    + split; [inversion 1; by constructor|]. inversion 1; subst. constructor.
    + split; [inversion 1|]. inversion 1; congruence.
  - assert (matches (RCat (deriv c r) s) l ↔
      ∃ l1 l2, l = l1 ++ l2 ∧ matches r (c :: l1) ∧ matches s l2) as Hcat.
    { split.
      - intros (l1 & l2 & -> & Hr & Hs)%cat_inv. apply IHr in Hr. eauto.
      - intros (l1 & l2 & -> & Hr & Hs). apply IHr in Hr. by constructor. }
    assert (matches (RCat r s) (c :: l) ↔
      (∃ l1 l2, l = l1 ++ l2 ∧ matches r (c :: l1) ∧ matches s l2) ∨ (nullable r = true ∧ matches s (c :: l))) as Hcons.
    { split.
      - intros ([|c' l1] & l2 & E & Hr & Hs)%cat_inv.
        + right. simpl in E. subst l2. by rewrite nullable_spec.
        + injection E as -> ->. eauto 8.
      - intros [(l1 & l2 & -> & Hr & Hs)|[Hn Hs]]; [by apply (m_cat r s (c :: l1) l2)|].
        apply (m_cat r s [] (c :: l)); [by apply nullable_spec|done]. }
    rewrite Hcons. destruct (nullable r).
    + split.
      * intros [Hl|Hl]%alt_inv; [left; by apply Hcat|right; split; [done|by apply IHs]].
      * intros [Hl|[_ Hl]]; [apply m_alt_l, Hcat, Hl|apply m_alt_r, IHs, Hl].
    + rewrite Hcat. naive_solver.
  - split; (intros [Hl|Hl]%alt_inv; [apply m_alt_l, IHr, Hl|apply m_alt_r, IHs, Hl]).
  - split.
    + intros (l1 & l2 & -> & Hr & Hs)%cat_inv. apply IHr in Hr. by apply (m_star_cons r (c :: l1) l2).
    + intros (l1 & l2 & -> & Hr & Hs)%star_inv_cons. constructor; [by apply IHr|done].
Qed.

Lemma is_match_chars_spec r l : is_match_chars r l = true ↔ matches r l.
Proof.
  revert r. induction l as [|c l IH]; intros r; simpl; [apply nullable_spec|].
  by rewrite IH, deriv_spec.
Qed.
Lemma is_match_spec r s : is_match r s = true ↔ matches r (chars s).
Proof. apply is_match_chars_spec. Qed.

(** ** Classes of characters *)

Lemma char_spec p l : matches (RChar p) l ↔ ∃ c, l = [c] ∧ p c = true.
Proof. split; [inversion 1; eauto|intros (c & -> & Hc); by constructor]. Qed.
Lemma cat_spec r s l : matches (RCat r s) l ↔ ∃ l1 l2, l = l1 ++ l2 ∧ matches r l1 ∧ matches s l2.
Proof. split; [apply cat_inv|intros (l1 & l2 & -> & ? & ?); by constructor]. Qed.

Lemma star_class p l : matches (RStar (RChar p)) l ↔ Forall (λ c, p c = true) l.
Proof.
  split.
  - induction l as [|c l IH]; [constructor|].
    intros (l1 & l2 & -> & Hr & Hs)%star_inv_cons. apply char_spec in Hr as (c' & [= -> ->] & Hc).
    constructor; [done|by apply IH].
  - induction 1 as [|c l Hc _ IH]; [constructor|].
    apply (m_star_cons _ [c] l); [done|by constructor|done].
Qed.
Lemma plus_class p l : matches (RPlus (RChar p)) l ↔ l ≠ [] ∧ Forall (λ c, p c = true) l.
Proof.
  unfold RPlus. rewrite cat_spec. split.
  - intros (l1 & l2 & -> & (c & -> & Hc)%char_spec & Hs%star_class). split; [done|by constructor].
  - intros [Hne Hl]. destruct l as [|c l]; [done|]. inversion Hl; subst.
    exists [c], l. split_and!; [done|by constructor|by apply star_class].
Qed.
Lemma at_least_class n p l :
  matches (RAtLeast n (RChar p)) l ↔ n ≤ length l ∧ Forall (λ c, p c = true) l.
Proof.
  unfold RAtLeast. revert l. induction n as [|n IH]; intros l; simpl.
  - rewrite cat_spec. split.
    + intros (l1 & l2 & -> & H1 & H2%star_class). inversion H1; subst. split; [lia|done].
    + intros [_ Hl]. exists [], l. split_and!; [done|constructor|by apply star_class].
  - rewrite cat_spec. split.
    + intros (l1 & l2 & -> & (k1 & k2 & -> & (c & -> & Hc)%char_spec & Ht)%cat_spec & Hs).
      destruct (proj1 (IH (k2 ++ l2))) as [Hn Hall]; [by constructor|].
      simpl. split; [lia|by constructor].
    + intros [Hn Hl]. destruct l as [|c l]; simpl in Hn; [lia|]. inversion Hl; subst.
      assert (matches (RCat (RTimes n (RChar p)) (RStar (RChar p))) l) as (l1 & l2 & -> & Ht & Hs)%cat_spec
        by (apply IH; split; [lia|done]).
      exists (c :: l1), l2. split_and!; [done| |done].
      apply (m_cat (RChar p) (RTimes n (RChar p)) [c] l1); [by constructor|done].
Qed.

(** * Characters *)

Local Open Scope Z_scope.

(** ** Classes of characters *)

Definition in_range (a b c : Z) : bool := (a <=? c) && (c <=? b).
Definition ascii_upper (c : Z) : bool := in_range 65 90 c.
Definition ascii_lower (c : Z) : bool := in_range 97 122 c.
Definition ascii_letter (c : Z) : bool := ascii_upper c || ascii_lower c.
Definition ascii_digit (c : Z) : bool := in_range 48 57 c.
Definition one_of (s : string) (c : Z) : bool := existsb (Z.eqb c) (chars s).

Class UnicodeApi := {
  is_uppercase : Z → bool;
  is_lowercase : Z → bool;
  is_alphanumeric : Z → bool;
  is_decimal_number : Z → bool;            (* the class of [\d] *)
  to_lowercase : string → string;
  is_decimal_number_ascii c : 0 ≤ c < 128 → is_decimal_number c = ascii_digit c;
  is_alphanumeric_ascii c : 0 ≤ c < 128 → is_alphanumeric c = ascii_letter c || ascii_digit c;
  to_lowercase_lower s : Forall (λ c, 0 ≤ c < 128 ∧ ascii_upper c = false) (chars s) → to_lowercase s = s;
}.

Lemma in_range_spec a b c : in_range a b c = true ↔ a ≤ c ≤ b.
Proof. unfold in_range. rewrite andb_true_iff, !Z.leb_le. done. Qed.

(** ** Strings from characters *)

Definition encode_char (c : Z) : list nat :=
  let byte z := Z.to_nat z in
  let tail z := byte (128 + z mod 64) in
  if c <? 128 then [byte c]
  else if c <? 2048 then [byte (192 + c / 64); tail c]
  else if c <? 65536 then [byte (224 + c / 4096); tail (c / 64); tail c]
  else [byte (240 + c / 262144); tail (c / 4096); tail (c / 64); tail c].
Definition of_chars (l : list Z) : string := of_bytes (l ≫= encode_char).

(** [split(sep)] *)
Fixpoint split_on (sep : Z) (l : list Z) : list (list Z) :=
  match l with
  | [] => [[]]
  | c :: l =>
      match split_on sep l with
      | w :: ws => if c =? sep then [] :: w :: ws else (c :: w) :: ws
      | [] => [[c]]
      end
  end.
(** [.filter(|s| !s.is_empty())] *)
Definition nonempty {A} (ws : list (list A)) : list (list A) :=
  List.filter (λ w, match w with [] => false | _ => true end) ws.
(** [.join(sep)] *)
Fixpoint join_on (sep : Z) (ws : list (list Z)) : list Z :=
  match ws with
  | [] => []
  | [w] => w
  | w :: ws => w ++ sep :: join_on sep ws
  end.

(** ASCII strings and their characters *)
Definition is_ascii (c : Z) : Prop := 0 ≤ c < 128.

Lemma encode_ascii l : Forall is_ascii l → l ≫= encode_char = Z.to_nat <$> l.
Proof.
  induction 1 as [|c l Hc Hl IH]; [done|]. rewrite fmap_cons, bind_cons, IH. unfold encode_char.
  by rewrite (proj2 (Z.ltb_lt c 128)) by apply Hc.
Qed.
Lemma bytes_of_chars l : Forall is_ascii l → bytes (of_chars l) = Z.to_nat <$> l.
Proof.
  intros Hl. unfold of_chars. rewrite encode_ascii by done. apply bytes_of_bytes.
  apply Forall_fmap. eapply Forall_impl; [exact Hl|]. unfold is_ascii. simpl. lia.
Qed.
Lemma chars_of_chars l : Forall is_ascii l → chars (of_chars l) = l.
Proof.
  intros Hl. unfold chars. rewrite bytes_of_chars by done.
  rewrite decode_utf8_ascii; [|apply Forall_fmap; eapply Forall_impl; [exact Hl|]; unfold is_ascii; simpl; lia].
  rewrite <-list_fmap_compose. rewrite <-(list_fmap_id l) at 2. apply list_fmap_ext.
  intros i c Hi. apply (Forall_lookup_1 _ _ _ _ Hl) in Hi. unfold is_ascii in Hi. simpl. lia.
Qed.

(** ** Words *)

(** Words without the separator, none of them empty. *)
Definition words (sep : Z) (ws : list (list Z)) : Prop := Forall (λ w, w ≠ [] ∧ sep ∉ w) ws.

Lemma split_on_nonnil sep l : split_on sep l ≠ [].
Proof. destruct l as [|c l]; simpl; [done|]. destruct (split_on sep l); [done|]. by destruct (c =? sep). Qed.

Lemma split_on_free sep l : Forall (λ w, sep ∉ w) (split_on sep l).
Proof.
  induction l as [|c l IH]; simpl; [repeat constructor; by apply not_elem_of_nil|].
  destruct (split_on sep l) as [|w ws] eqn:E; [by apply split_on_nonnil in E|].
  apply Forall_cons in IH as [Hw Hws]. destruct (Z.eqb_spec c sep) as [->|Hne].
  - repeat constructor; [by apply not_elem_of_nil|done|done].
  - constructor; [|done]. apply not_elem_of_cons. done.
Qed.

Lemma split_on_words sep l : words sep (nonempty (split_on sep l)).
Proof.
  apply Forall_forall. intros w [Hin Hne]%list_elem_of_In%filter_In. apply list_elem_of_In in Hin.
  split; [by destruct w|]. by apply (proj1 (Forall_forall _ _) (split_on_free sep l)).
Qed.

Lemma split_on_word sep w : sep ∉ w → split_on sep w = [w].
Proof.
  induction w as [|c w IH]; simpl; [done|]. intros [Hc Hw]%not_elem_of_cons. rewrite IH by done.
  by rewrite (proj2 (Z.eqb_neq c sep)).
Qed.
Lemma split_on_app sep w l : sep ∉ w → split_on sep (w ++ sep :: l) = w :: split_on sep l.
Proof.
  induction w as [|c w IH]; simpl.
  - intros _. destruct (split_on sep l) as [|v vs] eqn:E; [by apply split_on_nonnil in E|]. by rewrite Z.eqb_refl.
  - intros [Hc Hw]%not_elem_of_cons. rewrite IH by done. by rewrite (proj2 (Z.eqb_neq c sep)).
Qed.
Lemma split_join sep ws : words sep ws → ws ≠ [] → split_on sep (join_on sep ws) = ws.
Proof.
  induction 1 as [|w ws [_ Hw] Hws IH]; [done|]. intros _. destruct ws as [|v vs]; simpl; [by apply split_on_word|].
  rewrite split_on_app by done. f_equal. by apply IH.
Qed.
Lemma nonempty_words sep ws : words sep ws → nonempty ws = ws.
Proof.
  induction 1 as [|w ws [Hw _] Hws IH]; [done|]. unfold nonempty in *. simpl. destruct w; [done|]. by rewrite IH.
Qed.
Lemma join_on_cons sep w ws : ws ≠ [] → join_on sep (w :: ws) = w ++ sep :: join_on sep ws.
Proof. by destruct ws. Qed.
Lemma join_on_nil sep ws : words sep ws → join_on sep ws = [] → ws = [].
Proof. intros [|w [|v vs] [Hw _] _]; simpl; [done|done|]. by destruct w. Qed.

(** Joining the words of a normal text gives it back. *)
Lemma renormalize sep ws : words sep ws → join_on sep (nonempty (split_on sep (join_on sep ws))) = join_on sep ws.
Proof.
  intros Hws. destruct (decide (ws = [])) as [->|Hne]; [done|]. rewrite split_join by done.
  by erewrite nonempty_words.
Qed.

(** A normal text cut off before a character that is not the separator is normal. *)
Lemma suffix_words sep ws p c k : words sep ws → join_on sep ws = p ++ c :: k → c ≠ sep →
  ∃ ws', words sep ws' ∧ c :: k = join_on sep ws'.
Proof.
  intros Hws. revert p. induction Hws as [|w ws [Hw Hs] Hws IH]; intros p E Hc; [by destruct p|].
  destruct (decide (ws = [])) as [->|Hne].
  - simpl in E. exists [c :: k]. split; [|done]. repeat constructor; [done|]. subst w.
    apply not_elem_of_app in Hs as [_ Hs]. done.
  - rewrite join_on_cons in E by done. apply app_eq_app in E as (m & [[-> Em]|[-> Em]]).
    + destruct m as [|x m].
      * simpl in Em. injection Em as -> _. done.
      * injection Em as -> ->. exists ((x :: m) :: ws). rewrite join_on_cons by done. split; [|done].
        constructor; [|done]. split; [done|]. by apply not_elem_of_app in Hs as [_ Hs].
    + destruct m as [|x m]; simpl in Em; injection Em as <-; [by subst|]. by eapply IH.
Qed.

Lemma join_on_all sep ws (P : Z → Prop) : P sep → Forall (Forall P) ws → Forall P (join_on sep ws).
Proof.
  intros Hsep. induction 1 as [|w ws Hw Hws IH]; [constructor|]. destruct ws as [|v vs]; [done|].
  rewrite join_on_cons by done. apply Forall_app. auto.
Qed.
Lemma split_on_all sep l (P : Z → Prop) : Forall P l → Forall (Forall P) (split_on sep l).
Proof.
  induction 1 as [|c l Hc Hl IH]; simpl; [repeat constructor|].
  destruct (split_on sep l) as [|w ws]; [repeat constructor; done|].
  apply Forall_cons in IH as [Hw Hws]. destruct (c =? sep); repeat (constructor || done).
Qed.
Lemma nonempty_all {A} (P : list A → Prop) ws : Forall P ws → Forall P (nonempty ws).
Proof.
  intros Hws. apply Forall_forall. intros w [Hin _]%list_elem_of_In%filter_In. apply list_elem_of_In in Hin.
  by rewrite Forall_forall in Hws; auto.
Qed.

(** Text without white space is trimmed. *)
Lemma trim_of_chars l : Forall (λ c, 33 ≤ c < 127) l → trim (of_chars l) = of_chars l.
Proof.
  intros Hl. apply trim_no_ws. rewrite bytes_of_chars
    by (eapply Forall_impl; [exact Hl|]; unfold is_ascii; simpl; lia).
  apply Forall_fmap. eapply Forall_impl; [exact Hl|]. intros c Hc. simpl in *. split; [|lia]. unfold ws1.
  rewrite (proj2 (Nat.leb_gt _ 13)), (proj2 (Nat.eqb_neq _ 32)) by lia. by rewrite andb_false_r.
Qed.

(** ** The letters of ASCII, for the witnesses *)

Definition lower_byte (b : nat) : nat := if ((65 <=? b) && (b <=? 90))%nat then (b + 32)%nat else b.
Definition sample_lower (s : string) : string :=
  if forallb (λ c, (0 <=? c) && (c <? 128) && negb (ascii_upper c)) (chars s) then s
  else of_bytes (lower_byte <$> bytes s).
Definition sample_unicode : UnicodeApi.
Proof.
  refine {| is_uppercase := ascii_upper; is_lowercase := ascii_lower;
            is_alphanumeric c := ascii_letter c || ascii_digit c; is_decimal_number := ascii_digit;
            to_lowercase := sample_lower |}; [done|done|].
  intros s Hs. unfold sample_lower. case_match eqn:E; [done|]. exfalso. revert E. apply not_false_iff_true.
  apply forallb_forall. intros c Hc%list_elem_of_In. rewrite Forall_forall in Hs. destruct (Hs c Hc) as [? ->].
  rewrite andb_true_r, andb_true_iff, Z.leb_le, Z.ltb_lt. done.
Defined.
