(* ===== verification/Externals.v ===== *)
(** * Third-party components

    The crates and services the code relies on but does not define - [uuid],
    [rust_decimal], [serde_json], [chrono], the Unicode case tables, PostgreSQL's
    error texts - are classes: the operations the code calls, with the documented
    laws the theorems use. Every model file works over any instance. The module
    [Sample] gives one computable instance, on which the witnesses run. *)

From Stdlib Require Import DecimalString DecimalZ Ascii.
From S2P Require Import Prelude RustStr.

Local Open Scope Z_scope.

(** [uuid::Uuid]: [to_string], [parse] and the version 7 generator, as an injective
    sequence of values (the [n]-th generated identifier). *)
Class UuidApi := {
  Uuid : Type;
  #[global] uuid_eq_dec :: EqDecision Uuid;
  #[global] uuid_countable :: Countable Uuid;
  uuid_to_string : Uuid → string;
  uuid_parse : string → option Uuid;
  uuid_gen : N → Uuid;
  uuid_parse_to_string u : uuid_parse (uuid_to_string u) = Some u;
  #[global] uuid_gen_inj :: Inj (=) (=) uuid_gen;
}.

(** 96-bit mantissa and at most 28 decimals: [units] counts the value in 10^-28. *)
Definition dec_scale : Z := 10 ^ 28.
Definition dec_max_mantissa : Z := 2 ^ 96 - 1.
Lemma dec_scale_pos : 0 < dec_scale.
Proof. by apply Z.pow_pos_nonneg. Qed.
(** The values with an exact representation. *)
Definition dec_exact (u : Z) : Prop :=
  ∃ m s : Z, 0 ≤ s ≤ 28 ∧ Z.abs m ≤ dec_max_mantissa ∧ u = m * 10 ^ (28 - s).

(** [rust_decimal::Decimal]. [None] from [dec_add] or [dec_mul] is the overflow panic
    of [+] and [*]. A result is exact when the exact value is representable, and
    never has the wrong sign. [dec_numeric] is the value of a [NUMERIC(19,4)] column
    a decimal is bound to ([None]: numeric field overflow); a value of the column is kept. *)
Class DecimalApi := {
  Decimal : Type;
  #[global] Decimal_eq_dec :: EqDecision Decimal;
  dec_units : Decimal → Z;
  dec_new : Z → Z → Decimal;          (* mantissa and scale *)
  dec_leb : Decimal → Decimal → bool;
  dec_eqb : Decimal → Decimal → bool;
  dec_add : Decimal → Decimal → option Decimal;
  dec_mul : Decimal → Decimal → option Decimal;
  dec_to_string : Decimal → string;
  dec_parse : string → option Decimal;
  dec_numeric : Decimal → option Decimal;
  dec_new_units m s : 0 ≤ s ≤ 28 → Z.abs m ≤ dec_max_mantissa →
    dec_units (dec_new m s) = m * 10 ^ (28 - s);
  dec_leb_units a b : dec_leb a b = (dec_units a <=? dec_units b);
  dec_eqb_units a b : dec_eqb a b = (dec_units a =? dec_units b);
  dec_add_exact a b : dec_exact (dec_units a + dec_units b) →
    ∃ c, dec_add a b = Some c ∧ dec_units c = dec_units a + dec_units b;
  dec_add_nonneg a b c : 0 ≤ dec_units a → 0 ≤ dec_units b →
    dec_add a b = Some c → dec_units a ≤ dec_units c ∧ dec_units b ≤ dec_units c;
  dec_mul_exact a b : dec_exact (dec_units a * dec_units b / dec_scale) →
    (dec_scale | dec_units a * dec_units b) →
    ∃ c, dec_mul a b = Some c ∧ dec_units c * dec_scale = dec_units a * dec_units b;
  dec_mul_nonneg a b c : 0 ≤ dec_units a → 0 ≤ dec_units b →
    dec_mul a b = Some c → 0 ≤ dec_units c;
  dec_parse_to_string d : dec_parse (dec_to_string d) = Some d;
  dec_numeric_units d d' : dec_numeric d = Some d' →
    (10 ^ 24 | dec_units d) → dec_units d' = dec_units d;
  dec_numeric_scale d d' : dec_numeric d = Some d' → (10 ^ 24 | dec_units d');
  dec_numeric_idem d d' : dec_numeric d = Some d' → dec_numeric d' = Some d';
}.

(** [serde_json::Value]: the constructors of [json!] and the accessors. *)
Class JsonApi := {
  Value : Type;
  jnull : Value;
  jstr : string → Value;
  jint : Z → Value;
  jarr : list Value → Value;
  jobj : list (string * Value) → Value;
  jget : Value → string → option Value;   (* Value::get *)
  is_null : Value → bool;
  as_str : Value → option string;
  as_i64 : Value → option Z;
  as_u64 : Value → option Z;
  as_array : Value → option (list Value);
  json_to_string : Value → string;
  jget_obj kvs k v : NoDup kvs.*1 → (k, v) ∈ kvs → jget (jobj kvs) k = Some v;
  jget_missing kvs k : k ∉ kvs.*1 → jget (jobj kvs) k = None;
  is_null_jnull : is_null jnull = true;
  is_null_jstr s : is_null (jstr s) = false;
  as_str_jstr s : as_str (jstr s) = Some s;
  as_str_jnull : as_str jnull = None;
  as_i64_jint z : - 2 ^ 63 ≤ z < 2 ^ 63 → as_i64 (jint z) = Some z;
  as_u64_jint z : 0 ≤ z < 2 ^ 64 → as_u64 (jint z) = Some z;
  as_u64_jnull : as_u64 jnull = None;
  as_array_jarr l : as_array (jarr l) = Some l;
}.

(** What the database driver can answer, and the text it shows for it. *)
Inductive sql_error : Type :=
| RowNotFound
| UniqueViolation (constraint : string)
| CheckViolation (constraint : string)
| ForeignKeyViolation (constraint : string)
| NumericOverflow
| ValueTooLong (column : string)
| ConnectionFailure
| DatatypeMismatch
| SyntaxError
| InFailedTransaction.
#[export] Instance sql_error_eq_dec : EqDecision sql_error.
Proof. solve_decision. Defined.

(** The remaining library texts: driver errors ([Display]), RFC 3339 timestamps of
    [chrono] (seconds), and the Unicode [to_uppercase]. *)
Class TextApi := {
  sqlx_display : sql_error → string;
  ts_to_string : Z → string;
  ts_parse : string → option Z;
  to_uppercase : string → string;
  ts_parse_to_string t : ts_parse (ts_to_string t) = Some t;
  to_uppercase_upper s : forallb is_ascii_uppercase (bytes s) = true → to_uppercase s = s;
}.

Class Externals := {
  #[global] ext_uuid :: UuidApi;
  #[global] ext_decimal :: DecimalApi;
  #[global] ext_json :: JsonApi;
  #[global] ext_text :: TextApi;
}.

(** ** Derived facts and constants *)

Section derived.
Context `{DecimalApi}.

Definition dec_zero : Decimal := dec_new 0 0.
Definition dec_one : Decimal := dec_new 1 0.
Definition dec_ltb (a b : Decimal) : bool := negb (dec_leb b a).
(** [Decimal::from(i32)] *)
Definition dec_of_i32 (v : Z) : Decimal := dec_new v 0.

Lemma dec_zero_units : dec_units dec_zero = 0.
Proof. unfold dec_zero. rewrite dec_new_units; [apply Z.mul_0_l|lia|vm_compute; congruence]. Qed.

Lemma dec_one_units : dec_units dec_one = dec_scale.
Proof. unfold dec_one. rewrite dec_new_units; [apply Z.mul_1_l|lia|vm_compute; congruence]. Qed.

Lemma dec_of_i32_units v : -2 ^ 31 ≤ v < 2 ^ 31 → dec_units (dec_of_i32 v) = v * dec_scale.
Proof.
  intros Hv. unfold dec_of_i32. rewrite dec_new_units; [done|lia|].
  assert (dec_max_mantissa = 79228162514264337593543950335) as -> by (vm_compute; done). lia.
Qed.

Lemma dec_ltb_units a b : dec_ltb a b = (dec_units a <? dec_units b).
Proof. unfold dec_ltb. rewrite dec_leb_units. by rewrite Z.ltb_antisym. Qed.

Lemma dec_leb_le a b : dec_leb a b = true ↔ dec_units a ≤ dec_units b.
Proof. rewrite dec_leb_units. apply Z.leb_le. Qed.

Lemma dec_eqb_eq a b : dec_eqb a b = true ↔ dec_units a = dec_units b.
Proof. rewrite dec_eqb_units. apply Z.eqb_eq. Qed.

Lemma dec_eqb_refl a : dec_eqb a a = true.
Proof. by apply dec_eqb_eq. Qed.
End derived.

Section json_derived.
Context `{JsonApi}.

(** [value[key]]: [Null] when the key is missing. *)
Definition jindex (v : Value) (k : string) : Value := default jnull (jget v k).

(** The lookups in an object literal, by computation on its keys. *)
Fixpoint assoc (k : string) (kvs : list (string * Value)) : option Value :=
  match kvs with
  | [] => None
  | (k', v) :: kvs => if decide (k = k') then Some v else assoc k kvs
  end.

Lemma assoc_some k kvs v : assoc k kvs = Some v → (k, v) ∈ kvs.
Proof.
  induction kvs as [|[k' v'] kvs IH]; simpl; [done|].
  case_decide; intros; simplify_eq; [by left|right; auto].
Qed.
Lemma assoc_none k kvs : assoc k kvs = None → k ∉ kvs.*1.
Proof.
  induction kvs as [|[k' v'] kvs IH]; simpl; [intros _; by apply not_elem_of_nil|].
  case_decide; [done|]. intros E. apply not_elem_of_cons. auto.
Qed.

Lemma jget_assoc kvs k : NoDup kvs.*1 → jget (jobj kvs) k = assoc k kvs.
Proof.
  intros Hnd. destruct (assoc k kvs) as [v|] eqn:E.
  - apply jget_obj; [done|]. by apply assoc_some.
  - apply jget_missing. by apply assoc_none.
Qed.

Lemma jindex_assoc kvs k : NoDup kvs.*1 → jindex (jobj kvs) k = default jnull (assoc k kvs).
Proof. intros Hnd. unfold jindex. by rewrite jget_assoc. Qed.
End json_derived.

(** Reads of the fields of a [json!] object whose keys are literals. *)
Ltac json_simpl :=
  repeat first
    [ rewrite jindex_assoc by (apply (bool_decide_unpack _); vm_compute; exact I); simpl
    | rewrite jget_assoc by (apply (bool_decide_unpack _); vm_compute; exact I); simpl
    | rewrite is_null_jnull | rewrite is_null_jstr
    | rewrite as_str_jstr | rewrite as_str_jnull | rewrite uuid_parse_to_string
    | rewrite dec_parse_to_string | rewrite as_array_jarr | rewrite ts_parse_to_string
    | progress simpl ].
