(* ===== verification/Sample.v ===== *)
(** * A computable instance of the third-party components

    Used by the witnesses only: identifiers are strings, decimals are counted in
    10^-28 with the overflow test of a 96-bit mantissa, JSON is its syntax tree. *)

From Stdlib Require Import DecimalString DecimalZ Ascii.
From S2P Require Import Prelude RustStr Externals.

Local Open Scope Z_scope.

Definition string_of_Z (z : Z) : string := NilEmpty.string_of_int (Z.to_int z).
Definition Z_of_string (s : string) : option Z := Z.of_int <$> NilEmpty.int_of_string s.

Lemma Z_of_string_of_Z z : Z_of_string (string_of_Z z) = Some z.
Proof.
  unfold Z_of_string, string_of_Z. rewrite NilEmpty.isi; simpl. by rewrite DecimalZ.of_to.
Qed.

Definition sample_gen (n : N) : string := "id-" +:+ pretty n.
Lemma sample_parse (s : string) : Some (id s) = Some s.
Proof. done. Qed.
Lemma sample_gen_inj : Inj (=) (=) sample_gen.
Proof. unfold sample_gen. apply _. Qed.

#[local] Instance sample_uuid : UuidApi := {|
  Uuid := string; uuid_to_string := id; uuid_parse := Some; uuid_gen := sample_gen;
  uuid_parse_to_string := sample_parse; uuid_gen_inj := sample_gen_inj |}.

Section sample_decimal.
Definition dec_bound : Z := dec_max_mantissa * dec_scale.
Definition fits (u : Z) : bool := Z.abs u <=? dec_bound.

Lemma exact_fits u : dec_exact u → fits u = true.
Proof.
  intros (m & s & Hs & Hm & ->). unfold fits, dec_bound. apply Z.leb_le.
  rewrite Z.abs_mul, (Z.abs_eq (10 ^ _)) by (apply Z.pow_nonneg; lia).
  apply Z.mul_le_mono_nonneg; [lia|done|apply Z.pow_nonneg; lia|].
  unfold dec_scale. apply Z.pow_le_mono_r; lia.
Qed.
End sample_decimal.

Definition sample_add (a b : Z) : option Z := if fits (a + b) then Some (a + b) else None.
Definition sample_mul (a b : Z) : option Z :=
  if fits (a * b / dec_scale) then Some (a * b / dec_scale) else None.
Definition sample_numeric (d : Z) : option Z :=
  let r := Z.sgn d * ((Z.abs d + 5 * 10 ^ 23) / 10 ^ 24) * 10 ^ 24 in
  if Z.abs r <? 10 ^ 43 then Some r else None.

Definition sample_new (m s : Z) : Z := m * 10 ^ (28 - s).

Lemma sample_new_units m s : 0 ≤ s ≤ 28 → Z.abs m ≤ dec_max_mantissa →
  id (sample_new m s) = m * 10 ^ (28 - s).
Proof. done. Qed.
Lemma sample_leb_units a b : Z.leb a b = (id a <=? id b).
Proof. done. Qed.
Lemma sample_eqb_units a b : Z.eqb a b = (id a =? id b).
Proof. done. Qed.
Lemma sample_add_exact a b : dec_exact (id a + id b) →
  ∃ c, sample_add a b = Some c ∧ id c = id a + id b.
Proof. intros Hx. unfold sample_add, id in *. rewrite exact_fits by done. eauto. Qed.
Lemma sample_add_nonneg a b c : 0 ≤ id a → 0 ≤ id b → sample_add a b = Some c →
  id a ≤ id c ∧ id b ≤ id c.
Proof. unfold id, sample_add. case_match; [|done]. intros ?? [= <-]. lia. Qed.
Lemma sample_mul_exact a b : dec_exact (id a * id b / dec_scale) → (dec_scale | id a * id b) →
  ∃ c, sample_mul a b = Some c ∧ id c * dec_scale = id a * id b.
Proof.
  unfold id, sample_mul. intros Hx [k E]. rewrite exact_fits by done. eexists; split; [done|].
  rewrite E. pose proof dec_scale_pos. by rewrite Z.div_mul by lia.
Qed.
Lemma sample_mul_nonneg a b c : 0 ≤ id a → 0 ≤ id b → sample_mul a b = Some c → 0 ≤ id c.
Proof.
  unfold id, sample_mul. case_match; [|done]. intros ?? [= <-].
  apply Z.div_pos; [nia|apply dec_scale_pos].
Qed.
Lemma sample_numeric_scaled k :
  Z.sgn (k * 10 ^ 24) * ((Z.abs (k * 10 ^ 24) + 5 * 10 ^ 23) / 10 ^ 24) * 10 ^ 24 = k * 10 ^ 24.
Proof.
  rewrite Z.abs_mul, Z.sgn_mul, (Z.abs_eq (10 ^ 24)) by (apply Z.pow_nonneg; lia).
  rewrite Z.div_add_l by (by apply Z.pow_nonzero). change (5 * 10 ^ 23 / 10 ^ 24) with 0.
  change (Z.sgn (10 ^ 24)) with 1. rewrite Z.mul_1_r, Z.add_0_r, (Z.mul_comm (Z.sgn k)). by rewrite Z.abs_sgn.
Qed.
Lemma sample_numeric_units d d' : sample_numeric d = Some d' → (10 ^ 24 | id d) → id d' = id d.
Proof.
  unfold id, sample_numeric. case_match; [|done]. intros [= <-] [k ->]. apply sample_numeric_scaled.
Qed.
Lemma sample_numeric_scale d d' : sample_numeric d = Some d' → (10 ^ 24 | id d').
Proof. unfold id, sample_numeric. case_match; [|done]. intros [= <-]. apply Z.divide_factor_r. Qed.
Lemma sample_numeric_idem d d' : sample_numeric d = Some d' → sample_numeric d' = Some d'.
Proof.
  intros Hd. pose proof (sample_numeric_scale d d' Hd) as [k Hk]. unfold id in Hk. subst d'.
  unfold sample_numeric in *. rewrite sample_numeric_scaled. case_match eqn:E; [|done].
  injection Hd as Hd. rewrite Hd in E. by rewrite E.
Qed.

#[local] Instance sample_decimal : DecimalApi := {|
  Decimal := Z; dec_units := id; dec_new := sample_new; dec_leb := Z.leb; dec_eqb := Z.eqb;
  dec_add := sample_add; dec_mul := sample_mul; dec_to_string := string_of_Z;
  dec_parse := Z_of_string; dec_numeric := sample_numeric;
  dec_new_units := sample_new_units; dec_leb_units := sample_leb_units;
  dec_eqb_units := sample_eqb_units; dec_add_exact := sample_add_exact;
  dec_add_nonneg := sample_add_nonneg; dec_mul_exact := sample_mul_exact;
  dec_mul_nonneg := sample_mul_nonneg; dec_parse_to_string := Z_of_string_of_Z;
  dec_numeric_units := sample_numeric_units; dec_numeric_scale := sample_numeric_scale;
  dec_numeric_idem := sample_numeric_idem |}.

(** JSON syntax trees, with the accessors of [serde_json]. *)
Inductive sjson : Type :=
| SNull
| SStr (s : string)
| SInt (z : Z)
| SArr (l : list sjson)
| SObj (kvs : list (string * sjson)).

Fixpoint sassoc (k : string) (kvs : list (string * sjson)) : option sjson :=
  match kvs with
  | [] => None
  | (k', v) :: kvs => if decide (k = k') then Some v else sassoc k kvs
  end.
Definition sget (v : sjson) (k : string) : option sjson :=
  match v with SObj kvs => sassoc k kvs | _ => None end.
Definition s_is_null (v : sjson) : bool := match v with SNull => true | _ => false end.
Definition s_as_str (v : sjson) : option string :=
  match v with SStr s => Some s | _ => None end.
Definition s_as_int (lo hi : Z) (v : sjson) : option Z :=
  match v with
  | SInt z => if (lo <=? z) && (z <? hi) then Some z else None
  | _ => None
  end.
Definition s_as_array (v : sjson) : option (list sjson) :=
  match v with SArr l => Some l | _ => None end.
Definition quote : string := String (ascii_of_nat 34) EmptyString.
Fixpoint s_to_string (v : sjson) : string :=
  match v with
  | SNull => "null"
  | SStr s => quote +:+ s +:+ quote
  | SInt z => string_of_Z z
  | SArr l => "[" +:+ join "," (map s_to_string l) +:+ "]"
  | SObj kvs =>
      "{" +:+ join "," (map (λ kv : string * sjson,
        let (k, v) := kv in quote +:+ k +:+ quote +:+ ":" +:+ s_to_string v) kvs) +:+ "}"
  end.

Lemma sassoc_in kvs k v : NoDup kvs.*1 → (k, v) ∈ kvs → sassoc k kvs = Some v.
Proof.
  induction kvs as [|[k' v'] kvs IH]; simpl; [by intros _ ?%not_elem_of_nil|].
  intros [Hk Hnd]%NoDup_cons [[= -> ->]|Hin]%elem_of_cons; [by rewrite decide_True|].
  rewrite decide_False; [auto|]. intros ->. apply Hk, list_elem_of_fmap. by exists (k', v).
Qed.
Lemma sassoc_missing kvs k : k ∉ kvs.*1 → sassoc k kvs = None.
Proof.
  induction kvs as [|[k' v'] kvs IH]; simpl; [done|].
  intros [Hk Hin]%not_elem_of_cons. rewrite decide_False; auto.
Qed.

Lemma s_null_null : s_is_null SNull = true.
Proof. done. Qed.
Lemma s_null_str s : s_is_null (SStr s) = false.
Proof. done. Qed.
Lemma s_str_str s : s_as_str (SStr s) = Some s.
Proof. done. Qed.
Lemma s_str_null : s_as_str SNull = None.
Proof. done. Qed.
Lemma s_int_int lo hi z : lo ≤ z < hi → s_as_int lo hi (SInt z) = Some z.
Proof.
  intros [Hl Hu]. unfold s_as_int. by rewrite (proj2 (Z.leb_le _ _) Hl), (proj2 (Z.ltb_lt _ _) Hu).
Qed.
Lemma s_int_null lo hi : s_as_int lo hi SNull = None.
Proof. done. Qed.
Lemma s_arr_arr l : s_as_array (SArr l) = Some l.
Proof. done. Qed.

#[local] Instance sample_json : JsonApi := {|
  Value := sjson; jnull := SNull; jstr := SStr; jint := SInt; jarr := SArr; jobj := SObj;
  jget := sget; is_null := s_is_null; as_str := s_as_str;
  as_i64 := s_as_int (- 2 ^ 63) (2 ^ 63); as_u64 := s_as_int 0 (2 ^ 64);
  as_array := s_as_array; json_to_string := s_to_string;
  jget_obj := sassoc_in; jget_missing := sassoc_missing; is_null_jnull := s_null_null;
  is_null_jstr := s_null_str; as_str_jstr := s_str_str; as_str_jnull := s_str_null;
  as_i64_jint := s_int_int _ _; as_u64_jint := s_int_int _ _; as_u64_jnull := s_int_null _ _;
  as_array_jarr := s_arr_arr |}.

Definition sample_display (e : sql_error) : string :=
  match e with
  | RowNotFound => "no rows returned by a query that expected to return at least one row"
  | UniqueViolation c => "duplicate key value violates unique constraint " +:+ c
  | CheckViolation c => "new row violates check constraint " +:+ c
  | ForeignKeyViolation c => "violates foreign key constraint " +:+ c
  | NumericOverflow => "numeric field overflow"
  | ValueTooLong _ => "value too long for type character varying"
  | ConnectionFailure => "connection closed"
  | DatatypeMismatch => "argument of AND must be type boolean"
  | SyntaxError => "ltree syntax error"
  | InFailedTransaction => "current transaction is aborted"
  end.

(** Countable values as strings of bits. *)
Fixpoint bits_of_pos (p : positive) : string :=
  match p with
  | xH => EmptyString
  | xO p => String "0"%char (bits_of_pos p)
  | xI p => String "1"%char (bits_of_pos p)
  end.
Fixpoint pos_of_bits (s : string) : positive :=
  match s with
  | EmptyString => xH
  | String a s => if decide (a = "0"%char) then xO (pos_of_bits s) else xI (pos_of_bits s)
  end.
Lemma pos_of_bits_of_pos p : pos_of_bits (bits_of_pos p) = p.
Proof. induction p as [p IH|p IH|]; cbn; by rewrite ?IH. Qed.

(** Upper case of the ASCII letters. *)
Definition sample_upper (s : string) : string :=
  of_bytes ((λ b : nat, if ((97 <=? b) && (b <=? 122))%nat then (b - 32)%nat else b) <$> bytes s).

Lemma sample_upper_upper s :
  forallb is_ascii_uppercase (bytes s) = true → sample_upper s = s.
Proof.
  intros Hs. unfold sample_upper. rewrite <-(of_bytes_bytes s) at 2. f_equal.
  induction (bytes s) as [|b l IH]; [done|]. rewrite fmap_cons.
  apply andb_true_iff in Hs as [Hb Hl]. rewrite IH by done. f_equal.
  unfold is_ascii_uppercase in Hb. apply andb_true_iff in Hb as [_ Hb%Nat.leb_le].
  rewrite (proj2 (Nat.leb_gt _ _)) by lia. done.
Qed.

#[local] Instance sample_text : TextApi := {|
  sqlx_display := sample_display; ts_to_string := string_of_Z; ts_parse := Z_of_string;
  to_uppercase := sample_upper; ts_parse_to_string := Z_of_string_of_Z;
  to_uppercase_upper := sample_upper_upper |}.

#[local] Instance sample : Externals := {|
  ext_uuid := sample_uuid; ext_decimal := sample_decimal;
  ext_json := sample_json; ext_text := sample_text |}.

(** Values as strings of bits. *)
Definition pack {A} `{Countable A} (a : A) : string := bits_of_pos (encode a).
Definition unpack {A} `{Countable A} (s : string) : option A := decode (pos_of_bits s).
Lemma unpack_pack {A} `{Countable A} (a : A) : unpack (pack a) = Some a.
Proof. unfold unpack, pack. by rewrite pos_of_bits_of_pos, decode_encode. Qed.
