(* ===== verification/Errors.v ===== *)
(** * Errors shared by the services

    [AppError] (shared/src/errors.rs), its HTTP mapping, and the transaction error
    [TxError] with its conversion (shared/src/db/transaction_support.rs). *)

From S2P Require Import Prelude Externals.

Inductive AppError : Type :=
| NotFound (msg : string)
| Forbidden (msg : string)
| Unauthorized (msg : string)
| AlreadyExists (msg : string)
| InternalServerError (msg : string)
| BadRequest (msg : string).
#[export] Instance AppError_eq_dec : EqDecision AppError.
Proof. solve_decision. Defined.

(** The [#[error(..)]] attributes: [Display] of an [AppError]. *)
Definition app_error_display (e : AppError) : string :=
  match e with
  | NotFound m => "Not found: " +:+ m
  | Forbidden m => "Forbidden: " +:+ m
  | Unauthorized m => "Unauthorized: " +:+ m
  | AlreadyExists m => "Already exists: " +:+ m
  | InternalServerError m => "Internal server error: " +:+ m
  | BadRequest m => "Bad request: " +:+ m
  end.

(** [IntoResponse]: the status code and the message of the JSON body. *)
Definition into_response (e : AppError) : Z * string :=
  match e with
  | NotFound m => (404, m)
  | Unauthorized m => (401, m)
  | Forbidden m => (403, m)
  | InternalServerError m => (500, m)
  | BadRequest m => (400, m)
  | AlreadyExists m => (409, m)
  end%Z.

Inductive TxError : Type :=
| TxDatabase (e : sql_error)
| TxAlreadyConsumed
| TxOther (msg : string).

Section display.
Context `{Externals}.

Definition tx_error_display (e : TxError) : string :=
  match e with
  | TxDatabase e => "Database error: " +:+ sqlx_display e
  | TxAlreadyConsumed => "Transaction has already been consumed"
  | TxOther m => m
  end.

(** [impl From<AppError> for TxError] *)
Definition tx_of_app (e : AppError) : TxError := TxOther (app_error_display e).
End display.
