(* ===== verification/NewTypes.v ===== *)
(** * Validated value types shared by the services, and exact amounts

    shared/src/new_types: the macros [validated_name!] and [valid_id!]
    (value_objects.rs) and [Price], [Currency], [Money] (money.rs). When every intermediate value
    is representable the decimals of the services compute exactly; amounts of four decimals
    within the mantissa are representable. *)

From S2P Require Import Prelude RustStr Externals Errors.

Section amounts.
Context `{DecimalApi}.

(** The total of the running sum: folding [dec_add] over the item totals. *)
Fixpoint dec_sum (total : Decimal) (l : list Decimal) : option Decimal :=
  match l with
  | [] => Some total
  | d :: l => match dec_add total d with Some t => dec_sum t l | None => None end
  end.

(** When every product and partial sum is representable, the total is the exact sum
    of price times quantity. *)
Lemma dec_sum_exact l total total' :
  (∀ k : nat, k ≤ length l →
    dec_exact (dec_units total + foldr Z.add 0%Z (dec_units <$> take k l))%Z) →
  dec_sum total l = Some total' →
  dec_units total' = (dec_units total + foldr Z.add 0 (dec_units <$> l))%Z.
Proof.
  revert total. induction l as [|d l IH]; simpl; intros total Hx Hs; [simplify_eq; lia|].
  destruct (dec_add_exact total d) as (t & Et & Hu).
  { specialize (Hx 1 ltac:(lia)). simpl in Hx.
    by rewrite Z.add_0_r in Hx. }
  rewrite Et in Hs. rewrite (IH t), Hu; [by rewrite <-Z.add_assoc| |done].
  intros k Hk. specialize (Hx (S k) ltac:(lia)). simpl in Hx.
  rewrite Hu. by rewrite <-Z.add_assoc.
Qed.

(** Values with four decimals that fit the mantissa are exact. *)
Definition cents (u : Z) : Prop := (10 ^ 24 | u)%Z.
Definition exact_bound : Z := (dec_max_mantissa * 10 ^ 24)%Z.

Lemma dec_exact_cents u : cents u → (0 ≤ u ≤ exact_bound)%Z → dec_exact u.
Proof.
  intros [m ->] [H0 Hb]. exists m, 4%Z. unfold exact_bound in Hb.
  assert (0 < 10 ^ 24)%Z as Hp by (apply Z.pow_pos_nonneg; lia).
  revert H0 Hb Hp. replace (28 - 4)%Z with 24%Z by lia.
  generalize (10 ^ 24)%Z, dec_max_mantissa. intros p b H0 Hb Hp.
  assert (0 ≤ m)%Z by nia. assert (m ≤ b)%Z by nia. split_and!; [lia|lia|lia|done].
Qed.

Definition nonneg_cents (l : list Z) : Prop := Forall (λ u, 0 ≤ u ∧ cents u)%Z l.

Lemma zsum_nonneg l : nonneg_cents l → (0 ≤ zsum l)%Z ∧ cents (zsum l).
Proof.
  unfold zsum. induction 1 as [|u l [Hu Hc] _ [IH IHc]]; simpl.
  - split; [done|]. apply Z.divide_0_r.
  - split; [lia|]. by apply Z.divide_add_r.
Qed.

Lemma zsum_take k l : nonneg_cents l → (zsum (take k l) ≤ zsum l)%Z.
Proof.
  intros Hl. revert k. induction Hl as [|u l [Hu _] Hl IH]; intros [|k]; simpl; try lia.
  - pose proof (zsum_nonneg l Hl) as [? _]. unfold zsum in *. lia.
  - specialize (IH k). unfold zsum in *. lia.
Qed.

Lemma dec_sum_cents l total' :
  nonneg_cents (dec_units <$> l) → (zsum (dec_units <$> l) ≤ exact_bound)%Z →
  dec_sum dec_zero l = Some total' → dec_units total' = zsum (dec_units <$> l).
Proof.
  intros Hl Hb Hs. apply dec_sum_exact in Hs; [by rewrite Hs, dec_zero_units|].
  intros k _. rewrite dec_zero_units, Z.add_0_l, fmap_take.
  pose proof (zsum_take k _ Hl). unfold zsum in *.
  assert (nonneg_cents (take k (dec_units <$> l))) as Hk by by apply Forall_take.
  apply zsum_nonneg in Hk as [??]. apply dec_exact_cents; [done|]. unfold zsum in *. lia.
Qed.


(** A price times a whole number. *)
Lemma dec_mul_int_exact p q :
  (0 < q < 2 ^ 31)%Z → (0 ≤ dec_units p)%Z → cents (dec_units p) → (dec_units p * q ≤ exact_bound)%Z →
  ∃ c, dec_mul p (dec_of_i32 q) = Some c ∧ dec_units c = (dec_units p * q)%Z.
Proof.
  intros Hq Hp Hc Hb. pose proof dec_scale_pos as Hs.
  assert (dec_units (dec_of_i32 q) = q * dec_scale)%Z as Hu by (apply dec_of_i32_units; lia).
  destruct (dec_mul_exact p (dec_of_i32 q)) as (c & Ec & Hx).
  - rewrite Hu, Z.mul_assoc, Z.div_mul by lia. apply dec_exact_cents; [|nia].
    by apply Z.divide_mul_l.
  - rewrite Hu, Z.mul_assoc. apply Z.divide_factor_r.
  - exists c. split; [done|]. rewrite Hu, Z.mul_assoc in Hx. apply Z.mul_cancel_r in Hx; lia.
Qed.

(** A sum that fits does not overflow. *)
Lemma dec_sum_total total l :
  (0 ≤ dec_units total)%Z → cents (dec_units total) → nonneg_cents (dec_units <$> l) →
  (dec_units total + zsum (dec_units <$> l) ≤ exact_bound)%Z →
  ∃ t, dec_sum total l = Some t ∧ dec_units t = (dec_units total + zsum (dec_units <$> l))%Z.
Proof.
  revert total. induction l as [|d l IH]; intros total H0 Hc Hl Hb.
  - exists total. split; [done|]. unfold zsum. simpl. lia.
  - rewrite fmap_cons in *. apply Forall_cons in Hl as [[Hd Hdc] Hl]. rewrite zsum_cons in *.
    pose proof (zsum_nonneg _ Hl) as [Hz _].
    destruct (dec_add_exact total d) as (t & Et & Hu).
    { apply dec_exact_cents; [by apply Z.divide_add_r|lia]. }
    destruct (IH t) as (t' & Et' & Hu'); rewrite ?Hu; [lia|by apply Z.divide_add_r|done|lia|].
    exists t'. simpl. rewrite Et. split; [done|]. lia.
Qed.
End amounts.

(** [validated_name!($name, $display, $max_len)]: the constructor [new] of the
    generated type, which holds the trimmed string. *)
Definition validated_name (display : string) (max_len : nat) (input : string)
    : outcome AppError string :=
  let trimmed := trim input in
  if is_empty trimmed then Err (BadRequest (display +:+ " must not be empty"))
  else if max_len <? str_len trimmed then
    Err (BadRequest (display +:+ " must not exceed " +:+ pretty max_len +:+ " characters"))
  else Ok trimmed.

(** What the constructor accepts, and that its result is accepted unchanged. *)
Lemma validated_name_ok d n s t :
  validated_name d n s = Ok t ↔ t = trim s ∧ trim s ≠ "" ∧ str_len (trim s) ≤ n.
Proof.
  unfold validated_name. generalize (trim s). intros [|a u]; cbn [is_empty]; [naive_solver|].
  destruct (Nat.ltb_spec n (str_len (String a u))); naive_solver lia.
Qed.

Lemma validated_name_idem d n s t : validated_name d n s = Ok t → validated_name d n t = Ok t.
Proof.
  rewrite !validated_name_ok. intros (-> & Hne & Hlen). by rewrite !trim_trim.
Qed.

Section money.
Context `{Externals}.

(** ** Price: a non-negative decimal *)

Record Price := MkPrice { price_value : Decimal }.

Definition Price_new (value : Decimal) : outcome AppError Price :=
  if dec_ltb value dec_zero then Err (BadRequest "Price must not be negative")
  else Ok (MkPrice value).

Lemma Price_new_ok v p : Price_new v = Ok p ↔ p = MkPrice v ∧ (0 ≤ dec_units v)%Z.
Proof.
  unfold Price_new. rewrite dec_ltb_units, dec_zero_units.
  destruct (Z.ltb_spec (dec_units v) 0); split; intros; destruct_and?; simplify_eq;
    try done; lia.
Qed.

(** ** Currency: three ASCII upper-case letters *)

Record Currency := MkCurrency { currency_str : string }.
#[export] Instance Currency_eq_dec : EqDecision Currency.
Proof. solve_decision. Defined.

Definition Currency_new (input : string) : outcome AppError Currency :=
  let trimmed := to_uppercase (trim input) in
  if negb (str_len trimmed =? 3) || negb (forallb is_ascii_uppercase (bytes trimmed)) then
    Err (BadRequest "Currency must be a 3-letter ISO 4217 code (e.g. USD, KRW)")
  else Ok (MkCurrency trimmed).

Definition Currency_default : Currency := MkCurrency "USD".

Definition currency_valid (c : Currency) : Prop :=
  str_len (currency_str c) = 3 ∧ forallb is_ascii_uppercase (bytes (currency_str c)) = true.

Lemma Currency_new_valid s c : Currency_new s = Ok c → currency_valid c.
Proof.
  unfold Currency_new, currency_valid. case_match eqn:E; [done|]. intros [= <-]; simpl.
  apply orb_false_iff in E as [E1%negb_false_iff E2%negb_false_iff].
  by apply Nat.eqb_eq in E1.
Qed.

Lemma Currency_new_valid_id c : currency_valid c → Currency_new (currency_str c) = Ok c.
Proof.
  intros [Hlen Hup]. unfold Currency_new.
  rewrite trim_no_ws by by apply uppercase_no_ws.
  rewrite to_uppercase_upper by done. rewrite Hlen, Hup. by destruct c.
Qed.

(** ** Money *)

Record Money := MkMoney { money_price : Price; money_currency : Currency }.
Definition same_currency (a b : Money) : bool :=
  bool_decide (money_currency a = money_currency b).
End money.
