(* ===== verification/Rules.v ===== *)
(** * The rule algebra (shared/src/rules.rs)

    Validation rules as trees with several interpreters: [evaluate] answers yes or
    no, [evaluate_detailed] keeps the reasons, [describe] prints, [collect_checks]
    lists the leaves. *)

From S2P Require Import Prelude RustStr.

Unset Elimination Schemes.
Inductive Rule (A : Type) : Type :=
| Check (a : A)
| All (rules : list (Rule A))
| Any (rules : list (Rule A))
| Not (rule : Rule A).
Inductive RuleResult (A : Type) : Type :=
| Pass (check : A)
| Fail (check : A)
| AllOf (results : list (RuleResult A)) (passed : bool)
| AnyOf (results : list (RuleResult A)) (passed : bool)
| Negated (inner : RuleResult A) (passed : bool).
Set Elimination Schemes.
Arguments Check {A} _.
Arguments All {A} _.
Arguments Any {A} _.
Arguments Not {A} _.
Arguments Pass {A} _.
Arguments Fail {A} _.
Arguments AllOf {A} _ _.
Arguments AnyOf {A} _ _.
Arguments Negated {A} _ _.

(** Induction over the trees: the children of a node satisfy the predicate. *)
Lemma rule_induction {A} (P : Rule A → Prop)
  (Hcheck : ∀ a, P (Check a))
  (Hall : ∀ rs, Forall P rs → P (All rs))
  (Hany : ∀ rs, Forall P rs → P (Any rs))
  (Hnot : ∀ r, P r → P (Not r)) : ∀ r, P r.
Proof.
  fix IH 1. intros [a|rs|rs|r].
  - apply Hcheck.
  - apply Hall. induction rs as [|r rs IHrs]; constructor; [apply IH|exact IHrs].
  - apply Hany. induction rs as [|r rs IHrs]; constructor; [apply IH|exact IHrs].
  - apply Hnot, IH.
Qed.

Section rules.
Context {A : Type}.
Implicit Types (r : Rule A) (p : A → bool).

(** ** Constructors *)

Definition check (a : A) : Rule A := Check a.
Definition all (rules : list (Rule A)) : Rule A := All rules.
Definition any (rules : list (Rule A)) : Rule A := Any rules.
Definition not_ (rule : Rule A) : Rule A := Not rule.

(** Fluent AND: pushes onto an existing [All] node. *)
Definition and_ (self other : Rule A) : Rule A :=
  match self with
  | All rules => All (rules ++ [other])
  | _ => All [self; other]
  end.
Definition or_ (self other : Rule A) : Rule A :=
  match self with
  | Any rules => Any (rules ++ [other])
  | _ => Any [self; other]
  end.

(** ** Interpreters *)

Fixpoint evaluate (p : A → bool) (r : Rule A) : bool :=
  match r with
  | Check a => p a
  | All rs => forallb (evaluate p) rs
  | Any rs => existsb (evaluate p) rs
  | Not r => negb (evaluate p r)
  end.

Definition passed (res : RuleResult A) : bool :=
  match res with
  | Pass _ => true
  | Fail _ => false
  | AllOf _ b | AnyOf _ b | Negated _ b => b
  end.

Fixpoint evaluate_detailed (p : A → bool) (r : Rule A) : RuleResult A :=
  match r with
  | Check a => if p a then Pass a else Fail a
  | All rs => let results := map (evaluate_detailed p) rs in
              AllOf results (forallb passed results)
  | Any rs => let results := map (evaluate_detailed p) rs in
              AnyOf results (existsb passed results)
  | Not r => let inner := evaluate_detailed p r in Negated inner (negb (passed inner))
  end.

(** The passing leaves of a result tree; a passing [Negated] node has none. *)
Fixpoint collect_passes (res : RuleResult A) : list A :=
  match res with
  | Pass a => [a]
  | Fail _ => []
  | AllOf results b | AnyOf results b =>
      if b then flat_map collect_passes results else []
  | Negated _ _ => []
  end.

(** The failed leaves that contribute to the failure of the tree. *)
Fixpoint collect_failures (res : RuleResult A) : list A :=
  match res with
  | Pass _ => []
  | Fail a => [a]
  | AllOf results b | AnyOf results b =>
      if b then [] else flat_map collect_failures results
  | Negated inner b => if b then [] else collect_passes inner
  end.

Definition failure_messages (to_string : A → string) (res : RuleResult A) : list string :=
  to_string <$> collect_failures res.

Fixpoint describe (to_string : A → string) (r : Rule A) : string :=
  match r with
  | Check a => to_string a
  | All rs => "(" +:+ join " AND " (map (describe to_string) rs) +:+ ")"
  | Any rs => "(" +:+ join " OR " (map (describe to_string) rs) +:+ ")"
  | Not r => "NOT " +:+ describe to_string r
  end.

Fixpoint collect_checks (r : Rule A) : list A :=
  match r with
  | Check a => [a]
  | All rs | Any rs => flat_map collect_checks rs
  | Not r => collect_checks r
  end.

(** ** The interpreters agree *)

Lemma forallb_map_ext {B C} (f : B → C) (g : C → bool) (h : B → bool) l :
  Forall (λ x, g (f x) = h x) l → forallb g (map f l) = forallb h l.
Proof. induction 1 as [|x l E _ IH]; simpl; [done|]. by rewrite E, IH. Qed.
Lemma existsb_map_ext {B C} (f : B → C) (g : C → bool) (h : B → bool) l :
  Forall (λ x, g (f x) = h x) l → existsb g (map f l) = existsb h l.
Proof. induction 1 as [|x l E _ IH]; simpl; [done|]. by rewrite E, IH. Qed.

Lemma passed_evaluate_detailed p r : passed (evaluate_detailed p r) = evaluate p r.
Proof.
  induction r as [a|rs IH|rs IH|r IH] using rule_induction; simpl.
  - by destruct (p a).
  - by apply forallb_map_ext.
  - by apply existsb_map_ext.
  - by rewrite IH.
Qed.

(** [occurs n a r]: the check [a] is a leaf of [r] below exactly [n] negations. *)
Fixpoint occurs (n : nat) (a : A) (r : Rule A) : Prop :=
  match r with
  | Check b => n = 0 ∧ a = b
  | All rs | Any rs =>
      (fix go rs := match rs with [] => False | r :: rs => occurs n a r ∨ go rs end) rs
  | Not r => match n with 0 => False | S n => occurs n a r end
  end.

Lemma occurs_node n a rs (f : list (Rule A) → Rule A) :
  f = All ∨ f = Any → occurs n a (f rs) ↔ Exists (occurs n a) rs.
Proof.
  intros Hf. assert (occurs n a (f rs) ↔
    (fix go rs := match rs with [] => False | r :: rs => occurs n a r ∨ go rs end) rs) as ->
    by (destruct Hf as [-> | ->]; done).
  induction rs as [|r rs IH]; [by rewrite Exists_nil|]. rewrite Exists_cons. by rewrite IH.
Qed.

Lemma occurs_child n a r rs (f : list (Rule A) → Rule A) :
  f = All ∨ f = Any → r ∈ rs → occurs n a r → occurs n a (f rs).
Proof. intros Hf Hr Ho. apply occurs_node; [done|]. apply Exists_exists. eauto. Qed.

Lemma elem_of_flat_map_detailed {B} (f : RuleResult A → list B) p rs a :
  a ∈ flat_map f (map (evaluate_detailed p) rs) ↔ ∃ r, r ∈ rs ∧ a ∈ f (evaluate_detailed p r).
Proof.
  induction rs as [|r rs IH]; simpl.
  - split; [by intros ?%not_elem_of_nil|by intros (? & ?%not_elem_of_nil & _)].
  - rewrite elem_of_app, IH. setoid_rewrite elem_of_cons. naive_solver.
Qed.

Lemma collect_passes_sound p r a :
  a ∈ collect_passes (evaluate_detailed p r) → occurs 0 a r ∧ p a = true.
Proof.
  induction r as [b|rs IH|rs IH|r IH] using rule_induction; simpl.
  - destruct (p b) eqn:E; simpl; [intros ->%list_elem_of_singleton; done|
                                  by intros ?%not_elem_of_nil].
  - case_match; [|by intros ?%not_elem_of_nil].
    intros (r & Hr & Ha)%elem_of_flat_map_detailed. rewrite Forall_forall in IH.
    destruct (IH r Hr Ha). split; [|done]. apply (occurs_child 0 a r rs All); auto.
  - case_match; [|by intros ?%not_elem_of_nil].
    intros (r & Hr & Ha)%elem_of_flat_map_detailed. rewrite Forall_forall in IH.
    destruct (IH r Hr Ha). split; [|done]. apply (occurs_child 0 a r rs Any); auto.
  - by intros ?%not_elem_of_nil.
Qed.

(** A reported failure is a leaf that failed, or a leaf under one negation that
    passed. *)
Lemma collect_failures_sound p r a :
  a ∈ collect_failures (evaluate_detailed p r) →
  (occurs 0 a r ∧ p a = false) ∨ (occurs 1 a r ∧ p a = true).
Proof.
  induction r as [b|rs IH|rs IH|r IH] using rule_induction; simpl.
  - destruct (p b) eqn:E; simpl; [by intros ?%not_elem_of_nil|
                                  intros ->%list_elem_of_singleton; auto].
  - case_match; [by intros ?%not_elem_of_nil|].
    intros (r & Hr & Ha)%elem_of_flat_map_detailed. rewrite Forall_forall in IH.
    destruct (IH r Hr Ha) as [[? ?]|[? ?]]; [left|right]; (split; [|done]);
      eapply (occurs_child _ a r rs All); eauto.
  - case_match; [by intros ?%not_elem_of_nil|].
    intros (r & Hr & Ha)%elem_of_flat_map_detailed. rewrite Forall_forall in IH.
    destruct (IH r Hr Ha) as [[? ?]|[? ?]]; [left|right]; (split; [|done]);
      eapply (occurs_child _ a r rs Any); eauto.
  - case_match; [by intros ?%not_elem_of_nil|]. intros Ha%collect_passes_sound. by right.
Qed.

(** Trees whose negations are on leaves and whose [Any] nodes are not empty. *)
Fixpoint normal (r : Rule A) : bool :=
  match r with
  | Check _ => true
  | All rs => forallb normal rs
  | Any rs => negb (bool_decide (rs = [])) && forallb normal rs
  | Not r => match r with Check _ => true | _ => false end
  end.

Lemma flat_map_nil {B C} (f : B → list C) l : flat_map f l = [] → ∀ x, x ∈ l → f x = [].
Proof.
  intros E x Hx. induction l as [|y l IH]; [by apply not_elem_of_nil in Hx|].
  simpl in E. apply app_eq_nil in E as [E1 E2]. apply elem_of_cons in Hx as [->|]; auto.
Qed.

(** On such trees a failing evaluation always reports something. *)
Lemma collect_failures_complete p r :
  normal r = true → evaluate p r = false → collect_failures (evaluate_detailed p r) ≠ [].
Proof.
  induction r as [b|rs IH|rs IH|r IH] using rule_induction; simpl; intros Hn He.
  - by rewrite He.
  - rewrite (forallb_map_ext _ passed (evaluate p)), He
      by (apply Forall_true; intros; apply passed_evaluate_detailed).
    intros Hnil. rewrite Forall_forall in IH.
    assert (∃ r, r ∈ rs ∧ evaluate p r = false) as (r & Hr & Her).
    { clear -He. induction rs as [|r rs IH]; simpl in He; [done|].
      destruct (evaluate p r) eqn:E; [|exists r; split; [left|done]].
      destruct (IH He) as (r' & ? & ?). exists r'. split; [by right|done]. }
    apply (IH r Hr); [|done|].
    + rewrite forallb_forall in Hn. apply Hn. by apply list_elem_of_In.
    + apply (flat_map_nil _ _ Hnil). apply list_elem_of_In, in_map. by apply list_elem_of_In.
  - rewrite (existsb_map_ext _ passed (evaluate p)), He
      by (apply Forall_true; intros; apply passed_evaluate_detailed).
    intros Hnil. rewrite Forall_forall in IH. apply andb_true_iff in Hn as [Hne Hn].
    destruct rs as [|r rs]; [done|]. simpl in He. apply orb_false_iff in He as [He _].
    apply (IH r); [left| |done|].
    + simpl in Hn. by apply andb_true_iff in Hn as [? _].
    + apply (flat_map_nil _ _ Hnil). simpl. left.
  - destruct r as [b| | |]; try done. simpl in He |- *.
    destruct (p b); simpl in *; done.
Qed.

Lemma evaluate_and_ p a b : evaluate p (and_ a b) = evaluate p a && evaluate p b.
Proof.
  destruct a; simpl; rewrite ?andb_true_r; try done.
  rewrite forallb_app. simpl. by rewrite andb_true_r.
Qed.

Lemma evaluate_or_ p a b : evaluate p (or_ a b) = evaluate p a || evaluate p b.
Proof.
  destruct a; simpl; rewrite ?orb_false_r; try done.
  rewrite existsb_app. simpl. by rewrite orb_false_r.
Qed.

(** The rule sets of the services are conjunctions of checks: they pass when every
    check does, and report exactly the failed checks, in order. *)
Lemma evaluate_checks p l : evaluate p (All (map check l)) = forallb p l.
Proof. induction l as [|a l IH]; [done|]. simpl in *. by rewrite IH. Qed.

Lemma failures_checks p l :
  collect_failures (evaluate_detailed p (All (map check l))) =
  List.filter (λ a, negb (p a)) l.
Proof.
  pose proof (passed_evaluate_detailed p (All (map check l))) as Hp.
  rewrite evaluate_checks in Hp. simpl in Hp |- *. rewrite Hp.
  destruct (forallb p l) eqn:E; clear Hp.
  - induction l as [|a l IH]; simpl in *; [done|].
    apply andb_true_iff in E as [-> E]. simpl. auto.
  - clear E. induction l as [|a l IH]; simpl in *; [done|]. rewrite IH. by destruct (p a).
Qed.
End rules.
