(* ===== verification/Auth.v ===== *)
(** * Users, access guards, tokens and the authentication middleware
    (shared/src/auth/guards.rs, role.rs, jwt.rs, middleware.rs, shared/src/config/auth_config.rs)

    Also the response formatting helpers of shared/src/dto_helpers.rs. *)

From S2P Require Import Prelude RustStr Externals Sample Errors.

Inductive Role : Type := Buyer | Seller | Admin.
#[export] Instance Role_eq_dec : EqDecision Role.
Proof. solve_decision. Defined.
Definition role_str (r : Role) : string :=
  match r with Buyer => "BUYER" | Seller => "SELLER" | Admin => "ADMIN" end.

Section auth.
Context `{Externals}.

Record CurrentUser := { cu_id : Uuid; cu_role : Role }.

Definition can_access (u : CurrentUser) (target : Uuid) : bool :=
  bool_decide (cu_id u = target) || bool_decide (cu_role u = Admin).

Definition require_access (u : CurrentUser) (owner : Uuid) : outcome AppError unit :=
  if can_access u owner then Ok tt
  else Err (Forbidden "You don't have permission to access this resource").

Definition require_admin (u : CurrentUser) : outcome AppError unit :=
  if bool_decide (cu_role u = Admin) then Ok tt
  else Err (Forbidden "Admin access required").

Definition fmt_id (id : Uuid) : string := uuid_to_string id.
Definition fmt_datetime (t : Z) : string := ts_to_string t.
Definition fmt_datetime_opt (t : option Z) : option string := fmt_datetime <$> t.

Lemma require_access_ok u o x :
  require_access u o = Ok x ↔ cu_id u = o ∨ cu_role u = Admin.
Proof.
  unfold require_access, can_access. destruct x.
  destruct (decide (cu_id u = o)) as [->|]; [rewrite bool_decide_true by done; naive_solver|].
  rewrite bool_decide_false by done. simpl.
  case_bool_decide; naive_solver.
Qed.
End auth.

Local Open Scope Z_scope.

(** ** Tokens *)

Section claims.
Context `{UuidApi}.

Record AccessTokenClaims := {
  ac_sub : Uuid; ac_name : string; ac_role : Role; ac_iat : Z; ac_exp : Z }.
Record RefreshTokenClaims := { rc_sub : Uuid; rc_jti : string; rc_iat : Z; rc_exp : Z }.
End claims.

(** [AuthConfig]: the secrets, and the lifetimes of the tokens in seconds (u64). *)
Record AuthConfig := {
  access_token_secret : string; refresh_token_secret : string;
  access_token_expiry_secs : Z; refresh_token_expiry_secs : Z }.
(** What [AuthConfig::new] asserts of the environment. *)
Definition auth_config_ok (c : AuthConfig) : bool :=
  negb (is_empty (access_token_secret c)) && negb (is_empty (refresh_token_secret c)) &&
  (0 <? access_token_expiry_secs c) && (0 <? refresh_token_expiry_secs c) &&
  (access_token_expiry_secs c <? refresh_token_expiry_secs c).

(** [jsonwebtoken] with HS256: [encode] signs claims with a secret; [decode] checks the
    signature and the expiry, without leeway. *)
Inductive jwt_result (C : Type) : Type :=
| JwtOk (claims : C)
| JwtExpired
| JwtRejected.
Arguments JwtOk {C} _.
Arguments JwtExpired {C}.
Arguments JwtRejected {C}.

Class JwtApi `{UuidApi} := {
  encode_access : string → AccessTokenClaims → string + string;      (* an error text, or the token *)
  encode_refresh : string → RefreshTokenClaims → string + string;
  decode_access : string → Z → string → jwt_result AccessTokenClaims;
  decode_refresh : string → Z → string → jwt_result RefreshTokenClaims;
  decode_encode_access secret now c t : encode_access secret c = inr t →
    decode_access secret now t = if ac_exp c <? now then JwtExpired else JwtOk c;
  decode_encode_refresh secret now c t : encode_refresh secret c = inr t →
    decode_refresh secret now t = if rc_exp c <? now then JwtExpired else JwtOk c;
}.

Inductive AuthError : Type :=
| JwtError (msg : string)
| TimeError (msg : string)
| TokenExpired
| InvalidToken.
Definition auth_error_display (e : AuthError) : string :=
  match e with
  | JwtError err => "JWT Error: " +:+ err
  | TimeError err => "Time Error: " +:+ err
  | TokenExpired => "Token Expired"
  | InvalidToken => "Invalid Token"
  end.

Record JwtTokens := { access_token : string; refresh_token : string }.

Section tokens.
Context `{Externals, !JwtApi}.

(** The clock is an argument: seconds since the epoch. *)
Definition current_timestamp (now : Z) : outcome AuthError Z :=
  if now <? 0 then Err (TimeError "second time provided was later than self") else Ok now.

Definition encoded (r : string + string) : outcome AuthError string :=
  match r with inl e => Err (JwtError e) | inr t => Ok t end.

Definition generate_access_token (config : AuthConfig) (now : Z) (user_id : Uuid) (name : string) (role : Role)
    : outcome AuthError string :=
  now ← current_timestamp now;
  encoded (encode_access (access_token_secret config) {|
    ac_sub := user_id; ac_name := name; ac_role := role; ac_iat := now;
    ac_exp := wrap_i64 (now + wrap_i64 (access_token_expiry_secs config)) |}).

(** [jti] is the text of a random identifier. *)
Definition generate_refresh_token (config : AuthConfig) (now : Z) (jti user_id : Uuid)
    : outcome AuthError string :=
  now ← current_timestamp now;
  encoded (encode_refresh (refresh_token_secret config) {|
    rc_sub := user_id; rc_jti := uuid_to_string jti; rc_iat := now;
    rc_exp := wrap_i64 (now + wrap_i64 (refresh_token_expiry_secs config)) |}).

Definition decoded {C} (r : jwt_result C) : outcome AuthError C :=
  match r with
  | JwtOk c => Ok c
  | JwtExpired => Err TokenExpired
  | JwtRejected => Err InvalidToken
  end.
Definition validate_access_token (config : AuthConfig) (now : Z) (token : string)
    : outcome AuthError AccessTokenClaims :=
  decoded (decode_access (access_token_secret config) now token).
Definition validate_refresh_token (config : AuthConfig) (now : Z) (token : string)
    : outcome AuthError RefreshTokenClaims :=
  decoded (decode_refresh (refresh_token_secret config) now token).

Definition refresh_access (config : AuthConfig) (now : Z) (token name : string) (role : Role)
    : outcome AuthError string :=
  claims ← validate_refresh_token config now token;
  generate_access_token config now (rc_sub claims) name role.

(** ** The middleware *)

Inductive AuthMiddlewareError : Type :=
| InternalError
| MissingAuthHeader
| InvalidAuthHeader
| MwInvalidToken
| MwTokenExpired
| UserNotFound.
Definition middleware_error_display (e : AuthMiddlewareError) : string :=
  match e with
  | InternalError => "Internal error"
  | MissingAuthHeader => "Missing Authorization header"
  | InvalidAuthHeader => "Invalid Authorization header format"
  | MwInvalidToken => "Invalid token"
  | MwTokenExpired => "Token has expired"
  | UserNotFound => "User not found"
  end.
Definition middleware_response (e : AuthMiddlewareError) : Z * string :=
  match e with
  | InternalError => (500, "Internal error")
  | MissingAuthHeader => (401, "Missing Authorization header")
  | InvalidAuthHeader => (401, "Invalid Authorization header format")
  | MwInvalidToken => (401, "Invalid token")
  | MwTokenExpired => (401, "Token has expired")
  | UserNotFound => (403, "User not found or access denied")
  end.

(** The Authorization header: absent, not a visible text, or a text. *)
Definition extract_bearer_token (header : option (option string)) : outcome AuthMiddlewareError string :=
  match header with
  | None => Err MissingAuthHeader
  | Some None => Err InvalidAuthHeader
  | Some (Some h) =>
      if String.prefix "Bearer " h then Ok (trim (trim_start_matches "Bearer " h))
      else Err InvalidAuthHeader
  end.

Definition middleware_error (e : AuthError) : AuthMiddlewareError :=
  match e with
  | TokenExpired => MwTokenExpired
  | InvalidToken => MwInvalidToken
  | _ => MwInvalidToken
  end.

(** [AuthMiddleware::handle] up to the next handler: the user it puts into the request. The
    getter is the one of the identity service; other services trust the claims. *)
Definition authenticate {S} (config : AuthConfig) (getter : option (Uuid → M S AppError CurrentUser))
    (now : Z) (header : option (option string)) : M S AuthMiddlewareError (CurrentUser * AccessTokenClaims) :=
  token ← lift (extract_bearer_token header);
  claims ← lift (omap_err middleware_error (validate_access_token config now token));
  user ← match getter with
         | Some get_by_id => map_err (λ _, UserNotFound) (get_by_id (ac_sub claims))
         | None => mret {| cu_id := ac_sub claims; cu_role := ac_role claims |}
         end;
  mret (user, claims).

(** A handler behind the middleware: its [CurrentUser] is what the middleware put there. *)
Definition protected {S E A} (config : AuthConfig) (getter : option (Uuid → M S AppError CurrentUser)) (now : Z)
    (header : option (option string)) (handler : CurrentUser → M S E A) : M S (AuthMiddlewareError + E) A :=
  '(user, _) ← map_err inl (authenticate config getter now header);
  map_err inr (handler user).

(** A route of a service runs its handler at once, or behind the middleware. *)
Inductive routed (S E A : Type) : Type :=
| PublicRoute (handler : M S E A)
| ProtectedRoute (handler : CurrentUser → M S E A).
#[global] Arguments PublicRoute {S E A} _.
#[global] Arguments ProtectedRoute {S E A} _.
Definition run_route {S E A} (config : AuthConfig) (getter : option (Uuid → M S AppError CurrentUser)) (now : Z)
    (header : option (option string)) (r : routed S E A) : M S (AuthMiddlewareError + E) A :=
  match r with
  | PublicRoute handler => map_err inr handler
  | ProtectedRoute handler => protected config getter now header handler
  end.
(** The answer of a handler as one of the answers of its service. *)
Definition answered {S E A B} (f : A → B) (m : M S E A) : M S E B := r ← m; mret (f r).

(** The middleware lets the request through, for the user. *)
Definition admitted {S} (config : AuthConfig) (getter : option (Uuid → M S AppError CurrentUser)) (now : Z)
    (header : option (option string)) (s : S) (user : CurrentUser) (s1 : S) : Prop :=
  ∃ token claims, extract_bearer_token header = Ok token ∧ validate_access_token config now token = Ok claims ∧
    match getter with
    | Some get_by_id => get_by_id (ac_sub claims) s = (Ok user, s1)
    | None => user = {| cu_id := ac_sub claims; cu_role := ac_role claims |} ∧ s1 = s
    end.
(** The user a valid token names. *)
Definition bearer (config : AuthConfig) (now : Z) (header : option (option string)) (user : CurrentUser) : Prop :=
  ∃ token claims, extract_bearer_token header = Ok token ∧ validate_access_token config now token = Ok claims ∧
    user = {| cu_id := ac_sub claims; cu_role := ac_role claims |}.
Lemma admitted_bearer {S} config now header (s : S) user s1 :
  admitted config None now header s user s1 → bearer config now header user ∧ s1 = s.
Proof. intros (t & claims & Ht & Hv & -> & ->). split; [by exists t, claims|done]. Qed.
(** What the middleware did when it refused. *)
Definition refused {S} (getter : option (Uuid → M S AppError CurrentUser)) (s s' : S) : Prop :=
  s' = s ∨ ∃ get_by_id id o, getter = Some get_by_id ∧ get_by_id id s = (o, s').

Lemma protected_inv {S E A} config getter now header (handler : CurrentUser → M S E A) s o s' :
  protected config getter now header handler s = (o, s') →
  (is_ok o = false ∧ refused getter s s') ∨
  ∃ user s1 o', admitted config getter now header s user s1 ∧ handler user s1 = (o', s') ∧ o = omap_err inr o'.
Proof.
  unfold protected, authenticate, admitted, refused, mbind, M_bind, map_err, lift.
  destruct (extract_bearer_token header) as [t|e|] eqn:Et; simpl; [|intros [= <- <-]; eauto..].
  destruct (validate_access_token config now t) as [claims|e|] eqn:Ev; simpl; [|intros [= <- <-]; eauto..].
  destruct getter as [g|]; simpl.
  - destruct (g (ac_sub claims) s) as [[user|e|] s1] eqn:Eg; simpl; [|intros [= <- <-]; left; eauto 8..].
    destruct (handler user s1) as [o1 s2] eqn:Eh. intros [= <- <-]. right. exists user, s1, o1.
    split_and!; [by exists t, claims|done..].
  - destruct (handler _ s) as [o1 s1] eqn:Eh. intros [= <- <-]. right. eexists _, s, o1.
    split_and!; [by exists t, claims|done..].
Qed.
Lemma is_ok_omap_err {E F A} (f : E → F) (o : outcome E A) : is_ok (omap_err f o) = is_ok o.
Proof. by destruct o. Qed.
Lemma answered_run {S E A B} (f : A → B) (m : M S E A) s o s' :
  answered f m s = (o, s') → ∃ o1, m s = (o1, s') ∧ is_ok o1 = is_ok o.
Proof. unfold answered, mbind, M_bind. destruct (m s) as [[a|e|] s1]; intros [= <- <-]; eauto. Qed.

(** What every handler does for every user the middleware lets through, the route does. *)
Lemma run_route_inv {S E A} config getter now header (r : routed S E A) (P : (CurrentUser → Prop) → S → bool → S → Prop) s o s' :
  match r with
  | PublicRoute m => ∀ who s o s', m s = (o, s') → P who s (is_ok o) s'
  | ProtectedRoute m => ∀ (who : CurrentUser → Prop) user s o s', who user → m user s = (o, s') → P who s (is_ok o) s'
  end →
  run_route config getter now header r s = (o, s') →
  (is_ok o = false ∧ refused getter s s') ∨
  ∃ s1, (s1 = s ∨ ∃ user, admitted config getter now header s user s1) ∧
    P (λ user, admitted config getter now header s user s1) s1 (is_ok o) s'.
Proof.
  destruct r as [m|m]; simpl; intros Hm.
  - unfold map_err. destruct (m s) as [o1 s1] eqn:Em. intros [= <- <-]. right. exists s. split; [by left|].
    rewrite is_ok_omap_err. by apply Hm.
  - intros [?|(user & s1 & o1 & Ha & Hr & ->)]%protected_inv; [by left|]. right. exists s1. split; [eauto|].
    rewrite is_ok_omap_err. by apply (Hm _ user).
Qed.
End tokens.

(** ** Lifetimes *)

Section lifetimes.
Context `{Externals, !JwtApi}.

(** Values for which nothing wraps around. *)
Definition sane (config : AuthConfig) (now : Z) : Prop :=
  0 ≤ now < 2 ^ 62 ∧ 0 ≤ access_token_expiry_secs config < 2 ^ 62 ∧ 0 ≤ refresh_token_expiry_secs config < 2 ^ 62.

Lemma access_token_lifetime config t0 uid name role token now :
  sane config t0 → generate_access_token config t0 uid name role = Ok token →
  validate_access_token config now token =
    if t0 + access_token_expiry_secs config <? now then Err TokenExpired
    else Ok {| ac_sub := uid; ac_name := name; ac_role := role; ac_iat := t0;
               ac_exp := t0 + access_token_expiry_secs config |}.
Proof.
  intros (Ht & Ha & _). unfold generate_access_token, current_timestamp.
  rewrite (proj2 (Z.ltb_ge t0 0)) by lia. unfold mbind, outcome_bind, encoded.
  rewrite (wrap_i64_small (access_token_expiry_secs config)) by lia. rewrite wrap_i64_small by lia.
  destruct (encode_access _ _) as [e|t] eqn:Ee; intros [= <-].
  unfold validate_access_token. rewrite (decode_encode_access _ now _ _ Ee). simpl.
  by destruct (_ <? now).
Qed.

Lemma refresh_token_lifetime config t0 jti uid token now :
  sane config t0 → generate_refresh_token config t0 jti uid = Ok token →
  validate_refresh_token config now token =
    if t0 + refresh_token_expiry_secs config <? now then Err TokenExpired
    else Ok {| rc_sub := uid; rc_jti := uuid_to_string jti; rc_iat := t0;
               rc_exp := t0 + refresh_token_expiry_secs config |}.
Proof.
  intros (Ht & _ & Ha). unfold generate_refresh_token, current_timestamp.
  rewrite (proj2 (Z.ltb_ge t0 0)) by lia. unfold mbind, outcome_bind, encoded.
  rewrite (wrap_i64_small (refresh_token_expiry_secs config)) by lia. rewrite wrap_i64_small by lia.
  destruct (encode_refresh _ _) as [e|t] eqn:Ee; intros [= <-].
  unfold validate_refresh_token. rewrite (decode_encode_refresh _ now _ _ Ee). simpl.
  by destruct (_ <? now).
Qed.
End lifetimes.

(** ** A computable instance: the text of a token is its claims with the secret *)

#[local] Existing Instance sample.
Definition role_code (r : Role) : N := match r with Buyer => 0 | Seller => 1 | Admin => 2 end%N.
Definition role_of (n : N) : Role := match n with 0 => Buyer | 1 => Seller | _ => Admin end%N.
Lemma role_of_code r : role_of (role_code r) = r.
Proof. by destruct r. Qed.

Abbreviation access_code := (string * (string * string * N * (Z * Z)))%type.
Abbreviation refresh_code := (string * (string * string * (Z * Z)))%type.
Definition sign_access (secret : string) (c : AccessTokenClaims) : string + string :=
  inr (pack (A := access_code) (secret, ((ac_sub c : string), ac_name c, role_code (ac_role c), (ac_iat c, ac_exp c)))).
Definition sign_refresh (secret : string) (c : RefreshTokenClaims) : string + string :=
  inr (pack (A := refresh_code) (secret, ((rc_sub c : string), rc_jti c, (rc_iat c, rc_exp c)))).
Definition check_access (secret : string) (now : Z) (t : string) : jwt_result AccessTokenClaims :=
  match unpack (A := access_code) t with
  | Some (secret', (sub, name, role, (iat, exp))) =>
      if bool_decide (secret' = secret) then
        if exp <? now then JwtExpired
        else JwtOk {| ac_sub := (sub : string); ac_name := name; ac_role := role_of role; ac_iat := iat; ac_exp := exp |}
      else JwtRejected
  | None => JwtRejected
  end.
Definition check_refresh (secret : string) (now : Z) (t : string) : jwt_result RefreshTokenClaims :=
  match unpack (A := refresh_code) t with
  | Some (secret', (sub, jti, (iat, exp))) =>
      if bool_decide (secret' = secret) then
        if exp <? now then JwtExpired
        else JwtOk {| rc_sub := (sub : string); rc_jti := jti; rc_iat := iat; rc_exp := exp |}
      else JwtRejected
  | None => JwtRejected
  end.
#[local] Instance sample_jwt : JwtApi.
Proof.
  refine {| encode_access := sign_access; encode_refresh := sign_refresh;
            decode_access := check_access; decode_refresh := check_refresh |}.
  - intros secret now [sub name role iat exp] t [= <-]. unfold check_access. rewrite unpack_pack.
    by rewrite bool_decide_eq_true_2, role_of_code.
  - intros secret now [sub jti iat exp] t [= <-]. unfold check_refresh. rewrite unpack_pack.
    by rewrite bool_decide_eq_true_2.
Defined.
