(* ===== verification/Events.v ===== *)
(** * Domain events (shared/src/events/types.rs, shared/src/outbox/types.rs)

    Event metadata, the wire envelope and its JSON form, and the row a service
    inserts into its outbox. *)

From S2P Require Import Prelude RustStr Externals Errors.

Inductive SourceService : Type :=
| Identity | Catalog | Cart | Order | Payment | Shipping | Notification.
#[export] Instance SourceService_eq_dec : EqDecision SourceService.
Proof. solve_decision. Defined.

Inductive AggregateType : Type := AggOrder | AggPayment | AggInventory.
#[export] Instance AggregateType_eq_dec : EqDecision AggregateType.
Proof. solve_decision. Defined.

Inductive EventType : Type :=
| OrderCreated | OrderConfirmed | OrderCancelled
| InventoryReserved | InventoryReservationFailed | InventoryReleased
| PaymentAuthorized | PaymentFailed | PaymentCaptured | PaymentVoided | PaymentTimedOut
| PaymentCaptureRetryRequested.
#[export] Instance EventType_eq_dec : EqDecision EventType.
Proof. solve_decision. Defined.

(** ** Display *)

Definition event_type_str (t : EventType) : string :=
  match t with
  | OrderCreated => "OrderCreated"
  | OrderConfirmed => "OrderConfirmed"
  | OrderCancelled => "OrderCancelled"
  | InventoryReserved => "InventoryReserved"
  | InventoryReservationFailed => "InventoryReservationFailed"
  | InventoryReleased => "InventoryReleased"
  | PaymentAuthorized => "PaymentAuthorized"
  | PaymentFailed => "PaymentFailed"
  | PaymentCaptured => "PaymentCaptured"
  | PaymentVoided => "PaymentVoided"
  | PaymentTimedOut => "PaymentTimedOut"
  | PaymentCaptureRetryRequested => "PaymentCaptureRetryRequested"
  end.

Definition aggregate_type_str (t : AggregateType) : string :=
  match t with AggOrder => "Order" | AggPayment => "Payment" | AggInventory => "Inventory" end.

Definition source_service_str (s : SourceService) : string :=
  match s with
  | Identity => "identity"
  | Catalog => "catalog"
  | Cart => "cart"
  | Order => "order"
  | Payment => "payment"
  | Shipping => "shipping"
  | Notification => "notification"
  end.

(** The names [serde] accepts for a unit variant: exactly the ones it writes. *)
Definition of_name {A} (name : A → string) (variants : list A) (s : string) : option A :=
  List.find (λ v, bool_decide (name v = s)) variants.

Definition all_event_types : list EventType :=
  [OrderCreated; OrderConfirmed; OrderCancelled; InventoryReserved; InventoryReservationFailed;
   InventoryReleased; PaymentAuthorized; PaymentFailed; PaymentCaptured; PaymentVoided;
   PaymentTimedOut; PaymentCaptureRetryRequested].
Definition all_aggregate_types : list AggregateType := [AggOrder; AggPayment; AggInventory].
Definition all_source_services : list SourceService :=
  [Identity; Catalog; Cart; Order; Payment; Shipping; Notification].

Definition event_type_of_str := of_name event_type_str all_event_types.
Definition aggregate_type_of_str := of_name aggregate_type_str all_aggregate_types.
Definition source_service_of_str := of_name source_service_str all_source_services.

Lemma event_type_of_str_str t : event_type_of_str (event_type_str t) = Some t.
Proof. by destruct t. Qed.
Lemma aggregate_type_of_str_str t : aggregate_type_of_str (aggregate_type_str t) = Some t.
Proof. by destruct t. Qed.
Lemma source_service_of_str_str t : source_service_of_str (source_service_str t) = Some t.
Proof. by destruct t. Qed.

Section events.
Context `{Externals}.

Record EventMetadata := {
  em_event_id : Uuid;
  em_event_type : EventType;
  em_aggregate_type : AggregateType;
  em_aggregate_id : Uuid;
  em_timestamp : Z;
  em_source_service : SourceService;
  em_correlation_id : option string;
  em_causation_id : option Uuid;
}.

Record EventEnvelope := { env_metadata : EventMetadata; env_payload : Value }.

(** [EventMetadata::new]; the generated id and the clock are arguments. *)
Definition EventMetadata_new (event_id : Uuid) (now : Z) (event_type : EventType)
    (aggregate_type : AggregateType) (aggregate_id : Uuid) (source : SourceService)
    : EventMetadata := {|
  em_event_id := event_id;
  em_event_type := event_type;
  em_aggregate_type := aggregate_type;
  em_aggregate_id := aggregate_id;
  em_timestamp := now;
  em_source_service := source;
  em_correlation_id := None;
  em_causation_id := None;
|}.

Definition with_correlation_id (m : EventMetadata) (c : string) : EventMetadata := {|
  em_event_id := em_event_id m; em_event_type := em_event_type m;
  em_aggregate_type := em_aggregate_type m; em_aggregate_id := em_aggregate_id m;
  em_timestamp := em_timestamp m; em_source_service := em_source_service m;
  em_correlation_id := Some c; em_causation_id := em_causation_id m |}.

Definition with_causation_id (m : EventMetadata) (c : Uuid) : EventMetadata := {|
  em_event_id := em_event_id m; em_event_type := em_event_type m;
  em_aggregate_type := em_aggregate_type m; em_aggregate_id := em_aggregate_id m;
  em_timestamp := em_timestamp m; em_source_service := em_source_service m;
  em_correlation_id := em_correlation_id m; em_causation_id := Some c |}.

Definition EventEnvelope_new (m : EventMetadata) (payload : Value) : EventEnvelope :=
  {| env_metadata := m; env_payload := payload |}.

Definition partition_key (e : EventEnvelope) : string :=
  uuid_to_string (em_aggregate_id (env_metadata e)).

Definition payload_uuid (e : EventEnvelope) (field : string) : outcome AppError Uuid :=
  ok_or (BadRequest ("Missing or invalid " +:+ field +:+ " in " +:+
           event_type_str (em_event_type (env_metadata e)) +:+ " payload"))
    (s ← as_str (jindex (env_payload e) field); uuid_parse s).

(** [payload[field].as_str()] *)
Definition payload_str (e : EventEnvelope) (field : string) : option string :=
  as_str (jindex (env_payload e) field).

(** ** The wire format (the derived [Serialize] and [Deserialize]) *)

Definition opt_to_value {A} (f : A → Value) (o : option A) : Value :=
  match o with Some a => f a | None => jnull end.

Definition envelope_to_value (e : EventEnvelope) : Value :=
  let m := env_metadata e in
  jobj [
    ("metadata", jobj [
      ("event_id", jstr (uuid_to_string (em_event_id m)));
      ("event_type", jstr (event_type_str (em_event_type m)));
      ("aggregate_type", jstr (aggregate_type_str (em_aggregate_type m)));
      ("aggregate_id", jstr (uuid_to_string (em_aggregate_id m)));
      ("timestamp", jstr (ts_to_string (em_timestamp m)));
      ("source_service", jstr (source_service_str (em_source_service m)));
      ("correlation_id", opt_to_value jstr (em_correlation_id m));
      ("causation_id", opt_to_value (λ u, jstr (uuid_to_string u)) (em_causation_id m))]);
    ("payload", env_payload e)].

(** A required field, parsed from its string. *)
Definition field {A} (v : Value) (k : string) (parse : string → option A) : option A :=
  w ← jget v k; s ← as_str w; parse s.
(** An [Option] field: missing and [null] are [None]. *)
Definition opt_field {A} (v : Value) (k : string) (parse : string → option A)
    : option (option A) :=
  match jget v k with
  | None => Some None
  | Some w => if is_null w then Some None else (s ← as_str w; Some <$> parse s)
  end.

Definition envelope_of_value (v : Value) : option EventEnvelope :=
  m ← jget v "metadata";
  event_id ← field m "event_id" uuid_parse;
  event_type ← field m "event_type" event_type_of_str;
  aggregate_type ← field m "aggregate_type" aggregate_type_of_str;
  aggregate_id ← field m "aggregate_id" uuid_parse;
  timestamp ← field m "timestamp" ts_parse;
  source_service ← field m "source_service" source_service_of_str;
  correlation_id ← opt_field m "correlation_id" Some;
  causation_id ← opt_field m "causation_id" uuid_parse;
  payload ← jget v "payload";
  Some {| env_metadata := {|
            em_event_id := event_id; em_event_type := event_type;
            em_aggregate_type := aggregate_type; em_aggregate_id := aggregate_id;
            em_timestamp := timestamp; em_source_service := source_service;
            em_correlation_id := correlation_id; em_causation_id := causation_id |};
          env_payload := payload |}.

Lemma envelope_roundtrip_eq e : envelope_of_value (envelope_to_value e) = Some e.
Proof.
  destruct e as [[id t a agg ts src corr caus] p].
  unfold envelope_of_value, envelope_to_value, field, opt_field; simpl.
  json_simpl. rewrite event_type_of_str_str, aggregate_type_of_str_str,
    source_service_of_str_str; simpl.
  destruct corr, caus; simpl; json_simpl; done.
Qed.

(** ** The outbox row of an event *)

Record OutboxInsert := {
  oi_aggregate_type : string;
  oi_aggregate_id : Uuid;
  oi_event_type : string;
  oi_event_id : Uuid;
  oi_topic : string;
  oi_partition_key : string;
  oi_payload : Value;
  oi_metadata : option Value;
}.

Definition from_envelope (topic : string) (e : EventEnvelope) : OutboxInsert := {|
  oi_aggregate_type := aggregate_type_str (em_aggregate_type (env_metadata e));
  oi_aggregate_id := em_aggregate_id (env_metadata e);
  oi_event_type := event_type_str (em_event_type (env_metadata e));
  oi_event_id := em_event_id (env_metadata e);
  oi_topic := topic;
  oi_partition_key := partition_key e;
  oi_payload := envelope_to_value e;
  oi_metadata := None;
|}.
End events.
