(* ===== verification/Db.v ===== *)
(** * Database connections and transactions (shared/src/db/transaction_support.rs)

    A service's tables are a value [T]. A statement is a function on the tables; the
    driver may lose it, or lose only its answer ([fault]); a statement that the
    server rejects puts the transaction into the failed state, in which every later
    statement is rejected, as PostgreSQL does. [with_transaction] runs code on a
    private copy and makes it the committed tables at the end, or not at all. *)

From S2P Require Import Prelude RustStr Externals Errors.

(** What can happen to one statement on its way: nothing, lost before the server
    executed it, or executed with the answer lost. *)
Inductive fault : Type := FNone | FBefore | FAfter.

(** The environment of a run: the clock, the counter of generated identifiers, and
    the script of faults (no fault once it is used up). *)
Record env := MkEnv { e_now : Z; e_next : N; e_faults : list fault }.

Definition pop_fault (e : env) : fault * env :=
  match e_faults e with
  | [] => (FNone, e)
  | f :: fs => (f, MkEnv (e_now e) (e_next e) fs)
  end.
Definition bump (e : env) : env := MkEnv (e_now e) (e_next e + 1) (e_faults e).

Inductive tx_status : Type := TxActive | TxFailed | TxBroken.

Record conn (T : Type) := MkConn { c_tables : T; c_status : tx_status; c_env : env }.
Arguments MkConn {T} _ _ _.
Arguments c_tables {T} _.
Arguments c_status {T} _.
Arguments c_env {T} _.

(** The committed tables of a service, the environment, and the part [X] of the world
    outside the database the service talks to (gateway, locks; [unit] for none). *)
Record db (T X : Type) := MkDb { d_committed : T; d_env : env; d_ext : X }.
Arguments MkDb {T X} _ _ _.
Arguments d_committed {T X} _.
Arguments d_env {T X} _.
Arguments d_ext {T X} _.

(** The same world at another time. *)
Definition at_time {T X} (now : Z) (s : db T X) : db T X :=
  MkDb (d_committed s) (MkEnv now (e_next (d_env s)) (e_faults (d_env s))) (d_ext s).

Section statements.
Context `{Externals} {T : Type}.
Implicit Types c : conn T.

(** One SQL statement: [f now id tables], where [now] is [NOW()] and [id] is the
    value [uuidv7()] would generate. *)
Definition exec {A} (f : Z → Uuid → T → outcome sql_error (A * T)) : M (conn T) sql_error A :=
  λ c,
    match c_status c with
    | TxFailed => (Err InFailedTransaction, c)
    | TxBroken => (Err ConnectionFailure, c)
    | TxActive =>
        let '(fl, e) := pop_fault (c_env c) in
        let e' := bump e in
        match fl, f (e_now e) (uuid_gen (e_next e)) (c_tables c) with
        | FNone, Ok (a, t) => (Ok a, MkConn t TxActive e')
        | FNone, Err err => (Err err, MkConn (c_tables c) TxFailed e')
        | FNone, Panic => (Panic, MkConn (c_tables c) TxFailed e')
        | FAfter, Ok (_, t) => (Err ConnectionFailure, MkConn t TxBroken e')
        | _, _ => (Err ConnectionFailure, MkConn (c_tables c) TxBroken e')
        end
    end.

(** A statement that only reads. *)
Definition query {A} (f : T → A) : M (conn T) sql_error A :=
  exec (λ _ _ t, Ok (f t, t)).

(** [fetch_one]: the driver answers [RowNotFound] when there is no row; the
    transaction is not affected. *)
Definition fetch_one {A} (f : T → option A) : M (conn T) sql_error A :=
  r ← query f;
  match r with Some a => mret a | None => fail RowNotFound end.

(** [Uuid::now_v7()] and [Utc::now()] in the application. *)
Definition now_v7 {E} : M (conn T) E Uuid :=
  λ c, (Ok (uuid_gen (e_next (c_env c))), MkConn (c_tables c) (c_status c) (bump (c_env c))).
Definition utc_now {E} : M (conn T) E Z := gets (λ c, e_now (c_env c)).

Lemma exec_ok {A} f c (a : A) c' :
  exec f c = (Ok a, c') →
  c_status c = TxActive ∧ c_status c' = TxActive ∧
  e_now (c_env c') = e_now (c_env c) ∧
  ∃ id, f (e_now (c_env c)) id (c_tables c) = Ok (a, c_tables c').
Proof.
  unfold exec, pop_fault. destruct (c_status c); try done.
  destruct (e_faults (c_env c)) as [|[] fs]; simpl;
    intros Hr; repeat case_match; simplify_eq/=; eauto 6.
Qed.

Lemma query_ok {A} (f : T → A) c a c' :
  query f c = (Ok a, c') → a = f (c_tables c) ∧ c_tables c' = c_tables c ∧
    e_now (c_env c') = e_now (c_env c).
Proof.
  intros (_ & _ & Hn & id & E)%exec_ok. by simplify_eq.
Qed.

Lemma fetch_one_ok {A} (f : T → option A) c a c' :
  fetch_one f c = (Ok a, c') → f (c_tables c) = Some a ∧ c_tables c' = c_tables c ∧
    e_now (c_env c') = e_now (c_env c).
Proof.
  unfold fetch_one. intros Hr. inv_ok Hr.
  apply query_ok in Hrun as (-> & Ht & Hn). simplify_eq. eauto.
Qed.

Lemma now_v7_ok {E} c u c' :
  now_v7 (E := E) c = (Ok u, c') → c_tables c' = c_tables c ∧
    e_now (c_env c') = e_now (c_env c).
Proof. by intros [= <- <-]. Qed.
End statements.

Section transactions.
Context `{Externals} {T X : Type}.
Implicit Types s : db T X.

(** A single statement on the pool: autocommit. *)
Definition on_pool {E A} (m : M (conn T) E A) : M (db T X) E A := λ s,
  let '(o, c) := m (MkConn (d_committed s) TxActive (d_env s)) in
  (o, MkDb (c_tables c) (c_env c) (d_ext s)).

(** [TxContext::begin]: taking a connection may fail. *)
Definition begin_tx (s : db T X) : outcome TxError (conn T) * db T X :=
  let '(fl, e) := pop_fault (d_env s) in
  match fl with
  | FNone => (Ok (MkConn (d_committed s) TxActive e), MkDb (d_committed s) e (d_ext s))
  | _ => (Err (TxDatabase ConnectionFailure), MkDb (d_committed s) e (d_ext s))
  end.

(** [TxContext::commit]. COMMIT of a failed transaction rolls back and reports no
    error; on a broken connection, or when the commit itself is lost, the driver
    reports an error - and when only the answer is lost, the tables are committed
    all the same. *)
Definition commit_tx (c : conn T) (s : db T X) : outcome TxError unit * db T X :=
  let '(fl, e) := pop_fault (c_env c) in
  match c_status c, fl with
  | TxActive, FNone => (Ok tt, MkDb (c_tables c) e (d_ext s))
  | TxActive, FAfter => (Err (TxDatabase ConnectionFailure), MkDb (c_tables c) e (d_ext s))
  | TxFailed, FNone => (Ok tt, MkDb (d_committed s) e (d_ext s))
  | _, _ => (Err (TxDatabase ConnectionFailure), MkDb (d_committed s) e (d_ext s))
  end.

(** [TxContext::rollback], and the drop of an open transaction. *)
Definition rollback_tx (c : conn T) (s : db T X) : db T X :=
  MkDb (d_committed s) (c_env c) (d_ext s).

Definition with_transaction {A} (f : M (conn T) TxError A) : M (db T X) TxError A := λ s,
  match begin_tx s with
  | (Ok c, s1) =>
      match f c with
      | (Ok a, c') =>
          match commit_tx c' s1 with
          | (Ok _, s2) => (Ok a, s2)
          | (Err e, s2) => (Err e, s2)
          | (Panic, s2) => (Panic, s2)
          end
      | (Err e, c') => (Err e, rollback_tx c' s1)
      | (Panic, c') => (Panic, rollback_tx c' s1)
      end
  | (Err e, s1) => (Err e, s1)
  | (Panic, s1) => (Panic, s1)
  end.

(** [with_nested_transaction]: a savepoint inside an open transaction. The rollback
    to the savepoint is best effort; the savepoint name is a counter the tables do
    not hold. *)
Definition with_nested_transaction {A} (f : M (conn T) TxError A) : M (conn T) TxError A := λ c,
  match map_err TxDatabase (exec (λ _ _ t, Ok (tt, t))) c with
  | (Ok _, c1) =>
      match f c1 with
      | (Ok a, c2) =>
          match map_err TxDatabase (exec (λ _ _ t, Ok (tt, t))) c2 with
          | (Ok _, c3) => (Ok a, c3)
          | (Err e, c3) => (Err e, c3)
          | (Panic, c3) => (Panic, c3)
          end
      | (Err e, c2) =>
          let '(fl, env) := pop_fault (c_env c2) in
          match c_status c2, fl with
          | TxBroken, _ => (Err e, MkConn (c_tables c2) TxBroken env)
          | _, FNone => (Err e, MkConn (c_tables c1) TxActive (bump env))
          | _, FBefore => (Err e, MkConn (c_tables c2) TxBroken (bump env))
          | _, FAfter => (Err e, MkConn (c_tables c1) TxBroken (bump env))
          end
      | (Panic, c2) => (Panic, c2)
      end
  | (Err e, c1) => (Err e, c1)
  | (Panic, c1) => (Panic, c1)
  end.

(** A transaction is all or nothing, whatever is lost on the way: the committed
    tables are either the old ones, or those its body ended with successfully. *)
Lemma with_transaction_all_or_nothing {A} (f : M (conn T) TxError A) s o s' :
  with_transaction f s = (o, s') →
  d_ext s' = d_ext s ∧
  (d_committed s' = d_committed s ∨
   ∃ e a c', f (MkConn (d_committed s) TxActive e) = (Ok a, c') ∧
     e_now e = e_now (d_env s) ∧
     c_status c' = TxActive ∧ d_committed s' = c_tables c').
Proof.
  unfold with_transaction, begin_tx, pop_fault.
  destruct (e_faults (d_env s)) as [|[] fs] eqn:Ef; simpl;
    intros Hr; unfold commit_tx, pop_fault in Hr;
    repeat case_match; simplify_eq/=; (split; [done|]); eauto 10.
Qed.

(** A reported success is a committed body, unless the body left the transaction
    in the failed state. *)
Lemma with_transaction_ok {A} (f : M (conn T) TxError A) s a s' :
  with_transaction f s = (Ok a, s') →
  ∃ e c', f (MkConn (d_committed s) TxActive e) = (Ok a, c') ∧
    e_now e = e_now (d_env s) ∧
    d_ext s' = d_ext s ∧ e_now (d_env s') = e_now (c_env c') ∧
    (c_status c' = TxActive ∧ d_committed s' = c_tables c' ∨
     c_status c' = TxFailed ∧ d_committed s' = d_committed s).
Proof.
  unfold with_transaction, begin_tx, pop_fault.
  destruct (e_faults (d_env s)) as [|[] fs] eqn:Ef; simpl;
    intros Hr; unfold commit_tx, pop_fault in Hr;
    repeat case_match; simplify_eq/=; eauto 12.
Qed.

(** A nested transaction that fails leaves the tables as they were at its savepoint,
    if the connection survives. *)
Lemma with_nested_transaction_err {A} (f : M (conn T) TxError A) c e c' :
  with_nested_transaction f c = (Err e, c') → c_status c' = TxActive →
  c_tables c' = c_tables c.
Proof.
  unfold with_nested_transaction, map_err, exec, pop_fault.
  intros Hr Hst. repeat (case_match; simplify_eq/=); congruence.
Qed.
End transactions.

(** ** Statements and a preorder on the tables *)

Section keeps_db.
Context `{Externals} {T : Type}.

(** [tables_rel R]: the tables of the connection move along [R]. *)
Definition tables_rel (R : T → T → Prop) (c c' : conn T) : Prop :=
  R (c_tables c) (c_tables c').
#[export] Instance tables_rel_preorder R `{!PreOrder R} : PreOrder (tables_rel R).
Proof.
  unfold tables_rel. split; [intros c; reflexivity|]. intros c1 c2 c3 ??. by etrans.
Qed.

Lemma keeps_exec R `{!PreOrder R} {A} (f : Z → Uuid → T → outcome sql_error (A * T)) :
  (∀ now id t a t', f now id t = Ok (a, t') → R t t') →
  keeps (tables_rel R) (exec f).
Proof.
  intros Hf c o c'. unfold exec, tables_rel, pop_fault.
  destruct (c_status c); [|intros [= _ <-]; reflexivity..].
  destruct (e_faults (c_env c)) as [|[] fs]; simpl; repeat case_match; intros [= _ <-]; simpl;
    try reflexivity; by eapply Hf.
Qed.

Lemma keeps_query R `{!PreOrder R} {A} (f : T → A) : keeps (tables_rel R) (query f).
Proof. apply keeps_exec; [done|]. intros now id t a t' [= _ <-]. reflexivity. Qed.

Lemma keeps_fetch_one R `{!PreOrder R} {A} (f : T → option A) :
  keeps (tables_rel R) (fetch_one f).
Proof.
  apply keeps_bind; [typeclasses eauto|by apply keeps_query|].
  intros [a|]; [apply keeps_ret|apply keeps_fail]; typeclasses eauto.
Qed.

Lemma keeps_now_v7 R `{!PreOrder R} {E} : keeps (tables_rel R) (now_v7 (E := E)).
Proof. intros c o c' [= _ <-]. unfold tables_rel. reflexivity. Qed.
Lemma keeps_utc_now R `{!PreOrder R} {E} : keeps (tables_rel R) (utc_now (E := E)).
Proof. intros c o c' [= _ <-]. unfold tables_rel. reflexivity. Qed.

(** [db_rel R]: the committed tables move along [R]. *)
Definition db_rel {X} (R : T → T → Prop) (s s' : db T X) : Prop :=
  R (d_committed s) (d_committed s').
#[export] Instance db_rel_preorder {X} R `{!PreOrder R} : PreOrder (db_rel (X := X) R).
Proof.
  unfold db_rel. split; [intros c; reflexivity|]. intros c1 c2 c3 ??. by etrans.
Qed.

Lemma keeps_on_pool {X} R {E A} (m : M (conn T) E A) :
  keeps (tables_rel R) m → keeps (db_rel (X := X) R) (on_pool m).
Proof.
  intros Hm s o s'. unfold on_pool. destruct (m _) as [o1 c] eqn:Em. intros [= _ <-].
  by apply Hm in Em.
Qed.

Lemma on_pool_ok {X E A} (m : M (conn T) E A) (s : db T X) a s' :
  on_pool m s = (Ok a, s') → ∃ c', m (MkConn (d_committed s) TxActive (d_env s)) = (Ok a, c') ∧
    d_committed s' = c_tables c' ∧ d_env s' = c_env c' ∧ d_ext s' = d_ext s.
Proof. unfold on_pool. destruct (m _) as [o1 c] eqn:Em. intros [= -> <-]. eauto 8. Qed.

(** A statement on the pool when nothing is lost. *)
Lemma on_pool_calm {X A} (f : Z → Uuid → T → outcome sql_error (A * T)) (g : sql_error → AppError)
    (s : db T X) :
  e_faults (d_env s) = [] →
  on_pool (map_err g (exec f)) s =
    match f (e_now (d_env s)) (uuid_gen (e_next (d_env s))) (d_committed s) with
    | Ok (a, t) => (Ok a, MkDb t (bump (d_env s)) (d_ext s))
    | Err e => (Err (g e), MkDb (d_committed s) (bump (d_env s)) (d_ext s))
    | Panic => (Panic, MkDb (d_committed s) (bump (d_env s)) (d_ext s))
    end.
Proof.
  intros Hf. unfold on_pool, map_err, exec, pop_fault. simpl. rewrite Hf.
  destruct (f _ _ _) as [[a t]|e|]; reflexivity.
Qed.
End keeps_db.
#[export] Hint Resolve keeps_query keeps_fetch_one keeps_now_v7 keeps_utc_now : keeps.

(** The orders PostgreSQL is free to choose for the rows of a query: that of rows with equal
    sort keys, and that in which a LIMIT without an order takes rows - some of which another
    transaction may hold locked, and then they are skipped. *)
Class ScanOrder (A : Type) := {
  sort_scan : list A → list A;
  lock_scan : list A → list A;
  skip_locked : list A → list A;
  sort_scan_perm l : sort_scan l ≡ₚ l;
  lock_scan_sub l : lock_scan l ⊆+ l;
  skip_locked_sub l : skip_locked l `sublist_of` l }.

(** The order of the table, with no row locked. *)
Definition table_order (A : Type) : ScanOrder A := {|
  sort_scan := id; lock_scan := id; skip_locked := id;
  sort_scan_perm := λ l, reflexivity l; lock_scan_sub := λ l, reflexivity l;
  skip_locked_sub := λ l, reflexivity l |}.

(** ** Column types and constraints

    The conversions and checks PostgreSQL applies to the values of a statement; a
    violation is the error of the statement. *)

Section constraints.
Context `{Externals}.

Definition numeric (d : Decimal) : outcome sql_error Decimal := ok_or NumericOverflow (dec_numeric d).
Definition varchar (column : string) (n : nat) (s : string) : outcome sql_error string :=
  if n <? char_count s then Err (ValueTooLong column) else Ok s.
Definition check_constraint (name : string) (b : bool) : outcome sql_error unit :=
  if b then Ok tt else Err (CheckViolation name).
Definition unique {A} (name : string) (p : A → bool) (rows : list A) : outcome sql_error unit :=
  if existsb p rows then Err (UniqueViolation name) else Ok tt.

(** An [INTEGER] column. *)
Definition int4 (z : Z) : outcome sql_error Z :=
  if ((- 2 ^ 31 <=? z) && (z <? 2 ^ 31))%Z then Ok z else Err NumericOverflow.
Definition foreign_key {A} (name : string) (p : A → bool) (rows : list A) : outcome sql_error unit :=
  if existsb p rows then Ok tt else Err (ForeignKeyViolation name).

(** [UPDATE .. WHERE p] whose new rows may violate a constraint. *)
Fixpoint update_checked {A} (p : A → bool) (f : A → outcome sql_error A) (l : list A)
    : outcome sql_error (nat * list A) :=
  match l with
  | [] => Ok (0, [])
  | x :: l =>
      if p x then
        x' ← f x;
        '(n, l') ← update_checked p f l;
        Ok (S n, x' :: l')
      else
        '(n, l') ← update_checked p f l;
        Ok (n, x :: l')
  end.

Lemma numeric_ok d x : numeric d = Ok x ↔ dec_numeric d = Some x.
Proof. apply ok_or_ok. Qed.
Lemma varchar_ok c n s x : varchar c n s = Ok x ↔ x = s ∧ char_count s ≤ n.
Proof. unfold varchar. destruct (Nat.ltb_spec n (char_count s)); naive_solver lia. Qed.
Lemma check_constraint_ok c b x : check_constraint c b = Ok x ↔ b = true.
Proof. destruct b, x; simpl; naive_solver. Qed.
Lemma unique_ok {A} c (p : A → bool) rows x : unique c p rows = Ok x ↔ existsb p rows = false.
Proof. unfold unique. destruct x. case_match; naive_solver. Qed.

Lemma int4_ok z x : int4 z = Ok x ↔ x = z ∧ (- 2 ^ 31 ≤ z < 2 ^ 31)%Z.
Proof.
  unfold int4. destruct (Z.leb_spec (- 2 ^ 31) z), (Z.ltb_spec z (2 ^ 31)); simpl;
    split; intros; destruct_and?; simplify_eq; try done; lia.
Qed.
Lemma foreign_key_ok {A} c (p : A → bool) rows x :
  foreign_key c p rows = Ok x ↔ existsb p rows = true.
Proof. unfold foreign_key. destruct x. case_match; naive_solver. Qed.

Lemma update_checked_ok {A} (p : A → bool) f (l l' : list A) n :
  update_checked p f l = Ok (n, l') →
  n = length (List.filter p l) ∧
  Forall2 (λ x x', if p x then f x = Ok x' else x' = x) l l'.
Proof.
  revert n l'. induction l as [|x l IH]; simpl; intros n l' Hr; [by simplify_eq|].
  destruct (p x) eqn:Ep.
  - apply obind_ok in Hr as (x' & Hx & Hr). apply obind_ok in Hr as ([n' l1] & Hl & Hr).
    simplify_eq. apply IH in Hl as [-> Hl]. split; [done|]. constructor; [by rewrite Ep|done].
  - apply obind_ok in Hr as ([n' l1] & Hl & Hr). simplify_eq. apply IH in Hl as [-> Hl].
    split; [done|]. constructor; [by rewrite Ep|done].
Qed.
End constraints.

(** ** Invariants of a transaction

    [safe P]: if the tables satisfy [P] while the transaction is active, they satisfy it
    whenever it is active afterwards. A statement that fails ends the active state, so
    an operation may break [P] between its statements. *)

Section safe.
Context `{Externals} {T : Type}.

Definition safe (P : T → Prop) (c c' : conn T) : Prop :=
  (c_status c = TxActive → P (c_tables c)) → c_status c' = TxActive → P (c_tables c').
#[export] Instance safe_preorder P : PreOrder (safe P).
Proof.
  split.
  - intros c HP Ha. auto.
  - intros c1 c2 c3 H1 H2 HP. apply H2. by apply H1.
Qed.

Lemma exec_spec {A} (f : Z → Uuid → T → outcome sql_error (A * T)) c o c' :
  exec f c = (o, c') →
  (∃ a id, o = Ok a ∧ c_status c = TxActive ∧ c_status c' = TxActive ∧
     f (e_now (c_env c)) id (c_tables c) = Ok (a, c_tables c')) ∨
  (is_ok o = false ∧ c_status c' ≠ TxActive).
Proof.
  unfold exec, pop_fault.
  destruct (c_status c) eqn:Es; [|intros [= <- <-]; right; by rewrite Es..].
  destruct (e_faults (c_env c)) as [|[] fs]; simpl;
    try destruct (f _ _ _) as [[a t]|err|] eqn:Ef; intros [= <- <-]; simpl;
    first [by right | left; eexists _, _; split_and!; [done..|exact Ef]].
Qed.

Lemma fetch_one_spec {A} (f : T → option A) c o c' :
  fetch_one f c = (o, c') →
  (∃ a, o = Ok a ∧ f (c_tables c) = Some a ∧ c_tables c' = c_tables c ∧
     c_status c = TxActive ∧ c_status c' = TxActive) ∨
  (is_ok o = false ∧
     (c_status c' = TxActive → c_tables c' = c_tables c ∧ c_status c = TxActive)).
Proof.
  unfold fetch_one. intros [(a & c1 & H1 & Hr)|[Ho (o1 & H1 & Hno)]]%bind_inv;
    apply exec_spec in H1 as [(b & id & Eb & Hs & Hs' & E)|[Hb Hs]]; simplify_eq.
  - destruct (f (c_tables c)) as [a|] eqn:Ef; injection Hr as <- <-; [left|right]; eauto 10.
  - right. done.
Qed.

Lemma keeps_exec_safe P {A} (f : Z → Uuid → T → outcome sql_error (A * T)) :
  (∀ now id t a t', P t → f now id t = Ok (a, t') → P t') → keeps (safe P) (exec f).
Proof.
  intros Hf c o c' Hr HP Ha. apply exec_spec in Hr as [(a & id & _ & Hs & _ & E)|[_ Hn]]; [|done].
  eapply Hf; [|exact E]. by apply HP.
Qed.
Lemma keeps_query_safe P {A} (f : T → A) : keeps (safe P) (query f).
Proof. apply keeps_exec_safe. by intros now id t a t' HP [= _ <-]. Qed.
Lemma keeps_fetch_one_safe P {A} (f : T → option A) : keeps (safe P) (fetch_one f).
Proof.
  apply keeps_bind; [typeclasses eauto|apply keeps_query_safe|].
  intros [a|]; [apply keeps_ret|apply keeps_fail]; typeclasses eauto.
Qed.
Lemma keeps_now_v7_safe P {E} : keeps (safe P) (now_v7 (T := T) (E := E)).
Proof. intros c o c' [= _ <-]. unfold safe. simpl. auto. Qed.
Lemma keeps_utc_now_safe P {E} : keeps (safe P) (utc_now (T := T) (E := E)).
Proof. intros c o c' [= _ <-]. reflexivity. Qed.

(** What a transaction that keeps [P] does to the committed tables. *)
Lemma with_transaction_safe P {X A} (f : M (conn T) TxError A) (s : db T X) o s' :
  keeps (safe P) f → with_transaction f s = (o, s') → P (d_committed s) → P (d_committed s').
Proof.
  intros Hf Hr HP. apply with_transaction_all_or_nothing in Hr as [_ [->|(e & a & c & Hc & _ & Ha & ->)]];
    [done|]. apply Hf in Hc. by apply Hc.
Qed.
End safe.
#[export] Hint Resolve keeps_query_safe keeps_fetch_one_safe keeps_now_v7_safe keeps_utc_now_safe : keeps.

(** ** Loops that wait: [tokio::select!] over the shutdown, notifications and a timer *)

(** What ends a wait. A listener whose connection is lost is connected anew at once, a missing one
    at every tick of the timer; [reconnected] says whether that worked. *)
Inductive wake : Type :=
| WakeShutdown
| WakeNotified
| WakeListenerError (reconnected : bool)
| WakeTimer (reconnected : bool).
(** [PgListener::connect_with], then [listen]: without both the loop lives on its timer. *)
Definition connect_listener (connected listening : bool) : bool := connected && listening.
(** Whether there is a listener afterwards; without one nothing arrives from it. *)
Definition woken (listener : bool) (w : wake) : option bool :=
  match w with
  | WakeShutdown => None
  | WakeNotified => if listener then Some true else None
  | WakeListenerError reconnected => if listener then Some reconnected else None
  | WakeTimer reconnected => Some (listener || reconnected)
  end.

Section loops.
Context {S : Type}.

(** The [i]-th turn of the loop does [body i]; the shutdown ends the loop, and the list the run. *)
Fixpoint wake_loop (body : nat → M S AppError unit) (i : nat) (listener : bool) (ws : list wake) : M S AppError unit :=
  match ws with
  | [] | WakeShutdown :: _ => mret tt
  | w :: ws =>
      match woken listener w with
      | None => wake_loop body i listener ws
      | Some listener => _ ← body i; wake_loop body (i + 1) listener ws
      end
  end.

Lemma wake_loop_shutdown body i listener ws ws' s :
  wake_loop body i listener (ws ++ WakeShutdown :: ws') s = wake_loop body i listener (ws ++ [WakeShutdown]) s.
Proof.
  revert i listener s. induction ws as [|w ws IH]; intros i listener s; [done|].
  rewrite <-!app_comm_cons. cbn [wake_loop]. destruct w; cbn [woken]; try done; try (destruct listener; [|apply IH]);
    unfold mbind, M_bind; destruct (body i s) as [[u|e|] s1]; try done; apply IH.
Qed.

Lemma keeps_wake_loop R `{!PreOrder R} body i listener ws :
  (∀ i, keeps R (body i)) → keeps R (wake_loop body i listener ws).
Proof.
  intros Hb. revert i listener. induction ws as [|w ws IH]; intros i listener; [by apply keeps_ret|].
  destruct w; cbn [wake_loop woken]; try (by apply keeps_ret);
    try (destruct listener; [|apply IH]); (apply keeps_bind; [done|apply Hb|intros []; apply IH]).
Qed.
End loops.
