(* ===== verification/Requests.v ===== *)
(** * Requests of a service over its database, and their answers (shared/src/responses.rs)

    The services share one shape: a request reads on the pool, checks, and then does one
    transaction, whose error becomes the text of an [InternalServerError]. Such a request is at
    most one step of a machine on the tables ([stepped]), whatever statement is lost. *)

From S2P Require Import Prelude RustStr Externals Errors Db.

Local Open Scope Z_scope.

Create HintDb quiet.

(** ** The answers of the routes *)

Record ApiResponse (A : Type) := { ar_data : A }.
Arguments ar_data {A} _.
Record MessageResponse := { mr_message : string }.
Definition ok_response {A} (data : A) : ApiResponse A := {| ar_data := data |}.
(** A status and its message. *)
Definition success (status : Z) (message : string) : Z * MessageResponse := (status, {| mr_message := message |}).
Definition created (message : string) : Z * MessageResponse := success 201 message.

Section statements.
Context `{Externals} {T : Type}.

(** A row of a query that looks at [NOW()]. *)
Definition fetch_one_at {A} (f : Z → T → option A) : M (conn T) sql_error A :=
  r ← exec (λ now _ t, Ok (f now t, t));
  match r with Some a => mret a | None => fail RowNotFound end.
Definition internal (msg : string) (e : sql_error) : AppError :=
  InternalServerError (msg +:+ sqlx_display e).
Definition not_found (msg : string) (e : sql_error) : AppError := NotFound (msg +:+ sqlx_display e).

(** [assert_eq!(result.rows_affected(), 1, ..)] *)
Definition assert_one (rows_affected : nat) : M (conn T) AppError unit :=
  assert_that (bool_decide (rows_affected = 1%nat)).
(** The same after [if result.rows_affected() == 0 { return Err(..) }]. *)
Definition exactly_one (error : AppError) (rows_affected : nat) : M (conn T) AppError unit :=
  if bool_decide (rows_affected = 0%nat) then fail error else assert_one rows_affected.

(** [.map_err(|e| TxError::Other(e.to_string()))] *)
Definition other {A} (m : M (conn T) AppError A) : M (conn T) TxError A :=
  map_err (λ e, TxOther (app_error_display e)) m.
Definition in_transaction {X A} (msg : string) (f : M (conn T) TxError A) : M (db T X) AppError A :=
  map_err (λ e, InternalServerError (msg +:+ tx_error_display e)) (with_transaction f).

Lemma assert_one_ok n c u c' : assert_one n c = (Ok u, c') → n = 1%nat ∧ c' = c.
Proof. intros [Hb ->]%assert_ok. by apply bool_decide_eq_true in Hb. Qed.
Lemma exactly_one_ok e n c u c' : exactly_one e n c = (Ok u, c') → n = 1%nat ∧ c' = c.
Proof. unfold exactly_one. case_bool_decide; [by intros ?%fail_ok|apply assert_one_ok]. Qed.

Lemma statement_ok {A B} (f : Z → Uuid → T → outcome sql_error (A * T)) g
    (k : A → M (conn T) AppError B) c b c' :
  (x ← map_err g (exec f); k x) c = (Ok b, c') →
  ∃ id a c1, f (e_now (c_env c)) id (c_tables c) = Ok (a, c_tables c1) ∧ c_status c1 = TxActive ∧
    e_now (c_env c1) = e_now (c_env c) ∧ k a c1 = (Ok b, c').
Proof.
  intros (a & c1 & (_ & Hs & Hn & id & E)%map_err_ok%exec_ok & Hr)%bind_ok. eauto 10.
Qed.
Lemma fetch_one_const {A} (f : T → option A) : fetch_one f = fetch_one_at (λ _, f).
Proof. done. Qed.
End statements.

(** ** Code that leaves the tables and the clock alone *)

Section quiet.
Context `{Externals} {T X : Type}.
Implicit Types (s : db T X) (t : T).

Definition quiet s s' : Prop := d_committed s' = d_committed s ∧ e_now (d_env s') = e_now (d_env s).
#[export] Instance quiet_preorder : PreOrder quiet.
Proof. unfold quiet. split; [done|]. intros s1 s2 s3 [??] [??]. split; congruence. Qed.

Lemma quiet_pool {A} (f : Z → T → option A) (g : sql_error → AppError) :
  keeps quiet (on_pool (map_err g (fetch_one_at f))).
Proof.
  intros s o s'. unfold on_pool, map_err, fetch_one_at, quiet, mbind, M_bind, exec, pop_fault. simpl.
  destruct (e_faults (d_env s)) as [|[] fs]; simpl; try (destruct (f _ _)); intros [= <- <-]; done.
Qed.
Lemma quiet_query {A} (f : T → A) (g : sql_error → AppError) : keeps quiet (on_pool (map_err g (query f))).
Proof.
  intros s o s'. unfold on_pool, map_err, query, quiet, exec, pop_fault. simpl.
  destruct (e_faults (d_env s)) as [|[] fs]; simpl; intros [= <- <-]; done.
Qed.
Lemma quiet_zoom {Y E A} (gt : X → Y) (st : Y → X → X) (m : M Y E A) :
  keeps quiet (zoom (λ s, gt (d_ext s)) (λ y s, MkDb (d_committed s) (d_env s) (st y (d_ext s))) m).
Proof. intros s o s'. unfold zoom. destruct (m _) as [o1 y]. by intros [= _ <-]. Qed.
Lemma quiet_lift {E A} (x : outcome E A) : keeps quiet (lift x).
Proof. apply keeps_lift, _. Qed.
Lemma quiet_gets {E A} (f : db T X → A) : keeps quiet (gets (E := E) f).
Proof. apply keeps_gets, _. Qed.
(** A transaction without a statement. *)
Lemma quiet_empty_transaction {A} msg (a : A) : keeps quiet (in_transaction (T := T) (X := X) msg (other (mret a))).
Proof.
  intros s o s'. unfold in_transaction, map_err, with_transaction, begin_tx, commit_tx, pop_fault, quiet. simpl.
  intros Hr. repeat (case_match; simplify_eq/=); done.
Qed.
Lemma quiet_ret {E A} (a : A) : keeps quiet (mret (M := M (db T X) E) a).
Proof. apply keeps_ret, _. Qed.
Lemma quiet_fail {E A} (e : E) : keeps quiet (fail (A := A) e).
Proof. apply keeps_fail, _. Qed.

Lemma pool_read {A} (f : Z → T → option A) (g : sql_error → AppError) s a s' :
  on_pool (map_err g (fetch_one_at f)) s = (Ok a, s') → f (e_now (d_env s)) (d_committed s) = Some a.
Proof.
  intros (c & (r & c1 & (_ & _ & _ & id & E)%exec_ok & Hr)%map_err_ok%bind_ok & _)%on_pool_ok.
  injection E as E _. simpl in E. rewrite E. destruct r as [b|]; [by injection Hr as -> _|done].
Qed.
(** The next statement is lost, before or after it takes effect. *)
Definition next_lost (e : env) : bool := match (pop_fault e).1 with FNone => false | _ => true end.
(** A read that fails has found no row, or was lost. *)
Lemma pool_read_fails {A} (f : T → option A) (g : sql_error → AppError) s e s' :
  on_pool (map_err g (fetch_one f)) s = (Err e, s') → f (d_committed s) = None ∨ next_lost (d_env s) = true.
Proof.
  unfold on_pool, map_err, fetch_one, query, exec, mbind, M_bind, next_lost. simpl.
  destruct (pop_fault (d_env s)) as [[] env]; simpl; [|by right..].
  destruct (f (d_committed s)); simpl; [done|by left].
Qed.
Lemma pool_query {A} (f : T → A) (g : sql_error → AppError) s a s' :
  on_pool (map_err g (query f)) s = (Ok a, s') → a = f (d_committed s).
Proof. by intros (c & (-> & _ & _)%map_err_ok%query_ok & _)%on_pool_ok. Qed.

(** What a transaction of a service does, when its body does [P]. *)
Lemma in_transaction_effect {A} (P : T → Prop) msg (f : M (conn T) TxError A) s o s' :
  (∀ e a c, e_now e = e_now (d_env s) → f (MkConn (d_committed s) TxActive e) = (Ok a, c) →
     c_status c = TxActive ∧ P (c_tables c)) →
  in_transaction msg f s = (o, s') →
  (d_committed s' = d_committed s ∨ P (d_committed s')) ∧ (is_ok o = true → P (d_committed s')).
Proof.
  intros Hf. unfold in_transaction, map_err. destruct (with_transaction f s) as [o1 s1] eqn:Er.
  intros [= <- <-]. split.
  - apply with_transaction_all_or_nothing in Er as [_ [->|(e & a & c & Hc & He & _ & ->)]]; [auto|].
    right. by eapply Hf.
  - destruct o1 as [a|e|]; try done. intros _.
    apply with_transaction_ok in Er as (e & c & Hc & He & _ & _ & Hst).
    destruct (Hf e a c He Hc) as [Ha HP]. destruct Hst as [[_ ->]|[Hst _]]; [done|congruence].
Qed.
End quiet.
#[export] Hint Resolve quiet_pool quiet_query quiet_zoom quiet_lift quiet_gets quiet_ret quiet_fail
  quiet_empty_transaction : quiet.
(** Operations that are one of these after unfolding. *)
#[export] Hint Extern 5 (keeps quiet _) => first [apply quiet_pool|apply quiet_query|apply quiet_gets] : quiet.

(** ** At most one step *)

Section stepped.
Context `{Externals} {T X B : Type} (effect : Z → T → T → Prop) (silent : bool).
Implicit Types (s : db T X) (t : T) (o : outcome AppError B).

(** The tables are the old ones or one step away; after a success they took the step, unless
    the request may succeed without one. *)
Definition stepped s o s' : Prop :=
  let step := effect (e_now (d_env s)) (d_committed s) (d_committed s') in
  (d_committed s' = d_committed s ∨ step) ∧
  (is_ok o = true → step ∨ (silent = true ∧ d_committed s' = d_committed s)).

Lemma stepped_quiet s o s' : quiet s s' → is_ok o = false ∨ silent = true → stepped s o s'.
Proof. intros [Hs _] Ho. split; [by left|]. intros Hok. destruct Ho as [Ho|Ho]; [congruence|auto]. Qed.
Lemma stepped_from s s1 o s' : quiet s s1 → stepped s1 o s' → stepped s o s'.
Proof. unfold stepped. by intros [-> ->]. Qed.

(** A part that leaves the tables alone, and what follows it. *)
Lemma stepped_bind {A} (m : M (db T X) AppError A) k s o s' :
  keeps quiet m → (m ≫= k) s = (o, s') →
  (∀ a s1, m s = (Ok a, s1) → quiet s s1 → k a s1 = (o, s') → stepped s o s') →
  stepped s o s'.
Proof.
  intros Hm Hr Hk. apply bind_cases in Hr as [(a & s1 & Ha & Hr)|[(e & -> & Ha)|[-> Ha]]];
    pose proof Ha as Hq; apply Hm in Hq; [by eapply Hk|apply stepped_quiet; auto..].
Qed.

(** The transaction of a request, and what follows it and leaves the tables alone. *)
Lemma stepped_transaction {A} msg (f : M (conn T) TxError A) k s s1 o s' :
  quiet s s1 →
  (∀ e a c, e_now e = e_now (d_env s) → f (MkConn (d_committed s) TxActive e) = (Ok a, c) →
     c_status c = TxActive ∧ effect (e_now (d_env s)) (d_committed s) (c_tables c)) →
  (∀ a, keeps quiet (k a)) → (in_transaction msg f ≫= k) s1 = (o, s') → stepped s o s'.
Proof.
  intros [Hc Hn] Hf Hk Hr.
  assert (∀ (o1 : outcome AppError A) s2, in_transaction msg f s1 = (o1, s2) →
    (d_committed s2 = d_committed s ∨ effect (e_now (d_env s)) (d_committed s) (d_committed s2)) ∧
    (is_ok o1 = true → effect (e_now (d_env s)) (d_committed s) (d_committed s2))) as Htx.
  { intros o1 s2 Ht. rewrite <-Hc at 1. eapply in_transaction_effect; [|exact Ht]. by rewrite Hc, Hn. }
  apply bind_cases in Hr as [(a & s2 & Ha & Hr)|[(e & -> & Ha)|[-> Ha]]]; apply Htx in Ha as [H1 H2].
  - apply Hk in Hr as [Hs _]. unfold stepped. rewrite Hs. split; [exact H1|]. intros _. left. by apply H2.
  - split; [exact H1|done].
  - split; [exact H1|done].
Qed.

(** The same with the state at the beginning kept. *)
Lemma stepped_bind_at {A} (m : M (db T X) AppError A) k s s1 o s' :
  quiet s s1 → keeps quiet m → (m ≫= k) s1 = (o, s') →
  (∀ a s2, m s1 = (Ok a, s2) → quiet s s2 → k a s2 = (o, s') → stepped s o s') →
  stepped s o s'.
Proof.
  intros Hq Hm Hr Hk. apply (stepped_from _ s1); [done|]. eapply stepped_bind; [done|exact Hr|].
  intros a s2 Ha Hq2 Hr2. destruct Hq as [Hc Hn]. unfold stepped. rewrite Hc, Hn.
  eapply Hk; [exact Ha| |exact Hr2]. etrans; [split; [exact Hc|exact Hn]|done].
Qed.

(** A transaction of one statement. *)
Lemma stepped_statement {A} msg (f : Z → Uuid → T → outcome sql_error (A * T)) g k s s1 o s' :
  quiet s s1 →
  (∀ id a t', f (e_now (d_env s)) id (d_committed s) = Ok (a, t') → effect (e_now (d_env s)) (d_committed s) t') →
  (∀ a, keeps quiet (k a)) → (in_transaction msg (other (map_err g (exec f))) ≫= k) s1 = (o, s') →
  stepped s o s'.
Proof.
  intros Hq Hf Hk. apply stepped_transaction; [done| |done].
  intros e a c He (_ & Hs & _ & id & E)%map_err_ok%map_err_ok%exec_ok. simpl in E. rewrite He in E. eauto.
Qed.
(** One that has to affect one row. *)
Lemma stepped_one_row msg (f : Z → Uuid → T → outcome sql_error (nat * T)) g error k s s1 o s' :
  quiet s s1 →
  (∀ id t', f (e_now (d_env s)) id (d_committed s) = Ok (1%nat, t') → effect (e_now (d_env s)) (d_committed s) t') →
  (∀ a, keeps quiet (k a)) →
  (in_transaction msg (other (n ← map_err g (exec f); exactly_one error n)) ≫= k) s1 = (o, s') →
  stepped s o s'.
Proof.
  intros Hq Hf Hk. apply stepped_transaction; [done| |done].
  intros e a c He Hc. apply map_err_ok, statement_ok in Hc as (id & n & c2 & E & Hs & Hn & Ha).
  apply exactly_one_ok in Ha as [-> ->]. simpl in E. rewrite He in E. eauto.
Qed.
End stepped.

(** A request whose result is dropped. *)
Lemma stepped_drop `{Externals} {T X B} effect silent (m : M (db T X) AppError B) s o s' :
  (∀ o1 s1, m s = (o1, s1) → stepped effect silent s o1 s1) →
  (_ ← m; mret tt) s = (o, s') → stepped effect silent s o s'.
Proof.
  intros Hm Hr. apply bind_cases in Hr as [(a & s1 & Ha & [= <- <-])|[(e & -> & Ha)|[-> Ha]]];
    by apply Hm in Ha.
Qed.

(** Reads of the tables of an earlier state. *)
Lemma pool_read_at `{Externals} {T X A} (f : Z → T → option A) (g : sql_error → AppError) (s s1 : db T X) a s' :
  quiet s s1 → on_pool (map_err g (fetch_one_at f)) s1 = (Ok a, s') → f (e_now (d_env s)) (d_committed s) = Some a.
Proof. intros [<- <-]. apply pool_read. Qed.
Lemma pool_query_at `{Externals} {T X A} (f : T → A) (g : sql_error → AppError) (s s1 : db T X) a s' :
  quiet s s1 → on_pool (map_err g (query f)) s1 = (Ok a, s') → a = f (d_committed s).
Proof. intros [<- _]. apply pool_query. Qed.
Lemma bind_ret_same {S E B} (m : M S E B) s : (m ≫= mret) s = m s.
Proof. unfold mbind, M_bind. by destruct (m s) as [[a|e|] s1]. Qed.

(** A quiet first part: its result, and the rest from the state after it. *)
Ltac quiet_step H a Ha :=
  let s1 := fresh "s" in let Hq := fresh "Hq" in let Hr := fresh "Hr" in
  eapply stepped_bind;
  [|exact H|intros a s1 Ha Hq Hr; clear H; rename Hr into H; apply (stepped_from _ _ _ s1 _ _ Hq)];
  [solve [auto with quiet]|].

(** A quiet first part, seen from the state at the beginning: [Hq] relates it to the current
    state, and then to the state after the part. *)
Ltac quiet_part Hq H a Ha :=
  let s1 := fresh "s" in let Hq1 := fresh "Hq" in let Hr := fresh "Hr" in
  eapply (stepped_bind_at _ _ _ _ _ _ _ _ Hq);
  [|exact H|intros a s1 Ha Hq1 Hr; clear H; rename Hr into H];
  [solve [auto with quiet]|].

(** Programs made of quiet parts. *)
Ltac quiet_tac :=
  repeat match goal with
    | |- keeps _ (_ ≫= _) => apply keeps_bind; [apply _| |intros]
    | |- keeps _ (catch _ _ _) => apply keeps_catch; [apply _| |intros..]
    | |- keeps _ (match _ with _ => _ end) => case_match
    | _ => progress auto with quiet
    end.

(** ** When nothing is lost *)

Section calm.
Context `{Externals} {T X : Type}.
Implicit Types (s : db T X).

Definition calm_rel (c c' : conn T) : Prop := e_faults (c_env c) = [] → e_faults (c_env c') = [].
#[export] Instance calm_rel_preorder : PreOrder calm_rel.
Proof. unfold calm_rel. split; [by intros c ?|]. intros c1 c2 c3; auto. Qed.
Lemma keeps_calm_exec {A} (f : Z → Uuid → T → outcome sql_error (A * T)) : keeps calm_rel (exec f).
Proof.
  intros c o c' Hr Hc. unfold exec, pop_fault in Hr. rewrite Hc in Hr.
  destruct (c_status c); repeat case_match; by simplify_eq/=.
Qed.

(** A transaction whose connection survives: it reports what it did. *)
Lemma in_transaction_calm {A} msg (f : M (conn T) TxError A) s o s' :
  e_faults (d_env s) = [] → keeps calm_rel f → in_transaction msg f s = (o, s') →
  e_faults (d_env s') = [] ∧ d_ext s' = d_ext s ∧ (is_ok o = false → d_committed s' = d_committed s).
Proof.
  intros Hf Hk. unfold in_transaction, map_err, with_transaction, begin_tx, pop_fault. rewrite Hf.
  destruct (f _) as [o1 c] eqn:Ef. apply Hk in Ef. specialize (Ef Hf).
  unfold commit_tx, rollback_tx, pop_fault. rewrite Ef.
  destruct o1, (c_status c); intros [= <- <-]; by split_and!.
Qed.

Lemma pool_read_calm {A} (f : T → option A) (g : sql_error → AppError) s :
  e_faults (d_env s) = [] →
  ∃ s', on_pool (map_err g (fetch_one f)) s =
    (match f (d_committed s) with Some a => Ok a | None => Err (g RowNotFound) end, s') ∧
    d_committed s' = d_committed s ∧ d_ext s' = d_ext s ∧
    e_now (d_env s') = e_now (d_env s) ∧ e_faults (d_env s') = [].
Proof.
  intros Hf. unfold on_pool, map_err, fetch_one, query, exec, pop_fault, mbind, M_bind. simpl. rewrite Hf.
  simpl. destruct (f _); eexists; by split_and!.
Qed.
Lemma pool_query_calm {A} (f : T → A) (g : sql_error → AppError) s :
  e_faults (d_env s) = [] →
  ∃ s', on_pool (map_err g (query f)) s = (Ok (f (d_committed s)), s') ∧
    d_committed s' = d_committed s ∧ d_ext s' = d_ext s ∧
    e_now (d_env s') = e_now (d_env s) ∧ e_faults (d_env s') = [].
Proof.
  intros Hf. unfold on_pool, map_err, query, exec, pop_fault. simpl. rewrite Hf.
  simpl. eexists; by split_and!.
Qed.

(** One statement on a connection that works. *)
Lemma exec_calm {A} (f : Z → Uuid → T → outcome sql_error (A * T)) (c : conn T) :
  c_status c = TxActive → e_faults (c_env c) = [] →
  exec f c = match f (e_now (c_env c)) (uuid_gen (e_next (c_env c))) (c_tables c) with
             | Ok (a, t) => (Ok a, MkConn t TxActive (bump (c_env c)))
             | Err e => (Err e, MkConn (c_tables c) TxFailed (bump (c_env c)))
             | Panic => (Panic, MkConn (c_tables c) TxFailed (bump (c_env c)))
             end.
Proof. intros Hs Hf. unfold exec, pop_fault. rewrite Hs, Hf. by destruct (f _ _ _) as [[a t]|e|]. Qed.

(** A transaction of one statement that affects one row. *)
Lemma one_row_calm msg (f : Z → Uuid → T → outcome sql_error (nat * T)) g error s t' :
  e_faults (d_env s) = [] → (∀ id, f (e_now (d_env s)) id (d_committed s) = Ok (1%nat, t')) →
  ∃ s', in_transaction msg (other (n ← map_err g (exec f); exactly_one error n)) s = (Ok tt, s') ∧
    d_committed s' = t' ∧ d_ext s' = d_ext s ∧ e_faults (d_env s') = [] ∧ e_now (d_env s') = e_now (d_env s).
Proof.
  intros Hf Hx. unfold in_transaction, with_transaction, begin_tx, pop_fault, other, map_err. rewrite Hf.
  unfold mbind, M_bind. rewrite exec_calm by done. simpl. rewrite Hx. simpl.
  unfold exactly_one, assert_one, assert_that, commit_tx, pop_fault. simpl. rewrite Hf. by eexists.
Qed.
End calm.
#[export] Hint Resolve keeps_calm_exec : keeps.
