(* ===== verification/Outbox.v ===== *)
(** * The outbox and processed-event tables
    (shared/src/outbox/repository.rs, processed.rs, types.rs)

    Every service database has these two tables; [OutboxTables] is the interface
    through which the shared code reads and writes them. The clock counts
    microseconds. *)

From S2P Require Import Prelude RustStr Externals Errors Events Db.

Local Open Scope Z_scope.

Inductive OutboxStatus : Type := Pending | Published | FailedStatus.
#[export] Instance OutboxStatus_eq_dec : EqDecision OutboxStatus.
Proof. solve_decision. Defined.
Definition outbox_status_str (s : OutboxStatus) : string :=
  match s with Pending => "pending" | Published => "published" | FailedStatus => "failed" end.

Definition second : Z := 1000000.

Section tables.
Context `{Externals}.

Record OutboxEvent := {
  oe_id : Uuid;
  oe_created_at : Z;
  oe_aggregate_type : string;
  oe_aggregate_id : Uuid;
  oe_event_type : string;
  oe_event_id : Uuid;
  oe_topic : string;
  oe_partition_key : string;
  oe_payload : Value;
  oe_metadata : option Value;
  oe_status : OutboxStatus;
  oe_published_at : option Z;
  oe_locked_by : option string;
  oe_locked_at : option Z;
  oe_retry_count : Z;
  oe_max_retries : Z;
  oe_last_error : option string;
  oe_next_retry_at : Z;
}.

(** A row of [processed_events]; its primary key is (event_id, consumer_group). *)
Record ProcessedEvent := {
  pe_event_id : Uuid;
  pe_event_type : string;
  pe_source_service : string;
  pe_consumer_group : string;
  pe_processed_at : Z;
}.

(** The tables a service database must have. *)
Class OutboxTables (T : Type) := {
  outbox_events : T → list OutboxEvent;
  set_outbox_events : list OutboxEvent → T → T;
  processed_events : T → list ProcessedEvent;
  set_processed_events : list ProcessedEvent → T → T;
  outbox_set t l : outbox_events (set_outbox_events l t) = l;
  processed_set t l : processed_events (set_processed_events l t) = l;
  outbox_set_processed t l : outbox_events (set_processed_events l t) = outbox_events t;
  processed_set_outbox t l : processed_events (set_outbox_events l t) = processed_events t;
}.
End tables.

Section outbox.
Context `{Externals} {T : Type} `{!OutboxTables T}.

Definition internal_err (e : sql_error) : AppError := InternalServerError (sqlx_display e).

Definition MAX_PAYLOAD_BYTES : Z := 900000.

(** The row [INSERT INTO outbox_events] creates from the bound columns and the
    column defaults of the migration. *)
Definition new_outbox_row (now : Z) (id : Uuid) (i : OutboxInsert) : OutboxEvent := {|
  oe_id := id; oe_created_at := now;
  oe_aggregate_type := oi_aggregate_type i; oe_aggregate_id := oi_aggregate_id i;
  oe_event_type := oi_event_type i; oe_event_id := oi_event_id i;
  oe_topic := oi_topic i; oe_partition_key := oi_partition_key i;
  oe_payload := oi_payload i; oe_metadata := oi_metadata i;
  oe_status := Pending; oe_published_at := None; oe_locked_by := None; oe_locked_at := None;
  oe_retry_count := 0; oe_max_retries := 10; oe_last_error := None; oe_next_retry_at := now |}.

Definition insert_outbox_row (i : OutboxInsert) (now : Z) (id : Uuid) (t : T)
    : outcome sql_error (OutboxEvent * T) :=
  let rows := outbox_events t in
  let row := new_outbox_row now id i in
  if existsb (λ r, bool_decide (oe_id r = id)) rows then
    Err (UniqueViolation "outbox_events_pkey")
  else if existsb (λ r, bool_decide (oe_event_id r = oi_event_id i)) rows then
    Err (UniqueViolation "outbox_events_event_id_key")
  else Ok (row, set_outbox_events (rows ++ [row]) t).

Definition insert_outbox_event (i : OutboxInsert) : M (conn T) AppError OutboxEvent :=
  let payload_bytes := Z.of_nat (str_len (json_to_string (oi_payload i))) in
  if MAX_PAYLOAD_BYTES <? payload_bytes then
    fail (BadRequest ("Outbox payload too large: " +:+ pretty payload_bytes +:+
            " bytes exceeds " +:+ pretty MAX_PAYLOAD_BYTES +:+ " byte limit"))
  else map_err internal_err (exec (insert_outbox_row i)).

(** Announcing an event: [EventMetadata::new(..)] with the application's clock and
    generator, and the insertion of its envelope. *)
Definition write_event (topic : string) (event_type : EventType) (agg : AggregateType)
    (agg_id : Uuid) (src : SourceService) (causation : option Uuid) (payload : Value)
    : M (conn T) AppError unit :=
  event_id ← now_v7;
  now ← utc_now;
  let m := EventMetadata_new event_id now event_type agg agg_id src in
  let m := match causation with Some c => with_causation_id m c | None => m end in
  _ ← insert_outbox_event (from_envelope topic (EventEnvelope_new m payload));
  mret tt.

(** ** Processed events *)

Definition is_processed_row (event_id : Uuid) (group : string) (r : ProcessedEvent) : bool :=
  bool_decide (pe_event_id r = event_id) && bool_decide (pe_consumer_group r = group).
Definition processed (t : T) (event_id : Uuid) (group : string) : bool :=
  existsb (is_processed_row event_id group) (processed_events t).

Definition is_event_processed (event_id : Uuid) (group : string) : M (conn T) AppError bool :=
  map_err internal_err (query (λ t, processed t event_id group)).

(** [ON CONFLICT (event_id, consumer_group) DO NOTHING] *)
Definition mark_processed_row (event_id : Uuid) (event_type source group : string)
    (now : Z) (t : T) : T :=
  if processed t event_id group then t
  else set_processed_events (processed_events t ++ [{|
    pe_event_id := event_id; pe_event_type := event_type; pe_source_service := source;
    pe_consumer_group := group; pe_processed_at := now |}]) t.

Definition mark_event_processed (event_id : Uuid) (event_type source group : string)
    : M (conn T) AppError unit :=
  map_err internal_err
    (exec (λ now _ t, Ok (tt, mark_processed_row event_id event_type source group now t))).

(** Delete the first [n] rows a predicate selects ([DELETE .. WHERE .. LIMIT n]);
    the number of deleted rows is the answer. *)
Fixpoint delete_upto {A} (n : nat) (p : A → bool) (l : list A) : list A * nat :=
  match n, l with
  | 0%nat, _ => (l, 0%nat)
  | _, [] => ([], 0%nat)
  | S n', x :: l =>
      if p x then let '(l', k) := delete_upto n' p l in (l', S k)
      else let '(l', k) := delete_upto n p l in (x :: l', k)
  end.

Definition cleanup_processed_events (max_age_secs : Z) : M (conn T) AppError nat :=
  map_err internal_err (exec (λ now _ t,
    let '(l, k) := delete_upto 1000
      (λ r, pe_processed_at r <? now - max_age_secs * second) (processed_events t) in
    Ok (k, set_processed_events l t))).

(** ** Facts *)

Lemma delete_upto_spec {A} (p : A → bool) : ∀ n l l' k, delete_upto n p l = (l', k) →
  length l = (length l' + k)%nat ∧
  List.filter (λ x, negb (p x)) l' = List.filter (λ x, negb (p x)) l ∧
  (k = 0%nat → n ≠ 0%nat → l' = l ∧ List.filter (λ x, negb (p x)) l = l).
Proof.
  intros n l. revert n. induction l as [|x l IH]; intros [|n] l' k Hd; simpl in Hd;
    [simplify_eq; split_and!; simpl; (lia || done)..|]. destruct (p x) eqn:Ep.
  - destruct (delete_upto n p l) as [l1 j] eqn:E. injection Hd as <- <-.
    apply IH in E as (El & Ef & _). simpl. rewrite Ep. simpl. split_and!; [lia|done|done].
  - destruct (delete_upto (S n) p l) as [l1 j] eqn:E. injection Hd as <- <-.
    apply IH in E as (El & Ef & Ez). simpl. rewrite Ep. simpl. split_and!; [lia|by f_equal|].
    intros ->. intros _. destruct (Ez eq_refl) as [-> ->]; done.
Qed.

Lemma mark_processed_row_processed id ty src g now t :
  processed (mark_processed_row id ty src g now t) id g = true.
Proof.
  unfold mark_processed_row. destruct (processed t id g) eqn:E; [done|].
  unfold processed. rewrite processed_set, existsb_app. simpl.
  unfold is_processed_row at 2. simpl. rewrite !bool_decide_true by done.
  by rewrite orb_true_r.
Qed.

Lemma mark_processed_row_outbox id ty src g now t :
  outbox_events (mark_processed_row id ty src g now t) = outbox_events t.
Proof.
  unfold mark_processed_row. destruct (processed t id g); [done|]. apply outbox_set_processed.
Qed.

Lemma insert_outbox_event_ok i c r c' :
  insert_outbox_event i c = (Ok r, c') →
  c_tables c' = set_outbox_events (outbox_events (c_tables c) ++ [r]) (c_tables c) ∧
  c_status c' = TxActive ∧ e_now (c_env c') = e_now (c_env c) ∧
  ∃ id, r = new_outbox_row (e_now (c_env c)) id i.
Proof.
  unfold insert_outbox_event. intros Hr. inv_ok Hr.
  apply exec_ok in Hr as (_ & Hs & Hn & id & E).
  unfold insert_outbox_row in E. repeat case_match; simplify_eq. eauto 6.
Qed.

(** Sending the same event twice is rejected by the unique event id. *)
Lemma insert_outbox_row_duplicate i now id t :
  oi_event_id i ∈ oe_event_id <$> outbox_events t →
  ∃ e, insert_outbox_row i now id t = Err e.
Proof.
  intros (r & Hr & Hin)%list_elem_of_fmap. unfold insert_outbox_row.
  case_match; [eauto|].
  assert (existsb (λ r, bool_decide (oe_event_id r = oi_event_id i)) (outbox_events t) = true)
    as ->; [|eauto].
  apply existsb_exists. exists r. split; [by apply list_elem_of_In|]. by apply bool_decide_true.
Qed.

(** A pending outbox row for an event of a service about an aggregate. *)
Definition event_row (topic : string) (ty : EventType) (agg_id : Uuid) (src : SourceService)
    (payload : Value) (r : OutboxEvent) : Prop :=
  oe_event_type r = event_type_str ty ∧ oe_aggregate_id r = agg_id ∧ oe_topic r = topic ∧
  oe_status r = Pending ∧ oe_partition_key r = uuid_to_string agg_id ∧
  ∃ m, oe_payload r = envelope_to_value (EventEnvelope_new m payload) ∧
    em_event_type m = ty ∧ em_aggregate_id m = agg_id ∧ em_source_service m = src.

Lemma write_event_ok topic ty agg id src causation payload c u c' :
  write_event topic ty agg id src causation payload c = (Ok u, c') →
  ∃ r, c_tables c' = set_outbox_events (outbox_events (c_tables c) ++ [r]) (c_tables c) ∧
    event_row topic ty id src payload r ∧ c_status c' = TxActive ∧
    e_now (c_env c') = e_now (c_env c).
Proof.
  unfold write_event. intros Hr.
  apply bind_ok in Hr as (eid & c1 & H1 & Hr). apply now_v7_ok in H1 as [Ht1 Hn1].
  apply bind_ok in Hr as (now & c2 & H2 & Hr). apply gets_ok in H2 as [_ <-].
  apply bind_ok in Hr as (r & c3 & H3 & Hr). apply ret_ok in Hr as [_ <-].
  apply insert_outbox_event_ok in H3 as (Ht3 & Hs3 & Hn3 & i & ->). rewrite Ht1, Hn1 in *.
  eexists. split_and!; [exact Ht3| |done|done].
  unfold event_row. simpl. destruct causation; simpl; split_and!; eauto 10.
Qed.

Lemma keeps_insert_outbox_event R `{!PreOrder R} i :
  (∀ t l, R t (set_outbox_events (outbox_events t ++ l) t)) →
  keeps (tables_rel R) (insert_outbox_event i).
Proof.
  intros HR. unfold insert_outbox_event. case_match; [keeps_tac|].
  apply keeps_map_err, keeps_exec; [typeclasses eauto|].
  intros now id t a t'. unfold insert_outbox_row. repeat case_match; intros; by simplify_eq.
Qed.

Lemma keeps_write_event R `{!PreOrder R} topic ty agg id src cause payload :
  (∀ t l, R t (set_outbox_events (outbox_events t ++ l) t)) →
  keeps (tables_rel R) (write_event topic ty agg id src cause payload).
Proof.
  intros HR. unfold write_event.
  apply keeps_bind; [typeclasses eauto|by apply keeps_now_v7|intros eid].
  apply keeps_bind; [typeclasses eauto|by apply keeps_utc_now|intros now].
  apply keeps_bind; [typeclasses eauto|by apply keeps_insert_outbox_event|].
  intros _. apply keeps_ret. typeclasses eauto.
Qed.

Lemma keeps_write_event_safe (P : T → Prop) topic ty agg id src cause payload :
  (∀ t l, P t → P (set_outbox_events l t)) →
  keeps (safe P) (write_event topic ty agg id src cause payload).
Proof.
  intros HP. unfold write_event.
  apply keeps_bind; [typeclasses eauto|apply keeps_now_v7_safe|intros eid].
  apply keeps_bind; [typeclasses eauto|apply keeps_utc_now_safe|intros now].
  apply keeps_bind; [typeclasses eauto| |intros _; apply keeps_ret; typeclasses eauto].
  unfold insert_outbox_event. case_match; [apply keeps_fail; typeclasses eauto|].
  apply keeps_map_err, keeps_exec_safe.
  intros now' i t a t' Ht. unfold insert_outbox_row. repeat case_match; intros; simplify_eq; auto.
Qed.
End outbox.
