(* ===== verification/Consumer.v ===== *)
(** * The Kafka event consumer (shared/src/events/consumer.rs, metrics.rs)

    One message is taken through deserialization, the retry loop and, when the
    handler gives up, the dead-letter queue. Every attempt has its own transaction,
    in which the handler's writes and the processed-event marker are committed
    together. The offset is committed when the message is accounted for. *)

From S2P Require Import Prelude RustStr Externals Errors Events Db Outbox.

Local Open Scope Z_scope.

Inductive HandlerError : Type := Transient (msg : string) | Permanent (msg : string).
Definition is_transient (e : HandlerError) : bool :=
  match e with Transient _ => true | Permanent _ => false end.
Definition handler_error_display (e : HandlerError) : string :=
  match e with
  | Transient m => "transient: " +:+ m
  | Permanent m => "permanent: " +:+ m
  end.
(** [impl From<AppError> for HandlerError] *)
Definition handler_of_app (e : AppError) : HandlerError := Transient (app_error_display e).

(** ** The session of a handler

    A handler holds the consumer's transaction; it may also read through the pool, on
    another connection that sees the committed tables, and call services outside the
    database. *)

Record session (T X : Type) := MkSession {
  s_conn : conn T; s_committed : T; s_ext : X }.
Arguments MkSession {T X} _ _ _.
Arguments s_conn {T X} _.
Arguments s_committed {T X} _.
Arguments s_ext {T X} _.

Section session.
Context {T X : Type}.

Definition s_env (s : session T X) : env := c_env (s_conn s).
Definition set_conn_env (e : env) (c : conn T) : conn T :=
  MkConn (c_tables c) (c_status c) e.

Definition in_tx {E A} (m : M (conn T) E A) : M (session T X) E A :=
  zoom s_conn (λ c s, MkSession c (s_committed s) (s_ext s)) m.
Definition in_pool {E A} (m : M (conn T) E A) : M (session T X) E A := λ s,
  let '(o, c) := m (MkConn (s_committed s) TxActive (s_env s)) in
  (o, MkSession (set_conn_env (c_env c) (s_conn s)) (c_tables c) (s_ext s)).
(** Code that runs on the pool with transactions of its own. *)
Definition in_service {E A} (m : M (db T X) E A) : M (session T X) E A := λ s,
  let '(o, d) := m (MkDb (s_committed s) (s_env s) (s_ext s)) in
  (o, MkSession (set_conn_env (d_env d) (s_conn s)) (d_committed d) (d_ext d)).
Definition in_ext {E A} (m : M X E A) : M (session T X) E A :=
  zoom s_ext (λ x s, MkSession (s_conn s) (s_committed s) x) m.
End session.

(** ** Configuration (shared/src/config/consumer_config.rs)

    Durations are in milliseconds; the delays are the values of [as_millis]. *)

Record ConsumerConfig := {
  group_id : string;
  topics : list string;
  max_retries : nat;
  retry_base_delay : Z;
  retry_max_delay : Z;
  dlq_topic_override : option string;
  session_timeout : Z;
  auto_create_dlq_topics : bool;
  processed_events_cleanup_interval : Z;
  processed_events_max_age : Z;
}.

Definition ConsumerConfig_new (group : string) (ts : list string) : ConsumerConfig := {|
  group_id := group; topics := ts; max_retries := 3; retry_base_delay := 1000;
  retry_max_delay := 30000; dlq_topic_override := None; session_timeout := 30000;
  auto_create_dlq_topics := true; processed_events_cleanup_interval := 3600 * 1000;
  processed_events_max_age := 7 * 24 * 3600 * 1000 |}.

Definition u64_max : Z := 2 ^ 64 - 1.
Definition as_u64_cast (z : Z) : Z := z mod 2 ^ 64.
Definition saturating_mul (a b : Z) : Z := Z.min (a * b) u64_max.

Definition dlq_topic_for (cfg : ConsumerConfig) (source_topic : string) : string :=
  match dlq_topic_override cfg with
  | Some t => t
  | None => source_topic +:+ ".dlq"
  end.

(** The delay before the retry that follows attempt number [attempt], in ms. *)
Definition calculate_backoff (cfg : ConsumerConfig) (attempt : nat) : Z :=
  let base_ms := as_u64_cast (retry_base_delay cfg) in
  let delay_ms := saturating_mul base_ms (Z.shiftl 1 (Z.of_nat (attempt `min` 10))) in
  let max_ms := as_u64_cast (retry_max_delay cfg) in
  Z.min delay_ms max_ms.

(** ** Metrics: relaxed 64-bit counters, which wrap around *)

Record ConsumerMetricsCollector := {
  events_processed : Z; events_skipped : Z; events_sent_to_dlq : Z; events_dlq_failed : Z;
  events_db_error : Z; events_deser_failed : Z; events_retried : Z;
  processing_duration_us : Z }.

Definition fetch_add (c n : Z) : Z := (c + n) mod 2 ^ 64.

Inductive metric : Type :=
| MSuccess | MSkipped | MDlq | MDlqFailed | MDbError | MDeserFailed.
#[export] Instance metric_eq_dec : EqDecision metric.
Proof. solve_decision. Defined.

(** [record_success], [record_skipped], [record_dlq], [record_dlq_failed],
    [record_db_error], [record_deser_failed]: one counter each, and the elapsed time. *)
Definition record_metric (k : metric) (elapsed_us : Z) (m : ConsumerMetricsCollector)
    : ConsumerMetricsCollector :=
  let add (k' : metric) (c : Z) := if decide (k = k') then fetch_add c 1 else c in
  {| events_processed := add MSuccess (events_processed m);
     events_skipped := add MSkipped (events_skipped m);
     events_sent_to_dlq := add MDlq (events_sent_to_dlq m);
     events_dlq_failed := add MDlqFailed (events_dlq_failed m);
     events_db_error := add MDbError (events_db_error m);
     events_deser_failed := add MDeserFailed (events_deser_failed m);
     events_retried := events_retried m;
     processing_duration_us :=
       fetch_add (processing_duration_us m) (as_u64_cast elapsed_us) |}.

Definition record_retry (m : ConsumerMetricsCollector) : ConsumerMetricsCollector :=
  {| events_processed := events_processed m; events_skipped := events_skipped m;
     events_sent_to_dlq := events_sent_to_dlq m; events_dlq_failed := events_dlq_failed m;
     events_db_error := events_db_error m; events_deser_failed := events_deser_failed m;
     events_retried := fetch_add (events_retried m) 1;
     processing_duration_us := processing_duration_us m |}.

(** [total_events] of a snapshot, before its 64-bit sum can overflow. *)
Definition total_events (m : ConsumerMetricsCollector) : Z :=
  events_processed m + events_skipped m + events_sent_to_dlq m + events_dlq_failed m +
  events_db_error m + events_deser_failed m.

(** ** Processing a message *)

Inductive AttemptResult : Type :=
| Committed | AlreadyProcessed | AttemptDbError
| PermanentFailure (err : string) | TransientFailure (err : string).

Inductive ProcessResult : Type :=
| Success | Skipped | SentToDlq | DlqFailed | ProcessDbError.
#[export] Instance ProcessResult_eq_dec : EqDecision ProcessResult.
Proof. solve_decision. Defined.

Section consumer.
Context `{Externals} {T X : Type} `{!OutboxTables T}.

(** [EventHandler::handle]. *)
Definition handler : Type := EventEnvelope → M (session T X) HandlerError unit.

(** The bytes of a message: the JSON text of a value, or bytes that are not JSON. *)
Inductive payload_bytes : Type := PJson (v : Value) | PRaw (b : string).

Record message := {
  msg_topic : string; msg_partition : Z; msg_offset : Z; msg_payload : payload_bytes }.

(** [serde_json::from_slice::<EventEnvelope>] *)
Definition from_slice (p : payload_bytes) : option EventEnvelope :=
  match p with PJson v => envelope_of_value v | PRaw _ => None end.

(** What is published to a dead-letter topic. *)
Record dlq_record := {
  dr_topic : string; dr_key : option string; dr_payload : payload_bytes;
  dlq_reason : string; dlq_retry_count : nat; dlq_original_topic : string;
  dlq_timestamp : Z; dlq_consumer_group : string }.

(** The consumer's world: the service's database, the broker's dead-letter log with
    the faults of its producer, the committed offsets, the metrics, and whether a
    shutdown is requested during each of the next backoffs. *)
Record cworld := MkCworld {
  w_db : db T X;
  w_dlq : list dlq_record;
  w_dlq_faults : list fault;
  w_offsets : list (string * Z * Z);
  w_metrics : ConsumerMetricsCollector;
  w_shutdowns : list bool }.

Definition w_now (w : cworld) : Z := e_now (d_env (w_db w)).
Definition set_db (d : db T X) (w : cworld) : cworld :=
  MkCworld d (w_dlq w) (w_dlq_faults w) (w_offsets w) (w_metrics w) (w_shutdowns w).
Definition set_metrics (f : ConsumerMetricsCollector → ConsumerMetricsCollector)
    (w : cworld) : cworld :=
  MkCworld (w_db w) (w_dlq w) (w_dlq_faults w) (w_offsets w) (f (w_metrics w)) (w_shutdowns w).

(** [try_process_once]. An early return drops the transaction, which rolls it back; so
    does a panic of the handler. *)
Definition try_process_once (h : handler) (e : EventEnvelope)
    (event_type source_service consumer_group : string)
    : M (db T X) Empty_set AttemptResult := λ s,
  let event_id := em_event_id (env_metadata e) in
  match begin_tx s with
  | (Err _, s1) => (Ok AttemptDbError, s1)
  | (Panic, s1) => (Panic, s1)
  | (Ok c, s1) =>
      match is_event_processed event_id consumer_group c with
      | (Ok true, c1) =>
          match commit_tx c1 s1 with
          | (Ok _, s2) => (Ok AlreadyProcessed, s2)
          | (_, s2) => (Ok AttemptDbError, s2)
          end
      | (Ok false, c1) =>
          match h e (MkSession c1 (d_committed s1) (d_ext s1)) with
          | (Ok _, ss) =>
              let s2 := MkDb (s_committed ss) (s_env ss) (s_ext ss) in
              match mark_event_processed event_id event_type source_service consumer_group
                      (s_conn ss) with
              | (Ok _, c3) =>
                  match commit_tx c3 s2 with
                  | (Ok _, s3) => (Ok Committed, s3)
                  | (_, s3) => (Ok AttemptDbError, s3)
                  end
              | (_, c3) => (Ok AttemptDbError, rollback_tx c3 s2)
              end
          | (Err (Permanent err), ss) =>
              (Ok (PermanentFailure err), MkDb (s_committed ss) (s_env ss) (s_ext ss))
          | (Err (Transient err), ss) =>
              (Ok (TransientFailure err), MkDb (s_committed ss) (s_env ss) (s_ext ss))
          | (Panic, ss) => (Panic, MkDb (s_committed ss) (s_env ss) (s_ext ss))
          end
      | (_, c1) => (Ok AttemptDbError, rollback_tx c1 s1)
      end
  end.

Abbreviation proc := (M cworld Empty_set).
Definition in_db {A} (m : M (db T X) Empty_set A) : proc A := zoom w_db set_db m.

(** ** The dead-letter queue *)

(** [producer.send(record)]: the record may be lost, or only its acknowledgement. *)
Definition dlq_send (r : dlq_record) : proc bool := λ w,
  let '(f, fs) := match w_dlq_faults w with [] => (FNone, []) | f :: fs => (f, fs) end in
  let log := match f with FBefore => w_dlq w | _ => w_dlq w ++ [r] end in
  (Ok (match f with FNone => true | _ => false end),
   MkCworld (w_db w) log fs (w_offsets w) (w_metrics w) (w_shutdowns w)).

Definition publish_envelope_to_dlq (cfg : ConsumerConfig) (original_topic : string)
    (e : EventEnvelope) (error : string) (retry_count : nat) : proc ProcessResult :=
  now ← gets w_now;
  sent ← dlq_send {|
    dr_topic := dlq_topic_for cfg original_topic; dr_key := Some (partition_key e);
    dr_payload := PJson (envelope_to_value e); dlq_reason := error;
    dlq_retry_count := retry_count; dlq_original_topic := original_topic;
    dlq_timestamp := now; dlq_consumer_group := group_id cfg |};
  mret (if sent : bool then SentToDlq else DlqFailed).

Definition record (k : metric) (started_at : Z) : proc unit :=
  modify (λ w, set_metrics (record_metric k ((w_now w - started_at) `max` 0)) w).

Definition send_to_dlq_with_metrics (cfg : ConsumerConfig) (topic : string)
    (e : EventEnvelope) (error : string) (retry_count : nat) (started_at : Z)
    : proc ProcessResult :=
  result ← publish_envelope_to_dlq cfg topic e error retry_count;
  _ ← match result with
      | SentToDlq => record MDlq started_at
      | _ => record MDlqFailed started_at
      end;
  mret result.

Definition publish_raw_to_dlq (cfg : ConsumerConfig) (original_topic : string)
    (raw : payload_bytes) (error : string) : proc bool :=
  now ← gets w_now;
  dlq_send {|
    dr_topic := dlq_topic_for cfg original_topic; dr_key := None; dr_payload := raw;
    dlq_reason := error; dlq_retry_count := 0; dlq_original_topic := original_topic;
    dlq_timestamp := now; dlq_consumer_group := group_id cfg |}.

(** [backoff_or_shutdown]: sleep (which lets the clock advance), unless a shutdown
    is requested first. *)
Definition advance (ms : Z) (d : db T X) : db T X :=
  let e := d_env d in
  MkDb (d_committed d) (MkEnv (e_now e + ms * 1000) (e_next e) (e_faults e)) (d_ext d).
Definition backoff_or_shutdown (cfg : ConsumerConfig) (attempt : nat) : proc bool := λ w,
  let '(b, bs) := match w_shutdowns w with [] => (false, []) | b :: bs => (b, bs) end in
  let w1 := MkCworld (w_db w) (w_dlq w) (w_dlq_faults w) (w_offsets w) (w_metrics w) bs in
  if b : bool then (Ok true, w1)
  else (Ok false, set_db (advance (calculate_backoff cfg attempt) (w_db w1)) w1).

(** ** The retry loop: [for attempt in attempt..=max_retries], with [n] rounds left *)

Fixpoint retry_loop (h : handler) (cfg : ConsumerConfig) (e : EventEnvelope)
    (topic : string) (started_at : Z) (attempt n : nat) (last_error : string)
    : proc ProcessResult :=
  let m := env_metadata e in
  match n with
  | O => send_to_dlq_with_metrics cfg topic e last_error (max_retries cfg) started_at
  | S n =>
      r ← in_db (try_process_once h e (event_type_str (em_event_type m))
                   (source_service_str (em_source_service m)) (group_id cfg));
      match r with
      | Committed => _ ← record MSuccess started_at; mret Success
      | AlreadyProcessed => _ ← record MSkipped started_at; mret Skipped
      | AttemptDbError => _ ← record MDbError started_at; mret ProcessDbError
      | PermanentFailure err => send_to_dlq_with_metrics cfg topic e err 0 started_at
      | TransientFailure err =>
          if bool_decide (max_retries cfg <= attempt)%nat then
            send_to_dlq_with_metrics cfg topic e err (max_retries cfg) started_at
          else
            _ ← modify (set_metrics record_retry);
            shutdown ← backoff_or_shutdown cfg attempt;
            if shutdown : bool then
              send_to_dlq_with_metrics cfg topic e ("shutdown during backoff: " +:+ err)
                (attempt + 1) started_at
            else retry_loop h cfg e topic started_at (attempt + 1) n err
      end
  end.

Definition process_with_retry (h : handler) (cfg : ConsumerConfig) (e : EventEnvelope)
    (topic : string) (started_at : Z) : proc ProcessResult :=
  retry_loop h cfg e topic started_at 0 (max_retries cfg + 1) "".

(** [commit_offset]: asynchronous and best effort; its failure is only logged. *)
Definition commit_offset (m : message) : proc unit :=
  modify (λ w, MkCworld (w_db w) (w_dlq w) (w_dlq_faults w)
    (w_offsets w ++ [(msg_topic m, msg_partition m, msg_offset m)]) (w_metrics w)
    (w_shutdowns w)).

(** The text of a deserialization error is the library's. *)
Context (deser_error : payload_bytes → string).

Definition process_message (h : handler) (cfg : ConsumerConfig) (m : message) : proc unit :=
  started_at ← gets w_now;
  match from_slice (msg_payload m) with
  | None =>
      sent ← publish_raw_to_dlq cfg (msg_topic m) (msg_payload m)
               (deser_error (msg_payload m));
      if sent : bool then (_ ← record MDeserFailed started_at; commit_offset m)
      else record MDlqFailed started_at
  | Some e =>
      r ← process_with_retry h cfg e (msg_topic m) started_at;
      match r with
      | Success | Skipped | SentToDlq => commit_offset m
      | DlqFailed | ProcessDbError => mret tt
      end
  end.

(** The message loop, on the messages the broker delivers; redelivered messages
    appear again. A panic ends the task. *)
Fixpoint message_loop (h : handler) (cfg : ConsumerConfig) (ms : list message) : proc unit :=
  match ms with
  | [] => mret tt
  | m :: ms => _ ← process_message h cfg m; message_loop h cfg ms
  end.

(** The cleanup loop, which runs beside it: a turn deletes old marks of processed events, and
    only logs its failure. [as_secs] drops the fraction of a second. *)
Definition cleanup_loop (cfg : ConsumerConfig) (ws : list wake) : M (db T X) AppError unit :=
  wake_loop (λ _,
    let max_age_secs := processed_events_max_age cfg / 1000 in
    catch (on_pool (cleanup_processed_events max_age_secs)) (λ _, mret tt) (λ _, mret tt))
  0 false ws.
End consumer.
