(* ===== verification/ConsumerProps.v ===== *)
(** * The event consumer: delivery guarantees

    The consumer refines a machine that applies every event at most once
    ([deliveries]), commits an offset only when the message is accounted for, counts
    every message under one outcome, and retries a bounded number of times. *)

From S2P Require Import Prelude RustStr Externals Sample Errors Events Db Outbox Consumer.

Local Open Scope Z_scope.

Section delivery.
Context `{Externals} {T X : Type} `{!OutboxTables T}.
Implicit Types (h : handler (T := T) (X := X)) (s : db T X) (w : cworld (T := T) (X := X)).

(** What the consumer asks of a handler. Its writes through the pool, if any, are
    steps of [side] and happen only in runs that fail; [side] keeps the processed-event
    markers, and so does a successful run. *)
Class WellBehaved h (side : T → T → Prop) : Prop := {
  handler_side e ss o ss' : h e ss = (o, ss') → side (s_committed ss) (s_committed ss');
  handler_pool e ss u ss' : h e ss = (Ok u, ss') → s_committed ss' = s_committed ss;
  handler_marks e ss u ss' : h e ss = (Ok u, ss') →
    processed_events (c_tables (s_conn ss')) = processed_events (c_tables (s_conn ss));
  side_marks t t' : side t t' → processed_events t' = processed_events t }.

(** [applied h g clock e t t']: one complete run of [h] on the tables [t], begun at the
    time [clock], and marked. *)
Definition applied h (g : string) (clock : Z) (e : EventEnvelope) (t t' : T) : Prop :=
  ∃ c x ss now, c_tables c = t ∧ h e (MkSession c t x) = (Ok tt, ss) ∧
    c_status (s_conn ss) = TxActive ∧
    t' = mark_processed_row (em_event_id (env_metadata e))
           (event_type_str (em_event_type (env_metadata e)))
           (source_service_str (em_source_service (env_metadata e))) g now
           (c_tables (s_conn ss)) ∧
    e_now (c_env c) = clock.

Definition event_id (e : EventEnvelope) : Uuid := em_event_id (env_metadata e).

(** The abstract machine: the events of the list are applied in order, each on
    tables in which it was not marked before; in between, failed runs may leave their
    side steps. *)
Inductive deliveries h (side : T → T → Prop) (g : string)
    : list EventEnvelope → T → T → Prop :=
| deliveries_nil t : deliveries h side g [] t t
| deliveries_side es t t1 t2 :
    side t t1 → deliveries h side g es t1 t2 → deliveries h side g es t t2
| deliveries_cons e es t t1 t2 clock :
    processed t (event_id e) g = false → applied h g clock e t t1 →
    deliveries h side g es t1 t2 → deliveries h side g (e :: es) t t2.

Lemma deliveries_app h side g es1 es2 t1 t2 t3 :
  deliveries h side g es1 t1 t2 → deliveries h side g es2 t2 t3 →
  deliveries h side g (es1 ++ es2) t1 t3.
Proof.
  induction 1; simpl; intros; [done| |]; [eapply deliveries_side|eapply deliveries_cons]; eauto.
Qed.

Lemma mark_processed_row_mono id ty src g now (t : T) id' :
  processed t id' g = true → processed (mark_processed_row id ty src g now t) id' g = true.
Proof.
  intros Hp. unfold mark_processed_row. case_match; [done|].
  unfold processed in *. by rewrite processed_set, existsb_app, Hp.
Qed.

Lemma applied_marks h side `{!PreOrder side} `{!WellBehaved h side} g clock e t t' :
  applied h g clock e t t' →
  processed t' (event_id e) g = true ∧
  ∀ id, processed t id g = true → processed t' id g = true.
Proof.
  intros (c & x & ss & now & <- & Hh & _ & -> & _). split.
  - apply mark_processed_row_processed.
  - intros id Hid. apply mark_processed_row_mono. apply handler_marks in Hh.
    unfold processed in *. by rewrite Hh.
Qed.

Lemma deliveries_marks h side `{!PreOrder side} `{!WellBehaved h side} g es t t' :
  deliveries h side g es t t' →
  NoDup (event_id <$> es) ∧
  (∀ e, e ∈ es → processed t (event_id e) g = false ∧ processed t' (event_id e) g = true) ∧
  (∀ id, processed t id g = true → processed t' id g = true).
Proof.
  induction 1 as [t|es t t1 t2 Hs _ (Hnd & Hes & Hm)|e es t t1 t2 clock Hf Ha _ (Hnd & Hes & Hm)].
  { split_and!; [constructor| |done]. by intros e ?%not_elem_of_nil. }
  { apply (side_marks (h := h)) in Hs. unfold processed in *. rewrite <-Hs. done. }
  apply (applied_marks h side) in Ha as [Hme Hmono]. split_and!.
  - rewrite fmap_cons. apply NoDup_cons. split; [|done].
    intros (e' & Eid & Hin)%list_elem_of_fmap. apply Hes in Hin as [Hf' _].
    rewrite <-Eid in Hf'. congruence.
  - intros e' [->|Hin]%elem_of_cons; [by auto|]. destruct (Hes _ Hin) as [Hf' ?].
    split; [|done]. destruct (processed t (event_id e') g) eqn:E; [|done].
    rewrite (Hmono _ E) in Hf'. done.
  - auto.
Qed.

(** ** One attempt *)

Lemma begin_tx_ok s c s1 :
  begin_tx s = (Ok c, s1) → c_tables c = d_committed s ∧ c_status c = TxActive ∧
    d_committed s1 = d_committed s ∧ d_ext s1 = d_ext s ∧ e_now (c_env c) = e_now (d_env s).
Proof. unfold begin_tx, pop_fault. repeat case_match; intros; by simplify_eq/=. Qed.
Lemma begin_tx_committed s o s1 : begin_tx s = (o, s1) → d_committed s1 = d_committed s.
Proof. unfold begin_tx, pop_fault. repeat case_match; intros; by simplify_eq/=. Qed.

Lemma commit_tx_spec c s o s' :
  commit_tx c s = (o, s') → c_status c = TxActive →
  d_committed s' = c_tables c ∨ d_committed s' = d_committed s ∧ o ≠ Ok tt.
Proof.
  unfold commit_tx, pop_fault. intros Hc Hs. rewrite Hs in Hc.
  repeat case_match; naive_solver.
Qed.

Lemma is_event_processed_ok id g c b c' :
  is_event_processed id g c = (Ok b, c') →
  b = processed (c_tables c) id g ∧ c_tables c' = c_tables c ∧ c_status c' = TxActive ∧
  e_now (c_env c') = e_now (c_env c).
Proof.
  unfold is_event_processed. intros Hr. inv_ok Hr.
  pose proof Hr as (_ & Hs & Hn & _)%exec_ok. apply query_ok in Hr as (-> & Ht & _). done.
Qed.

Lemma mark_event_processed_ok id ty src g c u c' :
  mark_event_processed id ty src g c = (Ok u, c') →
  c_status c = TxActive ∧ c_status c' = TxActive ∧
  ∃ now, c_tables c' = mark_processed_row id ty src g now (c_tables c).
Proof.
  unfold mark_event_processed. intros Hr. inv_ok Hr.
  apply exec_ok in Hr as (Hs & Hs' & _ & id' & E). simplify_eq. eauto.
Qed.

Definition attempt h (g : string) (e : EventEnvelope) : M (db T X) Empty_set AttemptResult :=
  try_process_once h e (event_type_str (em_event_type (env_metadata e)))
    (source_service_str (em_source_service (env_metadata e))) g.

Lemma attempt_spec h side `{!PreOrder side} `{!WellBehaved h side} g e s o s' :
  attempt h g e s = (o, s') →
  (side (d_committed s) (d_committed s') ∧ o ≠ Ok Committed ∧
    (o = Ok AlreadyProcessed → processed (d_committed s) (event_id e) g = true)) ∨
  (processed (d_committed s) (event_id e) g = false ∧
    applied h g (e_now (d_env s)) e (d_committed s) (d_committed s') ∧
    (o = Ok Committed ∨ o = Ok AttemptDbError)).
Proof.
  assert (∀ t t', t = t' → side t' t) as Heq by (intros ? ? ->; reflexivity).
  unfold attempt, try_process_once.
  destruct (begin_tx s) as [[c|er|] s1] eqn:Eb;
    [|apply begin_tx_committed in Eb; intros; simplify_eq; naive_solver..].
  apply begin_tx_ok in Eb as (Ht & Hst & Hc & Hx & Hnow).
  destruct (is_event_processed _ _ c) as [[[]|er|] c1] eqn:Ei.
  - apply is_event_processed_ok in Ei as (Hp & Hti & Hsi & Hni).
    destruct (commit_tx c1 s1) as [oc s2] eqn:Ec. apply commit_tx_spec in Ec; [|done].
    assert (d_committed s2 = d_committed s) by (destruct Ec as [->|[-> _]]; congruence).
    intros Hr. left. rewrite Ht in Hp.
    destruct oc as [[]|?|]; simplify_eq; (split_and!; [by apply Heq|done|done]).
  - apply is_event_processed_ok in Ei as (Hp & Hti & Hsi & Hni).
    destruct (h e _) as [oh ss] eqn:Eh.
    pose proof (handler_side _ _ _ _ Eh) as Hside; simpl in Hside. rewrite Hc in Hside.
    destruct oh as [[]|[]|]; try (intros; simplify_eq; simpl; left; done).
    pose proof (handler_pool _ _ _ _ Eh) as Hpool; simpl in Hpool.
    destruct (mark_event_processed _ _ _ _ _) as [[[]|er|] c3] eqn:Em;
      try (intros; simplify_eq; simpl; left; done).
    apply mark_event_processed_ok in Em as (Hss & Hs3 & now & Et3).
    destruct (commit_tx c3 _) as [oc s3] eqn:Ec. apply commit_tx_spec in Ec; [|done].
    simpl in Ec. destruct Ec as [Ec|[Ec Ho]].
    + intros Hr. right. split; [unfold event_id; congruence|].
      assert (applied h g (e_now (d_env s)) e (d_committed s) (d_committed s3)) as Ha.
      { exists c1, (d_ext s1), ss, now. rewrite Ec, Et3. split_and!; [congruence| |done|done|congruence].
        rewrite <-Hc. done. }
      destruct oc as [[]|?|]; simplify_eq; auto.
    + intros Hr. left. destruct oc as [[]|?|]; simplify_eq; simpl;
        rewrite Ec; done.
  - intros; simplify_eq; simpl; left; split_and!; [by apply Heq|done..].
  - intros; simplify_eq; simpl; left; split_and!; [by apply Heq|done..].
Qed.

Lemma attempt_deliveries h side `{!PreOrder side} `{!WellBehaved h side} g e s o s' :
  attempt h g e s = (o, s') → ∃ es, deliveries h side g es (d_committed s) (d_committed s').
Proof.
  intros Hr. apply (attempt_spec h side) in Hr as [(Hc & _)|(Hp & Ha & _)].
  - exists []. eapply deliveries_side; [done|constructor].
  - exists [e]. econstructor; [done..|constructor].
Qed.

(** ** Whole messages *)

Definition delivered h (side : T → T → Prop) (g : string) (t t' : T) : Prop := ∃ es, deliveries h side g es t t'.
#[local] Instance delivered_preorder h side g : PreOrder (delivered h side g).
Proof.
  split.
  - intros t. exists []. constructor.
  - intros t1 t2 t3 [es1 H1] [es2 H2]. exists (es1 ++ es2). by eapply deliveries_app.
Qed.

Definition dbR h (side : T → T → Prop) (g : string) w w' : Prop :=
  delivered h side g (d_committed (w_db w)) (d_committed (w_db w')).
#[local] Instance dbR_preorder h side g : PreOrder (dbR h side g).
Proof.
  unfold dbR. split; [intros w; reflexivity|]. intros w1 w2 w3 ??. by etrans.
Qed.

Lemma keeps_dlq_send h side g r : keeps (dbR h side g) (dlq_send r).
Proof. intros w o w'. unfold dlq_send, dbR. repeat case_match; intros [= _ <-]; reflexivity. Qed.
Lemma keeps_record h side g k t : keeps (dbR h side g) (record k t).
Proof. apply keeps_modify. intros w. unfold dbR. reflexivity. Qed.
Lemma keeps_commit_offset h side g m : keeps (dbR h side g) (commit_offset m).
Proof. apply keeps_modify. intros w. unfold dbR. reflexivity. Qed.
Lemma keeps_retry h side g : keeps (dbR h side g) (modify (E := Empty_set) (set_metrics record_retry)).
Proof. apply keeps_modify. intros w. unfold dbR. reflexivity. Qed.
Lemma keeps_backoff h side g cfg n : keeps (dbR h side g) (backoff_or_shutdown cfg n).
Proof.
  intros w o w'. unfold backoff_or_shutdown, dbR. repeat case_match; intros [= _ <-]; reflexivity.
Qed.
Hint Resolve keeps_dlq_send keeps_record keeps_commit_offset keeps_retry keeps_backoff : keeps.

Lemma keeps_attempt h side `{!PreOrder side} `{!WellBehaved h side} g e : keeps (dbR h side g) (in_db (attempt h g e)).
Proof.
  apply keeps_zoom. intros s o s' Hr w <-. by eapply attempt_deliveries.
Qed.

Lemma keeps_send_dlq h side g cfg tp e er n st :
  keeps (dbR h side g) (send_to_dlq_with_metrics cfg tp e er n st).
Proof. unfold send_to_dlq_with_metrics, publish_envelope_to_dlq. keeps_tac. Qed.
Hint Resolve keeps_send_dlq : keeps.

Lemma keeps_retry_loop h side `{!PreOrder side} `{!WellBehaved h side} cfg e tp st n : ∀ a er,
  keeps (dbR h side (group_id cfg)) (retry_loop h cfg e tp st a n er).
Proof.
  induction n as [|n IH]; intros a er; cbn [retry_loop]; [keeps_tac|].
  apply keeps_bind; [typeclasses eauto|by apply keeps_attempt|].
  intros []; keeps_tac.
Qed.

Lemma keeps_process_message d h side `{!PreOrder side} `{!WellBehaved h side} cfg m :
  keeps (dbR h side (group_id cfg)) (process_message d h cfg m).
Proof.
  unfold process_message, publish_raw_to_dlq, process_with_retry. keeps_tac.
  by apply keeps_retry_loop.
Qed.

Lemma keeps_message_loop d h side `{!PreOrder side} `{!WellBehaved h side} cfg ms :
  keeps (dbR h side (group_id cfg)) (message_loop d h cfg ms).
Proof.
  induction ms as [|m ms IH]; cbn [message_loop]; [keeps_tac|].
  apply keeps_bind; [typeclasses eauto|by apply keeps_process_message|done].
Qed.

(** ** What a finished message leaves behind *)

Lemma record_spec k st w o w' :
  record k st w = (o, w') → w_db w' = w_db w ∧ w_offsets w' = w_offsets w ∧
    w_dlq w' = w_dlq w ∧
    w_metrics w' = record_metric k ((w_now w - st) `max` 0) (w_metrics w).
Proof. by intros [= _ <-]. Qed.

Lemma dlq_send_spec r w b w' :
  dlq_send r w = (Ok b, w') → w_db w' = w_db w ∧ w_offsets w' = w_offsets w ∧
    w_metrics w' = w_metrics w ∧
    ∃ l, w_dlq w' = w_dlq w ++ l ∧ (b = true → r ∈ l) ∧ (∀ r', r' ∈ l → r' = r).
Proof.
  unfold dlq_send. repeat case_match; intros; simplify_eq/=; split_and!; try done;
    first [ exists []; rewrite app_nil_r; split_and!; done || set_solver
          | exists [r]; split_and!; done || set_solver ].
Qed.

(** A record that carries the event of a message to its dead-letter topic. *)
Definition dlq_of (cfg : ConsumerConfig) (tp : string) (p : payload_bytes) (r : dlq_record)
    : Prop :=
  dr_topic r = dlq_topic_for cfg tp ∧ dlq_original_topic r = tp ∧
  dlq_consumer_group r = group_id cfg ∧ from_slice (dr_payload r) = from_slice p ∧
  (from_slice p = None → dr_payload r = p).

Definition sent_new (P : dlq_record → Prop) w w' : Prop :=
  ∃ l, w_dlq w' = w_dlq w ++ l ∧ ∃ r, r ∈ l ∧ P r.

Lemma send_to_dlq_spec cfg tp e er n st w r w' :
  send_to_dlq_with_metrics cfg tp e er n st w = (Ok r, w') →
  w_db w' = w_db w ∧ w_offsets w' = w_offsets w ∧ r ≠ Success ∧ r ≠ Skipped ∧
  (r = SentToDlq → sent_new (dlq_of cfg tp (PJson (envelope_to_value e))) w w') ∧
  ∃ k el, w_metrics w' = record_metric k el (w_metrics w).
Proof.
  unfold send_to_dlq_with_metrics, publish_envelope_to_dlq. intros Hr.
  apply bind_ok in Hr as (r1 & w2 & Hp & Hr). apply bind_ok in Hr as ([] & w3 & Hrec & Hr).
  apply ret_ok in Hr as [-> ->]. apply bind_ok in Hp as (now & w0 & Hg & Hp).
  apply gets_ok in Hg as [<- <-]. apply bind_ok in Hp as (b & w1 & Hs & Hp).
  apply ret_ok in Hp as [<- <-].
  apply dlq_send_spec in Hs as (Hd & Ho & Hm & l & Hl & Hin & _).
  assert (w_db w' = w_db w1 ∧ w_offsets w' = w_offsets w1 ∧ w_dlq w' = w_dlq w1 ∧
    ∃ k el, w_metrics w' = record_metric k el (w_metrics w1)) as (H1 & H2 & H3 & k & el & H4).
  { destruct b; apply record_spec in Hrec as (?&?&?&?); eauto 8. }
  split_and!; [congruence|congruence|by destruct b|by destruct b| |].
  - intros Hb. exists l. split; [congruence|]. eexists; split; [apply Hin; by destruct b|].
    unfold dlq_of; simpl. rewrite envelope_roundtrip_eq. done.
  - exists k, el. by rewrite H4, Hm.
Qed.

Lemma attempt_ok_processed h side `{!PreOrder side} `{!WellBehaved h side} g e s r s' :
  attempt h g e s = (Ok r, s') → r = Committed ∨ r = AlreadyProcessed →
  processed (d_committed s') (event_id e) g = true.
Proof.
  intros Hr Ho. apply (attempt_spec h side) in Hr as [(Hc & Hn & Hp)|(_ & Ha & _)].
  - destruct Ho as [->| ->]; [done|]. apply (side_marks (h := h)) in Hc.
    unfold processed in *. rewrite Hc. by apply Hp.
  - by destruct (applied_marks h side _ _ _ _ _ Ha).
Qed.

(** What [process_with_retry] guarantees with its answer. *)
Lemma retry_loop_spec h side `{!PreOrder side} `{!WellBehaved h side} cfg e tp st n : ∀ a er w r w',
  retry_loop h cfg e tp st a n er w = (Ok r, w') →
  w_offsets w' = w_offsets w ∧
  (r = Success ∨ r = Skipped → processed (d_committed (w_db w')) (event_id e) (group_id cfg) = true) ∧
  (r = SentToDlq → sent_new (dlq_of cfg tp (PJson (envelope_to_value e))) w w').
Proof.
  induction n as [|n IH]; intros a er w r w' Hr; cbn [retry_loop] in Hr.
  { apply send_to_dlq_spec in Hr as (_ & ? & ? & ? & ? & _). naive_solver. }
  apply bind_ok in Hr as (x & w1 & Ha & Hr). unfold in_db in Ha.
  apply zoom_ok in Ha as (d1 & Ha & ->). pose proof (attempt_ok_processed h side _ _ _ _ _ Ha) as Hp.
  destruct x as [| | |err|err].
  1-3: apply bind_ok in Hr as ([] & w2 & Hrec & Hr); apply ret_ok in Hr as [<- <-];
    apply record_spec in Hrec as (Hd & Ho & _ & _); rewrite Hd, Ho; naive_solver.
  - apply send_to_dlq_spec in Hr as (_ & ? & ? & ? & ? & _). naive_solver.
  - case_bool_decide.
    { apply send_to_dlq_spec in Hr as (_ & ? & ? & ? & ? & _). naive_solver. }
    apply bind_ok in Hr as ([] & w2 & [= <-] & Hr).
    apply bind_ok in Hr as (b & w3 & Hb & Hr).
    assert (w_offsets w3 = w_offsets w ∧ w_dlq w3 = w_dlq w) as [Ho3 Hl3].
    { unfold backoff_or_shutdown in Hb. repeat case_match; by simplify_eq/=. }
    assert (∀ P, sent_new P w3 w' → sent_new P w w') as Hs.
    { intros P (l & El & ?). exists l. by rewrite El, Hl3. }
    rewrite <-Ho3. destruct b.
    + apply send_to_dlq_spec in Hr as (_ & ? & ? & ? & ? & _). naive_solver.
    + apply IH in Hr as (? & ? & ?). naive_solver.
Qed.

Lemma process_message_spec d h side `{!PreOrder side} `{!WellBehaved h side} cfg m w u w' :
  process_message d h cfg m w = (Ok u, w') →
  w_offsets w' = w_offsets w ∨
  w_offsets w' = w_offsets w ++ [(msg_topic m, msg_partition m, msg_offset m)] ∧
  ((∃ e, from_slice (msg_payload m) = Some e ∧
      processed (d_committed (w_db w')) (event_id e) (group_id cfg) = true) ∨
   sent_new (dlq_of cfg (msg_topic m) (msg_payload m)) w w').
Proof.
  unfold process_message. intros Hr. apply bind_ok in Hr as (st & w0 & Hg & Hr).
  apply gets_ok in Hg as [<- <-]. destruct (from_slice (msg_payload m)) as [e|] eqn:Ef.
  - apply bind_ok in Hr as (r & w1 & Hp & Hr). unfold process_with_retry in Hp.
    apply (retry_loop_spec h side) in Hp as (Ho & Hp & Hs).
    destruct r; try (apply ret_ok in Hr as [_ <-]; left; exact Ho); injection Hr as _ <-;
      right; simpl; rewrite Ho; (split; [done|]).
    1-2: left; eauto.
    right. destruct (Hs eq_refl) as (l & Hl & r & Hin & Hd). exists l. split; [done|].
    exists r. split; [done|]. unfold dlq_of in *. rewrite Ef.
    destruct Hd as (? & ? & ? & Hd & _). simpl in Hd. rewrite envelope_roundtrip_eq in Hd. done.
  - apply bind_ok in Hr as (b & w1 & Hp & Hr). unfold publish_raw_to_dlq in Hp.
    apply bind_ok in Hp as (now & w0 & Hg & Hp). apply gets_ok in Hg as [<- <-].
    apply dlq_send_spec in Hp as (_ & Ho & _ & l & Hl & Hin & _). destruct b.
    + apply bind_ok in Hr as ([] & w2 & Hrec & Hr). apply record_spec in Hrec as (_ & Ho2 & Hl2 & _).
      injection Hr as _ <-. right. simpl. rewrite Ho2, Ho. split; [done|]. right.
      exists l. split; [simpl; congruence|]. eexists. split; [by apply Hin|].
      unfold dlq_of; simpl. by rewrite Ef.
    + left. apply record_spec in Hr as (_ & Ho2 & _). congruence.
Qed.

(** ** Metrics *)

Lemma fetch_add_cast c n : ∃ q, fetch_add c n = c + n + q * 2 ^ 64.
Proof. exists (- ((c + n) / 2 ^ 64)). unfold fetch_add. rewrite Z.mod_eq by lia. lia. Qed.

(** Equality of counters that wrap around. *)
Definition eq64 (a b : Z) : Prop := ∃ q, a = b + q * 2 ^ 64.

Lemma record_metric_counts k el m :
  eq64 (total_events (record_metric k el m)) (total_events m + 1) ∧
  events_retried (record_metric k el m) = events_retried m.
Proof.
  split; [|done]. unfold total_events, eq64.
  destruct k; simpl;
    match goal with |- context [fetch_add ?c 1] => destruct (fetch_add_cast c 1) as [q ->] end;
    exists q; lia.
Qed.

Definition counts (n : nat) w w' : Prop :=
  eq64 (total_events (w_metrics w')) (total_events (w_metrics w) + 1) ∧
  ∃ k : nat, (k ≤ n)%nat ∧
    eq64 (events_retried (w_metrics w')) (events_retried (w_metrics w) + Z.of_nat k).

Lemma counts_record k el n w w' :
  w_metrics w' = record_metric k el (w_metrics w) → counts n w w'.
Proof.
  intros Hm. destruct (record_metric_counts k el (w_metrics w)) as [Ht Hr].
  unfold counts. rewrite Hm, Hr. split; [done|]. exists 0%nat. split; [lia|]. exists 0. lia.
Qed.

Lemma retry_loop_counts h cfg e tp st n : ∀ a er w r w',
  retry_loop h cfg e tp st a n er w = (Ok r, w') → counts (max_retries cfg - a) w w'.
Proof.
  induction n as [|n IH]; intros a er w r w' Hr; cbn [retry_loop] in Hr.
  { apply send_to_dlq_spec in Hr as (_ & _ & _ & _ & _ & k & el & Hm). by eapply counts_record. }
  apply bind_ok in Hr as (x & w1 & Ha & Hr). unfold in_db in Ha.
  apply zoom_ok in Ha as (d1 & _ & ->). destruct x as [| | |err|err].
  1-3: apply bind_ok in Hr as ([] & w2 & Hrec & Hr); apply ret_ok in Hr as [_ <-];
    apply record_spec in Hrec as (_ & _ & _ & Hm); by eapply counts_record.
  - apply send_to_dlq_spec in Hr as (_ & _ & _ & _ & _ & k & el & Hm). by eapply counts_record.
  - case_bool_decide.
    { apply send_to_dlq_spec in Hr as (_ & _ & _ & _ & _ & k & el & Hm). by eapply counts_record. }
    apply bind_ok in Hr as ([] & w2 & [= <-] & Hr).
    apply bind_ok in Hr as (b & w3 & Hb & Hr).
    assert (w_metrics w3 = record_retry (w_metrics w)) as Hm3.
    { unfold backoff_or_shutdown in Hb. repeat case_match; by simplify_eq/=. }
    assert (counts (max_retries cfg - (a + 1)) w3 w') as [Ht (k & Hk & q & Hq)].
    { destruct b; [|by eapply IH].
      apply send_to_dlq_spec in Hr as (_ & _ & _ & _ & _ & k & el & Hm). by eapply counts_record. }
    rewrite Hm3 in Ht, Hq. split; [exact Ht|]. exists (S k). split; [lia|]. simpl in Hq.
    destruct (fetch_add_cast (events_retried (w_metrics w)) 1) as [q' Hq'].
    exists (q + q'). rewrite Hq, Hq'. lia.
Qed.

Lemma process_message_counts d h cfg m w u w' :
  process_message d h cfg m w = (Ok u, w') → counts (max_retries cfg) w w'.
Proof.
  unfold process_message. intros Hr. apply bind_ok in Hr as (st & w0 & Hg & Hr).
  apply gets_ok in Hg as [<- <-]. destruct (from_slice (msg_payload m)) as [e|].
  - apply bind_ok in Hr as (r & w1 & Hp & Hr). apply retry_loop_counts in Hp.
    rewrite Nat.sub_0_r in Hp. unfold counts in *.
    assert (w_metrics w' = w_metrics w1) as ->; [|done]. destruct r; by injection Hr as _ <-.
  - apply bind_ok in Hr as (b & w1 & Hp & Hr). unfold publish_raw_to_dlq in Hp.
    apply bind_ok in Hp as (now & w0 & Hg & Hp). apply gets_ok in Hg as [<- <-].
    apply dlq_send_spec in Hp as (_ & _ & Hm & _). destruct b.
    + apply bind_ok in Hr as ([] & w2 & Hrec & Hr). apply record_spec in Hrec as (_ & _ & _ & Hm2).
      injection Hr as _ <-. eapply counts_record. cbn [w_metrics]. by rewrite Hm2, Hm.
    + apply record_spec in Hr as (_ & _ & _ & Hm2). eapply counts_record. by rewrite Hm2, Hm.
Qed.

(** ** The undisturbed case *)

Definition quiet (e : env) : Prop := e_faults e = [].

Lemma attempt_success h g e s ss :
  quiet (d_env s) → processed (d_committed s) (event_id e) g = false →
  h e (MkSession (MkConn (d_committed s) TxActive (bump (d_env s))) (d_committed s) (d_ext s))
    = (Ok tt, ss) →
  c_status (s_conn ss) = TxActive → quiet (s_env ss) →
  ∃ s', attempt h g e s = (Ok Committed, s') ∧
    d_committed s' = mark_processed_row (event_id e)
      (event_type_str (em_event_type (env_metadata e)))
      (source_service_str (em_source_service (env_metadata e))) g (e_now (s_env ss))
      (c_tables (s_conn ss)).
Proof.
  destruct s as [t [n k fs] x], ss as [[t2 st2 [n2 k2 fs2]] cm x2].
  unfold quiet, s_env, attempt, try_process_once, begin_tx, is_event_processed, query, exec,
    map_err, mark_event_processed, commit_tx, pop_fault, bump. simpl.
  intros -> Hp. unfold event_id in Hp. simpl. rewrite Hp. intros Hh -> ->. rewrite Hh. simpl.
  eexists. split; [done|]. done.
Qed.
End delivery.

(** ** Properties *)

Section properties.
Context `{Externals} {T X : Type} `{!OutboxTables T}.
Implicit Types (h : handler (T := T) (X := X)) (w : cworld (T := T) (X := X)).

#[local] Arguments delete_upto : simpl never.
(** One turn of the cleanup, when it works and when the answer is an error. *)
Lemma cleanup_turn secs (s : db T X) : ∃ o s', on_pool (cleanup_processed_events secs) s = (o, s') ∧
  o ≠ Panic ∧ e_now (d_env s') = e_now (d_env s) ∧
  outbox_events (d_committed s') = outbox_events (d_committed s) ∧
  let old r := pe_processed_at r <? e_now (d_env s) - secs * second in
  List.filter (λ r, negb (old r)) (processed_events (d_committed s')) =
    List.filter (λ r, negb (old r)) (processed_events (d_committed s)).
Proof.
  unfold on_pool, cleanup_processed_events, map_err, exec, pop_fault. simpl.
  destruct (e_faults (d_env s)) as [|[] fs]; simpl;
    try (destruct (delete_upto 1000 _ _) as [l k] eqn:Ed; apply delete_upto_spec in Ed as (_ & Ef & _); simpl);
    eexists _, _; (split; [reflexivity|]); simpl; rewrite ?outbox_set_processed, ?processed_set; auto.
Qed.

(** C1: At most once. Whatever messages are delivered and redelivered, whatever
    statement, commit or acknowledgement is lost, and even if the handler panics, the
    service's tables after the message loop are those of an abstract machine that
    applies the handler to a list of pairwise different events, each on tables in
    which it was not marked, and marks it in the same step; and no marker is lost. *)
Theorem consumer_at_most_once d h side `{!PreOrder side} `{!WellBehaved h side} cfg ms w o w' :
  message_loop d h cfg ms w = (o, w') →
  ∃ es, deliveries h side (group_id cfg) es (d_committed (w_db w)) (d_committed (w_db w')) ∧
    NoDup (event_id <$> es) ∧
    (∀ e, e ∈ es → processed (d_committed (w_db w)) (event_id e) (group_id cfg) = false ∧
      processed (d_committed (w_db w')) (event_id e) (group_id cfg) = true) ∧
    (∀ id, processed (d_committed (w_db w)) id (group_id cfg) = true →
      processed (d_committed (w_db w')) id (group_id cfg) = true).
Proof.
  intros Hr. apply (keeps_message_loop d h side) in Hr as [es Hes]. exists es.
  split; [done|]. by eapply (deliveries_marks h side).
Qed.

(** C2: Accounted for. When a message has been processed, either its offset is not
    committed (a later commit of the partition may still pass over it), or its event is marked as
    processed in the committed tables, or a record that carries the same event (for
    bytes that are not an event: the same bytes) is in its dead-letter topic. *)
Theorem offset_committed_accounted d h side `{!PreOrder side} `{!WellBehaved h side} cfg m w u w' :
  process_message d h cfg m w = (Ok u, w') →
  w_offsets w' = w_offsets w ∨
  w_offsets w' = w_offsets w ++ [(msg_topic m, msg_partition m, msg_offset m)] ∧
  ((∃ e, from_slice (msg_payload m) = Some e ∧
      processed (d_committed (w_db w')) (event_id e) (group_id cfg) = true) ∨
   sent_new (dlq_of cfg (msg_topic m) (msg_payload m)) w w').
Proof. by apply (process_message_spec d h side). Qed.

(** Every message is counted under exactly one outcome, and retried at most
    [max_retries] times (counters modulo 2^64). *)
Theorem message_counted_once d h cfg m w u w' :
  process_message d h cfg m w = (Ok u, w') →
  eq64 (total_events (w_metrics w')) (total_events (w_metrics w) + 1) ∧
  ∃ k : nat, (k ≤ max_retries cfg)%nat ∧
    eq64 (events_retried (w_metrics w')) (events_retried (w_metrics w) + Z.of_nat k).
Proof. apply process_message_counts. Qed.

(** Progress. A message whose event is new, whose handler succeeds, and that no
    fault disturbs, is committed at the first attempt with its marker, and its offset
    is committed. *)
Theorem message_processed d h cfg m e w ss :
  from_slice (msg_payload m) = Some e →
  e_faults (d_env (w_db w)) = [] →
  processed (d_committed (w_db w)) (event_id e) (group_id cfg) = false →
  h e (MkSession (MkConn (d_committed (w_db w)) TxActive (bump (d_env (w_db w))))
        (d_committed (w_db w)) (d_ext (w_db w))) = (Ok tt, ss) →
  c_status (s_conn ss) = TxActive → e_faults (s_env ss) = [] →
  ∃ w', process_message d h cfg m w = (Ok tt, w') ∧
    d_committed (w_db w') = mark_processed_row (event_id e)
      (event_type_str (em_event_type (env_metadata e)))
      (source_service_str (em_source_service (env_metadata e))) (group_id cfg)
      (e_now (s_env ss)) (c_tables (s_conn ss)) ∧
    w_offsets w' = w_offsets w ++ [(msg_topic m, msg_partition m, msg_offset m)] ∧
    w_dlq w' = w_dlq w.
Proof.
  intros Hf Hq Hp Hh Hst Hq2.
  destruct (attempt_success h (group_id cfg) e (w_db w) ss) as (s' & Ha & Hc); [done..|].
  unfold process_message, mbind, M_bind, gets. rewrite Hf.
  unfold process_with_retry. rewrite Nat.add_1_r. cbn [retry_loop]. fold (attempt h (group_id cfg) e).
  unfold mbind, M_bind, in_db, zoom. rewrite Ha. simpl. eexists. split; [done|].
  simpl. done.
Qed.

(** The delay before a retry is the base delay doubled once per attempt (ten times
    at most), capped by the maximal delay: it never overflows, never exceeds the cap
    and never shrinks from one attempt to the next. *)
Theorem backoff_bounded cfg a :
  let base := as_u64_cast (retry_base_delay cfg) in
  let cap := as_u64_cast (retry_max_delay cfg) in
  0 ≤ calculate_backoff cfg a ≤ cap ∧
  calculate_backoff cfg a = Z.min (base * 2 ^ Z.of_nat (a `min` 10)) cap ∧
  calculate_backoff cfg a ≤ calculate_backoff cfg (S a).
Proof.
  assert (∀ z, 0 ≤ as_u64_cast z ≤ u64_max) as Hu.
  { intros z. unfold as_u64_cast, u64_max. pose proof (Z.mod_pos_bound z (2 ^ 64)). lia. }
  assert (∀ a, calculate_backoff cfg a = Z.min (as_u64_cast (retry_base_delay cfg) *
    2 ^ Z.of_nat (a `min` 10)) (as_u64_cast (retry_max_delay cfg))) as Hc.
  { intros b. unfold calculate_backoff, saturating_mul. rewrite Z.shiftl_1_l.
    pose proof (Hu (retry_max_delay cfg)). lia. }
  intros base cap. rewrite !Hc. fold base cap.
  pose proof (Hu (retry_base_delay cfg)) as Hb. pose proof (Hu (retry_max_delay cfg)) as Hm.
  fold base in Hb. fold cap in Hm.
  assert (0 < 2 ^ Z.of_nat (a `min` 10)) by (apply Z.pow_pos_nonneg; lia).
  assert (2 ^ Z.of_nat (a `min` 10) ≤ 2 ^ Z.of_nat (S a `min` 10))
    by (apply Z.pow_le_mono_r; lia).
  split_and!; [nia|lia|done|]. nia.
Qed.

(** The cleanup loop ends well whatever its statements meet, and forgets no event that was
    processed within the configured age: while its mark is that young, a redelivery is skipped. *)
Theorem cleanup_keeps_fresh cfg ws (s : db T X) o s' :
  cleanup_loop cfg ws s = (o, s') →
  let old r := pe_processed_at r <? e_now (d_env s) - processed_events_max_age cfg / 1000 * second in
  o = Ok tt ∧ outbox_events (d_committed s') = outbox_events (d_committed s) ∧
  List.filter (λ r, negb (old r)) (processed_events (d_committed s')) =
    List.filter (λ r, negb (old r)) (processed_events (d_committed s)).
Proof.
  unfold cleanup_loop. generalize 0%nat as i, false as l.
  revert s. induction ws as [|w ws IH]; intros s i l; [by intros [= <- <-]|]. cbn [wake_loop].
  destruct w; try (by intros [= <- <-]); cbn [woken]; try (destruct l; [|apply IH]).
  all: unfold mbind at 1, M_bind at 1, catch at 1; intros Hr.
  all: destruct (cleanup_turn (processed_events_max_age cfg / 1000) s) as (o1 & s1 & E & Ho & En & Eo & Ef).
  all: rewrite E in Hr; destruct o1 as [k|e|]; [| |done]; apply IH in Hr; rewrite En, Eo, Ef in Hr; exact Hr.
Qed.
End properties.
