(* ===== verification/CircuitBreaker.v ===== *)
(** * Circuit breaker (shared/src/circuit_breaker.rs)

    A sliding window of the last outcomes and the three states closed, open and
    half-open. The clock is [Instant::now()], passed to the operations that read it;
    the failure ratio is computed in binary64, by the specification of IEEE 754 the
    Standard Library has. The breaker refines a machine that keeps the whole history. *)

From Stdlib Require SpecFloat.
From S2P Require Import Prelude.

Local Open Scope Z_scope.

(** Durations in milliseconds. *)
Record CircuitBreakerConfig := {
  window_size : nat; failure_threshold : f64; cooldown : Z }.
Definition CircuitBreakerConfig_default : CircuitBreakerConfig := {|
  window_size := 10;
  failure_threshold := f64_div (f64_of_usize 1) (f64_of_usize 2);
  cooldown := 30 * 1000 |}.

Inductive BreakerStatus : Type := Closed | Open | HalfOpen.
#[export] Instance BreakerStatus_eq_dec : EqDecision BreakerStatus.
Proof. solve_decision. Defined.
Definition breaker_status_str (s : BreakerStatus) : string :=
  match s with Closed => "closed" | Open => "open" | HalfOpen => "half-open" end.

Record BreakerState := MkBreaker {
  status : BreakerStatus; window : list bool; opened_at : option Z }.
Definition BreakerState_new : BreakerState := MkBreaker Closed [] None.

Inductive CircuitOpenError : Type := CircuitIsOpen.

Section breaker.
Context (cfg : CircuitBreakerConfig).
Implicit Types (st : BreakerState) (now : Z).

(** [opened_at.elapsed()] saturates at zero. *)
Definition elapsed (since now : Z) : Z := Z.max 0 (now - since).

Definition check_call (now : Z) : M BreakerState CircuitOpenError unit := λ st,
  match status st with
  | Closed | HalfOpen => (Ok tt, st)
  | Open =>
      match opened_at st with
      | Some t =>
          if cooldown cfg <=? elapsed t now then
            (Ok tt, MkBreaker HalfOpen (window st) (opened_at st))
          else (Err CircuitIsOpen, st)
      | None => (Ok tt, MkBreaker HalfOpen (window st) (opened_at st))
      end
  end.

Definition push_result (success : bool) (w : list bool) : list bool :=
  (if (window_size cfg <=? length w)%nat then tail w else w) ++ [success].

Definition should_trip (w : list bool) : bool :=
  if (length w <? window_size cfg)%nat then false
  else
    let failures := length (List.filter negb w) in
    let ratio := f64_div (f64_of_usize failures) (f64_of_usize (length w)) in
    f64_geb ratio (failure_threshold cfg).

Definition record_success st : BreakerState :=
  let w := push_result true (window st) in
  if decide (status st = HalfOpen) then MkBreaker Closed w None
  else MkBreaker (status st) w (opened_at st).

Definition record_retryable_failure (now : Z) st : BreakerState :=
  let w := push_result false (window st) in
  match status st with
  | HalfOpen => MkBreaker Open w (Some now)
  | Closed =>
      if should_trip w then MkBreaker Open w (Some now) else MkBreaker Closed w (opened_at st)
  | Open => MkBreaker Open w (opened_at st)
  end.

(** ** The specification: a breaker that remembers every outcome *)

Inductive phase : Type := PClosed | POpen (since : Z) | PHalfOpen.
Record history := MkHistory { h_phase : phase; h_results : list bool }.

Definition lastn {A} (n : nat) (l : list A) : list A := drop (length l - n) l.

Inductive breaker_op : Type := BCheck (now : Z) | BSuccess | BFailure (now : Z).

Definition spec_step (op : breaker_op) (h : history) : bool * history :=
  match op, h_phase h with
  | BCheck now, POpen t =>
      if cooldown cfg <=? elapsed t now then (true, MkHistory PHalfOpen (h_results h))
      else (false, h)
  | BCheck _, _ => (true, h)
  | BSuccess, PHalfOpen => (true, MkHistory PClosed (h_results h ++ [true]))
  | BSuccess, p => (true, MkHistory p (h_results h ++ [true]))
  | BFailure now, PHalfOpen => (true, MkHistory (POpen now) (h_results h ++ [false]))
  | BFailure now, PClosed =>
      let r := h_results h ++ [false] in
      (true, MkHistory (if should_trip (lastn (window_size cfg) r) then POpen now else PClosed) r)
  | BFailure _, POpen t => (true, MkHistory (POpen t) (h_results h ++ [false]))
  end.

Definition breaker_step (op : breaker_op) st : bool * BreakerState :=
  match op with
  | BCheck now => let '(o, st') := check_call now st in (is_ok o, st')
  | BSuccess => (true, record_success st)
  | BFailure now => (true, record_retryable_failure now st)
  end.

Fixpoint run_breaker {S} (step : breaker_op → S → bool * S) (ops : list breaker_op) (s : S)
    : list bool * S :=
  match ops with
  | [] => ([], s)
  | op :: ops =>
      let '(b, s1) := step op s in
      let '(bs, s2) := run_breaker step ops s1 in (b :: bs, s2)
  end.

(** The state of the breaker and the history it stands for. *)
Definition represents st (h : history) : Prop :=
  window st = lastn (window_size cfg) (h_results h) ∧
  match h_phase h with
  | PClosed => status st = Closed
  | POpen t => status st = Open ∧ opened_at st = Some t
  | PHalfOpen => status st = HalfOpen
  end.

Lemma push_lastn b w l :
  (0 < window_size cfg)%nat → w = lastn (window_size cfg) l →
  push_result b w = lastn (window_size cfg) (l ++ [b]).
Proof.
  intros Hn ->. unfold push_result, lastn. rewrite length_drop, length_app. simpl.
  destruct (Nat.leb_spec (window_size cfg) (length l - (length l - window_size cfg))) as [Hl|Hl].
  - rewrite (drop_app_le l) by lia. f_equal.
    replace (length l + 1 - window_size cfg)%nat with (length l - window_size cfg + 1)%nat by lia.
    rewrite <-drop_drop. by destruct (drop _ l).
  - replace (length l - window_size cfg)%nat with 0%nat by lia.
    by replace (length l + 1 - window_size cfg)%nat with 0%nat by lia.
Qed.

Lemma breaker_step_refines op st h :
  (0 < window_size cfg)%nat → represents st h →
  let '(b, st') := breaker_step op st in
  let '(b', h') := spec_step op h in b = b' ∧ represents st' h'.
Proof.
  intros Hn [Hw Hp]. destruct op as [now| |now]; simpl.
  - unfold check_call. destruct (h_phase h) as [|t|] eqn:Eh.
    + rewrite Hp. split; [done|]. split; [done|]. by rewrite Eh.
    + destruct Hp as [Hs Ho]. rewrite Hs, Ho. destruct (cooldown cfg <=? elapsed t now); simpl; (split; [done|]); (split; [done|]).
      * done.
      * by rewrite Eh.
    + rewrite Hp. split; [done|]. split; [done|]. by rewrite Eh.
  - pose proof (push_lastn true _ _ Hn Hw) as Hw'. unfold record_success.
    destruct (h_phase h) as [|t|]; [| |]; (case_decide; [try naive_solver congruence|]);
      (split; [done|]); (split; [exact Hw'|]); simpl; naive_solver.
  - pose proof (push_lastn false _ _ Hn Hw) as Hw'. unfold record_retryable_failure.
    destruct (h_phase h) as [|t|].
    + rewrite Hp, <-Hw'. split; [done|]. destruct (should_trip _); (split; [exact Hw'|]); done.
    + destruct Hp as [-> ->]. split; [done|]. by split.
    + rewrite Hp. split; [done|]. by split.
Qed.

Lemma run_breaker_refines ops : ∀ st h,
  (0 < window_size cfg)%nat → represents st h →
  let '(bs, st') := run_breaker breaker_step ops st in
  let '(bs', h') := run_breaker spec_step ops h in bs = bs' ∧ represents st' h'.
Proof.
  induction ops as [|op ops IH]; intros st h Hn Hr; simpl; [done|].
  pose proof (breaker_step_refines op st h Hn Hr) as Hs.
  destruct (breaker_step op st) as [b st1], (spec_step op h) as [b' h1].
  destruct Hs as [-> Hr1]. specialize (IH st1 h1 Hn Hr1).
  destruct (run_breaker breaker_step ops st1) as [bs st2], (run_breaker spec_step ops h1) as [bs' h2].
  by destruct IH as [-> ?].
Qed.

Lemma push_length b w :
  (0 < window_size cfg)%nat → (length w ≤ window_size cfg)%nat →
  (length (push_result b w) ≤ window_size cfg)%nat.
Proof.
  intros Hn Hw. unfold push_result. rewrite length_app. cbn [length].
  destruct (Nat.leb_spec (window_size cfg) (length w)); [|lia]. destruct w; simpl in *; lia.
Qed.

(** An operation that cannot close an open breaker: the outcome of a call that is still
    on its way, or a check before the cooldown has elapsed. *)
Definition too_early (t : Z) (op : breaker_op) : Prop :=
  match op with BCheck now => elapsed t now < cooldown cfg | _ => True end.
Definition is_check (op : breaker_op) : bool := match op with BCheck _ => true | _ => false end.

Lemma run_breaker_open ops t : ∀ st,
  status st = Open → opened_at st = Some t → Forall (too_early t) ops →
  let '(bs, st') := run_breaker breaker_step ops st in
  status st' = Open ∧ opened_at st' = Some t ∧ bs = (λ op, negb (is_check op)) <$> ops.
Proof.
  induction ops as [|op ops IH]; intros st Hs Ho Hops; simpl; [done|].
  apply Forall_cons in Hops as [Hop Hops].
  assert (∃ st1, breaker_step op st = (negb (is_check op), st1) ∧ status st1 = Open ∧
    opened_at st1 = Some t) as (st1 & -> & Hs1 & Ho1).
  { destruct op as [now| |now]; simpl.
    - unfold check_call. rewrite Hs, Ho. simpl in Hop. apply Z.leb_gt in Hop. rewrite Hop. eauto.
    - unfold record_success. rewrite decide_False by (by rewrite Hs). eauto.
    - unfold record_retryable_failure. rewrite Hs. eauto. }
  specialize (IH st1 Hs1 Ho1 Hops). destruct (run_breaker breaker_step ops st1) as [bs st2].
  destruct IH as (? & ? & ->). done.
Qed.
End breaker.

(** ** Properties *)

Section properties.

(** C29: The breaker is its specification. Whatever the calls and their times, it admits
    exactly the calls that a breaker with the full history of outcomes admits, is in the
    state of that breaker, and its window is the last [window_size] outcomes and never
    grows beyond them. *)
Theorem breaker_refines_history cfg ops bs st :
  (0 < window_size cfg)%nat →
  run_breaker (breaker_step cfg) ops BreakerState_new = (bs, st) →
  ∃ h, run_breaker (spec_step cfg) ops (MkHistory PClosed []) = (bs, h) ∧ represents cfg st h ∧
    (length (window st) ≤ window_size cfg)%nat.
Proof.
  intros Hn Hr. assert (represents cfg BreakerState_new (MkHistory PClosed [])) as H0.
  { split; [|done]. unfold lastn. simpl. done. }
  pose proof (run_breaker_refines cfg ops _ _ Hn H0) as Hs. rewrite Hr in Hs.
  destruct (run_breaker (spec_step cfg) ops _) as [bs' h]. destruct Hs as [-> Hrep].
  exists h. split; [done|]. split; [done|]. destruct Hrep as [-> _]. unfold lastn.
  rewrite length_drop. lia.
Qed.

(** An open breaker rejects. Once it has opened at time [t], every check that comes
    before the cooldown has elapsed is rejected, in any order and whatever the outcomes
    of the calls still on their way; the first check after it is admitted and makes the
    breaker half-open; there a success closes it and a failure opens it again. *)
Theorem open_breaker_rejects cfg st t ops bs st' :
  status st = Open → opened_at st = Some t → Forall (too_early cfg t) ops →
  run_breaker (breaker_step cfg) ops st = (bs, st') →
  bs = (λ op, negb (is_check op)) <$> ops ∧ status st' = Open ∧ opened_at st' = Some t ∧
  ∀ now, cooldown cfg ≤ elapsed t now →
    ∃ probe, check_call cfg now st' = (Ok tt, probe) ∧ status probe = HalfOpen ∧
      status (record_success cfg probe) = Closed ∧
      ∀ later, status (record_retryable_failure cfg later probe) = Open ∧
        opened_at (record_retryable_failure cfg later probe) = Some later.
Proof.
  intros Hs Ho Hops Hr. pose proof (run_breaker_open cfg ops t st Hs Ho Hops) as Hrun.
  rewrite Hr in Hrun. destruct Hrun as (Hs' & Ho' & ->). split_and!; [done..|].
  intros now Hnow. unfold check_call. rewrite Hs', Ho'. apply Z.leb_le in Hnow. rewrite Hnow.
  eexists. by split_and!.
Qed.

(** The default breaker trips at half. With the default configuration a closed
    breaker opens on a retryable failure exactly when its window is full and at least
    five of the last ten outcomes, this one included, are failures. *)
Theorem default_breaker_trips now st :
  status st = Closed → (length (window st) ≤ 10)%nat →
  let w := push_result CircuitBreakerConfig_default false (window st) in
  status (record_retryable_failure CircuitBreakerConfig_default now st) = Open ↔
  length w = 10%nat ∧ (5 ≤ length (List.filter negb w))%nat.
Proof.
  intros Hs Hl w. unfold record_retryable_failure. rewrite Hs. fold w.
  assert (length w ≤ 10)%nat as Hw.
  { apply (push_length CircuitBreakerConfig_default); [simpl; lia|done]. }
  assert (should_trip CircuitBreakerConfig_default w = true ↔
    length w = 10%nat ∧ (5 ≤ length (List.filter negb w))%nat) as <-; [|by case_match].
  unfold should_trip. simpl window_size. destruct (Nat.ltb_spec (length w) 10) as [?|?]; [split; [done|intros [? _]; lia]|].
  assert (length w = 10%nat) as -> by lia. simpl failure_threshold.
  assert (length (List.filter negb w) ≤ 10)%nat as Hf.
  { etrans; [apply List.filter_length_le|done]. }
  generalize dependent (length (List.filter negb w)). intros k Hk.
  do 11 (destruct k as [|k]; [vm_compute; split; [intros E; first [discriminate E|split; [done|lia]]|
    intros [_ E]; first [done|lia]]|]). lia.
Qed.
End properties.

(** ** Concrete runs *)

(** Five successes and five failures: the breaker opens at the fifth failure, rejects
    until 30 seconds later, and closes after a successful probe. *)
Definition half_bad : list breaker_op :=
  replicate 5 BSuccess ++ replicate 4 (BFailure 90) ++ [BFailure 100].
Definition tripped := run_breaker (breaker_step CircuitBreakerConfig_default) half_bad BreakerState_new.
Definition waiting : list breaker_op := [BCheck 200; BSuccess; BCheck 30099].
Definition waited := run_breaker (breaker_step CircuitBreakerConfig_default) waiting tripped.2.

Lemma breaker_refines_history_witness :
  status tripped.2 = Open ∧
  ∃ h, represents CircuitBreakerConfig_default tripped.2 h ∧ (length (window tripped.2) ≤ 10)%nat.
Proof.
  split; [vm_compute; reflexivity|].
  destruct (breaker_refines_history CircuitBreakerConfig_default half_bad tripped.1 tripped.2
    (Nat.lt_0_succ 9) (surjective_pairing _)) as (h & _ & Hr & Hl).
  exists h. exact (conj Hr Hl).
Defined.

Lemma open_breaker_rejects_witness :
  waited.1 = (λ op, negb (is_check op)) <$> waiting ∧ waited.1 = [false; true; false].
Proof.
  split; [|vm_compute; reflexivity].
  refine (proj1 (open_breaker_rejects CircuitBreakerConfig_default tripped.2 100 waiting waited.1
    waited.2 _ _ _ (surjective_pairing _))).
  - vm_compute. reflexivity.
  - vm_compute. reflexivity.
  - repeat constructor.
Defined.

Definition nine : BreakerState := MkBreaker Closed (replicate 5 true ++ replicate 4 false) None.
Lemma default_breaker_trips_witness :
  status (record_retryable_failure CircuitBreakerConfig_default 7 nine) = Open.
Proof.
  apply (default_breaker_trips 7 nine); [reflexivity|vm_compute; lia|].
  split; [reflexivity|vm_compute; lia].
Defined.
