(* ===== verification/Gateway.v ===== *)
(** * The payment gateway (payment/src/gateway)

    The interface of a gateway, as a record of operations over the state of the
    gateway; the mock gateway; and the decorator that puts a circuit breaker in front
    of a gateway. *)

From S2P Require Import Prelude RustStr Externals CircuitBreaker.

Local Open Scope Z_scope.

Inductive GatewayStatus : Type := GwSuccess | GwFailed.

Record GatewayError := {
  ge_code : string; ge_message : string; ge_reason : option string; is_retryable : bool }.
Definition declined (message : string) : GatewayError := {|
  ge_code := "DECLINED"; ge_message := message; ge_reason := None; is_retryable := false |}.
Definition timeout (message : string) : GatewayError := {|
  ge_code := "TIMEOUT"; ge_message := message; ge_reason := None; is_retryable := true |}.
Definition gateway_error_display (e : GatewayError) : string :=
  "[" +:+ ge_code e +:+ "] " +:+ ge_message e +:+
  match ge_reason e with Some r => " (reason: " +:+ r +:+ ")" | None => "" end.

Section gateway.
Context `{Externals}.

Record GatewayAuthResult := {
  gateway_reference : string; approved_amount : Decimal; auth_status : GatewayStatus }.
Record GatewayCaptureResult := { capture_status : GatewayStatus }.
Record GatewayVoidResult := { void_status : GatewayStatus }.
Record GatewayRefundResult := { refund_status : GatewayStatus }.

(** The trait [PaymentGateway]: what the gateway keeps is a state [G]. *)
Record PaymentGateway (G : Type) := {
  gw_authorize : string → Uuid → Decimal → string → M G GatewayError GatewayAuthResult;
  gw_capture : string → M G GatewayError GatewayCaptureResult;
  gw_void : string → M G GatewayError GatewayVoidResult;
  gw_refund : string → Decimal → M G GatewayError GatewayRefundResult }.
Arguments gw_authorize {G} _ _ _ _ _.
Arguments gw_capture {G} _ _.
Arguments gw_void {G} _ _.
Arguments gw_refund {G} _ _ _.

(** ** The mock gateway (gateway/mock.rs); its state is the counter of identifiers *)

Record MockPaymentGateway := {
  always_succeed : bool; retryable_failure : bool; tampered_amount : option Decimal }.
Definition always_succeeds : MockPaymentGateway := {|
  always_succeed := true; retryable_failure := false; tampered_amount := None |}.
Definition always_fails : MockPaymentGateway := {|
  always_succeed := false; retryable_failure := false; tampered_amount := None |}.
Definition always_fails_retryable : MockPaymentGateway := {|
  always_succeed := false; retryable_failure := true; tampered_amount := None |}.
Definition tampering (amount : Decimal) : MockPaymentGateway := {|
  always_succeed := true; retryable_failure := false; tampered_amount := Some amount |}.

Definition make_error (self : MockPaymentGateway) (operation : string) : GatewayError :=
  if retryable_failure self then timeout (operation +:+ " timed out")
  else declined (operation +:+ " declined").

Definition mock_answer {A} (self : MockPaymentGateway) (operation : string) (a : A)
    : M N GatewayError A :=
  if negb (always_succeed self) then fail (make_error self operation) else mret a.

Definition mock_authorize (self : MockPaymentGateway) (_ : string) (_ : Uuid) (amount : Decimal)
    (_ : string) : M N GatewayError GatewayAuthResult :=
  if negb (always_succeed self) then fail (make_error self "Authorization")
  else λ n, (Ok {| gateway_reference := "mock-auth-" +:+ uuid_to_string (uuid_gen n);
                   approved_amount := default amount (tampered_amount self);
                   auth_status := GwSuccess |}, (n + 1)%N).

Definition mock_gateway (self : MockPaymentGateway) : PaymentGateway N := {|
  gw_authorize := mock_authorize self;
  gw_capture _ := mock_answer self "Capture" {| capture_status := GwSuccess |};
  gw_void _ := mock_answer self "Void" {| void_status := GwSuccess |};
  gw_refund _ _ := mock_answer self "Refund" {| refund_status := GwSuccess |} |}.

(** ** The circuit breaker in front of a gateway (gateway/circuit_breaker.rs) *)

(** The breaker, the gateway behind it, and the readings of the monotonic clock. *)
Record breaker_gateway (G : Type) := MkBreakerGateway {
  bg_breaker : BreakerState; bg_inner : G; bg_clock : nat → Z; bg_reads : nat }.
Arguments MkBreakerGateway {G} _ _ _ _.
Arguments bg_breaker {G} _.
Arguments bg_inner {G} _.
Arguments bg_clock {G} _ _.
Arguments bg_reads {G} _.

Section decorator.
Context {G : Type} (inner : PaymentGateway G) (cfg : CircuitBreakerConfig).
Implicit Types s : breaker_gateway G.

Definition circuit_open : GatewayError := {|
  ge_code := "CIRCUIT_OPEN";
  ge_message := "Circuit breaker is open " +:+ String.String (Ascii.ascii_of_nat 226)
    (String.String (Ascii.ascii_of_nat 128) (String.String (Ascii.ascii_of_nat 148) ""))
    +:+ " gateway temporarily unavailable";
  ge_reason := None; is_retryable := true |}.

(** A reading of the clock. *)
Definition instant_now s : Z := bg_clock s (bg_reads s).
Definition set_breaker (b : BreakerState) s : breaker_gateway G :=
  MkBreakerGateway b (bg_inner s) (bg_clock s) (S (bg_reads s)).

Definition pre_call : M (breaker_gateway G) GatewayError unit := λ s,
  let '(o, b) := check_call cfg (instant_now s) (bg_breaker s) in
  (omap_err (λ _, circuit_open) o, set_breaker b s).

Definition record_outcome (err : option GatewayError) : M (breaker_gateway G) GatewayError unit :=
  match err with
  | None => λ s, (Ok tt, set_breaker (record_success cfg (bg_breaker s)) s)
  | Some e =>
      if is_retryable e then
        λ s, (Ok tt, set_breaker
                (record_retryable_failure cfg (instant_now s) (bg_breaker s)) s)
      else mret tt
  end.

Definition in_inner {A} (m : M G GatewayError A) : M (breaker_gateway G) GatewayError A :=
  zoom bg_inner (λ g s, MkBreakerGateway (bg_breaker s) g (bg_clock s) (bg_reads s)) m.

(** The body of each of the four operations. *)
Definition guarded {A} (m : M G GatewayError A) : M (breaker_gateway G) GatewayError A :=
  _ ← pre_call;
  catch (in_inner m)
    (λ r, _ ← record_outcome None; mret r)
    (λ e, _ ← record_outcome (Some e); fail e).

Definition CircuitBreakerGateway : PaymentGateway (breaker_gateway G) := {|
  gw_authorize key order amount currency := guarded (gw_authorize inner key order amount currency);
  gw_capture reference := guarded (gw_capture inner reference);
  gw_void reference := guarded (gw_void inner reference);
  gw_refund reference amount := guarded (gw_refund inner reference amount) |}.

Definition breaker_gateway_new (g : G) (clock : nat → Z) : breaker_gateway G :=
  MkBreakerGateway BreakerState_new g clock 0.

(** ** What a guarded call does *)

(** The breaker after a call that was let through, by the outcome of the call. *)
Definition after_call {A} (o : outcome GatewayError A) (now : Z) (b : BreakerState) : BreakerState :=
  match o with
  | Ok _ => record_success cfg b
  | Err e => if is_retryable e then record_retryable_failure cfg now b else b
  | Panic => b
  end.

Lemma guarded_spec {A} (m : M G GatewayError A) s o s' :
  guarded m s = (o, s') →
  bg_clock s' = bg_clock s ∧
  ((check_call cfg (instant_now s) (bg_breaker s) = (Err CircuitIsOpen, bg_breaker s) ∧
    o = Err circuit_open ∧ bg_inner s' = bg_inner s ∧ bg_breaker s' = bg_breaker s) ∨
   ∃ b, check_call cfg (instant_now s) (bg_breaker s) = (Ok tt, b) ∧
     m (bg_inner s) = (o, bg_inner s') ∧
     bg_breaker s' = after_call o (bg_clock s (S (bg_reads s))) b).
Proof.
  unfold guarded, mbind, M_bind, pre_call, catch, in_inner, zoom. intros Hr.
  destruct (check_call cfg (instant_now s) (bg_breaker s)) as [oc b] eqn:Ec.
  assert (oc = Ok tt ∨ oc = Err CircuitIsOpen ∧ b = bg_breaker s) as [->|[-> ->]].
  { unfold check_call in Ec. repeat case_match; simplify_eq; auto. }
  - simpl in Hr. destruct (m (bg_inner s)) as [[a|e|] g] eqn:Em; simpl in Hr.
    + injection Hr as <- <-. simpl. split; [done|]. right. eauto 8.
    + destruct (is_retryable e) eqn:Ee; injection Hr as <- <-; simpl; (split; [done|]);
        right; exists b; by rewrite Ee.
    + injection Hr as <- <-. simpl. split; [done|]. right. eauto 8.
  - simpl in Hr. injection Hr as <- <-. simpl. split; [done|]. left. done.
Qed.

(** A sequence of captures through a gateway. *)
Fixpoint captures {S} (gw : PaymentGateway S) (refs : list string) (s : S)
    : list (outcome GatewayError GatewayCaptureResult) * S :=
  match refs with
  | [] => ([], s)
  | r :: refs =>
      let '(o, s1) := gw_capture gw r s in
      let '(os, s2) := captures gw refs s1 in (o :: os, s2)
  end.

Definition infrastructure_ok {A} (o : outcome GatewayError A) : Prop :=
  match o with Err e => is_retryable e = false | _ => True end.

Lemma captures_healthy refs : ∀ s os s' os0 g,
  status (bg_breaker s) = Closed →
  captures inner refs (bg_inner s) = (os0, g) → Forall infrastructure_ok os0 →
  captures CircuitBreakerGateway refs s = (os, s') →
  os = os0 ∧ bg_inner s' = g ∧ status (bg_breaker s') = Closed.
Proof.
  induction refs as [|r refs IH]; intros s os s' os0 g Hs Hi Hok Hr; simpl in *.
  { by simplify_eq. }
  destruct (guarded (gw_capture inner r) s) as [o s1] eqn:Eg.
  destruct (captures CircuitBreakerGateway refs s1) as [os1 s2] eqn:E1. injection Hr as <- <-.
  destruct (gw_capture inner r (bg_inner s)) as [o0 g1] eqn:Ei.
  destruct (captures inner refs g1) as [os2 g2] eqn:E2. injection Hi as <- <-.
  apply Forall_cons in Hok as [Ho Hok].
  apply guarded_spec in Eg as [_ [(Hc & _)|(b & Hc & Hm & Hb)]].
  { unfold check_call in Hc. rewrite Hs in Hc. done. }
  rewrite Ei in Hm. injection Hm as <- Eg1. unfold check_call in Hc. rewrite Hs in Hc.
  injection Hc as <-. assert (status (bg_breaker s1) = Closed) as Hs1.
  { rewrite Hb. destruct o0 as [a|e|]; simpl in *; [|by rewrite Ho|done].
    unfold record_success. by rewrite decide_False by (by rewrite Hs). }
  rewrite Eg1 in E2. destruct (IH s1 os1 s2 os2 g2 Hs1 E2 Hok E1) as (-> & -> & ?). done.
Qed.
End decorator.
End gateway.
Arguments gw_authorize {_ G} _ _ _ _ _.
Arguments gw_capture {_ G} _ _.
Arguments gw_void {_ G} _ _.
Arguments gw_refund {_ G} _ _ _.
Arguments MkBreakerGateway {G} _ _ _ _.
Arguments bg_breaker {G} _.
Arguments bg_inner {G} _.
Arguments bg_clock {G} _ _.
Arguments bg_reads {G} _.

(** ** Properties *)

Section properties.
Context `{Externals} {G : Type} (inner : PaymentGateway G) (cfg : CircuitBreakerConfig).

(** The decorator is transparent or silent. Each guarded call either is refused by
    the breaker, and then the gateway is not called at all and the answer is a retryable
    CIRCUIT_OPEN error; or it is the call of the gateway, with its answer and its
    effects unchanged, of which the breaker records a success or a retryable failure,
    and nothing for a business decline. *)
Theorem guarded_call_transparent {A} (m : M G GatewayError A) s o s' :
  guarded cfg m s = (o, s') →
  (check_call cfg (instant_now s) (bg_breaker s) = (Err CircuitIsOpen, bg_breaker s) ∧
   (∃ e, o = Err e ∧ ge_code e = "CIRCUIT_OPEN" ∧ is_retryable e = true) ∧
   bg_inner s' = bg_inner s ∧ bg_breaker s' = bg_breaker s) ∨
  (∃ b, check_call cfg (instant_now s) (bg_breaker s) = (Ok tt, b) ∧
    m (bg_inner s) = (o, bg_inner s') ∧
    match o with
    | Ok _ => bg_breaker s' = record_success cfg b
    | Err e => if is_retryable e then ∃ now, bg_breaker s' = record_retryable_failure cfg now b
               else bg_breaker s' = b
    | Panic => bg_breaker s' = b
    end).
Proof.
  intros [_ [(Hc & -> & Hi & Hb)|(b & Hc & Hm & Hb)]]%guarded_spec; [left|right].
  - split_and!; try done. by eexists.
  - exists b. split_and!; [done|done|]. rewrite Hb. destruct o as [a|e|]; simpl; try done.
    destruct (is_retryable e); [by eexists|done].
Qed.

(** Declines do not trip the breaker. As long as the gateway answers - with a
    success or a business decline - a closed breaker stays closed, and a sequence of
    captures through it has exactly the answers and the effects it has without it. *)
Theorem healthy_captures_unchanged refs s os s' os0 g :
  status (bg_breaker s) = Closed →
  captures inner refs (bg_inner s) = (os0, g) → Forall infrastructure_ok os0 →
  captures (CircuitBreakerGateway inner cfg) refs s = (os, s') →
  os = os0 ∧ bg_inner s' = g ∧ status (bg_breaker s') = Closed.
Proof. apply captures_healthy. Qed.
End properties.
