(* ===== verification/Pagination.v ===== *)
(** * Keyset pagination (shared/src/db/pagination_support.rs)

    The clauses [keyset_paginate] appends to a query, as a function on the rows the query
    selects, and the cursors [get_cursors] computes from the answer. Walking the pages
    forward visits every row once, in order; walking back returns to the page before. *)

From S2P Require Import Prelude RustStr Externals Sample.

Local Open Scope nat_scope.

(** PostgreSQL compares identifiers as numbers of 128 bits. *)
Class UuidOrder `{UuidApi} := {
  uuid_num : Uuid → Z;
  #[global] uuid_num_inj :: Inj (=) (=) uuid_num }.

Inductive PaginationDirection : Type := Forward | Backward.

Section params.
Context `{UuidApi}.

Record PaginationParams := {
  pg_limit : nat; pg_cursor : option Uuid; pg_direction : PaginationDirection }.
Definition PaginationParams_default : PaginationParams := {|
  pg_limit := 20; pg_cursor := None; pg_direction := Forward |}.

Record PaginationQuery := {
  pq_limit : option nat; pq_cursor : option Uuid; pq_direction : option PaginationDirection }.
Definition into_params (q : PaginationQuery) : PaginationParams := {|
  pg_limit := default 20 (pq_limit q) `min` 100;
  pg_cursor := pq_cursor q;
  pg_direction := default Forward (pq_direction q) |}.

Lemma into_params_limit q : pg_limit (into_params q) ≤ 100.
Proof. apply Nat.le_min_r. Qed.

Record NextAndPrevCursor := { next_cursor : option Uuid; prev_cursor : option Uuid }.

Record PaginationRes (T : Type) := MkPaginationRes {
  pr_items : list T; pr_next_cursor : option Uuid; pr_prev_cursor : option Uuid }.
Definition PaginationRes_new {T} (items : list T) (cursors : NextAndPrevCursor) : PaginationRes T :=
  MkPaginationRes T items (next_cursor cursors) (prev_cursor cursors).
End params.
Arguments MkPaginationRes {_ _} _ _ _.
Arguments pr_items {_ _} _.
Arguments pr_next_cursor {_ _} _.
Arguments pr_prev_cursor {_ _} _.

(** The JSON body: the cursors are texts, which the next request parses. *)
Record PaginatedResponse (T : Type) := MkPaginatedResponse {
  ps_items : list T; ps_next_cursor : option string; ps_prev_cursor : option string }.
Definition PaginatedResponse_new `{UuidApi} {T} (res : PaginationRes T) : PaginatedResponse T :=
  MkPaginatedResponse T (pr_items res) (uuid_to_string <$> pr_next_cursor res)
    (uuid_to_string <$> pr_prev_cursor res).

Section pages.
Context `{UuidApi, !UuidOrder} {A : Type} (id : A → Uuid).
Implicit Types (rows : list A) (params : PaginationParams).

Definition key (r : A) : Z := uuid_num (id r).

(** [AND id > cursor ORDER BY id ASC LIMIT limit + 1], or the same backwards. *)
Definition beyond (d : PaginationDirection) (cursor : option Uuid) (r : A) : bool :=
  match d, cursor with
  | _, None => true
  | Forward, Some c => (uuid_num c <? key r)%Z
  | Backward, Some c => (key r <? uuid_num c)%Z
  end.
Definition keyset_paginate params rows : list A :=
  let selected := List.filter (beyond (pg_direction params) (pg_cursor params)) rows in
  take (pg_limit params + 1)
    (match pg_direction params with
     | Forward => order_by key selected
     | Backward => order_by (λ r, - key r)%Z selected
     end).

(** The text [keyset_paginate] pushes belongs to the clause that is open at the end of the
    query: behind [GROUP BY id] the condition on the cursor is read as [GROUP BY (id AND id >
    cursor)], which PostgreSQL refuses when it analyses the statement. *)
Inductive open_clause : Type := InWhere | InGroupBy.
Definition push_keyset (clause : open_clause) params rows : outcome sql_error (list A) :=
  match clause, pg_cursor params with
  | InGroupBy, Some _ => Err DatatypeMismatch
  | _, _ => Ok (keyset_paginate params rows)
  end.

(** [rows.pop()] *)
Definition pop (rows : list A) : list A := take (length rows - 1) rows.

(** The rows that are kept, and the cursors. *)
Definition get_cursors params rows : list A * NextAndPrevCursor :=
  let has_more := pg_limit params <? length rows in
  let rows := if has_more then pop rows else rows in
  let rows := match pg_direction params with Backward => rev rows | Forward => rows end in
  let start_id := id <$> head rows in
  let end_id := id <$> last rows in
  (rows,
   match pg_direction params with
   | Forward => {|
       next_cursor := if has_more then end_id else None;
       prev_cursor := match pg_cursor params with Some _ => start_id | None => None end |}
   | Backward => {| next_cursor := end_id; prev_cursor := if has_more then start_id else None |}
   end).

Definition page params rows : list A * NextAndPrevCursor :=
  get_cursors params (keyset_paginate params rows).

(** A client that follows the next cursors, for at most [fuel] pages. *)
Definition forward_page (limit : nat) (cursor : option Uuid) rows : list A * NextAndPrevCursor :=
  page {| pg_limit := limit; pg_cursor := cursor; pg_direction := Forward |} rows.
Definition backward_page (limit : nat) (cursor : option Uuid) rows : list A * NextAndPrevCursor :=
  page {| pg_limit := limit; pg_cursor := cursor; pg_direction := Backward |} rows.
Fixpoint walk (fuel limit : nat) (cursor : option Uuid) rows : option (list (list A)) :=
  match fuel with
  | 0 => None
  | S fuel =>
      let '(items, cursors) := forward_page limit cursor rows in
      match next_cursor cursors with
      | Some c => pages ← walk fuel limit (Some c) rows; Some (items :: pages)
      | None => Some [items]
      end
  end.

(** ** The rows in the order of their identifiers *)

Definition ordered rows : list A := order_by key rows.
Definition ascending (l : list A) : Prop := StronglySorted (λ x y, key x < key y)%Z l.

Lemma key_inj rows x y : NoDup (id <$> rows) → x ∈ rows → y ∈ rows → key x = key y → x = y.
Proof. intros Hid Hx Hy E%(inj uuid_num). by eapply NoDup_fmap_inj_in. Qed.

Lemma strict_of_sorted l :
  StronglySorted (λ x y, key x ≤ key y)%Z l → NoDup (key <$> l) → ascending l.
Proof.
  induction 1 as [|x l Hl IH Hx]; intros Hnd; [constructor|].
  rewrite fmap_cons in Hnd. apply NoDup_cons in Hnd as [Hn Hnd]. constructor; [by apply IH|].
  rewrite Forall_forall in Hx. apply Forall_forall. intros y Hy.
  assert (key x ≠ key y) by (intros E; apply Hn, list_elem_of_fmap; by exists y).
  specialize (Hx y Hy). lia.
Qed.

Lemma NoDup_key rows : NoDup (id <$> rows) → NoDup (key <$> rows).
Proof.
  intros Hid. assert (key <$> rows = uuid_num <$> (id <$> rows)) as -> by by rewrite <-list_fmap_compose.
  apply NoDup_fmap_2; [apply _|done].
Qed.

Lemma ordered_ascending rows : NoDup (id <$> rows) → ascending (ordered rows).
Proof.
  intros Hid. apply strict_of_sorted; [apply order_by_sorted|].
  unfold ordered. rewrite order_by_perm. by apply NoDup_key.
Qed.

(** Two ascending lists with the same elements are the same. *)
Lemma ascending_unique l k : ascending l → ascending k → (∀ x, x ∈ l ↔ x ∈ k) → l = k.
Proof.
  intros Hl. revert k. induction Hl as [|x l Hl IH Hx]; intros k Hk E.
  - destruct k as [|y k]; [done|]. exfalso. eapply not_elem_of_nil, E. by left.
  - destruct Hk as [|y k Hk Hy]; [exfalso; eapply not_elem_of_nil, E; by left|].
    rewrite Forall_forall in Hx, Hy.
    assert (x = y) as ->.
    { assert (x ∈ y :: k) as [|Hxk]%elem_of_cons by (apply E; by left); [done|].
      assert (y ∈ x :: l) as [|Hyl]%elem_of_cons by (apply E; by left); [done|].
      specialize (Hx y Hyl). specialize (Hy x Hxk). lia. }
    f_equal. apply IH; [done|]. intros z. specialize (E z). rewrite !elem_of_cons in E.
    split; intros Hz.
    + destruct (proj1 E (or_intror Hz)) as [->|?]; [|done]. specialize (Hx y Hz). lia.
    + destruct (proj2 E (or_intror Hz)) as [->|?]; [|done]. specialize (Hy y Hz). lia.
Qed.

Lemma ascending_app l k :
  ascending (l ++ k) ↔ ascending l ∧ ascending k ∧ ∀ x y, x ∈ l → y ∈ k → (key x < key y)%Z.
Proof. unfold ascending. rewrite StronglySorted_app. naive_solver. Qed.

Lemma ascending_filter (p : A → bool) rows : NoDup (id <$> rows) → ascending (order_by key (List.filter p rows)).
Proof.
  intros Hid. apply ordered_ascending. eapply sublist_NoDup; [exact Hid|].
  apply fmap_sublist, filter_sublist.
Qed.
Lemma elem_of_selected (p : A → bool) rows x :
  x ∈ order_by key (List.filter p rows) ↔ x ∈ rows ∧ p x = true.
Proof. rewrite elem_of_order_by, list_elem_of_In, filter_In, <-list_elem_of_In. done. Qed.

(** The rows a query selects, in ascending order, and the others. *)
Definition after (cursor : option Uuid) rows : list A :=
  order_by key (List.filter (beyond Forward cursor) rows).
Definition before (cursor : option Uuid) rows : list A :=
  order_by key (List.filter (λ r, negb (beyond Forward cursor r)) rows).

Lemma split_at cursor rows : NoDup (id <$> rows) → ordered rows = before cursor rows ++ after cursor rows.
Proof.
  intros Hid. apply ascending_unique; [by apply ordered_ascending| |].
  - apply ascending_app. split_and!; [by apply ascending_filter..|].
    intros x y [_ Hx]%elem_of_selected [_ Hy]%elem_of_selected.
    destruct cursor as [c|]; simpl in *; [|done].
    apply negb_true_iff, Z.ltb_ge in Hx. apply Z.ltb_lt in Hy. lia.
  - intros x. unfold before, after, ordered. rewrite elem_of_app, !elem_of_selected, elem_of_order_by.
    destruct (beyond Forward cursor x); naive_solver.
Qed.

(** A cursor in the list cuts it there. *)
Lemma cut_at rows l r k :
  NoDup (id <$> rows) → ordered rows = l ++ r :: k →
  after (Some (id r)) rows = k ∧
  order_by key (List.filter (beyond Backward (Some (id r))) rows) = l.
Proof.
  intros Hid E. pose proof (ordered_ascending rows Hid) as Ha. rewrite E in Ha.
  apply ascending_app in Ha as (Hl & Hrk & Hlk).
  pose proof Hrk as [Hk Hr]%StronglySorted_inv. rewrite Forall_forall in Hr.
  assert (∀ x, x ∈ rows ↔ x ∈ l ∨ x = r ∨ x ∈ k) as Hin.
  { intros x. rewrite <-(elem_of_order_by key x rows). fold (ordered rows).
    by rewrite E, elem_of_app, elem_of_cons. }
  assert (∀ x, x ∈ l → (key x < key r)%Z) as Hlr by (intros x Hx; apply Hlk; [done|by left]).
  split; apply ascending_unique; try done; try by apply ascending_filter.
  - intros x. unfold after. rewrite elem_of_selected, Hin. simpl. rewrite Z.ltb_lt. split.
    + intros [[Hx|[->|Hx]] Hlt]; [specialize (Hlr x Hx); unfold key in *; lia|unfold key in *; lia|done].
    + intros Hx. split; [auto|by apply Hr].
  - intros x. rewrite elem_of_selected, Hin. simpl. rewrite Z.ltb_lt. split.
    + intros [[Hx|[->|Hx]] Hlt]; [done|unfold key in *; lia|specialize (Hr x Hx); unfold key in *; lia].
    + intros Hx. split; [auto|by apply Hlr].
Qed.

(** Descending order is the reverse. *)
Lemma order_desc rows : NoDup (id <$> rows) → order_by (λ r, - key r)%Z rows = rev (order_by key rows).
Proof.
  intros Hid. rewrite <-(rev_involutive (order_by _ rows)). f_equal. apply ascending_unique.
  - pose proof (order_by_sorted (λ r, - key r)%Z rows) as Hs.
    apply strict_of_sorted.
    + induction Hs as [|x l Hl IH Hx]; simpl; [constructor|].
      apply StronglySorted_app. split_and!; [|done|repeat constructor].
      intros y z Hy ->%list_elem_of_singleton. rewrite Forall_forall in Hx.
      assert (y ∈ l) as Hy' by by rewrite list_elem_of_In, in_rev, <-list_elem_of_In.
      specialize (Hx y Hy'). lia.
    + rewrite <-Permutation_rev, order_by_perm. by apply NoDup_key.
  - by apply ordered_ascending.
  - intros x. by rewrite <-Permutation_rev, !elem_of_order_by.
Qed.

(** ** Pages as pieces of the ordered rows *)

Lemma pop_take n (l : list A) : n < length l → pop (take (n + 1) l) = take n l.
Proof.
  intros Hn. unfold pop. rewrite length_take, take_take. f_equal. lia.
Qed.
Lemma page_more n (l : list A) : (n <? length (take (n + 1) l)) = (n <? length l).
Proof. rewrite length_take. destruct (Nat.ltb_spec n (length l)); apply Nat.ltb_lt || apply Nat.ltb_ge; lia. Qed.
Lemma page_items n (l : list A) :
  (if n <? length l then pop (take (n + 1) l) else take (n + 1) l) = take n l.
Proof.
  destruct (Nat.ltb_spec n (length l)); [by apply pop_take|]. by rewrite !take_ge by lia.
Qed.

Lemma forward_page_spec limit cursor rows :
  let l := after cursor rows in
  forward_page limit cursor rows =
    (take limit l,
     {| next_cursor := if limit <? length l then id <$> last (take limit l) else None;
        prev_cursor := match cursor with Some _ => id <$> head (take limit l) | None => None end |}).
Proof.
  unfold forward_page, page, get_cursors, keyset_paginate. simpl. fold (after cursor rows).
  by rewrite page_more, page_items.
Qed.

Lemma backward_page_spec limit cursor rows :
  NoDup (id <$> rows) →
  let l := rev (order_by key (List.filter (beyond Backward cursor) rows)) in
  backward_page limit cursor rows =
    (rev (take limit l),
     {| next_cursor := id <$> last (rev (take limit l));
        prev_cursor := if limit <? length l then id <$> head (rev (take limit l)) else None |}).
Proof.
  intros Hid. unfold backward_page, page, get_cursors, keyset_paginate. simpl.
  rewrite order_desc; [by rewrite page_more, page_items|].
  eapply sublist_NoDup; [exact Hid|]. apply fmap_sublist, filter_sublist.
Qed.

Lemma last_take_split n (l : list A) : 0 < n → n < length l → ∃ t r, take n l = t ++ [r].
Proof.
  intros Hn Hl. destruct (take n l) as [|x k] eqn:E.
  - apply (f_equal length) in E. rewrite length_take in E. simpl in E. lia.
  - destruct (exists_last (l := x :: k)) as (t & r & ->); [done|]. eauto.
Qed.

(** The page after a full one starts where it ended. *)
Lemma next_page limit cursor rows c :
  NoDup (id <$> rows) → 0 < limit → next_cursor (forward_page limit cursor rows).2 = Some c →
  limit < length (after cursor rows) ∧
  after (Some c) rows = drop limit (after cursor rows) ∧ id <$> last (take limit (after cursor rows)) = Some c.
Proof.
  intros Hid Hl. rewrite forward_page_spec. simpl. set (l := after cursor rows).
  destruct (Nat.ltb_spec limit (length l)) as [Hlt|]; [|done]. intros Hc. split_and!; [done| |done].
  destruct (last_take_split limit l Hl Hlt) as (t & r & Et). rewrite Et, last_snoc in Hc.
  injection Hc as <-. refine (proj1 (cut_at rows (before cursor rows ++ t) r _ Hid _)).
  rewrite (split_at cursor rows Hid). fold l. rewrite <-(take_drop limit l) at 1. rewrite Et.
  by rewrite <-!app_assoc.
Qed.

Lemma walk_spec limit rows fuel cursor :
  NoDup (id <$> rows) → 0 < limit → length (after cursor rows) < fuel →
  ∃ pages : list (list A), walk fuel limit cursor rows = Some pages ∧ concat pages = after cursor rows ∧
    Forall (λ p : list A, length p ≤ limit) pages ∧
    ∀ i p, pages !! i = Some p → S i < length pages → length p = limit.
Proof.
  intros Hid Hl. revert cursor. induction fuel as [|fuel IH]; intros cursor Hf; [lia|]. cbn [walk].
  pose proof (next_page limit cursor rows) as Hnext. revert Hnext. rewrite forward_page_spec.
  cbn [fst snd next_cursor].
  set (l := after cursor rows) in *. intros Hnext.
  destruct (if limit <? length l then id <$> last (take limit l) else None) as [c|] eqn:Ec.
  - destruct (Hnext c Hid Hl eq_refl) as (Hlt & El & _).
    destruct (IH (Some c)) as (pages & -> & Hcat & Hle & Hfull).
    { rewrite El, length_drop. lia. }
    exists (take limit l :: pages). split_and!; [done| | |].
    + simpl. by rewrite Hcat, El, take_drop.
    + constructor; [apply firstn_le_length|done].
    + intros [|i] p Hp Hi; simpl in *; [injection Hp as <-; rewrite length_take; lia|].
      eapply Hfull; [exact Hp|lia].
  - exists [take limit l]. split_and!; [done| | |].
    + simpl. rewrite app_nil_r. destruct (Nat.ltb_spec limit (length l)) as [Hlt|]; [|by apply take_ge].
      destruct (last_take_split limit l Hl Hlt) as (t & r & Et). by rewrite Et, last_snoc in Ec.
    + repeat constructor. apply firstn_le_length.
    + intros [|i] p _ Hi; simpl in Hi; lia.
Qed.

Lemma after_none rows : after None rows = ordered rows.
Proof. unfold after, ordered. f_equal. induction rows as [|r rows IH]; [done|]. simpl. by rewrite IH. Qed.

(** C30: Walking the pages forward with any limit from 1 on ends, after at most one page more than
    there are rows, and visits every row exactly once, in the order of the identifiers; every
    page is full except perhaps the last. *)
Theorem pages_visit_all limit rows :
  NoDup (id <$> rows) → 0 < limit →
  ∃ pages : list (list A), walk (S (length rows)) limit None rows = Some pages ∧
    concat pages ≡ₚ rows ∧ ascending (concat pages) ∧
    Forall (λ p : list A, length p ≤ limit) pages ∧
    ∀ i p, pages !! i = Some p → S i < length pages → length p = limit.
Proof.
  intros Hid Hl. pose proof (after_none rows) as E.
  destruct (walk_spec limit rows (S (length rows)) None Hid Hl) as (pages & Hw & Hc & Hrest).
  { rewrite E. unfold ordered. rewrite order_by_perm. lia. }
  exists pages. rewrite Hc, E. split_and!; [done|apply order_by_perm|by apply ordered_ascending|apply Hrest..].
Qed.

(** Going back returns to where one came from: when a page has a next cursor, the page it leads
    to has a previous cursor, and the page before that is the first one again, with the same
    next cursor. *)
Theorem page_back limit cursor rows c :
  NoDup (id <$> rows) → 0 < limit → next_cursor (forward_page limit cursor rows).2 = Some c →
  ∃ p, prev_cursor (forward_page limit (Some c) rows).2 = Some p ∧
    (backward_page limit (Some p) rows).1 = (forward_page limit cursor rows).1 ∧
    next_cursor (backward_page limit (Some p) rows).2 = Some c.
Proof.
  intros Hid Hl Hnext. destruct (next_page _ _ _ _ Hid Hl Hnext) as (Hlt & El & Hlast).
  set (l := after cursor rows) in *.
  destruct (drop limit l) as [|r k] eqn:Ed.
  { apply (f_equal length) in Ed. rewrite length_drop in Ed. simpl in Ed. lia. }
  exists (id r).
  assert (order_by key (List.filter (beyond Backward (Some (id r))) rows) = before cursor rows ++ take limit l)
    as Eb.
  { refine (proj2 (cut_at rows _ r k Hid _)). rewrite (split_at cursor rows Hid). fold l.
    rewrite <-app_assoc. f_equal. by rewrite <-Ed, take_drop. }
  rewrite (backward_page_spec limit (Some (id r)) rows Hid), Eb, rev_app_distr.
  assert (length (rev (take limit l)) = limit) as Hlen by (rewrite length_rev, length_take; lia).
  rewrite take_app_le, take_ge, rev_involutive by lia.
  rewrite !forward_page_spec. simpl. rewrite El. fold l. split_and!; [|done|done].
  destruct limit as [|n]; [lia|]. done.
Qed.
End pages.

(** ** Witnesses *)

#[local] Existing Instance sample_uuid.
#[local] Instance sample_order : UuidOrder.
Proof.
  refine {| uuid_num (u : Uuid) := Zpos (encode (A:=string) u) |}.
Defined.
Definition self_id (u : Uuid) : Uuid := u.
Definition five_rows : list Uuid := (["d"; "a"; "e"; "b"; "c"] : list string).

Lemma pages_visit_all_witness :
  ∃ pages, walk self_id 6 2 None five_rows = Some pages ∧ length pages = 3 ∧
    concat pages ≡ₚ five_rows.
Proof.
  destruct (pages_visit_all self_id 2 five_rows) as (pages & Hw & Hp & _).
  - apply (bool_decide_unpack (NoDup (A:=string) ["d"; "a"; "e"; "b"; "c"])). vm_compute. exact I.
  - lia.
  - exists pages. split_and!; [exact Hw| |exact Hp].
    assert (length <$> walk self_id (S (length five_rows)) 2 None five_rows = Some 3) as Hn by (vm_compute; reflexivity).
    rewrite Hw in Hn. by injection Hn.
Defined.

Definition second_cursor : Uuid :=
  default ("" : string) (next_cursor (forward_page self_id 2 None five_rows).2).
Lemma page_back_witness :
  ∃ p, prev_cursor (forward_page self_id 2 (Some second_cursor) five_rows).2 = Some p ∧
    (backward_page self_id 2 (Some p) five_rows).1 = (forward_page self_id 2 None five_rows).1.
Proof.
  destruct (page_back self_id 2 None five_rows second_cursor) as (p & Hp & Hb & _).
  - apply (bool_decide_unpack (NoDup (A:=string) ["d"; "a"; "e"; "b"; "c"])). vm_compute. exact I.
  - lia.
  - vm_compute. reflexivity.
  - exists p. split; [exact Hp|exact Hb].
Defined.
