(* ===== verification/Redis.v ===== *)
(** * Redis

    The commands the services send, as a class over the state of the server; what Redis
    documents about them, as laws over a view of the live keys; and an instance for the
    witnesses. A command may fail, and then its effect may have happened or not. At the end the
    cache (shared/src/cache/mod.rs): an optional connection used as a cache of JSON values,
    where every error is swallowed and a value that cannot be read is a miss. *)

From S2P Require Import Prelude RustStr.

Local Open Scope Z_scope.

Class RedisApi := {
  redis : Type;
  redis_set_nx_ex : string → string → Z → M redis string (option string); (* SET k v NX EX n *)
  redis_script : string → string → string → M redis string Z;             (* EVALSHA script k v *)
  redis_get : string → M redis string (option string);
  redis_exists : string → M redis string bool;
  redis_set_ex : string → string → Z → M redis string unit;
  redis_hgetall : string → M redis string (list (string * string));
  redis_hget : string → string → M redis string (option string);
  redis_hlen : string → M redis string Z;
  redis_hexists : string → string → M redis string bool;
  redis_hset : string → string → string → M redis string unit;
  redis_hdel : string → string → M redis string unit;
  redis_expire : string → Z → M redis string unit;
  redis_del : string → M redis string unit }.

(** The live keys: strings and hashes. A missing hash is an empty one. *)
Class RedisView `{RedisApi} := {
  r_str : redis → gmap string string;
  r_hash : redis → gmap string (gmap string string) }.
Definition hash_of `{RedisView} (r : redis) (k : string) : gmap string string :=
  default ∅ (r_hash r !! k).

(** A command that reads: an answer about the state, or an error; nothing changes. *)
Definition reads `{RedisView} {A} (m : M redis string A) (ans : redis → A → Prop) : Prop :=
  ∀ r o r', m r = (o, r') → r_str r' = r_str r ∧ r_hash r' = r_hash r ∧
    match o with Ok a => ans r a | Err _ => True | Panic => False end.

(** A command that writes: on success its effect has happened, on an error it has or not. *)
Definition writes_hash `{RedisView} (m : M redis string unit) (k : string)
    (f : gmap string string → gmap string string) : Prop :=
  ∀ r o r', m r = (o, r') → r_str r' = r_str r ∧
    (∀ k', k' ≠ k → hash_of r' k' = hash_of r k') ∧
    match o with
    | Ok _ => hash_of r' k = f (hash_of r k)
    | Err _ => hash_of r' k = hash_of r k ∨ hash_of r' k = f (hash_of r k)
    | Panic => False
    end.

Class RedisHashLaws `{RedisView} := {
  hgetall_law k : reads (redis_hgetall k) (λ r l, l ≡ₚ map_to_list (hash_of r k));
  hget_law k f : reads (redis_hget k f) (λ r a, a = hash_of r k !! f);
  hlen_law k : reads (redis_hlen k) (λ r n, n = Z.of_nat (size (hash_of r k)));
  hexists_law k f : reads (redis_hexists k f) (λ r b, b = true ↔ hash_of r k !! f ≠ None);
  hset_law k f v : writes_hash (redis_hset k f v) k <[f := v]>;
  hdel_law k f : writes_hash (redis_hdel k f) k (delete f);
  expire_law k n : 0 < n → writes_hash (redis_expire k n) k id;
  del_law k r o r' : redis_del k r = (o, r') →
    (∀ k', k' ≠ k → r_str r' !! k' = r_str r !! k' ∧ hash_of r' k' = hash_of r k') ∧
    match o with
    | Ok _ => hash_of r' k = ∅
    | Err _ => hash_of r' k = hash_of r k ∨ hash_of r' k = ∅
    | Panic => False
    end }.

(** The commands on strings; a key holds a string or a hash, so writing one may end the other. *)
Definition writes_str `{RedisView} (m : M redis string unit) (k : string) (v : option string) : Prop :=
  ∀ r o r', m r = (o, r') →
    (∀ k', k' ≠ k → r_str r' !! k' = r_str r !! k' ∧ hash_of r' k' = hash_of r k') ∧
    match o with
    | Ok _ => r_str r' !! k = v
    | Err _ => r_str r' !! k = r_str r !! k ∨ r_str r' !! k = v
    | Panic => False
    end.
Class RedisStringLaws `{RedisView} := {
  get_law k : reads (redis_get k) (λ r a, a = r_str r !! k);
  set_ex_law k v n : 0 < n → writes_str (redis_set_ex k v n) k (Some v);
  del_str_law k : writes_str (redis_del k) k None }.

(** A server that answers every command on hashes. *)
Definition answers `{RedisApi} {A} (m : M redis string A) : Prop := ∀ r, is_ok (m r).1 = true.
Class RedisUp `{RedisApi} := {
  up_hgetall k : answers (redis_hgetall k);
  up_hget k f : answers (redis_hget k f);
  up_hlen k : answers (redis_hlen k);
  up_hexists k f : answers (redis_hexists k f);
  up_hset k f v : answers (redis_hset k f v);
  up_hdel k f : answers (redis_hdel k f);
  up_expire k n : answers (redis_expire k n);
  up_del k : answers (redis_del k) }.

(** ** An instance: two maps, and no errors *)

Section sample.
Record sample_store := MkStore {
  st_str : gmap string string; st_hash : gmap string (gmap string string) }.

Definition store_read {A} (f : sample_store → A) : M sample_store string A :=
  λ r, (Ok (f r), r).
Definition store_write (f : sample_store → sample_store) : M sample_store string unit :=
  λ r, (Ok tt, f r).
Definition store_hash (k : string) (r : sample_store) : gmap string string := default ∅ (st_hash r !! k).
Definition set_store_hash (k : string) (h : gmap string string) (r : sample_store) : sample_store :=
  MkStore (st_str r) (<[k := h]> (st_hash r)).
End sample.

(** The scripts an instance knows, with what they do to the strings. *)
#[local] Instance sample_redis
    (run : string → string → string → gmap string string → Z * gmap string string) : RedisApi := {|
  redis := sample_store;
  redis_set_nx_ex k v _ := λ r,
    match st_str r !! k with
    | None => (Ok (Some "OK"), MkStore (<[k := v]> (st_str r)) (st_hash r))
    | Some _ => (Ok None, r)
    end;
  redis_script text k v := λ r,
    let '(z, s) := run text k v (st_str r) in (Ok z, MkStore s (st_hash r));
  redis_get k := store_read (λ r, st_str r !! k);
  redis_exists k := store_read (λ r, bool_decide (is_Some (st_str r !! k)));
  redis_set_ex k v _ := store_write (λ r, MkStore (<[k := v]> (st_str r)) (st_hash r));
  redis_hgetall k := store_read (λ r, map_to_list (store_hash k r));
  redis_hget k f := store_read (λ r, store_hash k r !! f);
  redis_hlen k := store_read (λ r, Z.of_nat (size (store_hash k r)));
  redis_hexists k f := store_read (λ r, bool_decide (is_Some (store_hash k r !! f)));
  redis_hset k f v := store_write (λ r, set_store_hash k (<[f := v]> (store_hash k r)) r);
  redis_hdel k f := store_write (λ r, set_store_hash k (delete f (store_hash k r)) r);
  redis_expire _ _ := store_write id;
  redis_del k := store_write (λ r, MkStore (delete k (st_str r)) (delete k (st_hash r))) |}.

#[local] Instance sample_redis_view run : @RedisView (sample_redis run) :=
  @Build_RedisView (sample_redis run) st_str st_hash.

Lemma store_reads run {A} (f : sample_store → A) (ans : sample_store → A → Prop) :
  (∀ r, ans r (f r)) → @reads (sample_redis run) _ A (store_read f) ans.
Proof. intros Hf r o r' [= <- <-]. split_and!; [done|done|apply Hf]. Qed.

Lemma store_writes run k f :
  @writes_hash (sample_redis run) _
    (store_write (λ r, set_store_hash k (f (store_hash k r)) r)) k f.
Proof.
  intros r o r' [= <- <-]. unfold hash_of, set_store_hash. simpl. split_and!; [done| |].
  - intros k' Hk. by rewrite lookup_insert_ne by done.
  - by rewrite lookup_insert_eq.
Qed.

Lemma sample_redis_hash_laws run : @RedisHashLaws (sample_redis run) _.
Proof.
  split.
  - intros k. by apply store_reads.
  - intros k f. by apply store_reads.
  - intros k. by apply store_reads.
  - intros k f. apply store_reads. intros r. rewrite bool_decide_eq_true, <-not_eq_None_Some. done.
  - intros k f v. apply (store_writes run k (<[f := v]>)).
  - intros k f. apply (store_writes run k (delete f)).
  - intros k n _ r o r' [= <- <-]. done.  - intros k r o r' [= <- <-]. unfold hash_of. simpl. split.
    + intros k' Hk. by rewrite !lookup_delete_ne by done.
    + by rewrite lookup_delete_eq.
Qed.
Lemma sample_redis_up run : @RedisUp (sample_redis run).
Proof. by split. Qed.
Lemma sample_redis_string_laws run : @RedisStringLaws (sample_redis run) _.
Proof.
  split.
  - intros k. by apply store_reads.
  - intros k v n _ r o r' [= <- <-]. simpl. split; [|by rewrite lookup_insert_eq].
    intros k' Hk. by rewrite lookup_insert_ne by done.
  - intros k r o r' [= <- <-]. unfold hash_of. simpl. split; [|by rewrite lookup_delete_eq].
    intros k' Hk. by rewrite !lookup_delete_ne by done.
Qed.

Section cache.
Context `{RedisApi} {E : Type}.

(** [RedisCache]: whether there is a connection, and the time to live of the entries. *)
Record RedisCache := { rc_connected : bool; rc_default_ttl : Z }.
Definition RedisCache_new (connected : bool) (default_ttl_secs : Z) : RedisCache :=
  {| rc_connected := connected; rc_default_ttl := default_ttl_secs |}.
Definition noop : RedisCache := {| rc_connected := false; rc_default_ttl := 0 |}.

(** [serde_json::from_str] and [to_string] of the cached type are arguments. *)
Definition cache_get {V} (from_json : string → option V) (cache : RedisCache) (key : string)
    : M redis E (option V) := λ r,
  if rc_connected cache then
    match redis_get key r with
    | (Ok (Some data), r') => (Ok (from_json data), r')
    | (Ok None, r') | (Err _, r') => (Ok None, r')
    | (Panic, r') => (Panic, r')
    end
  else (Ok None, r).

Definition cache_set {V} (to_json : V → option string) (cache : RedisCache) (key : string) (value : V)
    : M redis E unit := λ r,
  if rc_connected cache then
    match to_json value with
    | Some data =>
        match redis_set_ex key data (rc_default_ttl cache) r with
        | (Panic, r') => (Panic, r')
        | (_, r') => (Ok tt, r')
        end
    | None => (Ok tt, r)
    end
  else (Ok tt, r).

Definition evict (cache : RedisCache) (key : string) : M redis E unit := λ r,
  if rc_connected cache then
    match redis_del key r with
    | (Panic, r') => (Panic, r')
    | (_, r') => (Ok tt, r')
    end
  else (Ok tt, r).
End cache.

(** ** What the cache holds *)

Section laws.
Context `{RedisStringLaws} {E : Type}.

Lemma cache_get_spec {V} (from_json : string → option V) cache key r o r' :
  cache_get (E := E) from_json cache key r = (o, r') →
  r_str r' = r_str r ∧ ∃ v, o = Ok v ∧ (v = None ∨ v = r_str r !! key ≫= from_json).
Proof.
  unfold cache_get. destruct (rc_connected cache); [|intros [= <- <-]; eauto].
  destruct (redis_get key r) as [o1 r1] eqn:Eg. pose proof (get_law key r o1 r1 Eg) as (Hs & _ & Ho).
  destruct o1 as [[d|]|e|]; intros; simplify_eq; [|eauto..|done].
  split; [done|]. eexists. split; [done|]. right. by rewrite <-Ho.
Qed.

Lemma cache_set_spec {V} (to_json : V → option string) cache key v r o r' :
  0 < rc_default_ttl cache → cache_set (E := E) to_json cache key v r = (o, r') →
  o = Ok tt ∧ (∀ k, k ≠ key → r_str r' !! k = r_str r !! k) ∧
  (r_str r' !! key = r_str r !! key ∨ ∃ d, to_json v = Some d ∧ r_str r' !! key = Some d).
Proof.
  intros Httl. unfold cache_set. destruct (rc_connected cache); [|intros [= <- <-]; auto].
  destruct (to_json v) as [d|]; [|intros [= <- <-]; auto].
  destruct (redis_set_ex key d _ r) as [o1 r1] eqn:Es.
  apply (set_ex_law key d _ Httl) in Es as [Hoth Ho].
  destruct o1 as [u|e|]; intros; simplify_eq; [| |done];
    (split_and!; [done|intros k Hk; by apply Hoth|]); [eauto|]. destruct Ho as [->| ->]; eauto.
Qed.

Lemma evict_spec cache key r o r' : evict (E := E) cache key r = (o, r') →
  o = Ok tt ∧ (∀ k, k ≠ key → r_str r' !! k = r_str r !! k) ∧
  (r_str r' !! key = r_str r !! key ∨ r_str r' !! key = None).
Proof.
  unfold evict. destruct (rc_connected cache); [|intros [= <- <-]; auto].
  destruct (redis_del key r) as [o1 r1] eqn:Es. apply (del_str_law key) in Es as [Hoth Ho].
  destruct o1 as [u|e|]; intros; simplify_eq; [| |done];
    (split_and!; [done|intros k Hk; by apply Hoth|]); auto.
Qed.
End laws.
