(* ===== verification/DistributedLock.v ===== *)
(** * The distributed lock (shared/src/distributed_lock.rs)

    A lock is a Redis key set if absent, with a token drawn for each acquisition and a
    time to live; its release is a script that deletes the key only if it still holds the
    token. The key may expire while its guard is held. *)

From stdpp Require Import relations.
From S2P Require Import Prelude RustStr Redis.

Local Open Scope Z_scope.

Inductive LockError : Type := AlreadyHeld | RedisUnavailable (msg : string).
Record LockGuard := { lg_key : string; lg_token : string }.

(** Delays are in milliseconds. *)
Record RetryConfig := { max_attempts : nat; retry_delay : Z }.
Definition RetryConfig_default : RetryConfig := {| max_attempts := 5; retry_delay := 200 |}.

Definition newline : string := String.String (Ascii.ascii_of_nat 10) "".
Definition dquote : string := String.String (Ascii.ascii_of_nat 34) "".
Definition RELEASE_SCRIPT : string :=
  newline +:+ "if redis.call(" +:+ dquote +:+ "get" +:+ dquote +:+ ", KEYS[1]) == ARGV[1] then" +:+
  newline +:+ "    return redis.call(" +:+ dquote +:+ "del" +:+ dquote +:+ ", KEYS[1])" +:+
  newline +:+ "else" +:+ newline +:+ "    return 0" +:+ newline +:+ "end" +:+ newline.

(** What the script does: the number it returns, and the strings it leaves. *)
Definition release_script (key token : string) (m : gmap string string) : Z * gmap string string :=
  if decide (m !! key = Some token) then (1, delete key m) else (0, m).

Section lock.
Context `{RedisApi}.

(** The time to live is in milliseconds; [token] is the identifier drawn for the lock. *)
Definition acquire (token key : string) (ttl : Z) : M redis LockError LockGuard :=
  let ttl_secs := Z.max (ttl / 1000) 1 in
  result ← map_err RedisUnavailable (redis_set_nx_ex key token ttl_secs);
  match result with
  | Some _ => mret {| lg_key := key; lg_token := token |}
  | None => fail AlreadyHeld
  end.

(** The loop of [acquire_with_retry] from the attempt number [attempt], with [remaining]
    attempts left; [tokens] gives the identifier each attempt draws. The sleep between two
    attempts is a gap in which the state of Redis moves ([elapse]). *)
Fixpoint acquire_attempts (elapse : redis → redis) (tokens : nat → string) (key : string) (ttl : Z)
    (config : RetryConfig) (attempt remaining : nat) : M redis LockError LockGuard :=
  match remaining with
  | O => fail AlreadyHeld
  | S remaining =>
      catch (acquire (tokens attempt) key ttl) mret
        (λ e, match e with
              | AlreadyHeld =>
                  if (attempt + 1 <? max_attempts config)%nat then
                    _ ← modify elapse;
                    acquire_attempts elapse tokens key ttl config (attempt + 1) remaining
                  else fail e
              | _ => fail e
              end)
  end.
Definition acquire_with_retry (elapse : redis → redis) (tokens : nat → string) (key : string)
    (ttl : Z) (config : RetryConfig) : M redis LockError LockGuard :=
  acquire_attempts elapse tokens key ttl config 0 (max_attempts config).

Definition release (guard : LockGuard) : M redis LockError bool :=
  result ← map_err RedisUnavailable (redis_script RELEASE_SCRIPT (lg_key guard) (lg_token guard));
  mret (result =? 1).
End lock.

(** What Redis documents about the two commands of the lock. *)
Class RedisLockLaws `{RedisView} := {
  set_nx_law k v n r o r' : redis_set_nx_ex k v n r = (o, r') →
    match o with
    | Ok (Some _) => r_str r !! k = None ∧ r_str r' = <[k := v]> (r_str r)
    | Ok None => r_str r' = r_str r
    | Err _ => r_str r' = r_str r ∨ r_str r !! k = None ∧ r_str r' = <[k := v]> (r_str r)
    | Panic => False
    end;
  release_law k v r o r' : redis_script RELEASE_SCRIPT k v r = (o, r') →
    match o with
    | Ok n => (n, r_str r') = release_script k v (r_str r)
    | Err _ => r_str r' = r_str r ∨ r_str r' = (release_script k v (r_str r)).2
    | Panic => False
    end }.

Section exclusion.
Context `{RedisLockLaws}.
Implicit Types r : redis.

Lemma acquire_spec token key ttl r o r' :
  acquire token key ttl r = (o, r') →
  match o with
  | Ok g => g = {| lg_key := key; lg_token := token |} ∧ r_str r !! key = None ∧
      r_str r' = <[key := token]> (r_str r)
  | Err AlreadyHeld => r_str r' = r_str r
  | Err _ => r_str r' = r_str r ∨ r_str r !! key = None ∧ r_str r' = <[key := token]> (r_str r)
  | Panic => False
  end.
Proof.
  unfold acquire, map_err, mbind, M_bind.
  destruct (redis_set_nx_ex _ _ _ r) as [o1 r1] eqn:Es. apply set_nx_law in Es.
  destruct o1 as [[a|]|e|]; simpl; intros [= <- <-]; done.
Qed.

Lemma release_spec g r o r' :
  release g r = (o, r') →
  (r_str r' = r_str r ∨ r_str r !! lg_key g = Some (lg_token g) ∧ r_str r' = delete (lg_key g) (r_str r)) ∧
  (o = Ok true → r_str r !! lg_key g = Some (lg_token g) ∧ r_str r' !! lg_key g = None) ∧
  (o = Ok false → r_str r !! lg_key g ≠ Some (lg_token g) ∧ r_str r' = r_str r).
Proof.
  unfold release, map_err, mbind, M_bind.
  destruct (redis_script _ _ _ r) as [o1 r1] eqn:Es. apply release_law in Es.
  unfold release_script in Es. destruct o1 as [n|e|]; [| |done]; simpl; intros [= <- <-].
  - case_decide as Hd; injection Es as -> ->; (split_and!; [auto|intros E..]); try done.
    split; [done|]. by rewrite lookup_delete_eq.
  - case_decide as Hd; simpl in Es; (split_and!; [|discriminate..]); naive_solver.
Qed.

(** ** Clients of one lock

    The state of Redis, the guards that were acquired and not given back, and the tokens drawn so
    far. A guard is current until its key expires, which happens whoever holds it; a client that
    holds on to a guard beyond its time to live still has it and may release it at any time. *)
Record lock_world := LockWorld {
  lw_redis : redis; lw_guards : list (LockGuard * bool); lw_drawn : list string }.
Definition lock_start (r : redis) : lock_world := LockWorld r [] [].

(** The tokens are version 7 identifiers: no two acquisitions draw the same. *)
Inductive lock_step (key : string) : lock_world → lock_world → Prop :=
| lock_acquire token ttl r gs drawn o r' :
    token ∉ drawn → acquire token key ttl r = (o, r') →
    lock_step key (LockWorld r gs drawn)
      (LockWorld r' (match o with Ok g => (g, true) :: gs | _ => gs end) (token :: drawn))
| lock_release g current r gs1 gs2 drawn o r' :
    release g r = (o, r') →
    lock_step key (LockWorld r (gs1 ++ (g, current) :: gs2) drawn) (LockWorld r' (gs1 ++ gs2) drawn)
| lock_expire r gs drawn r' :
    r_str r' = delete key (r_str r) →
    lock_step key (LockWorld r gs drawn) (LockWorld r' ((λ x, (x.1, false)) <$> gs) drawn)
| lock_other r gs drawn r' :
    r_str r' !! key = r_str r !! key → lock_step key (LockWorld r gs drawn) (LockWorld r' gs drawn).

(** A guard is current exactly when the key has its token. *)
Definition guard_ok (key : string) (r : redis) (drawn : list string) (x : LockGuard * bool) : Prop :=
  lg_key x.1 = key ∧ lg_token x.1 ∈ drawn ∧ (x.2 = true ↔ r_str r !! key = Some (lg_token x.1)).
Definition lock_inv (key : string) (w : lock_world) : Prop :=
  NoDup ((λ x, lg_token x.1) <$> lw_guards w) ∧
  Forall (guard_ok key (lw_redis w) (lw_drawn w)) (lw_guards w).

Lemma guard_drawn key r drawn token x : guard_ok key r drawn x → guard_ok key r (token :: drawn) x.
Proof. intros (Hk & Ht & Hx). split_and!; [done|by right|done]. Qed.
Lemma guard_same key r r' drawn x :
  r_str r' !! key = r_str r !! key → guard_ok key r drawn x → guard_ok key r' drawn x.
Proof. unfold guard_ok. by intros ->. Qed.

(** The key is taken with a token that no guard has. *)
Lemma guards_taken key r r' drawn token gs :
  token ∉ drawn → r_str r !! key = None → r_str r' = <[key := token]> (r_str r) →
  Forall (guard_ok key r drawn) gs → Forall (guard_ok key r' (token :: drawn)) gs.
Proof.
  intros Hn Hk Hr Hgs. eapply Forall_impl; [exact Hgs|]. intros x (Hx & Ht & Hc).
  split_and!; [done|by right|]. rewrite Hr, lookup_insert_eq, Hc, Hk. split; [done|]. intros [= ->]. done.
Qed.

(** Releasing a guard leaves the other guards what they are. *)
Lemma guards_released key g current r r' o drawn gs1 gs2 :
  release g r = (o, r') → lock_inv key (LockWorld r (gs1 ++ (g, current) :: gs2) drawn) →
  lock_inv key (LockWorld r' (gs1 ++ gs2) drawn).
Proof.
  unfold lock_inv. simpl. intros (Hr & _)%release_spec [Hnd Hgs].
  rewrite fmap_app, fmap_cons, NoDup_app, NoDup_cons in Hnd. destruct Hnd as (Hnd1 & H12 & Hg & Hnd2).
  apply Forall_app in Hgs as [Hgs1 [(Hkey & _ & _) Hgs2]%Forall_cons]. simpl in *. split.
  - rewrite fmap_app, NoDup_app. split_and!; [done| |done]. intros t Ht Ht'. eapply H12; [done|by right].
  - assert (Forall (guard_ok key r drawn) (gs1 ++ gs2)) as Hall by by apply Forall_app.
    apply Forall_forall. intros x Hx. rewrite Forall_forall in Hall. pose proof (Hall x Hx) as (Hxk & Hxd & Hxc).
    destruct Hr as [E|[Hheld E]]; [by eapply guard_same, Hall; [by rewrite E|]|].
    split_and!; [done|done|]. rewrite E, Hkey, lookup_delete_eq, Hxc. rewrite Hkey in Hheld. rewrite Hheld.
    split; [|done]. intros [= Heq]. exfalso. apply elem_of_app in Hx as [Hx|Hx].
    + eapply (H12 (lg_token x.1)); [by apply (list_elem_of_fmap_2 (λ x, lg_token x.1))|]. rewrite <-Heq. by left.
    + apply Hg. rewrite Heq. by apply (list_elem_of_fmap_2 (λ x, lg_token x.1)).
Qed.

Lemma lock_step_inv key w w' : lock_step key w w' → lock_inv key w → lock_inv key w'.
Proof.
  intros [token ttl r gs drawn o r' Hn Ha|g current r gs1 gs2 drawn o r' Hr|r gs drawn r' Hr|r gs drawn r' Hr];
    [|by eapply guards_released|..]; unfold lock_inv; simpl; intros [Hnd Hgs].
  - apply acquire_spec in Ha.
    assert (r_str r' = r_str r → NoDup ((λ x, lg_token x.1) <$> gs) ∧ Forall (guard_ok key r' (token :: drawn)) gs) as Hsame.
    { intros E. split; [done|]. eapply Forall_impl; [exact Hgs|]. intros x Hx.
      apply guard_drawn. eapply guard_same, Hx. by rewrite E. }
    destruct o as [g|e|]; [|destruct e as [|msg]; [by apply Hsame|]|done].
    + destruct Ha as (-> & Hk & E). simpl. split.
      * apply NoDup_cons. split; [|exact Hnd]. intros (x & Ex & Hx)%list_elem_of_fmap.
        rewrite Forall_forall in Hgs. destruct (Hgs x Hx) as (_ & Ht & _). by rewrite <-Ex in Ht.
      * constructor; [|by eapply guards_taken]. split_and!; simpl; [done|by left|].
        rewrite E, lookup_insert_eq. done.
    + destruct Ha as [E|[Hk E]]; [by apply Hsame|]. split; [done|]. by eapply guards_taken.
  - rewrite <-list_fmap_compose. split; [exact Hnd|]. apply Forall_fmap. eapply Forall_impl; [exact Hgs|].
    intros x (Hk & Ht & _). split_and!; [done|done|]. simpl. by rewrite Hr, lookup_delete_eq.
  - split; [done|]. eapply Forall_impl; [exact Hgs|]. intros x. by apply guard_same.
Qed.

Lemma lock_reachable key r0 w : rtc (lock_step key) (lock_start r0) w → lock_inv key w.
Proof.
  intros Hr. assert (lock_inv key (lock_start r0)) as Hinv by (split; constructor). revert Hinv.
  induction Hr as [|w1 w2 w3 Hs _ IH]; [done|]. intros Hinv. by eapply IH, lock_step_inv.
Qed.

(** ** Properties *)

(** C20: Mutual exclusion, up to the time to live. Starting without guards, clients acquire, each time
    with a token not drawn before, and release in whatever order, Redis fails with or without an effect,
    and the key may expire at any moment, whoever holds it; a client may then still have a guard and
    release it at any time. At most one guard is current, that is, acquired since the key expired last.
    The key has its token; until it is released or expires nobody acquires the lock and no attempt
    changes anything; and its release, if Redis answers, says that it was held and frees the key. The
    release of a guard that is not current fails or says that it was not held, and changes nothing: it
    does not end the lock of the client that came after. *)
Theorem lock_mutual_exclusion key r0 r gs drawn :
  rtc (lock_step key) (lock_start r0) (LockWorld r gs drawn) →
  (length (List.filter snd gs) ≤ 1)%nat ∧
  (∀ g, (g, true) ∈ gs → lg_key g = key ∧ r_str r !! key = Some (lg_token g) ∧
     (∀ token ttl o r', acquire token key ttl r = (o, r') → is_ok o = false ∧ r_str r' = r_str r) ∧
     (∀ b r', release g r = (Ok b, r') → b = true ∧ r_str r' !! key = None)) ∧
  (∀ g, (g, false) ∈ gs → ∀ o r', release g r = (o, r') → r_str r' = r_str r ∧ o ≠ Ok true).
Proof.
  intros [Hnd Hgs]%lock_reachable. simpl in *.
  assert (∀ x, x ∈ gs → guard_ok key r drawn x) as Hok by by apply Forall_forall. split_and!.
  - destruct (List.filter snd gs) as [|x [|y l]] eqn:E; simpl; [lia..|]. exfalso.
    assert (NoDup (lg_token ∘ fst <$> x :: y :: l)) as Hnd'.
    { rewrite <-E. eapply sublist_NoDup; [exact Hnd|]. apply (fmap_sublist (lg_token ∘ fst)), filter_sublist. }
    assert (∀ z, z ∈ x :: y :: l → r_str r !! key = Some (lg_token z.1)) as Hz.
    { intros z. rewrite <-E, list_elem_of_In, filter_In, <-list_elem_of_In. intros [Hz Hc].
      by apply (Hok z Hz). }
    apply NoDup_cons in Hnd' as [Hx _]. apply Hx, elem_of_cons. left. simpl.
    assert (Some (lg_token x.1) = Some (lg_token y.1)) as [= ?]; [|done].
    rewrite <-(Hz x), <-(Hz y); [done|right; left|left].
  - intros g Hg. destruct (Hok _ Hg) as (Hk & _ & Hc). simpl in *. pose proof (proj1 Hc eq_refl) as Hv.
    split_and!; [done|done| |].
    + intros token ttl o r' Ha%acquire_spec. destruct o as [g'|e|]; [|destruct e|done]; [|done|];
        [by destruct Ha as (_ & Hn & _); congruence|]. split; [done|]. destruct Ha as [?|[Hn _]]; [done|congruence].
    + intros b r' (_ & Ht & Hf)%release_spec. destruct b.
      * split; [done|]. rewrite <-Hk. by apply Ht.
      * destruct (Hf eq_refl) as [Hne _]. destruct Hne. by rewrite Hk.
  - intros g Hg o r' (Hs & Ht & _)%release_spec. destruct (Hok _ Hg) as (Hk & _ & Hc). simpl in *.
    assert (r_str r !! lg_key g ≠ Some (lg_token g)) as Hne.
    { rewrite Hk. intros E. by apply Hc in E. }
    split; [by destruct Hs as [?|[? _]]|]. intros ->. by destruct (Ht eq_refl).
Qed.

(** A stale release is harmless. A guard whose lock expired and was acquired by
    another client is released without touching the other's lock, and the answer says so;
    and a release never removes any other key. *)
Theorem stale_release_harmless g r o r' :
  release g r = (o, r') →
  (r_str r !! lg_key g ≠ Some (lg_token g) → r_str r' = r_str r ∧ o ≠ Ok true) ∧
  ∀ k, k ≠ lg_key g → r_str r' !! k = r_str r !! k.
Proof.
  intros (Hs & Ht & _)%release_spec. split.
  - intros Hne. destruct Hs as [->|[? _]]; [|done]. split; [done|]. intros ->.
    by destruct (Ht eq_refl).
  - intros k Hk. destruct Hs as [->|[_ ->]]; [done|]. by rewrite lookup_delete_ne by done.
Qed.
End exclusion.

(** ** Witnesses *)

#[local] Existing Instance sample_redis.
#[local] Existing Instance sample_redis_view.
Definition run_release (text k v : string) (m : gmap string string) : Z * gmap string string :=
  if decide (text = RELEASE_SCRIPT) then release_script k v m else (0, m).

Lemma sample_lock_laws : @RedisLockLaws (sample_redis run_release) (sample_redis_view run_release).
Proof.
  split.
  - intros k v n r o r'. simpl. destruct (st_str r !! k) eqn:Ek; intros [= <- <-]; done.
  - intros k v r o r'. simpl. unfold run_release. rewrite decide_True by done.
    destruct (release_script k v (st_str r)) as [z m] eqn:Er. by intros [= <- <-].
Qed.

Definition lock_guard (token : string) : LockGuard := {| lg_key := "payment:1"; lg_token := token |}.
Definition held_by (tokens : list string) : sample_store :=
  MkStore (match tokens with t :: _ => {["payment:1" := t]} | [] => ∅ end) ∅.

(** One client acquires the lock and the key expires, a second one acquires it, a third one tries
    in vain; then the first one gives its guard back, which changes nothing. *)
Lemma lock_mutual_exclusion_witness :
  (length (List.filter snd [(lock_guard "b", true); (lock_guard "a", false)]) ≤ 1)%nat ∧
  st_str (@release (sample_redis run_release) (lock_guard "a") (held_by ["b"])).2 = {["payment:1" := "b"]}.
Proof.
  destruct (@lock_mutual_exclusion (sample_redis run_release) (sample_redis_view run_release)
    sample_lock_laws "payment:1" (held_by []) (held_by ["b"])
    [(lock_guard "b", true); (lock_guard "a", false)] ["c"; "b"; "a"]) as (Hone & _ & Hstale).
  - eapply rtc_l; [exact (@lock_acquire (sample_redis run_release) (sample_redis_view run_release)
      "payment:1" "a" 30000 (held_by []) [] [] _ _ (not_elem_of_nil _) (surjective_pairing _))|].
    eapply rtc_l; [refine (@lock_expire (sample_redis run_release) (sample_redis_view run_release)
      "payment:1" _ _ _ (held_by []) _); vm_compute; reflexivity|].
    eapply rtc_l; [refine (@lock_acquire (sample_redis run_release) (sample_redis_view run_release)
      "payment:1" "b" 30000 _ _ _ _ _ _ (surjective_pairing _)); apply (bool_decide_unpack _); exact I|].
    eapply rtc_l; [refine (@lock_acquire (sample_redis run_release) (sample_redis_view run_release)
      "payment:1" "c" 30000 _ _ _ _ _ _ (surjective_pairing _)); apply (bool_decide_unpack _); exact I|].
    apply rtc_refl.
  - split; [exact Hone|].
    refine (proj1 (Hstale (lock_guard "a") _ _ _ (surjective_pairing _))). right. left.
Defined.

(** The guard "a" is stale: the lock is held with the token "b". *)
Lemma stale_release_harmless_witness :
  let r : @redis (sample_redis run_release) := MkStore {["payment:1" := "b"]} ∅ in
  st_str (@release (sample_redis run_release) {| lg_key := "payment:1"; lg_token := "a" |} r).2 =
  st_str r.
Proof.
  refine (proj1 (proj1 (@stale_release_harmless (sample_redis run_release)
    (sample_redis_view run_release) sample_lock_laws {| lg_key := "payment:1"; lg_token := "a" |}
    (MkStore {["payment:1" := "b"]} ∅) _ _ (surjective_pairing _)) _)).
  discriminate.
Defined.
