(* ===== verification/Cart.v ===== *)
(** * Cart service (cart/src/cart)

    Values and requests (value_objects.rs, dtos.rs), the cart and its totals (domain.rs),
    the checkout rules (rules.rs), the Redis hash that holds a user's cart (repository.rs)
    and the operations over it (service.rs). *)

From S2P Require Import Prelude RustStr Externals Errors NewTypes Rules Auth Redis.

Local Open Scope Z_scope.

(** ** Errors (error.rs) *)

Inductive CartError : Type :=
| ValidationFailed (msg : string)
| CartFull (max : Z)
| ItemNotFound (msg : string)
| CheckoutNotReady (msg : string)
| Infra (e : AppError).

Definition cart_error_display (e : CartError) : string :=
  match e with
  | ValidationFailed msg => "Validation failed: " +:+ msg
  | CartFull max => "Cart is full (max " +:+ pretty max +:+ " items)"
  | ItemNotFound msg => "Item not found: " +:+ msg
  | CheckoutNotReady msg => "Checkout not ready: " +:+ msg
  | Infra e => app_error_display e
  end.
Definition app_of_cart_error (e : CartError) : AppError :=
  match e with
  | ValidationFailed msg => BadRequest msg
  | CartFull max => BadRequest ("Cart is full (max " +:+ pretty max +:+ " items)")
  | ItemNotFound msg => NotFound msg
  | CheckoutNotReady msg => BadRequest msg
  | Infra e => e
  end.

Section values.
Context `{Externals}.

(** ** Values (value_objects.rs) *)

Record Quantity := MkQuantity { quantity_value : N }.   (* u32 *)
Definition Quantity_new (value : N) : outcome AppError Quantity :=
  if (value =? 0)%N then Err (BadRequest "Quantity must be at least 1")
  else if (99 <? value)%N then Err (BadRequest "Quantity must not exceed 99")
  else Ok (MkQuantity value).
Definition CartProductName_new : string → outcome AppError string := validated_name "Product name" 500.

(** ** The cart (domain.rs). [None] is the overflow panic of the decimals. *)

Record CartItem := {
  ct_product_id : Uuid; ct_sku_id : Uuid; ct_quantity : Quantity; ct_unit_price : Price;
  ct_currency : Currency; ct_product_name : string; ct_image_url : option string; ct_added_at : Z }.
Definition line_total (i : CartItem) : option Decimal :=
  dec_mul (price_value (ct_unit_price i)) (dec_new (Z.of_N (quantity_value (ct_quantity i))) 0).

Record Cart := { cart_user_id : Uuid; cart_items : list CartItem }.
Definition total (c : Cart) : option Decimal :=
  totals ← mapM line_total (cart_items c); dec_sum dec_zero totals.
Definition item_count (c : Cart) : nat := length (cart_items c).

(** ** Requests and stored items (dtos.rs, repository.rs) *)

Record AddToCartReq := {
  ar_product_id : Uuid; ar_sku_id : Uuid; ar_quantity : N; ar_unit_price : Decimal;
  ar_currency : option string; ar_product_name : string; ar_image_url : option string }.
Record ValidAddToCartReq := {
  va_product_id : Uuid; va_sku_id : Uuid; va_quantity : Quantity; va_unit_price : Price;
  va_currency : Currency; va_product_name : string; va_image_url : option string }.
Definition ValidAddToCartReq_try_from (req : AddToCartReq) : outcome AppError ValidAddToCartReq :=
  quantity ← Quantity_new (ar_quantity req);
  unit_price ← Price_new (ar_unit_price req);
  currency ← match ar_currency req with
             | Some c => Currency_new c
             | None => Ok Currency_default
             end;
  product_name ← CartProductName_new (ar_product_name req);
  Ok {| va_product_id := ar_product_id req; va_sku_id := ar_sku_id req; va_quantity := quantity;
        va_unit_price := unit_price; va_currency := currency; va_product_name := product_name;
        va_image_url := ar_image_url req |}.

Record UpdateCartItemReq := { ur_quantity : N }.
Definition ValidUpdateCartItemReq_try_from (req : UpdateCartItemReq) : outcome AppError Quantity :=
  Quantity_new (ur_quantity req).

Record CartItemStored := {
  cs_product_id : Uuid; cs_sku_id : Uuid; cs_quantity : N; cs_unit_price : string;
  cs_currency : string; cs_product_name : string; cs_image_url : option string; cs_added_at : Z }.
Definition to_stored (now : Z) (v : ValidAddToCartReq) : CartItemStored := {|
  cs_product_id := va_product_id v; cs_sku_id := va_sku_id v;
  cs_quantity := quantity_value (va_quantity v);
  cs_unit_price := dec_to_string (price_value (va_unit_price v));
  cs_currency := currency_str (va_currency v); cs_product_name := va_product_name v;
  cs_image_url := va_image_url v; cs_added_at := now |}.
End values.

(** The derived JSON form of a stored item, and the texts of the parse errors. *)
Class CartCodec `{Externals} := {
  stored_to_json : CartItemStored → string;
  stored_of_json : string → string + CartItemStored;   (* an error text, or the item *)
  decimal_parse_error : string → string;
  stored_of_to_json s : stored_of_json (stored_to_json s) = inr s }.

Section responses.
Context `{CartCodec}.

Definition to_domain (s : CartItemStored) : outcome AppError CartItem :=
  unit_price ← match dec_parse (cs_unit_price s) with
               | Some d => Ok d
               | None => Err (InternalServerError
                   ("Invalid stored price: " +:+ decimal_parse_error (cs_unit_price s)))
               end;
  quantity ← Quantity_new (cs_quantity s);
  unit_price ← Price_new unit_price;
  currency ← Currency_new (cs_currency s);
  Ok {| ct_product_id := cs_product_id s; ct_sku_id := cs_sku_id s; ct_quantity := quantity;
        ct_unit_price := unit_price; ct_currency := currency; ct_product_name := cs_product_name s;
        ct_image_url := cs_image_url s; ct_added_at := cs_added_at s |}.

Record CartItemRes := {
  ci_product_id : string; ci_sku_id : string; ci_quantity : N; ci_unit_price : Decimal;
  ci_currency : string; ci_product_name : string; ci_image_url : option string;
  ci_line_total : Decimal }.
Definition from_item (i : CartItem) : option CartItemRes :=
  line ← line_total i;
  Some {| ci_product_id := fmt_id (ct_product_id i); ci_sku_id := fmt_id (ct_sku_id i);
          ci_quantity := quantity_value (ct_quantity i);
          ci_unit_price := price_value (ct_unit_price i);
          ci_currency := currency_str (ct_currency i); ci_product_name := ct_product_name i;
          ci_image_url := ct_image_url i; ci_line_total := line |}.

Record CartRes := { ca_items : list CartItemRes; ca_item_count : nat; ca_total : Decimal }.
Definition from_cart (c : Cart) : option CartRes :=
  items ← mapM from_item (cart_items c);
  sum ← total c;
  Some {| ca_items := items; ca_item_count := item_count c; ca_total := sum |}.

Record CartValidationItemRes := {
  cv_sku_id : string; cv_price_changed : bool; cv_snapshot_price : Decimal;
  cv_current_price : option Decimal; cv_product_unavailable : bool; cv_stock_insufficient : bool }.
Record CartValidationRes := { cv_items : list CartValidationItemRes; cv_all_valid : bool }.
End responses.

(** ** Checkout rules (rules.rs) *)

Section rules.
Context `{Externals}.

Inductive CheckoutCheck : Type :=
| CartNotEmpty
| MinCartValue (min : Decimal)
| MaxCartValue (max : Decimal)
| AllItemsHaveValidPrices
| MaxCartItems (max : nat)
| AllQuantitiesWithinLimits.
Definition checkout_check_str (c : CheckoutCheck) : string :=
  match c with
  | CartNotEmpty => "cart must not be empty"
  | MinCartValue v => "cart total must be at least $" +:+ dec_to_string v
  | MaxCartValue v => "cart total must not exceed $" +:+ dec_to_string v
  | AllItemsHaveValidPrices => "all items must have valid prices"
  | MaxCartItems n => "cart must not exceed " +:+ pretty n +:+ " items"
  | AllQuantitiesWithinLimits => "all quantities must be within limits"
  end.

Definition MIN_CART_VALUE : Decimal := dec_one.
Definition MAX_CART_VALUE : Decimal := dec_new 50000 0.
Definition MAX_CART_ITEMS : nat := 50.

Definition checkout_readiness_rules : Rule CheckoutCheck :=
  all [check CartNotEmpty; check (MaxCartItems MAX_CART_ITEMS);
       check (MinCartValue MIN_CART_VALUE); check (MaxCartValue MAX_CART_VALUE);
       check AllItemsHaveValidPrices; check AllQuantitiesWithinLimits].

Record CheckoutContext := {
  cc_item_count : nat; cc_cart_total : Decimal; cc_all_prices_valid : bool;
  cc_all_quantities_valid : bool }.
Definition checkout_context (cart : Cart) : option CheckoutContext :=
  sum ← total cart;
  Some {| cc_item_count := item_count cart; cc_cart_total := sum;
          cc_all_prices_valid :=
            forallb (λ i, dec_ltb dec_zero (price_value (ct_unit_price i))) (cart_items cart);
          cc_all_quantities_valid :=
            forallb (λ i, (1 <=? quantity_value (ct_quantity i))%N && (quantity_value (ct_quantity i) <=? 99)%N)
              (cart_items cart) |}.
Definition eval_checkout (ctx : CheckoutContext) (c : CheckoutCheck) : bool :=
  match c with
  | CartNotEmpty => (0 <? cc_item_count ctx)%nat
  | MinCartValue min => dec_leb min (cc_cart_total ctx)
  | MaxCartValue max => dec_leb (cc_cart_total ctx) max
  | AllItemsHaveValidPrices => cc_all_prices_valid ctx
  | MaxCartItems max => (cc_item_count ctx <=? max)%nat
  | AllQuantitiesWithinLimits => cc_all_quantities_valid ctx
  end.
End rules.

(** ** The hash of a cart (repository.rs) *)

Section repository.
Context `{CartCodec, RedisApi}.

Definition CART_TTL_SECS : Z := 2592000.
Definition cart_key (user_id : Uuid) : string := "cart:" +:+ uuid_to_string user_id.

(** An error of Redis becomes an [InternalServerError] that names the command. *)
Definition redis_op {A} (command : string) (m : M redis string A) : M redis AppError A :=
  map_err (λ e, InternalServerError ("Redis " +:+ command +:+ " failed: " +:+ e)) m.
Definition from_str (json : string) : outcome AppError CartItemStored :=
  match stored_of_json json with
  | inr s => Ok s
  | inl e => Err (InternalServerError ("Cart item deserialization: " +:+ e))
  end.

Definition repo_get_cart (user_id : Uuid) : M redis AppError (list CartItemStored) :=
  items ← redis_op "HGETALL" (redis_hgetall (cart_key user_id));
  lift (mapM (M := outcome AppError) (λ kv, from_str kv.2) items).
Definition get_cart_item (user_id sku_id : Uuid) : M redis AppError (option CartItemStored) :=
  json ← redis_op "HGET" (redis_hget (cart_key user_id) (uuid_to_string sku_id));
  match json with
  | Some s => stored ← lift (from_str s); mret (Some stored)
  | None => mret None
  end.
Definition cart_item_count (user_id : Uuid) : M redis AppError Z :=
  redis_op "HLEN" (redis_hlen (cart_key user_id)).
Definition item_exists (user_id sku_id : Uuid) : M redis AppError bool :=
  redis_op "HEXISTS" (redis_hexists (cart_key user_id) (uuid_to_string sku_id)).
Definition set_cart_item (user_id sku_id : Uuid) (stored : CartItemStored) : M redis AppError unit :=
  let json := stored_to_json stored in
  _ ← redis_op "HSET" (redis_hset (cart_key user_id) (uuid_to_string sku_id) json);
  redis_op "EXPIRE" (redis_expire (cart_key user_id) CART_TTL_SECS).
Definition remove_cart_item (user_id sku_id : Uuid) : M redis AppError unit :=
  _ ← redis_op "HDEL" (redis_hdel (cart_key user_id) (uuid_to_string sku_id));
  redis_op "EXPIRE" (redis_expire (cart_key user_id) CART_TTL_SECS).
Definition repo_clear_cart (user_id : Uuid) : M redis AppError unit :=
  redis_op "DEL" (redis_del (cart_key user_id)).

(** ** The operations (service.rs) *)

Definition SERVICE_MAX_CART_ITEMS : Z := 50.

(** An overflow of the decimals is a panic. *)
Definition or_panic {A} (o : option A) : outcome AppError A :=
  match o with Some a => Ok a | None => Panic end.

Definition load_cart (user_id : Uuid) : M redis AppError Cart :=
  stored_items ← repo_get_cart user_id;
  items ← lift (mapM (M := outcome AppError) to_domain stored_items);
  mret {| cart_user_id := user_id; cart_items := items |}.

Definition get_cart (user_id : Uuid) : M redis AppError CartRes :=
  cart ← load_cart user_id;
  lift (or_panic (from_cart cart)).

Definition add_item (now : Z) (user_id : Uuid) (req : AddToCartReq) : M redis AppError CartRes :=
  validated ← lift (ValidAddToCartReq_try_from req);
  exists_ ← item_exists user_id (va_sku_id validated);
  _ ← (if (exists_ : bool) then mret tt
       else
         count ← cart_item_count user_id;
         if SERVICE_MAX_CART_ITEMS <=? count then
           fail (app_of_cart_error (CartFull SERVICE_MAX_CART_ITEMS))
         else mret tt);
  _ ← set_cart_item user_id (va_sku_id validated) (to_stored now validated);
  get_cart user_id.

Definition with_quantity (q : Quantity) (s : CartItemStored) : CartItemStored := {|
  cs_product_id := cs_product_id s; cs_sku_id := cs_sku_id s; cs_quantity := quantity_value q;
  cs_unit_price := cs_unit_price s; cs_currency := cs_currency s;
  cs_product_name := cs_product_name s; cs_image_url := cs_image_url s;
  cs_added_at := cs_added_at s |}.
Definition update_item_quantity (user_id sku_id : Uuid) (req : UpdateCartItemReq)
    : M redis AppError CartRes :=
  quantity ← lift (ValidUpdateCartItemReq_try_from req);
  found ← get_cart_item user_id sku_id;
  existing ← lift (ok_or
    (app_of_cart_error (ItemNotFound ("SKU " +:+ uuid_to_string sku_id +:+ " not in cart"))) found);
  _ ← set_cart_item user_id sku_id (with_quantity quantity existing);
  get_cart user_id.

Definition remove_item (user_id sku_id : Uuid) : M redis AppError unit := remove_cart_item user_id sku_id.
Definition clear_cart (user_id : Uuid) : M redis AppError unit := repo_clear_cart user_id.

Definition validation_item (i : CartItem) : CartValidationItemRes := {|
  cv_sku_id := uuid_to_string (ct_sku_id i); cv_price_changed := false;
  cv_snapshot_price := price_value (ct_unit_price i);
  cv_current_price := Some (price_value (ct_unit_price i));
  cv_product_unavailable := false; cv_stock_insufficient := false |}.
Definition check_cart (cart : Cart) : outcome AppError CartValidationRes :=
  ctx ← or_panic (checkout_context cart);
  let result := evaluate_detailed (eval_checkout ctx) checkout_readiness_rules in
  if passed result then
    Ok {| cv_items := validation_item <$> cart_items cart; cv_all_valid := true |}
  else Err (app_of_cart_error (CheckoutNotReady
    (join "; " (failure_messages checkout_check_str result)))).
Definition validate_cart (user_id : Uuid) : M redis AppError CartValidationRes :=
  cart ← load_cart user_id;
  lift (check_cart cart).
End repository.
