(* ===== verification/CartProps.v ===== *)
(** * Cart service: what the operations do

    The abstract cart is a finite map from the text of a SKU to its item. Every operation is
    one step of the abstract cart ([cart_spec]), whatever command of Redis fails on the way. *)

From S2P Require Import Prelude RustStr Externals Sample Errors NewTypes Rules Auth Db Requests Redis Cart.

Local Open Scope Z_scope.

Section spec.
Context `{CartCodec}.

(** ** The specification *)

Inductive cart_request : Type :=
| AddItem (now : Z) (req : AddToCartReq)
| UpdateItem (sku_id : Uuid) (req : UpdateCartItemReq)
| RemoveItem (sku_id : Uuid)
| ClearCart
| GetCart
| ValidateCart.
Inductive cart_response : Type :=
| CartAnswer (res : CartRes)
| CartMessage (r : Z * MessageResponse)
| ValidationAnswer (res : CartValidationRes).

Definition added_item (now : Z) (v : ValidAddToCartReq) : CartItem := {|
  ct_product_id := va_product_id v; ct_sku_id := va_sku_id v; ct_quantity := va_quantity v;
  ct_unit_price := va_unit_price v; ct_currency := va_currency v;
  ct_product_name := va_product_name v; ct_image_url := va_image_url v; ct_added_at := now |}.
Definition item_with (q : Quantity) (i : CartItem) : CartItem := {|
  ct_product_id := ct_product_id i; ct_sku_id := ct_sku_id i; ct_quantity := q;
  ct_unit_price := ct_unit_price i; ct_currency := ct_currency i;
  ct_product_name := ct_product_name i; ct_image_url := ct_image_url i; ct_added_at := ct_added_at i |}.

Definition cart_spec (rq : cart_request) (c : gmap string CartItem)
    : outcome AppError (gmap string CartItem) :=
  match rq with
  | AddItem now req =>
      v ← ValidAddToCartReq_try_from req;
      let sku := uuid_to_string (va_sku_id v) in
      if bool_decide (c !! sku = None) && (50 <=? Z.of_nat (size c)) then
        Err (BadRequest "Cart is full (max 50 items)")
      else Ok (<[sku := added_item now v]> c)
  | UpdateItem sku_id req =>
      q ← Quantity_new (ur_quantity req);
      match c !! uuid_to_string sku_id with
      | Some i => Ok (<[uuid_to_string sku_id := item_with q i]> c)
      | None => Err (NotFound ("SKU " +:+ uuid_to_string sku_id +:+ " not in cart"))
      end
  | RemoveItem sku_id => Ok (delete (uuid_to_string sku_id) c)
  | ClearCart => Ok ∅
  | GetCart | ValidateCart => Ok c
  end.

(** The answer to a request that succeeded, from the items the cart then has. *)
Definition respond (user_id : Uuid) (rq : cart_request) (items : list CartItem)
    : outcome AppError cart_response :=
  let contents := {| cart_user_id := user_id; cart_items := items |} in
  match rq with
  | AddItem _ _ | UpdateItem _ _ | GetCart => res ← or_panic (from_cart contents); Ok (CartAnswer res)
  | RemoveItem _ => Ok (CartMessage (success 200 "Item removed from cart"))
  | ClearCart => Ok (CartMessage (success 200 "Cart cleared"))
  | ValidateCart => res ← check_cart contents; Ok (ValidationAnswer res)
  end.

(** ** Stored items *)

Definition item_valid (sku : string) (i : CartItem) : Prop :=
  sku = uuid_to_string (ct_sku_id i) ∧ (1 ≤ quantity_value (ct_quantity i) ≤ 99)%N ∧
  0 ≤ dec_units (price_value (ct_unit_price i)) ∧ currency_valid (ct_currency i).

Definition decode_item (json : string) : option CartItem :=
  match stored_of_json json with
  | inr s => match to_domain s with Ok i => Some i | _ => None end
  | inl _ => None
  end.
Definition cart_ok (h : gmap string string) : Prop :=
  (size h ≤ 50)%nat ∧ map_Forall (λ sku json, ∃ i, decode_item json = Some i ∧ item_valid sku i) h.
Definition cart_of (h : gmap string string) : gmap string CartItem := omap decode_item h.

Lemma cart_quantity_ok v q : Quantity_new v = Ok q ↔ q = MkQuantity v ∧ (1 ≤ v ≤ 99)%N.
Proof.
  unfold Quantity_new. destruct (N.eqb_spec v 0), (N.ltb_spec 99 v);
    (split; [intros E; simplify_eq; (split; [done|lia])|intros [-> ?]; try lia; done]).
Qed.

(** What is stored for an accepted request is read back as the item it asks for. *)
Lemma to_stored_to_domain now req v : ValidAddToCartReq_try_from req = Ok v →
  to_domain (to_stored now v) = Ok (added_item now v) ∧
  item_valid (uuid_to_string (va_sku_id v)) (added_item now v).
Proof.
  unfold ValidAddToCartReq_try_from. intros (q & Hq & Hr)%obind_ok.
  apply obind_ok in Hr as (p & Hp & Hr). apply obind_ok in Hr as (cur & Hc & Hr).
  apply obind_ok in Hr as (name & Hn & [= <-]).
  assert (currency_valid cur) as Hcur.
  { destruct (ar_currency req); [by eapply Currency_new_valid|]. by injection Hc as <-. }
  pose proof Hq as Hq'. apply cart_quantity_ok in Hq' as [-> Hqv]. pose proof Hp as Hp'.
  apply Price_new_ok in Hp' as [-> Hpv].
  split; [|split_and!; [done|simpl; lia..|done|done]]. unfold to_domain, to_stored. simpl.
  rewrite dec_parse_to_string. simpl. rewrite Hq. simpl. rewrite Hp. simpl.
  by rewrite Currency_new_valid_id.
Qed.

(** Changing the quantity of a stored item changes it in the item, and nothing else. *)
Lemma with_quantity_to_domain q s i : to_domain s = Ok i → (1 ≤ quantity_value q ≤ 99)%N →
  to_domain (with_quantity q s) = Ok (item_with q i).
Proof.
  unfold to_domain. intros Hs Hq. simpl. apply obind_ok in Hs as (d & -> & Hs). simpl.
  apply obind_ok in Hs as (q0 & _ & Hs). apply obind_ok in Hs as (p & -> & Hs).
  apply obind_ok in Hs as (cur & -> & [= <-]). simpl.
  rewrite (proj2 (cart_quantity_ok _ q)); [done|]. by destruct q.
Qed.

(** ** Carts in a hash *)

Lemma cart_of_lookup h sku : cart_ok h →
  cart_of h !! sku = h !! sku ≫= decode_item ∧ (cart_of h !! sku = None ↔ h !! sku = None).
Proof.
  intros [_ Hh]. unfold cart_of. rewrite lookup_omap. split; [done|].
  destruct (h !! sku) as [j|] eqn:E; [|done]. destruct (Hh _ _ E) as (i & Hi & _). simpl. by rewrite Hi.
Qed.

Lemma cart_of_size h : cart_ok h → size (cart_of h) = size h.
Proof.
  intros Hh. rewrite <-!size_dom. f_equal. apply set_eq. intros sku.
  rewrite !elem_of_dom, <-!not_eq_None_Some. destruct (cart_of_lookup h sku Hh) as [_ E]. tauto.
Qed.

Lemma cart_of_insert h sku json i :
  decode_item json = Some i → cart_of (<[sku := json]> h) = <[sku := i]> (cart_of h).
Proof. intros Hj. unfold cart_of. by rewrite (omap_insert_Some _ _ _ _ i). Qed.
Lemma cart_of_delete h sku : cart_of (delete sku h) = delete sku (cart_of h).
Proof. apply omap_delete. Qed.

Lemma cart_ok_insert h sku json i : cart_ok h →
  decode_item json = Some i → item_valid sku i → (h !! sku ≠ None ∨ (size h < 50)%nat) →
  cart_ok (<[sku := json]> h).
Proof.
  intros [Hs Hh] Hj Hi Hsize. split.
  - destruct (h !! sku) as [j|] eqn:E.
    + by rewrite map_size_insert_Some by by rewrite E.
    + rewrite map_size_insert_None by done. destruct Hsize; [done|lia].
  - apply map_Forall_insert_2; [by exists i|done].
Qed.
Lemma cart_ok_delete h sku : cart_ok h → cart_ok (delete sku h).
Proof.
  intros [Hs Hh]. split; [|by apply map_Forall_delete].
  etrans; [|exact Hs]. apply map_subseteq_size, delete_subseteq.
Qed.
Lemma cart_ok_empty : cart_ok ∅.
Proof. split; [rewrite map_size_empty; lia|apply map_Forall_empty]. Qed.

(** Reading a whole hash. *)
Lemma decode_list (l : list (string * string)) :
  Forall (λ kv, decode_item kv.2 ≠ None) l →
  ∃ stored items, mapM (M := outcome AppError) (λ kv, from_str kv.2) l = Ok stored ∧
    mapM (M := outcome AppError) to_domain stored = Ok items ∧
    items = (omap (λ kv, pair kv.1 <$> decode_item kv.2) l).*2.
Proof.
  induction 1 as [|[sku j] l Hj _ (stored & items & Hs & Hi & ->)]; [by exists [], []|].
  simpl in Hj. unfold decode_item in Hj. destruct (stored_of_json j) as [e|s] eqn:Es; [done|].
  destruct (to_domain s) as [i|e|] eqn:Ei; [|done..].
  exists (s :: stored), (i :: (omap (λ kv, pair kv.1 <$> decode_item kv.2) l).*2). split_and!.
  - assert (from_str j = Ok s) as Hd by (unfold from_str; by rewrite Es).
    cbn [mapM]. cbn [snd]. rewrite Hd. cbn. by rewrite Hs.
  - simpl. rewrite Ei. simpl. by rewrite Hi.
  - assert (decode_item j = Some i) as Hd by (unfold decode_item; by rewrite Es, Ei). simpl. by rewrite Hd.
Qed.

Lemma omap_keys {A B} (f : A → option B) (l : list (string * A)) :
  (omap (λ kv, pair kv.1 <$> f kv.2) l).*1 `sublist_of` l.*1.
Proof.
  induction l as [|[k a] l IH]; [constructor|]. simpl. destruct (f a); simpl; by constructor.
Qed.

Lemma decode_all h (l : list (string * string)) : cart_ok h → l ≡ₚ map_to_list h →
  ∃ stored items, mapM (M := outcome AppError) (λ kv, from_str kv.2) l = Ok stored ∧
    mapM (M := outcome AppError) to_domain stored = Ok items ∧
    items ≡ₚ (map_to_list (cart_of h)).*2.
Proof.
  intros Hh Hl. destruct (decode_list l) as (stored & items & Hs & Hi & ->).
  { apply Forall_forall. intros [sku j] Hj. rewrite Hl, elem_of_map_to_list in Hj.
    destruct (proj2 Hh _ _ Hj) as (i & Hi & _). simpl. by rewrite Hi. }
  exists stored, (omap (λ kv, pair kv.1 <$> decode_item kv.2) l).*2. split_and!; [done|done|].
  apply fmap_Permutation, NoDup_Permutation; [|apply NoDup_map_to_list|].
  - apply (NoDup_fmap_1 fst). eapply sublist_NoDup; [|apply omap_keys].
    rewrite Hl. apply NoDup_fst_map_to_list.
  - intros [sku i]. rewrite elem_of_map_to_list. unfold cart_of. rewrite lookup_omap, list_elem_of_omap.
    split.
    + intros ([k j] & Hj & Hd). simpl in Hd. apply fmap_Some in Hd as (i' & Hd & [= -> ->]).
      rewrite Hl, elem_of_map_to_list in Hj. by rewrite Hj.
    + intros (j & Hj & Hd)%bind_Some. exists (sku, j). rewrite Hl, elem_of_map_to_list.
      split; [done|]. simpl. by rewrite Hd.
Qed.
End spec.

(** ** The operations *)

Section operations.
Context `{CartCodec, RedisHashLaws}.
Implicit Types (r : redis) (user : Uuid).

Definition hash_at (user : Uuid) r : gmap string string := hash_of r (cart_key user).
Definition cart_at (user : Uuid) r : gmap string CartItem := cart_of (hash_at user r).
Definition carts_ok r : Prop := ∀ user, cart_ok (hash_at user r).

(** The handlers of the routes (routes.rs). *)
Definition handle (user : Uuid) (rq : cart_request) : M redis AppError cart_response :=
  match rq with
  | AddItem now req => res ← add_item now user req; mret (CartAnswer res)
  | UpdateItem sku_id req => res ← update_item_quantity user sku_id req; mret (CartAnswer res)
  | RemoveItem sku_id => _ ← remove_item user sku_id; mret (CartMessage (success 200 "Item removed from cart"))
  | ClearCart => _ ← clear_cart user; mret (CartMessage (success 200 "Cart cleared"))
  | GetCart => res ← get_cart user; mret (CartAnswer res)
  | ValidateCart => res ← validate_cart user; mret (ValidationAnswer res)
  end.
(** Every route is behind the middleware, which trusts the claims. *)
Definition cart_routes `{!JwtApi} (config : AuthConfig) (now : Z) (header : option (option string)) (rq : cart_request)
    : M redis (AuthMiddlewareError + AppError) cart_response :=
  run_route config None now header (ProtectedRoute (λ u : CurrentUser, handle (cu_id u) rq)).

(** The error of a command that failed, which a server that answers never gives. *)
Definition redis_failure (e : AppError) : Prop :=
  ¬ RedisUp ∧ ∃ command msg, e = InternalServerError ("Redis " +:+ command +:+ " failed: " +:+ msg).
(** The other users' carts. *)
Definition others_same (user : Uuid) r r' : Prop := ∀ u, u ≠ user → hash_at u r' = hash_at u r.

Lemma uuid_to_string_inj (u v : Uuid) : uuid_to_string u = uuid_to_string v → u = v.
Proof. intros E. apply (f_equal uuid_parse) in E. rewrite !uuid_parse_to_string in E. congruence. Qed.
Lemma cart_key_inj u v : cart_key u = cart_key v → u = v.
Proof. unfold cart_key. intros E%(inj (String.append "cart:")). by apply uuid_to_string_inj. Qed.

Lemma redis_op_inv {A} command (m : M redis string A) r o r' :
  (RedisUp → answers m) → redis_op command m r = (o, r') →
  match o with
  | Ok a => m r = (Ok a, r')
  | Err e => redis_failure e ∧ ∃ msg, m r = (Err msg, r')
  | Panic => m r = (Panic, r')
  end.
Proof.
  unfold redis_op, map_err. intros Hup. destruct (m r) as [[a|e|] r1] eqn:Em; intros [= <- <-]; [done| |done].
  split; [|by eauto]. split; [|by eauto]. intros Hu. specialize (Hup Hu r). by rewrite Em in Hup.
Qed.

(** A command that reads. *)
Lemma redis_read {A} command (m : M redis string A) ans r o r' :
  (RedisUp → answers m) → reads m ans → redis_op command m r = (o, r') →
  (∀ u, hash_at u r' = hash_at u r) ∧
  match o with Ok a => ans r a | Err e => redis_failure e | Panic => False end.
Proof.
  intros Hup Hm Hr%redis_op_inv; [|done].
  assert (∀ o1, m r = (o1, r') → (∀ u, hash_at u r' = hash_at u r) ∧
    match o1 with Ok a => ans r a | Err _ => True | Panic => False end) as Hk.
  { intros o1 (_ & Eh & Ho)%Hm. split; [|done]. intros u. unfold hash_at, hash_of. by rewrite Eh. }
  destruct o as [a|e|]; [by destruct (Hk _ Hr)| |by destruct (Hk _ Hr)].
  destruct Hr as [Hf [msg Hr]]. by destruct (Hk _ Hr).
Qed.

(** A command that writes the hash of a cart. *)
Lemma redis_write command m user f r o r' :
  (RedisUp → answers m) → writes_hash m (cart_key user) f → redis_op command m r = (o, r') →
  others_same user r r' ∧
  match o with
  | Ok _ => hash_at user r' = f (hash_at user r)
  | Err e => redis_failure e ∧ (hash_at user r' = hash_at user r ∨ hash_at user r' = f (hash_at user r))
  | Panic => False
  end.
Proof.
  intros Hup Hm Hr%redis_op_inv; [|done].
  assert (∀ o1, m r = (o1, r') → others_same user r r' ∧
    match o1 with
    | Ok _ => hash_at user r' = f (hash_at user r)
    | Err _ => hash_at user r' = hash_at user r ∨ hash_at user r' = f (hash_at user r)
    | Panic => False end) as Hk.
  { intros o1 (_ & Eo & Ho)%Hm. split; [|done]. intros u Hu. apply Eo. by intros E%cart_key_inj. }
  destruct o as [a|e|]; [exact (Hk _ Hr)| |exact (Hk _ Hr)].
  destruct Hr as [Hf [msg Hr]]. by destruct (Hk _ Hr).
Qed.

(** Writing a command and refreshing the time to live. *)
Lemma write_refresh command m user f r o r' :
  (RedisUp → answers m) → writes_hash m (cart_key user) f →
  (_ ← redis_op command m; redis_op "EXPIRE" (redis_expire (cart_key user) CART_TTL_SECS)) r = (o, r') →
  others_same user r r' ∧
  match o with
  | Ok _ => hash_at user r' = f (hash_at user r)
  | Err e => redis_failure e ∧ (hash_at user r' = hash_at user r ∨ hash_at user r' = f (hash_at user r))
  | Panic => False
  end.
Proof.
  intros Hup Hm [(u & r1 & Hc1 & Hc2)|[(e & -> & Hc1)|[-> Hc1]]]%bind_cases;
    apply (redis_write _ _ user f) in Hc1 as [Ho1 Eh]; try done.
  apply (redis_write _ _ user id) in Hc2 as [Ho2 Eh2];
    [|intros ?; apply up_expire|by apply expire_law].
  split; [intros v Hv; by rewrite Ho2, Ho1|]. unfold id in Eh2.
  destruct o as [[]|e|]; [by rewrite Eh2| |done]. destruct Eh2 as [Hf [->| ->]]; auto.
Qed.

Lemma load_cart_spec user r o r' : cart_ok (hash_at user r) → load_cart user r = (o, r') →
  (∀ u, hash_at u r' = hash_at u r) ∧
  match o with
  | Ok c => cart_user_id c = user ∧ cart_items c ≡ₚ (map_to_list (cart_at user r)).*2
  | Err e => redis_failure e
  | Panic => False
  end.
Proof.
  intros Hok. unfold load_cart, repo_get_cart.
  destruct (redis_op "HGETALL" (redis_hgetall (cart_key user)) r) as [o1 r1] eqn:E1.
  pose proof E1 as [Hs Ho]%(redis_read _ _ (λ r l, l ≡ₚ map_to_list (hash_of r (cart_key user))));
    [|intros ?; apply up_hgetall|apply hgetall_law].
  unfold mbind, M_bind. rewrite E1. destruct o1 as [l|e|]; [|by intros [= <- <-]|done].
  destruct (decode_all _ _ Hok Ho) as (stored & items & Es & Ei & Hp).
  unfold lift. rewrite Es, Ei. unfold mret, M_ret. by intros [= <- <-].
Qed.

(** What a request does, and how it is answered. *)
Definition served (user : Uuid) (rq : cart_request) r r' (o : outcome AppError cart_response) : Prop :=
  cart_ok (hash_at user r') ∧ others_same user r r' ∧
  match cart_spec rq (cart_at user r) with
  | Ok c =>
      (cart_at user r' = c ∧ ∃ items, items ≡ₚ (map_to_list c).*2 ∧ o = respond user rq items) ∨
      ((cart_at user r' = cart_at user r ∨ cart_at user r' = c) ∧ ∃ e, o = Err e ∧ redis_failure e)
  | Err e =>
      cart_at user r' = cart_at user r ∧ (o = Err e ∨ ∃ e', o = Err e' ∧ redis_failure e')
  | Panic => False
  end.

(** A request that fails before it wrote anything. *)
Lemma served_early user rq r r' e : cart_ok (hash_at user r) →
  (∀ u, hash_at u r' = hash_at u r) → redis_failure e →
  cart_spec rq (cart_at user r) ≠ Panic → served user rq r r' (Err e).
Proof.
  intros Hok Hs He Hp. assert (cart_at user r' = cart_at user r) as E by (unfold cart_at; by rewrite Hs).
  split_and!; [by rewrite Hs|intros u _; apply Hs|]. rewrite E. case_match; eauto 8.
Qed.
Lemma served_refused user rq r r' e : cart_ok (hash_at user r) →
  (∀ u, hash_at u r' = hash_at u r) → cart_spec rq (cart_at user r) = Err e →
  served user rq r r' (Err e).
Proof.
  intros Hok Hs He. assert (cart_at user r' = cart_at user r) as E by (unfold cart_at; by rewrite Hs).
  split_and!; [by rewrite Hs|intros u _; apply Hs|]. rewrite He. auto.
Qed.

(** A request that wrote, or failed while writing; then its cart is read back. *)
Lemma served_written user rq f command m r r1 (o1 : outcome AppError unit) :
  (RedisUp → answers m) → writes_hash m (cart_key user) f →
  (_ ← redis_op command m; redis_op "EXPIRE" (redis_expire (cart_key user) CART_TTL_SECS)) r = (o1, r1) →
  cart_ok (hash_at user r) → cart_ok (f (hash_at user r)) →
  cart_spec rq (cart_at user r) = Ok (cart_of (f (hash_at user r))) →
  match o1 with
  | Ok _ => cart_ok (hash_at user r1) ∧ others_same user r r1 ∧
            cart_spec rq (cart_at user r) = Ok (cart_at user r1)
  | Err e => served user rq r r1 (Err e)
  | Panic => False
  end.
Proof.
  intros Hup Hm Hw Hok Hf Hspec. apply (write_refresh _ _ user f) in Hw as [Ho Eh]; [|done..].
  destruct o1 as [[]|e|]; [|destruct Eh as [He Eh]|done].
  - unfold cart_at at 2. rewrite Eh. auto.
  - split_and!; [by destruct Eh as [->| ->]|done|]. rewrite Hspec. right.
    split; [|by eauto]. unfold cart_at. destruct Eh as [->| ->]; auto.
Qed.

(** The cart is read back for the answer. *)
Lemma served_reply user rq r r1 o r' :
  cart_ok (hash_at user r1) → others_same user r r1 →
  cart_spec rq (cart_at user r) = Ok (cart_at user r1) →
  (∀ items, respond user rq items =
     (res ← or_panic (from_cart {| cart_user_id := user; cart_items := items |}); Ok (CartAnswer res))) →
  (res ← get_cart user; mret (CartAnswer res)) r1 = (o, r') → served user rq r r' o.
Proof.
  intros Hok Ho Hspec Hrq. unfold get_cart, mbind, M_bind.
  destruct (load_cart user r1) as [oc r2] eqn:El. apply load_cart_spec in El as [Hs Hc]; [|done].
  assert (cart_at user r2 = cart_at user r1) as Ec by (unfold cart_at; by rewrite Hs).
  assert (others_same user r r2) as Ho2 by (intros u Hu; by rewrite Hs, Ho).
  destruct oc as [c|e|]; [destruct Hc as [Hid Hp]| |done].
  - unfold lift. destruct (from_cart c) as [res|] eqn:Ef; intros [= <- <-];
      (split_and!; [by rewrite Hs|done|]); rewrite Hspec; left; (split; [done|]);
      exists (cart_items c); (split; [done|]); rewrite Hrq, <-Hid;
      destruct c; simpl in *; by rewrite Ef.
  - intros [= <- <-]. split_and!; [by rewrite Hs|done|]. rewrite Hspec. eauto 8.
Qed.

Lemma try_from_no_panic req : ValidAddToCartReq_try_from req ≠ Panic.
Proof.
  unfold ValidAddToCartReq_try_from, Quantity_new, Price_new, Currency_new, CartProductName_new, validated_name.
  repeat (case_match; simpl; try done).
Qed.

(** The hash an added item is written to. *)
Lemma add_item_hash user now req v h :
  ValidAddToCartReq_try_from req = Ok v → cart_ok h →
  (h !! uuid_to_string (va_sku_id v) ≠ None ∨ (size h < 50)%nat) →
  let h' := <[uuid_to_string (va_sku_id v) := stored_to_json (to_stored now v)]> h in
  cart_ok h' ∧ cart_spec (AddItem now req) (cart_of h) = Ok (cart_of h').
Proof.
  intros Hv Hok Hfit h'. destruct (to_stored_to_domain now req v Hv) as [Hd Hi].
  assert (decode_item (stored_to_json (to_stored now v)) = Some (added_item now v)) as Hj.
  { unfold decode_item. by rewrite stored_of_to_json, Hd. }
  split; [by eapply cart_ok_insert|]. simpl. rewrite Hv. simpl.
  destruct (cart_of_lookup h (uuid_to_string (va_sku_id v)) Hok) as [_ Hn].
  rewrite cart_of_size by done. unfold h'. rewrite (cart_of_insert _ _ _ _ Hj).
  case_match eqn:E; [|done]. apply andb_true_iff in E as [E1%bool_decide_eq_true E2%Z.leb_le].
  rewrite Hn in E1. destruct Hfit; [done|lia].
Qed.

(** A request that writes and reads its cart back, from a state with the same hashes. *)
Lemma served_write_reply user rq f command m r r1 o r' :
  (RedisUp → answers m) → writes_hash m (cart_key user) f →
  (∀ u, hash_at u r1 = hash_at u r) → cart_ok (hash_at user r) → cart_ok (f (hash_at user r)) →
  cart_spec rq (cart_at user r) = Ok (cart_of (f (hash_at user r))) →
  (∀ items, respond user rq items =
     (res ← or_panic (from_cart {| cart_user_id := user; cart_items := items |}); Ok (CartAnswer res))) →
  (_ ← (_ ← redis_op command m; redis_op "EXPIRE" (redis_expire (cart_key user) CART_TTL_SECS));
   res ← get_cart user; mret (CartAnswer res)) r1 = (o, r') →
  served user rq r r' o.
Proof.
  intros Hup Hm Hs Hok Hf Hspec Hrq Hr.
  assert (cart_at user r1 = cart_at user r) as Ec by (unfold cart_at; by rewrite Hs).
  rewrite <-(Hs user) in Hok, Hf, Hspec. rewrite <-Ec in Hspec.
  assert (served user rq r1 r' o → served user rq r r' o) as Hmono.
  { unfold served, others_same. rewrite Ec. intros (Hk & Ho & Hx). split_and!; [done| |done].
    intros u Hu. by rewrite Ho, Hs. }
  apply Hmono. apply bind_cases in Hr as [([] & r2 & Hw & Hr)|[(e & -> & Hw)|[-> Hw]]];
    eapply served_written in Hw; try done. destruct Hw as (Hk & Ho & Hsp).
  by apply (served_reply user rq r1 r2).
Qed.

Lemma add_item_served user now req r o r' : cart_ok (hash_at user r) →
  handle user (AddItem now req) r = (o, r') → served user (AddItem now req) r r' o.
Proof.
  intros Hok Hr. unfold handle, add_item in Hr. rewrite bind_assoc in Hr.
  apply bind_cases in Hr as [(v & r0 & Hv & Hr)|[(e & -> & Hv)|[-> Hv]]]; injection Hv as Hv <-;
    [|apply served_refused; [done|done|simpl; by rewrite Hv]|by apply try_from_no_panic in Hv].
  assert (cart_spec (AddItem now req) (cart_at user r) ≠ Panic) as Hnp
    by (simpl; rewrite Hv; simpl; by case_match).
  rewrite bind_assoc in Hr. apply bind_cases in Hr as [(b & r1 & He & Hr)|[(e & -> & He)|[-> He]]];
    apply (redis_read _ _ (λ r b, b = true ↔ hash_of r (cart_key user) !! uuid_to_string (va_sku_id v) ≠ None))
      in He as [Hs He]; try done; try (intros ?; apply up_hexists); try apply hexists_law;
    [|by apply served_early].
  assert ((hash_at user r !! uuid_to_string (va_sku_id v) ≠ None ∨ (size (hash_at user r) < 50)%nat) →
    ∀ r2, (∀ u, hash_at u r2 = hash_at u r) →
    (res ← (_ ← set_cart_item user (va_sku_id v) (to_stored now v); get_cart user); mret (CartAnswer res)) r2
      = (o, r') → served user (AddItem now req) r r' o) as Hwrite.
  { intros Hfit r2 Hs2 Hr2. rewrite bind_assoc in Hr2. destruct (add_item_hash user now req v _ Hv Hok Hfit) as [Hok' Hspec].
    eapply served_write_reply; [|apply hset_law|exact Hs2|done|exact Hok'|exact Hspec|done|exact Hr2].
    intros ?. apply up_hset. }
  rewrite bind_assoc in Hr. destruct b.
  - apply (Hwrite (or_introl (proj1 He eq_refl)) r1 Hs Hr).
  - rewrite bind_assoc in Hr. apply bind_cases in Hr as [(n & r2 & Hn & Hr)|[(e & -> & Hn)|[-> Hn]]];
      apply (redis_read _ _ (λ r n, n = Z.of_nat (size (hash_of r (cart_key user))))) in Hn as [Hs2 Hn];
      try done; try (intros ?; apply up_hlen); try apply hlen_law;
      [|apply served_early; try done; intros u; by rewrite Hs2, Hs].
    assert (∀ u, hash_at u r2 = hash_at u r) as Hs3 by (intros u; by rewrite Hs2, Hs).
    fold (hash_at user r1) in Hn. rewrite Hs in Hn. subst n. unfold SERVICE_MAX_CART_ITEMS in Hr.
    assert (hash_at user r !! uuid_to_string (va_sku_id v) = None) as Hnew.
    { fold (hash_at user r) in He. destruct (hash_at user r !! _); [|done].
      assert (false = true) by (by apply He). done. }
    destruct (Z.leb_spec 50 (Z.of_nat (size (hash_at user r)))) as [Hle|Hlt].
    + injection Hr as <- <-. apply served_refused; [done|done|]. simpl. rewrite Hv. simpl.
      destruct (cart_of_lookup _ (uuid_to_string (va_sku_id v)) Hok) as [_ Hn].
      fold (cart_at user r) in Hn. rewrite bool_decide_eq_true_2 by by apply Hn.
      unfold cart_at. rewrite cart_of_size by done. by rewrite (proj2 (Z.leb_le _ _) Hle).
    + assert (size (hash_at user r) < 50)%nat as Hfit by lia.
      apply (Hwrite (or_intror Hfit) r2 Hs3 Hr).
Qed.

Lemma update_item_served user sku_id req r o r' : cart_ok (hash_at user r) →
  handle user (UpdateItem sku_id req) r = (o, r') → served user (UpdateItem sku_id req) r r' o.
Proof.
  intros Hok Hr. unfold handle, update_item_quantity, ValidUpdateCartItemReq_try_from in Hr.
  rewrite bind_assoc in Hr.
  apply bind_cases in Hr as [(q & r0 & Hq & Hr)|[(e & -> & Hq)|[-> Hq]]]; injection Hq as Hq <-;
    [|apply served_refused; [done|done|simpl; by rewrite Hq]|
      unfold Quantity_new in Hq; repeat case_match; done].
  assert (cart_spec (UpdateItem sku_id req) (cart_at user r) ≠ Panic) as Hnp
    by (simpl; rewrite Hq; simpl; by case_match).
  destruct (cart_of_lookup _ (uuid_to_string sku_id) Hok) as [Hl Hn]. fold (cart_at user r) in Hl, Hn.
  unfold get_cart_item in Hr. rewrite bind_assoc, bind_assoc in Hr.
  apply bind_cases in Hr as [(j & r1 & Hj & Hr)|[(e & -> & Hj)|[-> Hj]]];
    apply (redis_read _ _ (λ r a, a = hash_of r (cart_key user) !! uuid_to_string sku_id)) in Hj as [Hs Hj];
    try done; try (intros ?; apply up_hget); try apply hget_law; [|by apply served_early].
  fold (hash_at user r) in Hj. subst j.
  destruct (hash_at user r !! uuid_to_string sku_id) as [j|] eqn:Ej.
  2:{ injection Hr as <- <-. apply served_refused; [done|done|]. simpl. rewrite Hq. simpl. by rewrite Hl. }
  destruct (proj2 Hok _ _ Ej) as (i & Hi & Hv). unfold decode_item in Hi.
  destruct (stored_of_json j) as [|s] eqn:Es; [done|].
  destruct (to_domain s) as [i'| |] eqn:Ed; try done. injection Hi as ->.
  pose proof (proj1 (cart_quantity_ok _ _) Hq) as [-> Hqv].
  assert (decode_item (stored_to_json (with_quantity (MkQuantity (ur_quantity req)) s)) =
    Some (item_with (MkQuantity (ur_quantity req)) i)) as Hdec.
  { unfold decode_item. by rewrite stored_of_to_json, (with_quantity_to_domain _ _ i). }
  unfold from_str in Hr. rewrite Es in Hr.
  change ((res ← (_ ← set_cart_item user sku_id (with_quantity (MkQuantity (ur_quantity req)) s); get_cart user);
    mret (CartAnswer res)) r1 = (o, r')) in Hr. rewrite bind_assoc in Hr.
  eapply served_write_reply;
    [|apply (hset_law _ (uuid_to_string sku_id) (stored_to_json (with_quantity (MkQuantity (ur_quantity req)) s)))
     |exact Hs|done| | |done|].
  - intros ?. apply up_hset.
  - eapply cart_ok_insert; [done|exact Hdec| |left; by rewrite Ej].
    destruct Hv as (? & ? & ? & ?). split_and!; simpl; first [done|lia].
  - rewrite (cart_of_insert _ _ _ _ Hdec). simpl. rewrite Hq. simpl. rewrite Hl. simpl.
    unfold decode_item. by rewrite Es, Ed.
  - exact Hr.
Qed.

Lemma remove_item_served user sku_id r o r' : cart_ok (hash_at user r) →
  handle user (RemoveItem sku_id) r = (o, r') → served user (RemoveItem sku_id) r r' o.
Proof.
  intros Hok Hr. apply bind_cases in Hr as [([] & r1 & Hw & Hr)|[(e & -> & Hw)|[-> Hw]]];
    apply (served_written user (RemoveItem sku_id) (delete (uuid_to_string sku_id))) in Hw;
    try done; try (intros ?; apply up_hdel); try apply hdel_law; try by apply cart_ok_delete.
  all: try (simpl; unfold cart_at; by rewrite cart_of_delete).
  injection Hr as <- <-. destruct Hw as (Hk & Ho & Hs). split_and!; [done|done|]. rewrite Hs.
  left. split; [done|]. by exists (map_to_list (cart_at user r1)).*2.
Qed.

Lemma clear_cart_served user r o r' : cart_ok (hash_at user r) →
  handle user ClearCart r = (o, r') → served user ClearCart r r' o.
Proof.
  intros Hok Hr. apply bind_cases in Hr.
  assert (∀ o1 r1, clear_cart user r = (o1, r1) → others_same user r r1 ∧
    match o1 with
    | Ok _ => hash_at user r1 = ∅
    | Err e => redis_failure e ∧ (hash_at user r1 = hash_at user r ∨ hash_at user r1 = ∅)
    | Panic => False
    end) as Hdel.
  { intros o1 r1 Hd. apply redis_op_inv in Hd; [|intros ?; apply up_del].
    assert (∀ o2, redis_del (cart_key user) r = (o2, r1) → others_same user r r1) as Hoth.
    { intros o2 [Hs _]%del_law u Hu. apply Hs. by intros E%cart_key_inj. }
    destruct o1 as [[]|e|]; [|destruct Hd as [Hf (msg & Hd)]|]; (split; [by eapply Hoth|]);
      apply del_law in Hd as [_ Hd]; [done| |done]. by split. }
  assert (cart_of ∅ = ∅) as Hemp by apply omap_empty.
  destruct Hr as [([] & r1 & Hw & Hr)|[(e & -> & Hw)|[-> Hw]]]; apply Hdel in Hw as [Ho Hw]; [| |done].
  - injection Hr as <- <-. split_and!; [rewrite Hw; apply cart_ok_empty|done|].
    left. split; [unfold cart_at; by rewrite Hw|]. by eexists.
  - destruct Hw as [Hf Hw]. split_and!; [destruct Hw as [->| ->]; [done|apply cart_ok_empty]|done|].
    right. split; [|by eauto]. unfold cart_at. destruct Hw as [->| ->]; auto.
Qed.

Lemma get_cart_served user r o r' : cart_ok (hash_at user r) →
  handle user GetCart r = (o, r') → served user GetCart r r' o.
Proof. intros Hok Hr. by apply (served_reply user GetCart r r). Qed.

Lemma validate_cart_served user r o r' : cart_ok (hash_at user r) →
  handle user ValidateCart r = (o, r') → served user ValidateCart r r' o.
Proof.
  intros Hok Hr. unfold handle, validate_cart in Hr. rewrite bind_assoc in Hr.
  apply bind_cases in Hr as [(c & r1 & Hl & Hr)|[(e & -> & Hl)|[-> Hl]]];
    apply load_cart_spec in Hl as [Hs Hl]; try done; [|by apply served_early].
  assert (cart_at user r1 = cart_at user r) as Ec by (unfold cart_at; by rewrite Hs).
  destruct Hl as [Hid Hp].
  assert (r' = r1 ∧ o = respond user ValidateCart (cart_items c)) as [-> ->].
  { unfold respond. rewrite <-Hid. destruct c as [u items]. unfold mbind, M_bind, lift in Hr. simpl in *.
    destruct (check_cart _) as [res|e|] in Hr |- *; by injection Hr as <- <-. }
  split_and!; [by rewrite Hs|intros u _; apply Hs|]. left. split; [done|]. eauto.
Qed.

Lemma handle_served user rq r o r' : cart_ok (hash_at user r) →
  handle user rq r = (o, r') → served user rq r r' o.
Proof.
  destruct rq; [apply add_item_served|apply update_item_served|apply remove_item_served|
    apply clear_cart_served|apply get_cart_served|apply validate_cart_served].
Qed.
End operations.
