(* ===== verification/CartSpec.v ===== *)
(** * Cart service: the theorems, and runs on the computable instance *)

From Stdlib Require Import Ascii.
From S2P Require Import Prelude RustStr Externals Sample Errors NewTypes Rules Auth Db Requests Redis.
From S2P Require Import Cart CartProps.

Local Open Scope Z_scope.

Section theorems.
Context `{CartCodec, RedisHashLaws, !JwtApi}.
Implicit Types (r : redis).

(** C28: Every request on the routes of the cart is refused, and then Redis is as it was, or it is one
    step of the abstract cart of the user that its token, valid now, names. A request the
    specification refuses - an invalid one, a new item for a full cart, the update of an item that
    is not there - leaves the cart as it was and is answered with that error. Any other request
    has its effect and is answered from the resulting cart, whatever the order Redis lists its
    fields in; or a command of Redis failed, then the effect has happened entirely or not at all.
    The other users' carts are never touched, and the cart stays well formed. *)
Theorem cart_refines config now header rq r o r' :
  carts_ok r → cart_routes config now header rq r = (o, r') →
  (is_ok o = false ∧ r' = r) ∨
  ∃ user o', bearer config now header user ∧ o = omap_err inr o' ∧
    let id := cu_id user in
    carts_ok r' ∧ (∀ u, u ≠ id → cart_at u r' = cart_at u r) ∧
    match cart_spec rq (cart_at id r) with
    | Ok c =>
        (cart_at id r' = c ∧ ∃ items, items ≡ₚ (map_to_list c).*2 ∧ o' = respond id rq items) ∨
        ((cart_at id r' = cart_at id r ∨ cart_at id r' = c) ∧ ∃ e, o' = Err e ∧ redis_failure e)
    | Err e =>
        cart_at id r' = cart_at id r ∧ (o' = Err e ∨ ∃ e', o' = Err e' ∧ redis_failure e')
    | Panic => False
    end.
Proof.
  intros Hok [[Ho Hr]|(user & s1 & o' & Ha & Hr & ->)]%protected_inv.
  { left. split; [done|]. by destruct Hr as [?|(? & ? & ? & ? & _)]. }
  apply admitted_bearer in Ha as [Hb ->]. apply handle_served in Hr as (Hk & Ho & Hs); [|done].
  right. exists user, o'. split; [done|]. split; [done|]. split_and!; [| |exact Hs].
  - intros u. destruct (decide (u = cu_id user)) as [->|Hu]; [done|]. by rewrite Ho.
  - intros u Hu. unfold cart_at. by rewrite Ho.
Qed.

(** ** Runs *)

(** Requests of any users, one after the other, and carts that expire. *)
Inductive cart_step : redis → redis → Prop :=
| step_request user rq r o r' : handle user rq r = (o, r') → cart_step r r'
| step_expire user r r' : hash_at user r' = ∅ → others_same user r r' → cart_step r r'.

Lemma cart_step_ok r r' : cart_step r r' → carts_ok r → carts_ok r'.
Proof.
  intros [user rq r1 o r1' Hr|user r1 r1' He Ho] Hok u; (destruct (decide (u = user)) as [->|Hu]).
  - by apply handle_served in Hr as (Hk & _ & _).
  - apply handle_served in Hr as (_ & Ho & _); [|done]. by rewrite Ho.
  - rewrite He. apply cart_ok_empty.
  - by rewrite Ho.
Qed.

Lemma cart_steps_ok r r' : rtc cart_step r r' → carts_ok r → carts_ok r'.
Proof. induction 1 as [|r r1 r' Hs _ IH]; [done|]. intros Hok. by eapply IH, cart_step_ok. Qed.

(** After any requests of any users, with commands of Redis that fail on the way and carts that
    expire, every cart has at most fifty items, each under the text of its own SKU, with a quantity
    from 1 to 99, a price that is not negative and a valid currency; and a cart can always be read:
    loading it gives exactly these items unless Redis fails. *)
Theorem cart_invariant user r r' :
  (∀ u, hash_at u r = ∅) → rtc cart_step r r' →
  (size (cart_at user r') ≤ 50)%nat ∧ map_Forall item_valid (cart_at user r') ∧
  ∀ o r'', load_cart user r' = (o, r'') →
    (∃ items, items ≡ₚ (map_to_list (cart_at user r')).*2 ∧
       o = Ok {| cart_user_id := user; cart_items := items |}) ∨ (∃ e, o = Err e ∧ redis_failure e).
Proof.
  intros Hemp Hsteps. apply cart_steps_ok in Hsteps.
  2:{ intros u. rewrite Hemp. apply cart_ok_empty. }
  specialize (Hsteps user). split_and!.
  - unfold cart_at. rewrite cart_of_size by done. apply Hsteps.
  - intros sku i Hi. unfold cart_at, cart_of in Hi. rewrite lookup_omap in Hi.
    apply bind_Some in Hi as (j & Hj & Hd). destruct (proj2 Hsteps _ _ Hj) as (i' & Hi' & Hv). by simplify_eq.
  - intros o r'' [_ Ho]%load_cart_spec; [|done]. destruct o as [[u items]|e|]; [|by eauto|done].
    destruct Ho as [<- Hp]. left. by exists items.
Qed.

(** ** Totals and checkout *)

(** The value of an item. *)
Definition item_units (i : CartItem) : Z :=
  dec_units (price_value (ct_unit_price i)) * Z.of_N (quantity_value (ct_quantity i)).
Definition priced (i : CartItem) : Prop :=
  (1 ≤ quantity_value (ct_quantity i) ≤ 99)%N ∧ 0 ≤ dec_units (price_value (ct_unit_price i)) ∧
  cents (dec_units (price_value (ct_unit_price i))).

Lemma line_total_exact i : priced i → item_units i ≤ exact_bound →
  ∃ d, line_total i = Some d ∧ dec_units d = item_units i.
Proof. intros (Hq & Hp & Hc) Hb. apply dec_mul_int_exact; [lia|done..]. Qed.

Lemma line_totals_exact items : Forall priced items → zsum (item_units <$> items) ≤ exact_bound →
  nonneg_cents (item_units <$> items) ∧
  ∃ totals, mapM line_total items = Some totals ∧ dec_units <$> totals = item_units <$> items.
Proof.
  induction 1 as [|i items Hi _ IH]; intros Hb; [by split; [constructor|exists []]|].
  rewrite fmap_cons, zsum_cons in Hb.
  assert (0 ≤ item_units i ∧ cents (item_units i)) as [Hge Hc].
  { destruct Hi as (Hq & Hp & Hc). unfold item_units. split; [nia|by apply Z.divide_mul_l]. }
  destruct IH as [Hn (totals & Ht & Hu)]; [lia|]. pose proof (zsum_nonneg _ Hn) as [Hz _].
  destruct (line_total_exact i Hi) as (d & Hd & Hdu); [lia|]. split; [by constructor|].
  exists (d :: totals). split; [cbn; by rewrite Hd, Ht|by rewrite !fmap_cons, Hdu, Hu].
Qed.

Lemma total_exact c : Forall priced (cart_items c) → zsum (item_units <$> cart_items c) ≤ exact_bound →
  ∃ t, total c = Some t ∧ dec_units t = zsum (item_units <$> cart_items c).
Proof.
  intros Hp Hb. destruct (line_totals_exact _ Hp Hb) as [Hn (totals & Ht & Hu)].
  destruct (dec_sum_total dec_zero totals) as (t & Et & Hv); rewrite ?Hu, ?dec_zero_units;
    [lia|apply Z.divide_0_r|done|lia|].
  exists t. unfold total. rewrite Ht. simpl. by rewrite Et, Hv, Hu, dec_zero_units.
Qed.

Lemma forallb_Forall {A} (p : A → bool) l : forallb p l = true ↔ Forall (λ x, p x = true) l.
Proof. rewrite forallb_forall, Forall_forall. by setoid_rewrite list_elem_of_In. Qed.

(** While the exact total fits a decimal of four places, it is what the cart reports, and the
    checkout accepts a cart exactly when it has 1 to 50 items, a total from 1 to 50000 and no item
    that is free of charge; any other cart is a bad request. *)
Theorem checkout_exact c :
  Forall priced (cart_items c) →
  let sum := zsum (item_units <$> cart_items c) in
  sum ≤ exact_bound →
  let ready := (0 < length (cart_items c) ≤ 50)%nat ∧ dec_scale ≤ sum ≤ 50000 * dec_scale ∧
    Forall (λ i, 0 < dec_units (price_value (ct_unit_price i))) (cart_items c) in
  (∃ res, from_cart c = Some res ∧ dec_units (ca_total res) = sum ∧
     ca_item_count res = length (cart_items c)) ∧
  (ready → check_cart c = Ok {| cv_items := validation_item <$> cart_items c; cv_all_valid := true |}) ∧
  (¬ ready → ∃ msg, check_cart c = Err (BadRequest msg)).
Proof.
  intros Hp sum Hb ready. destruct (total_exact c Hp Hb) as (t & Ht & Hu). fold sum in Hu.
  split.
  - destruct (line_totals_exact _ Hp Hb) as [_ (totals & Hl & _)].
    assert (∃ its, mapM from_item (cart_items c) = Some its) as [its Hits].
    { apply mapM_is_Some_2, Forall_forall. intros i Hi.
      apply mapM_Some_1 in Hl. apply list_elem_of_lookup in Hi as [k Hk].
      destruct (Forall2_lookup_l _ _ _ _ _ Hl Hk) as (d & _ & Hd).
      unfold compose, from_item. rewrite Hd. by eexists. }
    eexists. unfold from_cart. rewrite Hits. simpl. rewrite Ht. simpl. by split_and!.
  - assert (∀ ctx, checkout_context c = Some ctx →
      passed (evaluate_detailed (eval_checkout ctx) checkout_readiness_rules) = true ↔ ready) as Hr.
    { unfold checkout_context. rewrite Ht. intros ctx [= <-]. rewrite passed_evaluate_detailed.
      unfold checkout_readiness_rules, all, check. simpl. unfold item_count, MAX_CART_ITEMS, MIN_CART_VALUE, MAX_CART_VALUE.
      rewrite !andb_true_iff, Nat.ltb_lt, Nat.leb_le, !dec_leb_le, dec_one_units, Hu, !forallb_Forall, dec_new_units by first [lia|vm_compute; congruence].
      assert (Forall (λ i, dec_ltb dec_zero (price_value (ct_unit_price i)) = true) (cart_items c) ↔
        Forall (λ i, 0 < dec_units (price_value (ct_unit_price i))) (cart_items c)) as ->.
      { apply Forall_iff. intros i. by rewrite dec_ltb_units, dec_zero_units, Z.ltb_lt. }
      assert (Forall (λ i, (1 <=? quantity_value (ct_quantity i))%N && (quantity_value (ct_quantity i) <=? 99)%N = true)
        (cart_items c)) as Hq.
      { eapply Forall_impl; [exact Hp|]. intros i ([Hq1 Hq2] & _).
        by rewrite (proj2 (N.leb_le _ _) Hq1), (proj2 (N.leb_le _ _) Hq2). }
      unfold ready. change (10 ^ (28 - 0)) with dec_scale. tauto. }
    assert (∃ ctx, checkout_context c = Some ctx) as [ctx Hctx] by (unfold checkout_context; rewrite Ht; by eexists).
    specialize (Hr ctx Hctx). revert Hr. unfold check_cart. rewrite Hctx.
    unfold or_panic, mbind, outcome_bind. generalize (evaluate_detailed (eval_checkout ctx) checkout_readiness_rules).
    intros res Hr. split; intros Hready; destruct (passed res); try done;
      [by apply Hr in Hready|by exfalso; apply Hready, Hr|by eexists].
Qed.

(** ** Prices without a limit *)

Lemma from_cart_overflow c i : i ∈ cart_items c → line_total i = None →
  from_cart c = None ∧ checkout_context c = None.
Proof.
  intros Hi Hn.
  assert (mapM from_item (cart_items c) = None) as E1.
  { apply mapM_None_2, list.Exists_exists. exists i. split; [done|]. unfold from_item. by rewrite Hn. }
  assert (mapM line_total (cart_items c) = None) as E2.
  { apply mapM_None_2, list.Exists_exists. by exists i. }
  unfold from_cart, checkout_context, total. by rewrite E1, E2.
Qed.

(** A price has no upper limit: an item whose line total overflows the decimal type is accepted
    and stored, and then the request that added it panics instead of being answered - and so does
    every later request that reads this cart, until the item is removed, which works. *)
Theorem oversized_price_panics user now req v r :
  RedisUp → carts_ok r → ValidAddToCartReq_try_from req = Ok v →
  dec_mul (price_value (va_unit_price v)) (dec_new (Z.of_N (quantity_value (va_quantity v))) 0) = None →
  (size (cart_at user r) < 50)%nat →
  let sku := uuid_to_string (va_sku_id v) in
  (∃ r', handle user (AddItem now req) r = (Panic, r') ∧
     cart_at user r' = <[sku := added_item now v]> (cart_at user r)) ∧
  ∀ r1, carts_ok r1 → cart_at user r1 !! sku = Some (added_item now v) →
    (handle user GetCart r1).1 = Panic ∧ (handle user ValidateCart r1).1 = Panic ∧
    ∃ r2, handle user (RemoveItem (va_sku_id v)) r1 = (Ok (CartMessage (success 200 "Item removed from cart")), r2) ∧
      cart_at user r2 = delete sku (cart_at user r1).
Proof.
  intros Hup Hok Hv Hmul Hsize sku.
  assert (∀ rq r1 c, carts_ok r1 → cart_spec rq (cart_at user r1) = Ok c →
    ∃ o r2 items, handle user rq r1 = (o, r2) ∧ cart_at user r2 = c ∧ items ≡ₚ (map_to_list c).*2 ∧
      o = respond user rq items) as Hserved.
  { intros rq r1 c Hk Hc. destruct (handle user rq r1) as [o r2] eqn:Er.
    apply handle_served in Er as (_ & _ & Hs); [|done]. rewrite Hc in Hs.
    destruct Hs as [[Hs (items & Hp & Ho)]|[_ (e & _ & [Hf _])]]; [|done]. by exists o, r2, items. }
  assert (∀ c : gmap string CartItem, ∀ items, c !! sku = Some (added_item now v) →
    items ≡ₚ (map_to_list c).*2 →
    from_cart {| cart_user_id := user; cart_items := items |} = None ∧
    checkout_context {| cart_user_id := user; cart_items := items |} = None) as Hover.
  { intros c items Hc Hp. apply (from_cart_overflow _ (added_item now v)); [|exact Hmul].
    simpl. rewrite Hp. apply list_elem_of_fmap. exists (sku, added_item now v). split; [done|].
    by apply elem_of_map_to_list. }
  split.
  - destruct (Hserved (AddItem now req) r (<[sku := added_item now v]> (cart_at user r)) Hok)
      as (o & r' & items & Hh & Hc & Hp & ->).
    { simpl. rewrite Hv. simpl. case_match eqn:E; [|done].
      apply andb_true_iff in E as [_ E%Z.leb_le]. lia. }
    exists r'. rewrite Hh. split; [|done]. f_equal. unfold respond.
    by rewrite (proj1 (Hover _ _ (lookup_insert_eq _ _ _) Hp)).
  - intros r1 Hk1 Hc1.
    destruct (Hserved GetCart r1 _ Hk1 eq_refl) as (o1 & r2 & items1 & Hh1 & _ & Hp1 & ->).
    destruct (Hserved ValidateCart r1 _ Hk1 eq_refl) as (o2 & r3 & items2 & Hh2 & _ & Hp2 & ->).
    destruct (Hserved (RemoveItem (va_sku_id v)) r1 _ Hk1 eq_refl) as (o3 & r4 & items3 & Hh3 & Hc3 & _ & ->).
    rewrite Hh1, Hh2, Hh3. unfold respond, check_cart. simpl.
    rewrite (proj1 (Hover _ _ Hc1 Hp1)), (proj2 (Hover _ _ Hc1 Hp2)). by split_and!; [..|exists r4].
Qed.
End theorems.

(** ** Witnesses *)

#[local] Existing Instance sample.
#[local] Existing Instance sample_jwt.

(** Stored items as strings of bits. *)
Definition stored_fields : Type := string * string * N * string * (string * string * option string * Z).
Definition fields_of (s : CartItemStored) : stored_fields :=
  (cs_product_id s, cs_sku_id s, cs_quantity s, cs_unit_price s,
   (cs_currency s, cs_product_name s, cs_image_url s, cs_added_at s)).
Definition of_fields (f : stored_fields) : CartItemStored :=
  let '(p, s, q, u, (c, n, i, t)) := f in
  {| cs_product_id := (p : string); cs_sku_id := (s : string); cs_quantity := q; cs_unit_price := u;
     cs_currency := c; cs_product_name := n; cs_image_url := i; cs_added_at := t |}.
#[local] Instance sample_codec : CartCodec.
Proof.
  refine {| stored_to_json s := bits_of_pos (encode (fields_of s));
            stored_of_json j := match decode (A := stored_fields) (pos_of_bits j) with
                                | Some f => inr (of_fields f)
                                | None => inl "invalid"
                                end;
            decimal_parse_error s := s |}.
  intros s. rewrite pos_of_bits_of_pos, decode_encode. by destruct s.
Defined.
#[local] Instance cart_redis : RedisApi := sample_redis (λ _ _ _ m, (0, m)).
#[local] Instance cart_redis_view : RedisView := sample_redis_view (λ _ _ _ m, (0, m)).
#[local] Instance cart_redis_laws : RedisHashLaws := sample_redis_hash_laws (λ _ _ _ m, (0, m)).

Definition shopper : Uuid := ("user-1" : string).
Definition mug : Uuid := ("sku1" : string).
Definition mugs (quantity : N) (price : Decimal) : AddToCartReq := {|
  ar_product_id := ("p1" : string); ar_sku_id := mug; ar_quantity := quantity; ar_unit_price := price;
  ar_currency := Some " usd "; ar_product_name := "Mug"; ar_image_url := None |}.
Definition no_carts : redis := MkStore ∅ ∅.
Lemma no_carts_ok : carts_ok no_carts.
Proof. intros u. apply cart_ok_empty. Qed.

Definition counts (n : nat) (o : outcome AppError cart_response) : bool :=
  match o with Ok (CartAnswer res) => bool_decide (ca_item_count res = n) | _ => false end.
Definition first_add := handle shopper (AddItem 5 (mugs 2 (dec_new 7 0))) no_carts.

Definition secrets : AuthConfig := {| access_token_secret := "a"; refresh_token_secret := "r";
  access_token_expiry_secs := 900; refresh_token_expiry_secs := 86400 |}.
Definition shopper_header : option (option string) :=
  match generate_access_token secrets 1000 shopper "name" Buyer with
  | Ok t => Some (Some ("Bearer " +:+ t))
  | _ => None
  end.
Definition routed_add := cart_routes secrets 1200 shopper_header (AddItem 5 (mugs 2 (dec_new 7 0))) no_carts.
Definition late_add := cart_routes secrets 1901 shopper_header (AddItem 5 (mugs 2 (dec_new 7 0))) no_carts.
Lemma cart_refines_witness :
  is_ok routed_add.1 = true ∧ is_ok late_add.1 = false ∧
  ∃ user, bearer secrets 1200 shopper_header user ∧ carts_ok routed_add.2 ∧
    ∀ u, u ≠ cu_id user → cart_at u routed_add.2 = cart_at u no_carts.
Proof.
  assert (is_ok routed_add.1 = true) as Ha by (vm_compute; reflexivity). split; [exact Ha|].
  split; [vm_compute; reflexivity|].
  destruct (cart_refines secrets 1200 shopper_header (AddItem 5 (mugs 2 (dec_new 7 0))) no_carts routed_add.1 routed_add.2
    no_carts_ok (surjective_pairing _)) as [[Hn _]|(user & o' & Hb & _ & Hok & Ho & _)]; [congruence|].
  exists user. split; [exact Hb|]. split; [exact Hok|exact Ho].
Defined.

Lemma cart_invariant_witness :
  counts 1 first_add.1 = true ∧ (size (cart_at shopper first_add.2) ≤ 50)%nat.
Proof.
  split; [vm_compute; reflexivity|].
  refine (proj1 (cart_invariant shopper no_carts first_add.2 (λ _, eq_refl) _)).
  eapply rtc_l; [|apply rtc_refl]. exact (step_request shopper _ no_carts _ _ (surjective_pairing _)).
Defined.

Definition two_mugs : Cart := {| cart_user_id := shopper; cart_items := [{|
  ct_product_id := ("p1" : string); ct_sku_id := mug; ct_quantity := MkQuantity 2;
  ct_unit_price := MkPrice (dec_new 7 0); ct_currency := Currency_default;
  ct_product_name := "Mug"; ct_image_url := None; ct_added_at := 5 |}] |}.

Lemma checkout_exact_witness :
  zsum (item_units <$> cart_items two_mugs) = 14 * dec_scale ∧
  check_cart two_mugs = Ok {| cv_items := validation_item <$> cart_items two_mugs; cv_all_valid := true |}.
Proof.
  split; [vm_compute; reflexivity|].
  destruct (checkout_exact two_mugs) as (_ & Hready & _).
  - repeat constructor; try (vm_compute; congruence). exists 70000. vm_compute. reflexivity.
  - vm_compute. congruence.
  - apply Hready. split_and!; try (repeat constructor; fail); try (vm_compute; congruence).
Defined.

Definition gold : AddToCartReq := mugs 2 (dec_new dec_max_mantissa 0).
Definition overflows (o : outcome AppError ValidAddToCartReq) : bool :=
  match o with
  | Ok v => negb (is_some (dec_mul (price_value (va_unit_price v)) (dec_new (Z.of_N (quantity_value (va_quantity v))) 0)))
  | _ => false
  end.
Lemma oversized_price_panics_witness :
  ∃ r', handle shopper (AddItem 5 gold) no_carts = (Panic, r') ∧
    (handle shopper GetCart r').1 = Panic.
Proof.
  assert (overflows (ValidAddToCartReq_try_from gold) = true) as Hg by (vm_compute; reflexivity).
  destruct (ValidAddToCartReq_try_from gold) as [v|e|] eqn:Ev; [|discriminate Hg..].
  assert (dec_mul (price_value (va_unit_price v)) (dec_new (Z.of_N (quantity_value (va_quantity v))) 0) = None)
    as Hm by (unfold overflows in Hg; by destruct (dec_mul _ _)).
  destruct (oversized_price_panics shopper 5 gold v no_carts (sample_redis_up _) no_carts_ok Ev Hm)
    as [(r' & Hr & Hc) Hlater].
  { apply Nat.ltb_lt. vm_compute. reflexivity. }
  exists r'. split; [exact Hr|]. apply Hlater.
  - exact (cart_step_ok _ _ (step_request shopper _ no_carts _ _ Hr) no_carts_ok).
  - rewrite Hc. apply lookup_insert_eq.
Defined.
