(* ===== verification/Relay.v ===== *)
(** * The outbox relay (shared/src/outbox/relay.rs, repository.rs, dedup.rs)

    A relay claims a batch of due events, at most one per aggregate, publishes each of
    them and records the outcome, statement by statement; two other loops release the
    locks of dead relays and delete old published events. *)

From S2P Require Import Prelude RustStr Externals Errors Events Db Outbox Redis.

Local Open Scope Z_scope.

(** Times in seconds, [poll_interval] in milliseconds. The escalation of failures is an argument
    of the relay. *)
Record RelayConfig := {
  instance_id : string; batch_size : nat; poll_interval : Z; stale_lock_check_interval : Z;
  stale_lock_timeout : Z; cleanup_interval : Z; cleanup_max_age : Z; delete_on_publish : bool }.
(** The instance identifier is drawn. *)
Definition RelayConfig_default (id : string) : RelayConfig := {|
  instance_id := id; batch_size := 50; poll_interval := 500; stale_lock_check_interval := 30;
  stale_lock_timeout := 60; cleanup_interval := 3600; cleanup_max_age := 7 * 24 * 3600;
  delete_on_publish := false |}.

Section statements.
Context `{Externals, !ScanOrder OutboxEvent} {T : Type} `{!OutboxTables T}.
Implicit Types r : OutboxEvent.

Definition has_id (id : Uuid) r : bool := bool_decide (oe_id r = id).

Definition with_lock (by_ : option string) (at_ : option Z) r : OutboxEvent := {|
  oe_id := oe_id r; oe_created_at := oe_created_at r; oe_aggregate_type := oe_aggregate_type r;
  oe_aggregate_id := oe_aggregate_id r; oe_event_type := oe_event_type r;
  oe_event_id := oe_event_id r; oe_topic := oe_topic r; oe_partition_key := oe_partition_key r;
  oe_payload := oe_payload r; oe_metadata := oe_metadata r; oe_status := oe_status r;
  oe_published_at := oe_published_at r; oe_locked_by := by_; oe_locked_at := at_;
  oe_retry_count := oe_retry_count r; oe_max_retries := oe_max_retries r;
  oe_last_error := oe_last_error r; oe_next_retry_at := oe_next_retry_at r |}.

(** *** Claiming *)

Definition is_due (now : Z) r : bool :=
  bool_decide (oe_status r = Pending) && (oe_next_retry_at r <=? now).

(** [DISTINCT ON (aggregate_id)]: the first row of each aggregate. *)
Fixpoint keep_first (seen : list Uuid) (l : list OutboxEvent) : list OutboxEvent :=
  match l with
  | [] => []
  | r :: l =>
      if decide (oe_aggregate_id r ∈ seen) then keep_first seen l
      else r :: keep_first (oe_aggregate_id r :: seen) l
  end.
Definition oldest_per_aggregate (now : Z) (rows : list OutboxEvent) : list OutboxEvent :=
  keep_first [] (order_by oe_created_at (sort_scan (List.filter (is_due now) rows))).
Definition is_unlocked r : bool := bool_decide (oe_locked_by r = None).
Definition locked_rows (now : Z) (n : nat) (rows : list OutboxEvent) : list OutboxEvent :=
  take n (List.filter is_unlocked (lock_scan (oldest_per_aggregate now rows))).

Definition claim_stmt (n : nat) (instance : string) (now : Z) (_ : Uuid) (t : T)
    : outcome sql_error (list OutboxEvent * T) :=
  let rows := outbox_events t in
  let locked := locked_rows now n rows in
  let claim := with_lock (Some instance) (Some now) in
  Ok (claim <$> locked,
      set_outbox_events (update_where (λ r, bool_decide (oe_id r ∈ (oe_id <$> locked))) claim rows) t).
Definition claim_batch (n : nat) (instance : string) : M (conn T) AppError (list OutboxEvent) :=
  map_err internal_err (exec (claim_stmt n instance)).

(** *** Recording the outcome *)

(** The trigger [enforce_outbox_status_transition]. *)
Definition status_transition (old new : OutboxStatus) : outcome sql_error unit :=
  if decide (old = new) then Ok tt
  else match old, new with
       | Pending, Published | Pending, FailedStatus => Ok tt
       | _, _ => Err (CheckViolation "invalid outbox status transition")
       end.

Definition published_row (now : Z) r : outcome sql_error OutboxEvent :=
  _ ← status_transition (oe_status r) Published;
  Ok {| oe_id := oe_id r; oe_created_at := oe_created_at r; oe_aggregate_type := oe_aggregate_type r;
        oe_aggregate_id := oe_aggregate_id r; oe_event_type := oe_event_type r;
        oe_event_id := oe_event_id r; oe_topic := oe_topic r; oe_partition_key := oe_partition_key r;
        oe_payload := oe_payload r; oe_metadata := oe_metadata r; oe_status := Published;
        oe_published_at := Some now; oe_locked_by := None; oe_locked_at := None;
        oe_retry_count := oe_retry_count r; oe_max_retries := oe_max_retries r;
        oe_last_error := oe_last_error r; oe_next_retry_at := oe_next_retry_at r |}.

Definition update_row (id : Uuid) (f : Z → OutboxEvent → outcome sql_error OutboxEvent)
    (now : Z) (_ : Uuid) (t : T) : outcome sql_error (unit * T) :=
  '(_, rows) ← update_checked (has_id id) (f now) (outbox_events t);
  Ok (tt, set_outbox_events rows t).

Definition mark_published (id : Uuid) : M (conn T) AppError unit :=
  map_err internal_err (exec (update_row id published_row)).

Definition delete_published (id : Uuid) : M (conn T) AppError unit :=
  map_err internal_err (exec (λ _ _ t,
    Ok (tt, set_outbox_events (List.filter (λ r, negb (has_id id r)) (outbox_events t)) t))).

(** The delay before the next attempt, in seconds. *)
Definition retry_delay_secs (count : Z) : Z := 2 ^ Z.min count 10.

Definition retried_row (error : string) (now : Z) r : outcome sql_error OutboxEvent :=
  count ← int4 (oe_retry_count r + 1);
  let exhausted := oe_max_retries r <=? count in
  let status := if exhausted then FailedStatus else Pending in
  _ ← status_transition (oe_status r) status;
  Ok {| oe_id := oe_id r; oe_created_at := oe_created_at r; oe_aggregate_type := oe_aggregate_type r;
        oe_aggregate_id := oe_aggregate_id r; oe_event_type := oe_event_type r;
        oe_event_id := oe_event_id r; oe_topic := oe_topic r; oe_partition_key := oe_partition_key r;
        oe_payload := oe_payload r; oe_metadata := oe_metadata r; oe_status := status;
        oe_published_at := oe_published_at r; oe_locked_by := None; oe_locked_at := None;
        oe_retry_count := count; oe_max_retries := oe_max_retries r;
        oe_last_error := Some error;
        oe_next_retry_at :=
          if exhausted then oe_next_retry_at r else now + retry_delay_secs count * second |}.

Definition mark_retry_or_failed (id : Uuid) (error : string) : M (conn T) AppError unit :=
  map_err internal_err (exec (update_row id (retried_row error))).

(** *** Maintenance *)

Definition is_stale (secs now : Z) r : bool :=
  bool_decide (oe_locked_by r ≠ None) &&
  match oe_locked_at r with Some at_ => at_ <? now - secs * second | None => false end &&
  bool_decide (oe_status r = Pending).

Definition release_stale_locks (secs : Z) : M (conn T) AppError nat :=
  map_err internal_err (exec (λ now _ t,
    Ok (rows_affected (is_stale secs now) (outbox_events t),
        set_outbox_events
          (update_where (is_stale secs now) (with_lock None None) (outbox_events t)) t))).

Definition is_expired (secs now : Z) r : bool :=
  bool_decide (oe_status r = Published) &&
  match oe_published_at r with Some at_ => at_ <? now - secs * second | None => false end.

Definition cleanup_published (secs : Z) : M (conn T) AppError nat :=
  map_err internal_err (exec (λ now _ t,
    let '(rows, k) := delete_upto 1000 (is_expired secs now) (outbox_events t) in
    Ok (k, set_outbox_events rows t))).

Definition outbox_lag : M (conn T) AppError Z :=
  map_err internal_err
    (query (λ t, Z.of_nat (rows_affected (λ r, bool_decide (oe_status r = Pending)) (outbox_events t)))).
(** ** Metrics (metrics.rs): one statement; an age is a float of seconds *)

Definition min_created (rows : list OutboxEvent) : option Z :=
  foldr (λ r m, Some (match m with Some x => Z.min (oe_created_at r) x | None => oe_created_at r end)) None rows.
Record OutboxMetrics := {
  pending_count : nat; failed_count : nat; published_count : nat; oldest_pending_age_secs : option f64 }.
Definition metrics_row (now : Z) (rows : list OutboxEvent) : OutboxMetrics :=
  let having st := List.filter (λ r, bool_decide (oe_status r = st)) rows in {|
    pending_count := length (having Pending); failed_count := length (having FailedStatus);
    published_count := length (having Published);
    oldest_pending_age_secs :=
      (λ at_, f64_div (f64_of_Z (now - at_)) (f64_of_Z second)) <$> min_created (having Pending) |}.
Definition collect_outbox_metrics : M (conn T) AppError OutboxMetrics :=
  map_err internal_err (exec (λ now _ t, Ok (metrics_row now (outbox_events t), t))).

(** Every row is counted once, and there is an age exactly if something is pending: that of a
    pending row at least as old as every other. *)
Theorem metrics_exact now rows :
  (pending_count (metrics_row now rows) + failed_count (metrics_row now rows) +
     published_count (metrics_row now rows) = length rows)%nat ∧
  match oldest_pending_age_secs (metrics_row now rows) with
  | None => ∀ r, r ∈ rows → oe_status r ≠ Pending
  | Some age => ∃ r, r ∈ rows ∧ oe_status r = Pending ∧
      age = f64_div (f64_of_Z (now - oe_created_at r)) (f64_of_Z second) ∧
      ∀ r', r' ∈ rows → oe_status r' = Pending → oe_created_at r ≤ oe_created_at r'
  end.
Proof.
  split.
  - simpl. induction rows as [|r rows IH]; simpl; [done|].
    destruct (oe_status r); simpl; lia.
  - simpl. assert (match min_created (List.filter (λ r, bool_decide (oe_status r = Pending)) rows) with
      | None => ∀ r, r ∈ rows → oe_status r ≠ Pending
      | Some at_ => ∃ r, r ∈ rows ∧ oe_status r = Pending ∧ at_ = oe_created_at r ∧
          ∀ r', r' ∈ rows → oe_status r' = Pending → oe_created_at r ≤ oe_created_at r'
      end) as Hm; [|by destruct (min_created _) as [at_|]; [destruct Hm as (r & ? & ? & -> & ?); exists r|]].
    induction rows as [|r rows IH]; simpl; [by intros r Hr%elem_of_nil|].
    case_bool_decide as Hp; simpl.
    + destruct (min_created _) as [x|].
      * destruct IH as (r0 & Hin & Hp0 & -> & Hall).
        destruct (Z.le_ge_cases (oe_created_at r) (oe_created_at r0)) as [Hle|Hle].
        -- exists r. rewrite Z.min_l by done. split_and!; [by left|done|done|].
           intros r' [->|Hr']%elem_of_cons Hp'; [done|]. specialize (Hall r' Hr' Hp'). lia.
        -- exists r0. rewrite Z.min_r by lia. split_and!; [by right|done|done|].
           intros r' [->|Hr']%elem_of_cons Hp'; [done|]. by apply Hall.
      * exists r. split_and!; [by left|done|done|]. intros r' [->|Hr']%elem_of_cons Hp'; [done|]. by destruct (IH r' Hr').
    + destruct (min_created _) as [x|].
      * destruct IH as (r0 & Hin & Hp0 & -> & Hall). exists r0. split_and!; [by right|done|done|].
        intros r' [->|Hr']%elem_of_cons Hp'; [done|]. by apply Hall.
      * intros r' [->|Hr']%elem_of_cons; [done|]. by apply IH.
Qed.
End statements.

(** ** The relay *)

Section relay.
Context `{Externals, !ScanOrder OutboxEvent, RedisApi} {T K : Type} `{!OutboxTables T}.
(** The broker and the failure escalation, over a state [K]; the text of a failed
    deserialization; and whether the relay has a Redis connection. *)
Context (publish : string → EventEnvelope → M K AppError unit).
Context (on_permanent_failure : OutboxEvent → M K AppError unit).
Context (serde_error : Value → string) (with_redis : bool).

Abbreviation world := (db T (K * redis)).
Abbreviation run := (M world AppError).

Definition on_broker {E A} (m : M K E A) : M world E A :=
  zoom (λ s : world, (d_ext s).1) (λ k s, MkDb (d_committed s) (d_env s) (k, (d_ext s).2)) m.
Definition on_cache {E A} (m : M redis E A) : M world E A :=
  zoom (λ s : world, (d_ext s).2) (λ r s, MkDb (d_committed s) (d_env s) ((d_ext s).1, r)) m.

(** An error that is only logged. *)
Definition logged (m : run unit) : run unit := catch m (λ _, mret tt) (λ _, mret tt).

(** *** The deduplication cache (dedup.rs) *)

Definition KEY_PREFIX : string := "outbox:published:".
Definition TTL_SECS : Z := 300.
Definition dedup_key (event_id : Uuid) : string := KEY_PREFIX +:+ uuid_to_string event_id.
Definition is_published (event_id : Uuid) : run bool :=
  catch (on_cache (redis_exists (dedup_key event_id))) mret (λ _, mret false).
Definition dedup_mark_published (event_id : Uuid) : run unit :=
  catch (on_cache (redis_set_ex (dedup_key event_id) "1" TTL_SECS)) (λ _, mret tt) (λ _, mret tt).

(** *** One event *)

Definition publish_payload (topic : string) (payload : Value) : run unit :=
  envelope ← lift (ok_or (InternalServerError ("Deserialize outbox payload: " +:+ serde_error payload))
    (envelope_of_value payload));
  on_broker (publish topic envelope).

(** The event whose payload has been taken. *)
Definition take_payload (e : OutboxEvent) : OutboxEvent := {|
  oe_id := oe_id e; oe_created_at := oe_created_at e; oe_aggregate_type := oe_aggregate_type e;
  oe_aggregate_id := oe_aggregate_id e; oe_event_type := oe_event_type e;
  oe_event_id := oe_event_id e; oe_topic := oe_topic e; oe_partition_key := oe_partition_key e;
  oe_payload := jnull; oe_metadata := oe_metadata e; oe_status := oe_status e;
  oe_published_at := oe_published_at e; oe_locked_by := oe_locked_by e;
  oe_locked_at := oe_locked_at e; oe_retry_count := oe_retry_count e;
  oe_max_retries := oe_max_retries e; oe_last_error := oe_last_error e;
  oe_next_retry_at := oe_next_retry_at e |}.

Definition record_published (cfg : RelayConfig) (e : OutboxEvent) : run unit :=
  on_pool (if delete_on_publish cfg then delete_published (oe_id e) else mark_published (oe_id e)).

Definition escalate_failure (e : OutboxEvent) : run unit :=
  logged (on_broker (on_permanent_failure e)).

Definition process_event (cfg : RelayConfig) (e : OutboxEvent) : run unit :=
  hit ← (if with_redis then is_published (oe_event_id e) else mret false);
  if hit : bool then logged (record_published cfg e)
  else
    catch (publish_payload (oe_topic e) (oe_payload e))
      (λ _,
        _ ← (if with_redis then dedup_mark_published (oe_event_id e) else mret tt);
        logged (record_published cfg e))
      (λ err,
        catch (on_pool (mark_retry_or_failed (oe_id e) (app_error_display err)))
          (λ _,
            if oe_max_retries e <=? oe_retry_count e + 1 then escalate_failure (take_payload e)
            else mret tt)
          (λ _, mret tt)).

(** *** The loops *)

Definition process_batch (cfg : RelayConfig) : run nat :=
  events ← on_pool (claim_batch (batch_size cfg) (instance_id cfg));
  match events with
  | [] => mret 0%nat
  | _ => _ ← for_each events (process_event cfg); mret (length events)
  end.

Definition MAX_ITERATIONS : nat := 100.
(** [cancelled i]: the shutdown was requested before iteration [i]. *)
Fixpoint drain (cfg : RelayConfig) (cancelled : nat → bool) (i fuel : nat) : run unit :=
  match fuel with
  | O => mret tt
  | S fuel =>
      if cancelled i then mret tt
      else
        catch (process_batch cfg)
          (λ n, match n with O => mret tt | _ => drain cfg cancelled (S i) fuel end)
          (λ _, mret tt)
  end.
Definition process_pending (cfg : RelayConfig) (cancelled : nat → bool) : run unit :=
  drain cfg cancelled 0 MAX_ITERATIONS.

(** The body of the stale lock loop and of the cleanup loop; the latter repeats its
    statement until nothing is left to delete, here at most [fuel] times. *)
Definition stale_lock_tick (cfg : RelayConfig) : run unit :=
  logged (_ ← on_pool (release_stale_locks (stale_lock_timeout cfg)); mret tt).
Fixpoint cleanup_tick (cfg : RelayConfig) (cancelled : nat → bool) (i fuel : nat) : run unit :=
  match fuel with
  | O => mret tt
  | S fuel =>
      if cancelled i then mret tt
      else
        catch (on_pool (cleanup_published (cleanup_max_age cfg)))
          (λ n, match n with O => mret tt | _ => cleanup_tick cfg cancelled (S i) fuel end)
          (λ _, mret tt)
  end.

(** The loops themselves; [cancelled i] is what the [i]-th turn sees of the shutdown. The loops
    without a listener are woken by their timer only. *)
Definition stale_lock_loop (cfg : RelayConfig) (ws : list wake) : run unit :=
  wake_loop (λ _, stale_lock_tick cfg) 0 false ws.
Definition cleanup_loop (cfg : RelayConfig) (cancelled : nat → nat → bool) (fuel : nat) (ws : list wake) : run unit :=
  wake_loop (λ i, cleanup_tick cfg (cancelled i) 0 fuel) 0 false ws.
End relay.

(** ** The heartbeat (types.rs): the Unix time of the last beat, in seconds, 0 for none *)

Definition beat (now : Z) (_ : Z) : Z := now.
Definition seconds_since_last_beat (now last : Z) : option Z :=
  if decide (last = 0) then None else Some (now - last).
Definition is_alive (max_age now last : Z) : bool :=
  match seconds_since_last_beat now last with Some age => age <=? max_age | None => false end.

(** The main loop: every turn beats, and then processes what is pending. *)
Definition relay_loop `{Externals, !ScanOrder OutboxEvent, RedisApi} {T K : Type} `{!OutboxTables T}
    (publish : string → EventEnvelope → M K AppError unit) (on_permanent_failure : OutboxEvent → M K AppError unit)
    (serde_error : Value → string) (with_redis : bool) (cfg : RelayConfig) (cancelled : nat → nat → bool)
    (listener : bool) (ws : list wake) : M (db T (K * redis) * Z) AppError unit :=
  wake_loop (λ i,
    _ ← modify (λ w, (w.1, beat (e_now (d_env w.1)) w.2));
    zoom fst (λ s w, (s, w.2)) (process_pending publish on_permanent_failure serde_error with_redis cfg (cancelled i)))
  0 listener ws.
