(* ===== verification/RelayProps.v ===== *)
(** * The outbox relay: invariant

    What the relay assumes of the broker and of Redis, the invariant of its tables, and
    that every statement and call keeps it: an event is marked as published, deleted or
    remembered in the cache only after the broker has taken it. *)

From S2P Require Import Prelude RustStr Externals Errors Events Db Outbox Redis Relay.

Local Open Scope Z_scope.

(** The broker's log: a successful publication appends to it; a failed one may have. *)
Class BrokerLaws `{Externals} {K : Type} (publish : string → EventEnvelope → M K AppError unit)
    (on_permanent_failure : OutboxEvent → M K AppError unit) := {
  broker_log : K → list (string * EventEnvelope);
  publish_law topic e k o k' : publish topic e k = (o, k') →
    match o with
    | Ok _ => broker_log k' = broker_log k ++ [(topic, e)]
    | Err _ => broker_log k' = broker_log k ∨ broker_log k' = broker_log k ++ [(topic, e)]
    | Panic => False
    end;
  escalation_law e k o k' : on_permanent_failure e k = (o, k') →
    broker_log k' = broker_log k ∧ o ≠ Panic }.

(** The two commands of the deduplication cache. *)
Class RedisCacheLaws `{RedisView} := {
  exists_law k : reads (redis_exists k) (λ r b, b = true → r_str r !! k ≠ None);
  set_ex_law k v n r o r' : redis_set_ex k v n r = (o, r') →
    match o with
    | Ok _ => r_str r' = <[k := v]> (r_str r)
    | Err _ => r_str r' = r_str r ∨ r_str r' = <[k := v]> (r_str r)
    | Panic => False
    end }.

(** The rows a claim takes are due, unlocked rows of the table. *)
Section claim.
Context `{Externals, !ScanOrder OutboxEvent}.
Implicit Types (r : OutboxEvent) (rows : list OutboxEvent).

Lemma keep_first_sublist seen rows : keep_first seen rows `sublist_of` rows.
Proof.
  revert seen. induction rows as [|r rows IH]; intros seen; simpl; [done|].
  case_decide; [by apply sublist_cons|by apply sublist_skip].
Qed.

(** The rows kept are the first of their aggregates, and every aggregate has one. *)
Lemma keep_first_spec seen rows r :
  r ∈ keep_first seen rows → (oe_aggregate_id r ∉ seen) ∧
    ∃ l l', rows = (l ++ r :: l') ∧ Forall (λ r', oe_aggregate_id r' ≠ oe_aggregate_id r) l.
Proof.
  revert seen. induction rows as [|r0 rows IH]; intros seen; simpl; [by intros ?%not_elem_of_nil|].
  case_decide as Hseen.
  - intros (Hr & l & l' & -> & Hl)%IH. split; [done|]. exists (r0 :: l), l'. split; [done|].
    constructor; [|done]. intros E. by rewrite E in Hseen.
  - intros [->|(Hr & l & l' & -> & Hl)%IH]%elem_of_cons; [split; [done|by exists [], rows]|].
    apply not_elem_of_cons in Hr as [Hne Hr]. split; [done|]. exists (r0 :: l), l'. by repeat constructor.
Qed.

Lemma keep_first_NoDup seen rows : NoDup (oe_aggregate_id <$> keep_first seen rows).
Proof.
  revert seen. induction rows as [|r rows IH]; intros seen; simpl; [constructor|].
  case_decide; [apply IH|]. rewrite fmap_cons. constructor; [|apply IH].
  intros (r' & E & Hr')%list_elem_of_fmap. apply keep_first_spec in Hr' as [Hne _].
  apply Hne. rewrite <-E. by left.
Qed.

Lemma keep_first_complete seen rows r :
  r ∈ rows → oe_aggregate_id r ∉ seen →
  ∃ r', r' ∈ keep_first seen rows ∧ oe_aggregate_id r' = oe_aggregate_id r.
Proof.
  revert seen. induction rows as [|r0 rows IH]; intros seen Hin Hseen; simpl; [by apply not_elem_of_nil in Hin|].
  case_decide as Hold.
  - apply elem_of_cons in Hin as [->|Hin]; [done|]. by apply IH.
  - destruct (decide (oe_aggregate_id r = oe_aggregate_id r0)) as [E|E].
    { exists r0. split; [by left|done]. }
    apply elem_of_cons in Hin as [->|Hin]; [done|].
    destruct (IH (oe_aggregate_id r0 :: seen) Hin) as (r' & Hr' & Er').
    { by apply not_elem_of_cons. } exists r'. split; [by right|done].
Qed.

Lemma due_order now rows :
  order_by oe_created_at (sort_scan (List.filter (is_due now) rows)) ≡ₚ List.filter (is_due now) rows.
Proof. by rewrite order_by_perm, sort_scan_perm. Qed.

Lemma oldest_spec now rows r :
  r ∈ oldest_per_aggregate now rows →
  r ∈ rows ∧ is_due now r = true ∧
  ∀ r', r' ∈ rows → is_due now r' = true → oe_aggregate_id r' = oe_aggregate_id r →
    oe_created_at r ≤ oe_created_at r'.
Proof.
  intros (_ & l & l' & E & Hl)%keep_first_spec. pose proof (due_order now rows) as Hp.
  pose proof (order_by_sorted oe_created_at (sort_scan (List.filter (is_due now) rows))) as Hs.
  rewrite E in Hp, Hs.
  assert (∀ x, (x ∈ l ++ r :: l') ↔ x ∈ rows ∧ is_due now x = true) as Hin.
  { intros x. by rewrite Hp, !list_elem_of_In, filter_In. }
  assert (r ∈ (l ++ r :: l')) as Hr by (apply elem_of_app; right; by left).
  apply Hin in Hr as [Hr Hd]. split_and!; [done..|]. intros r' Hr' Hd' Ha.
  assert (r' ∈ (l ++ r :: l')) as [Hl'|[->|Hl']%elem_of_cons]%elem_of_app by by apply Hin.
  - rewrite Forall_forall in Hl. by destruct (Hl r' Hl').
  - done.
  - apply StronglySorted_app_1_r in Hs. apply StronglySorted_inv in Hs as [_ Hf].
    rewrite Forall_forall in Hf. by apply Hf.
Qed.

Lemma oldest_sub now rows : oldest_per_aggregate now rows ⊆+ List.filter (is_due now) rows.
Proof.
  unfold oldest_per_aggregate. rewrite <-(sort_scan_perm (List.filter _ rows)) at 2.
  rewrite <-(order_by_perm oe_created_at (sort_scan _)) at 2.
  apply sublist_submseteq, keep_first_sublist.
Qed.

Lemma locked_sub_oldest now n rows : locked_rows now n rows ⊆+ oldest_per_aggregate now rows.
Proof.
  etrans; [|apply lock_scan_sub].
  apply sublist_submseteq. etrans; [apply sublist_take|apply filter_sublist].
Qed.

Lemma locked_sub now n rows : locked_rows now n rows ⊆+ rows.
Proof.
  rewrite locked_sub_oldest, oldest_sub. apply sublist_submseteq, filter_sublist.
Qed.
End claim.

Section rows.
Context `{Externals}.
Implicit Types (r : OutboxEvent) (log : list (string * EventEnvelope)).

Definition sent log r : Prop :=
  ∃ e, envelope_of_value (oe_payload r) = Some e ∧ (oe_topic r, e) ∈ log.
(** What identifies an event and never changes. *)
Definition same_event r r' : Prop :=
  oe_id r' = oe_id r ∧ oe_event_id r' = oe_event_id r ∧ oe_topic r' = oe_topic r ∧
  oe_payload r' = oe_payload r ∧ oe_aggregate_id r' = oe_aggregate_id r ∧
  oe_created_at r' = oe_created_at r ∧ oe_max_retries r' = oe_max_retries r.
#[export] Instance same_event_equiv : Equivalence same_event.
Proof.
  unfold same_event. split; [done| |].
  - intros x y (?&?&?&?&?&?&?). split_and!; congruence.
  - intros x y z (?&?&?&?&?&?&?) (?&?&?&?&?&?&?). split_and!; congruence.
Qed.

(** A pending event has attempts left; a failed one has used them up. *)
Definition retries_ok r : Prop :=
  match oe_status r with
  | Pending => oe_retry_count r < oe_max_retries r
  | FailedStatus => oe_max_retries r ≤ oe_retry_count r
  | Published => True
  end.

Definition row_ok log r : Prop := retries_ok r ∧ (oe_status r = Published → sent log r).
Definition rows_ok log (rows : list OutboxEvent) : Prop :=
  NoDup (oe_id <$> rows) ∧ NoDup (oe_event_id <$> rows) ∧ Forall (row_ok log) rows.

Lemma sent_mono log log' r : log ⊆ log' → sent log r → sent log' r.
Proof. intros Hl (e & He & Hin). exists e. auto. Qed.
Lemma sent_same log r r' : same_event r r' → sent log r → sent log r'.
Proof. intros (_ & _ & Et & Ep & _) (e & He & Hin). exists e. by rewrite Et, Ep. Qed.

(** One statement on the rows, with the log it is justified by: a row keeps its identity,
    becomes published only when sent, and disappears only when sent. *)
Definition row_step log r r' : Prop :=
  same_event r r' ∧ (retries_ok r → retries_ok r') ∧
  (oe_status r' = Published → oe_status r = Published ∨ sent log r).
Inductive rows_step log : list OutboxEvent → list OutboxEvent → Prop :=
| rows_nil : rows_step log [] []
| rows_keep r r' l l' : row_step log r r' → rows_step log l l' → rows_step log (r :: l) (r' :: l')
| rows_drop r l l' : sent log r → rows_step log l l' → rows_step log (r :: l) l'.

Lemma rows_step_refl log l : rows_step log l l.
Proof. induction l as [|r l IH]; constructor; [|done]. split_and!; [reflexivity|done|by left]. Qed.

Lemma rows_step_ids log l l' {A} (f : OutboxEvent → A) :
  (∀ r r', same_event r r' → f r' = f r) → rows_step log l l' → (f <$> l') `sublist_of` (f <$> l).
Proof.
  intros Hf. induction 1 as [|r r' l l' (Hs & _) _ IH|r l l' _ _ IH]; [done| |].
  - rewrite !fmap_cons, (Hf r r') by done. by apply sublist_skip.
  - rewrite fmap_cons. by apply sublist_cons.
Qed.

Lemma rows_step_back log l l' r' :
  rows_step log l l' → r' ∈ l' → ∃ r, r ∈ l ∧ row_step log r r'.
Proof.
  induction 1 as [|r1 r1' l l' Hs _ IH|r l l' _ _ IH]; intros Hin.
  - by apply not_elem_of_nil in Hin.
  - apply elem_of_cons in Hin as [->|Hin]; [exists r1; split; [by left|done]|].
    destruct (IH Hin) as (r & ? & ?). exists r. split; [by right|done].
  - destruct (IH Hin) as (r0 & ? & ?). exists r0. split; [by right|done].
Qed.

Lemma rows_step_forth log l l' r :
  rows_step log l l' → r ∈ l → sent log r ∨ ∃ r', r' ∈ l' ∧ same_event r r'.
Proof.
  induction 1 as [|r1 r1' l l' (Hs & _) _ IH|r1 l l' Hr _ IH]; intros Hin.
  - by apply not_elem_of_nil in Hin.
  - apply elem_of_cons in Hin as [->|Hin]; [right; exists r1'; split; [by left|done]|].
    destruct (IH Hin) as [?|(r' & ? & ?)]; [by left|]. right. exists r'. split; [by right|done].
  - apply elem_of_cons in Hin as [->|Hin]; [by left|auto].
Qed.

Lemma rows_step_ok log l l' : rows_step log l l' → rows_ok log l → rows_ok log l'.
Proof.
  intros Hs (Hi & He & Hf). split_and!.
  - eapply sublist_NoDup; [exact Hi|]. by eapply rows_step_ids; [|exact Hs]; intros r r' (-> & _).
  - eapply sublist_NoDup; [exact He|]. by eapply rows_step_ids; [|exact Hs]; intros r r' (_ & -> & _).
  - apply Forall_forall. intros r' (r & Hr & (Hsame & Hret & Hp))%(rows_step_back _ _ _ _ Hs).
    rewrite Forall_forall in Hf. destruct (Hf r Hr) as [Hok Hsent]. split; [auto|].
    intros Hst. eapply sent_same; [exact Hsame|]. destruct (Hp Hst); auto.
Qed.

Lemma update_rows_step log (p : OutboxEvent → bool) f rows :
  (∀ r, r ∈ rows → p r = true → row_step log r (f r)) → rows_step log rows (update_where p f rows).
Proof.
  unfold update_where. induction rows as [|r rows IH]; intros Hf; [constructor|].
  rewrite fmap_cons. constructor.
  - destruct (p r) eqn:Ep; [apply Hf; [by left|done]|]. split_and!; [reflexivity|done|by left].
  - apply IH. intros r' Hr'. apply Hf. by right.
Qed.

Lemma checked_rows_step log (p : OutboxEvent → bool) f rows n rows' :
  (∀ r r', r ∈ rows → p r = true → f r = Ok r' → row_step log r r') →
  update_checked p f rows = Ok (n, rows') → rows_step log rows rows'.
Proof.
  intros Hf [_ Hu]%update_checked_ok. revert Hf.
  induction Hu as [|r r' l l' Hr _ IH]; intros Hf; [constructor|]. constructor.
  - destruct (p r) eqn:Ep; [apply Hf; [by left|done|done]|]. subst.
    split_and!; [reflexivity|done|by left].
  - apply IH. intros x x' Hx. apply Hf. by right.
Qed.

Lemma filter_rows_step log (p : OutboxEvent → bool) rows :
  (∀ r, r ∈ rows → p r = false → sent log r) → rows_step log rows (List.filter p rows).
Proof.
  induction rows as [|r rows IH]; intros Hf; [constructor|]. simpl.
  assert (rows_step log rows (List.filter p rows)) as IH' by (apply IH; intros x Hx; apply Hf; by right).
  destruct (p r) eqn:Ep; [|apply rows_drop; [apply Hf; [by left|done]|done]].
  apply rows_keep; [split_and!; [reflexivity|done|by left]|done].
Qed.

Lemma delete_rows_step log (p : OutboxEvent → bool) : ∀ n rows rows' k,
  (∀ r, r ∈ rows → p r = true → sent log r) →
  delete_upto n p rows = (rows', k) → rows_step log rows rows'.
Proof.
  intros n rows. revert n. induction rows as [|r rows IH]; intros n rows' k Hf Hd.
  { destruct n; injection Hd as <- _; constructor. }
  assert (∀ x, x ∈ rows → p x = true → sent log x) as Hf' by (intros x Hx; apply Hf; by right).
  destruct n as [|n]; [injection Hd as <- _; apply rows_step_refl|]. simpl in Hd.
  destruct (p r) eqn:Ep.
  - destruct (delete_upto n p rows) as [l j] eqn:Ed. injection Hd as <- _.
    apply rows_drop; [apply Hf; [by left|done]|]. by eapply IH.
  - destruct (delete_upto (S n) p rows) as [l j] eqn:Ed. injection Hd as <- _.
    apply rows_keep; [split_and!; [reflexivity|done|by left]|]. by eapply IH.
Qed.

(** *** The row functions of the statements *)

Lemma with_lock_step log b a r : row_step log r (with_lock b a r).
Proof. split_and!; [done|done|by left]. Qed.

Lemma published_row_step log now r r' :
  published_row now r = Ok r' → sent log r → row_step log r r'.
Proof.
  unfold published_row. intros (u & _ & Hr)%obind_ok Hs. simplify_eq.
  split_and!; [done|done|by right].
Qed.

Lemma retried_row_step log error now r r' : retried_row error now r = Ok r' → row_step log r r'.
Proof.
  unfold retried_row. intros (c & [-> _]%int4_ok & (u & Ht & Hr)%obind_ok)%obind_ok. simplify_eq.
  unfold row_step, same_event, retries_ok, status_transition in *. simpl.
  destruct (Z.leb_spec (oe_max_retries r) (oe_retry_count r + 1)); simpl; split_and!; try done; lia.
Qed.
End rows.

(** ** The relay's world *)

Section world.
Context `{Externals, !ScanOrder OutboxEvent, RedisCacheLaws} {T K : Type} `{!OutboxTables T}.
Context (publish : string → EventEnvelope → M K AppError unit)
  (on_permanent_failure : OutboxEvent → M K AppError unit)
  `{!BrokerLaws publish on_permanent_failure}
  (serde_error : Value → string) (with_redis : bool).
Abbreviation world := (db T (K * redis)).
Abbreviation run := (M world AppError).
Implicit Types s : world.

Definition w_rows s : list OutboxEvent := outbox_events (d_committed s).
Definition w_log s : list (string * EventEnvelope) := broker_log (d_ext s).1.
Definition remembered s r : Prop := r_str (d_ext s).2 !! dedup_key (oe_event_id r) ≠ None.

Definition relay_ok s : Prop :=
  rows_ok (w_log s) (w_rows s) ∧ ∀ r, r ∈ w_rows s → remembered s r → sent (w_log s) r.

(** No event is lost: each is still in the table or the broker has taken it; and none
    appears from nowhere. *)
Definition evolves s s' : Prop :=
  (∃ l, w_log s' = w_log s ++ l) ∧
  (∀ r, r ∈ w_rows s → sent (w_log s') r ∨ ∃ r', r' ∈ w_rows s' ∧ same_event r r') ∧
  (∀ r', r' ∈ w_rows s' → ∃ r, r ∈ w_rows s ∧ same_event r r').

Lemma log_mono s s' r : (∃ l, w_log s' = w_log s ++ l) → sent (w_log s) r → sent (w_log s') r.
Proof. intros [l E]. apply sent_mono. rewrite E. intros x Hx. apply elem_of_app. by left. Qed.

#[export] Instance evolves_preorder : PreOrder evolves.
Proof.
  split.
  - intros s. split_and!; [exists []; by rewrite app_nil_r|..]; intros r Hr; [right|]; by exists r.
  - intros s1 s2 s3 ([l1 E1] & F1 & B1) ([l2 E2] & F2 & B2). split_and!.
    + exists (l1 ++ l2). by rewrite E2, E1, app_assoc.
    + intros r Hr. destruct (F1 r Hr) as [Hs|(r2 & Hr2 & Hs2)].
      * left. apply (log_mono s2); [by exists l2|done].
      * destruct (F2 r2 Hr2) as [Hs|(r3 & Hr3 & Hs3)].
        -- left. eapply sent_same; [symmetry; exact Hs2|done].
        -- right. exists r3. split; [done|]. by etrans.
    + intros r3 (r2 & Hr2 & Hs2)%B2. apply B1 in Hr2 as (r1 & Hr1 & Hs1).
      exists r1. split; [done|]. by etrans.
Qed.

(** *** Primitive steps *)

Lemma db_step s s' :
  d_ext s' = d_ext s → rows_step (w_log s) (w_rows s) (w_rows s') → relay_ok s →
  relay_ok s' ∧ evolves s s'.
Proof.
  intros Hx Hr [Hok Hc]. assert (w_log s' = w_log s) as El by (unfold w_log; by rewrite Hx).
  split; [split|split_and!].
  - rewrite El. by eapply rows_step_ok.
  - intros r' (r & Hin & Hs & _)%(rows_step_back _ _ _ _ Hr). unfold remembered. rewrite Hx, El.
    intros Hlive. eapply sent_same; [exact Hs|]. apply Hc; [done|]. unfold remembered.
    destruct Hs as (_ & Eid & _). by rewrite <-Eid.
  - exists []. by rewrite app_nil_r.
  - intros r Hin. rewrite El. by eapply rows_step_forth.
  - intros r' (r & Hin & Hs & _)%(rows_step_back _ _ _ _ Hr). by exists r.
Qed.

Lemma broker_step s s' l :
  w_rows s' = w_rows s → (d_ext s').2 = (d_ext s).2 → w_log s' = w_log s ++ l → relay_ok s →
  relay_ok s' ∧ evolves s s'.
Proof.
  intros Er Ex El [(Hi & He & Hf) Hc]. split; [split|split_and!].
  - rewrite Er. split_and!; [done|done|]. eapply Forall_impl; [exact Hf|]. intros r [Hret Hs].
    split; [done|]. intros Hp. apply (log_mono s); [by exists l|auto].
  - intros r. unfold remembered. rewrite Er, Ex. intros Hin Hl. apply (log_mono s); [by exists l|].
    by apply Hc.
  - by exists l.
  - intros r Hr. right. exists r. by rewrite Er.
  - intros r Hr. exists r. by rewrite Er in Hr.
Qed.

Lemma cache_step s s' key :
  w_rows s' = w_rows s → w_log s' = w_log s →
  (r_str (d_ext s').2 = r_str (d_ext s).2 ∨
   (∃ v, r_str (d_ext s').2 = <[key := v]> (r_str (d_ext s).2)) ∧
   ∀ r, r ∈ w_rows s → dedup_key (oe_event_id r) = key → sent (w_log s) r) → relay_ok s →
  relay_ok s' ∧ evolves s s'.
Proof.
  intros Er El Hm [Hok Hc]. split; [split|split_and!].
  - by rewrite Er, El.
  - intros r. unfold remembered. rewrite Er, El. intros Hin Hl. destruct Hm as [Hm|[[v Hm] Hkey]]; rewrite Hm in Hl.
    + by apply Hc.
    + destruct (decide (dedup_key (oe_event_id r) = key)) as [E|E]; [by apply Hkey|].
      rewrite lookup_insert_ne in Hl by done. by apply Hc.
  - exists []. by rewrite app_nil_r.
  - intros r Hr. right. exists r. by rewrite Er.
  - intros r Hr. exists r. by rewrite Er in Hr.
Qed.

(** *** Programs that keep the invariant, under a stable condition *)

Definition stable (P : world → Prop) : Prop := ∀ s s', evolves s s' → P s → P s'.
Definition good {E A} (P : world → Prop) (m : M world E A) : Prop :=
  ∀ s o s', relay_ok s → P s → m s = (o, s') → relay_ok s' ∧ evolves s s'.

Lemma good_ret {E A} P (a : A) : good P (mret (M := M world E) a).
Proof. intros s o s' Hok _ [= _ <-]. done. Qed.
Lemma good_lift {E A} P (x : outcome E A) : good P (lift x).
Proof. intros s o s' Hok _ [= _ <-]. done. Qed.

Lemma good_bind {E A B} P (m : M world E A) (k : A → M world E B) :
  stable P → good P m → (∀ a, good P (k a)) → good P (m ≫= k).
Proof.
  intros HP Hm Hk s o s' Hok Hs [(a & s1 & Hrun & Hr)|[_ (o1 & Hrun & _)]]%bind_inv; [|by eapply Hm].
  destruct (Hm _ _ _ Hok Hs Hrun) as [Hok1 He1].
  destruct (Hk a _ _ _ Hok1 (HP _ _ He1 Hs) Hr) as [Hok2 He2]. split; [done|]. by etrans.
Qed.

Lemma good_catch {E E' A B} P (m : M world E' A) (k : A → M world E B) h :
  stable P → good P m → (∀ a, good P (k a)) → (∀ e, good P (h e)) → good P (catch m k h).
Proof.
  intros HP Hm Hk Hh s o s' Hok Hs Hr. unfold catch in Hr. destruct (m s) as [o1 s1] eqn:Hrun.
  destruct (Hm _ _ _ Hok Hs Hrun) as [Hok1 He1].
  destruct o1 as [a|e|]; [|..].
  - destruct (Hk a _ _ _ Hok1 (HP _ _ He1 Hs) Hr) as [Hok2 He2]. split; [done|]. by etrans.
  - destruct (Hh e _ _ _ Hok1 (HP _ _ He1 Hs) Hr) as [Hok2 He2]. split; [done|]. by etrans.
  - by injection Hr as _ <-.
Qed.

Lemma good_weaken {E A} (P Q : world → Prop) (m : M world E A) :
  (∀ s, P s → Q s) → good Q m → good P m.
Proof. intros HPQ Hm s o s' Hok Hs. apply Hm; auto. Qed.

(** A statement on the pool: its effect has happened or not. *)
Lemma good_statement {A} P (f : Z → Uuid → T → outcome sql_error (A * T)) (g : sql_error → AppError) :
  (∀ s now id a t', P s → relay_ok s → f now id (d_committed s) = Ok (a, t') →
     rows_step (w_log s) (w_rows s) (outbox_events t')) →
  good P (on_pool (map_err g (exec f))).
Proof.
  intros Hf s o s' Hok Hs Hr. apply db_step; [| |done].
  - unfold on_pool in Hr. destruct (map_err _ _ _) as [o1 c]. by injection Hr as _ <-.
  - assert (d_committed s' = d_committed s ∨
      ∃ now id a, f now id (d_committed s) = Ok (a, d_committed s')) as [E|(now & id & a & E)].
    { unfold on_pool, map_err, exec, pop_fault in Hr. simpl in Hr.
      destruct (e_faults (d_env s)) as [|[] fs]; simpl in Hr;
        try destruct (f _ _ _) as [[a t]|e|] eqn:Ef; injection Hr as _ <-; simpl;
        first [by left|right; eauto]. }
    + unfold w_rows. rewrite E. apply rows_step_refl.
    + by eapply Hf.
Qed.

(** *** The relay's operations *)

(** The event [e] is the row with its identifiers, if there is one. *)
Definition known (e : OutboxEvent) s : Prop :=
  ∀ r, r ∈ w_rows s → oe_id r = oe_id e ∨ oe_event_id r = oe_event_id e → same_event e r.
(** The broker has taken the row with the identifier of [e], if there is one. *)
Definition settled (e : OutboxEvent) s : Prop :=
  ∀ r, r ∈ w_rows s → oe_id r = oe_id e → sent (w_log s) r.

Lemma known_stable e : stable (known e).
Proof.
  intros s s' (_ & _ & Hb) Hk r' Hr' Hid. destruct (Hb r' Hr') as (r & Hr & Hs).
  etrans; [|exact Hs]. apply Hk; [done|]. destruct Hs as (<- & <- & _). done.
Qed.
Lemma settled_stable e : stable (settled e).
Proof.
  intros s s' (Hl & _ & Hb) Hk r' Hr' Hid. destruct (Hb r' Hr') as (r & Hr & Hs).
  eapply sent_same; [exact Hs|]. eapply log_mono; [exact Hl|]. apply Hk; [done|].
  destruct Hs as (<- & _). done.
Qed.

Lemma known_sent_settled e s : known e s → sent (w_log s) e → settled e s.
Proof. intros Hk Hs r Hr Hid. eapply sent_same; [|exact Hs]. apply Hk; auto. Qed.

Lemma has_id_iff id r : has_id id r = true ↔ oe_id r = id.
Proof. apply bool_decide_eq_true. Qed.

Lemma good_record cfg e :
  good (settled e) (record_published (K := K) cfg e).
Proof.
  unfold record_published. destruct (delete_on_publish cfg); apply good_statement.
  - intros s now id a t' Hs _ [= _ <-]. rewrite outbox_set. apply filter_rows_step.
    intros r Hr Hid%negb_false_iff%has_id_iff. by apply Hs.
  - intros s now id a t' Hs _ Hu. unfold update_row in Hu.
    apply obind_ok in Hu as ([n rows] & Hu & E). simplify_eq. rewrite outbox_set.
    eapply checked_rows_step; [|exact Hu]. intros r r' Hr Hid%has_id_iff Hp.
    eapply published_row_step; [exact Hp|]. by apply Hs.
Qed.

Lemma good_retry P id error :
  good P (on_pool (mark_retry_or_failed (T := T) id error) : run unit).
Proof.
  apply good_statement. intros s now i a t' _ _ Hu. unfold update_row in Hu.
  apply obind_ok in Hu as ([n rows] & Hu & E). simplify_eq. rewrite outbox_set.
  eapply checked_rows_step; [|exact Hu]. intros r r' _ _. apply retried_row_step.
Qed.

Lemma good_claim P n inst :
  good P (on_pool (claim_batch (T := T) n inst) : run (list OutboxEvent)).
Proof.
  apply good_statement. intros s now i a t' _ _ [= _ <-]. rewrite outbox_set.
  apply update_rows_step. intros r _ _. apply with_lock_step.
Qed.

Lemma good_release P secs : good P (on_pool (release_stale_locks (T := T) secs) : run nat).
Proof.
  apply good_statement. intros s now i a t' _ _ [= _ <-]. rewrite outbox_set.
  apply update_rows_step. intros r _ _. apply with_lock_step.
Qed.

Lemma good_cleanup P secs : good P (on_pool (cleanup_published (T := T) secs) : run nat).
Proof.
  apply good_statement. intros s now i a t' _ [(_ & _ & Hf) _] Hu.
  destruct (delete_upto _ _ _) as [rows k] eqn:Ed. simplify_eq. rewrite outbox_set.
  eapply delete_rows_step; [|exact Ed]. intros r Hr Hp.
  rewrite Forall_forall in Hf. apply (Hf r Hr). unfold is_expired in Hp.
  apply andb_true_iff in Hp as [Hp _]. by apply bool_decide_eq_true in Hp.
Qed.

Lemma good_logged P (m : run unit) : stable P → good P m → good P (logged m).
Proof. intros HP Hm. apply good_catch; [done|done|intros ?; apply good_ret|intros ?; apply good_ret]. Qed.

Lemma good_broker {A} P (m : M K AppError A) :
  (∀ k o k', m k = (o, k') → ∃ l, broker_log k' = broker_log k ++ l) →
  good P (on_broker m : run A).
Proof.
  intros Hm s o s' Hok _ Hr. unfold on_broker, zoom in Hr. destruct (m _) as [o1 k] eqn:Em.
  injection Hr as _ <-. apply Hm in Em as [l El]. by eapply broker_step.
Qed.

Lemma good_escalate P e : stable P → good P (escalate_failure (T := T) on_permanent_failure e).
Proof.
  intros HP. apply good_logged; [done|]. apply good_broker. intros k o k' [E _]%escalation_law.
  exists []. by rewrite app_nil_r.
Qed.

Lemma dedup_key_inj a b : dedup_key a = dedup_key b → a = b.
Proof.
  unfold dedup_key. intros E%(inj (String.append KEY_PREFIX)). apply (f_equal uuid_parse) in E.
  rewrite !uuid_parse_to_string in E. by injection E.
Qed.

(** Rules that carry a fact about the result to the rest of the program. *)
Lemma good_bind_post {E A B} P (Q : A → world → Prop) (m : M world E A) (k : A → M world E B) :
  good P m → (∀ s a s', relay_ok s → P s → m s = (Ok a, s') → Q a s') → (∀ a, good (Q a) (k a)) →
  good P (m ≫= k).
Proof.
  intros Hm HQ Hk s o s' Hok Hs [(a & s1 & Hrun & Hr)|[_ (o1 & Hrun & _)]]%bind_inv; [|by eapply Hm].
  destruct (Hm _ _ _ Hok Hs Hrun) as [Hok1 He1].
  destruct (Hk a _ _ _ Hok1 (HQ _ _ _ Hok Hs Hrun) Hr) as [Hok2 He2]. split; [done|]. by etrans.
Qed.

Lemma good_catch_post {E E' A B} P (Q : A → world → Prop) (m : M world E' A)
    (k : A → M world E B) h :
  stable P → good P m → (∀ s a s', relay_ok s → P s → m s = (Ok a, s') → Q a s') →
  (∀ a, good (Q a) (k a)) → (∀ e, good P (h e)) → good P (catch m k h).
Proof.
  intros HP Hm HQ Hk Hh s o s' Hok Hs Hr. unfold catch in Hr. destruct (m s) as [o1 s1] eqn:Hrun.
  destruct (Hm _ _ _ Hok Hs Hrun) as [Hok1 He1]. destruct o1 as [a|e|].
  - destruct (Hk a _ _ _ Hok1 (HQ _ _ _ Hok Hs Hrun) Hr). split; [done|]. by etrans.
  - destruct (Hh e _ _ _ Hok1 (HP _ _ He1 Hs) Hr). split; [done|]. by etrans.
  - by injection Hr as _ <-.
Qed.

Lemma good_for_each {A} P (l : list A) (f : A → run unit) :
  stable P → (∀ x, x ∈ l → good P (f x)) → good P (for_each l f).
Proof.
  intros HP. induction l as [|x l IH]; intros Hf; simpl; [apply good_ret|].
  apply good_bind; [done|apply Hf; by left|]. intros _. apply IH. intros y Hy. apply Hf. by right.
Qed.

(** *** The cache *)

Lemma on_cache_inv {A} (m : M redis string A) s o s' :
  on_cache m s = (o, s') → ∃ r', m (d_ext s).2 = (o, r') ∧
    s' = MkDb (d_committed s) (d_env s) ((d_ext s).1, r').
Proof. unfold on_cache, zoom. destruct (m _) as [o1 r'] eqn:Em. intros [= <- <-]. eauto. Qed.

Lemma is_published_inv id s o s' :
  is_published id s = (o, s') → ∃ b, o = Ok b ∧ w_rows s' = w_rows s ∧ w_log s' = w_log s ∧
    d_env s' = d_env s ∧ r_str (d_ext s').2 = r_str (d_ext s).2 ∧
    (b = true → r_str (d_ext s).2 !! dedup_key id ≠ None).
Proof.
  unfold is_published, catch. intros Hr. destruct (on_cache _ _) as [o1 s1] eqn:Hc.
  apply on_cache_inv in Hc as (r' & Hm & ->). apply exists_law in Hm as (Hs & _ & Hans).
  destruct o1 as [b|e|]; [| |done]; injection Hr as <- <-; eauto 10.
Qed.

Lemma dedup_mark_inv id s o s' :
  dedup_mark_published id s = (o, s') → o = Ok tt ∧ w_rows s' = w_rows s ∧ w_log s' = w_log s ∧
    d_env s' = d_env s ∧ (r_str (d_ext s').2 = r_str (d_ext s).2 ∨
    ∃ v, r_str (d_ext s').2 = <[dedup_key id := v]> (r_str (d_ext s).2)).
Proof.
  unfold dedup_mark_published, catch. intros Hr. destruct (on_cache _ _) as [o1 s1] eqn:Hc.
  apply on_cache_inv in Hc as (r' & Hm & ->). apply set_ex_law in Hm.
  destruct o1 as [b|e|]; [| |done]; injection Hr as <- <-; simpl in *; naive_solver.
Qed.

Definition dedup_hit (e : OutboxEvent) : run bool :=
  if with_redis then is_published (oe_event_id e) else mret false.
Definition dedup_record (e : OutboxEvent) : run unit :=
  if with_redis then dedup_mark_published (oe_event_id e) else mret tt.

Lemma good_hit P e : good P (dedup_hit e).
Proof.
  unfold dedup_hit. destruct with_redis; [|apply good_ret].
  intros s o s' Hok _ (b & _ & Er & El & _ & Ex & _)%is_published_inv.
  apply (cache_step s s' ""); auto.
Qed.

(** A hit is the word of the broker. *)
Lemma hit_settled e s b s' :
  relay_ok s → known e s → dedup_hit e s = (Ok b, s') →
  known e s' ∧ (b = true → settled e s').
Proof.
  intros Hok Hk Hr. destruct (good_hit (known e) e _ _ _ Hok Hk Hr) as [_ Hev].
  assert (known e s') as Hk' by (by eapply known_stable). split; [done|].
  unfold dedup_hit in Hr. destruct with_redis; [|by injection Hr as <- _].
  apply is_published_inv in Hr as (b' & [= ->] & Er & El & _ & _ & Hb). intros ->.
  intros r Hin Hid. rewrite El. rewrite Er in Hin. apply Hok; [done|]. unfold remembered.
  destruct (Hk r Hin (or_introl Hid)) as (_ & -> & _). by apply Hb.
Qed.

Lemma good_dedup_record e : good (λ s, known e s ∧ sent (w_log s) e) (dedup_record e).
Proof.
  unfold dedup_record. destruct with_redis; [|apply good_ret].
  intros s o s' Hok [Hk Hs] (_ & Er & El & _ & Hx)%dedup_mark_inv.
  apply (cache_step s s' (dedup_key (oe_event_id e))); [done|done| |done].
  destruct Hx as [?|?]; [by left|right]. split; [done|]. intros r Hr Hid%dedup_key_inj.
  eapply sent_same; [|exact Hs]. apply Hk; auto.
Qed.

(** *** Publishing *)

Abbreviation publish_event e :=
  (publish_payload (T := T) publish serde_error (oe_topic e) (oe_payload e)).

Lemma good_publish P topic payload :
  good P (publish_payload (T := T) publish serde_error topic payload).
Proof.
  unfold publish_payload. intros s o s' Hok Hs Hr.
  apply bind_inv in Hr as [(a & s1 & [_ <-]%lift_ok & Hr)|[_ (o1 & [= _ <-] & _)]]; [|done].
  eapply (good_broker P); [|exact Hok|exact Hs|exact Hr]. intros k o1 k' Hp%publish_law.
  destruct o1; [eauto| |done]. destruct Hp as [->| ->]; [|eauto]. exists []. by rewrite app_nil_r.
Qed.

Lemma publish_sent e s u s' : publish_event e s = (Ok u, s') → sent (w_log s') e.
Proof.
  unfold publish_payload. intros Hr.
  apply bind_ok in Hr as (a & s1 & [Ha <-]%lift_ok & Hr). apply ok_or_ok in Ha.
  unfold on_broker, zoom in Hr. destruct (publish _ _ _) as [o1 k] eqn:Ep. injection Hr as -> <-.
  apply publish_law in Ep. exists a. split; [done|]. unfold w_log. simpl. rewrite Ep.
  apply elem_of_app. right. by left.
Qed.

(** *** One event, a batch, the loops *)

Lemma known_sent_stable e : stable (λ s, known e s ∧ sent (w_log s) e).
Proof.
  intros s s' Hev [Hk Hs]. split; [by eapply known_stable|]. eapply log_mono; [|exact Hs]. apply Hev.
Qed.

Lemma good_process_event cfg e :
  good (known e) (process_event publish on_permanent_failure serde_error with_redis cfg e).
Proof.
  unfold process_event. fold (dedup_hit e) (dedup_record e).
  apply (good_bind_post _ (λ b s, known e s ∧ (b = true → settled e s)));
    [apply good_hit|intros ? ? ? ? ?; by apply hit_settled|].
  intros [].
  { apply good_logged; [|eapply good_weaken, good_record; naive_solver].
    intros s s' Hev [Hk Hs]. split; [by eapply known_stable|]. intros _.
    eapply settled_stable; [done|auto]. }
  apply (good_weaken _ (known e)); [by intros s [? _]|].
  apply (good_catch_post _ (λ _ s, known e s ∧ sent (w_log s) e)).
  - apply known_stable.
  - apply good_publish.
  - intros s a s' Hok Hk Hr. split; [|by eapply publish_sent].
    eapply known_stable; [|exact Hk]. eapply (good_publish (known e)); [exact Hok|exact Hk|exact Hr].
  - intros _. apply good_bind; [apply known_sent_stable|apply good_dedup_record|].
    intros _. apply good_logged; [apply known_sent_stable|].
    eapply good_weaken, good_record. intros s [Hk Hs]. by apply known_sent_settled.
  - intros err. apply good_catch; [apply known_stable|apply good_retry| |intros _; apply good_ret].
    intros _. case_match; [|apply good_ret]. apply good_escalate, known_stable.
Qed.

(** A claimed event is known. *)
Lemma claim_known n inst s es s' :
  relay_ok s → on_pool (claim_batch n inst) s = (Ok es, s') → Forall (λ e, known e s') es.
Proof.
  intros [(Hi & He & _) _] (c' & Hr & Ec & _)%on_pool_ok. unfold claim_batch in Hr.
  apply map_err_ok, exec_ok in Hr as (_ & _ & _ & i & [= <- Et]). simpl in *.
  apply Forall_forall. intros e (r0 & -> & Hr0)%list_elem_of_fmap r Hr Hid.
  assert (r0 ∈ w_rows s) as Hin by (eapply elem_of_submseteq; [exact Hr0|apply locked_sub]).
  unfold w_rows in Hr. rewrite Ec, <-Et, outbox_set in Hr.
  apply elem_of_update_where in Hr as (r1 & Hr1 & ->).
  assert (r1 = r0) as ->; [|by destruct (bool_decide _)].
  destruct Hid as [Hid|Hid].
  - eapply NoDup_fmap_inj_in; [exact Hi|done|done|]. by destruct (bool_decide _).
  - eapply NoDup_fmap_inj_in; [exact He|done|done|]. by destruct (bool_decide _).
Qed.

Lemma all_known_stable es : stable (λ s, Forall (λ e, known e s) es).
Proof.
  intros s s' Hev Hf. eapply Forall_impl; [exact Hf|]. intros e. by apply known_stable.
Qed.
Lemma true_stable : stable (λ _, True).
Proof. done. Qed.

Lemma good_process_batch cfg :
  good (λ _, True) (process_batch publish on_permanent_failure serde_error with_redis cfg).
Proof.
  unfold process_batch. apply (good_bind_post _ (λ es s, Forall (λ e, known e s) es)).
  - apply good_claim.
  - intros s es s' Hok _ Hr. by eapply claim_known.
  - intros es. assert (good (λ s, Forall (λ e, known e s) es)
      (_ ← for_each es (process_event publish on_permanent_failure serde_error with_redis cfg);
       mret (length es))) as Hes; [|by destruct es; [apply good_ret|]].
    apply good_bind; [apply all_known_stable| |intros _; apply good_ret].
    apply good_for_each; [apply all_known_stable|]. intros e He.
    eapply good_weaken; [|apply good_process_event]. intros s. rewrite Forall_forall. auto.
Qed.

Lemma good_drain cfg cancelled i fuel :
  good (λ _, True) (drain publish on_permanent_failure serde_error with_redis cfg cancelled i fuel).
Proof.
  revert i. induction fuel as [|fuel IH]; intros i; simpl; [apply good_ret|].
  destruct (cancelled i); [apply good_ret|].
  apply good_catch; [apply true_stable|apply good_process_batch| |intros _; apply good_ret].
  intros [|n]; [apply good_ret|apply IH].
Qed.

Lemma good_stale_tick cfg : good (λ _, True) (stale_lock_tick cfg : run unit).
Proof.
  apply good_logged; [apply true_stable|].
  apply good_bind; [apply true_stable|apply good_release|intros _; apply good_ret].
Qed.

Lemma good_cleanup_tick cfg cancelled i fuel :
  good (λ _, True) (cleanup_tick cfg cancelled i fuel : run unit).
Proof.
  revert i. induction fuel as [|fuel IH]; intros i; simpl; [apply good_ret|].
  destruct (cancelled i); [apply good_ret|].
  apply good_catch; [apply true_stable|apply good_cleanup| |intros _; apply good_ret].
  intros [|n]; [apply good_ret|apply IH].
Qed.
End world.
