(* ===== verification/RelayTheorems.v ===== *)
(** * The outbox relay: theorems

    Several relays, the services that insert events and the maintenance loops, interleaved
    event by event: no event is lost, a claim is exclusive, and in a calm world a batch is
    published. *)

From S2P Require Import Prelude RustStr Externals Errors Events Db Outbox Redis Relay RelayProps.

Local Open Scope Z_scope.

Section runs.
Context `{Externals, !ScanOrder OutboxEvent, RedisCacheLaws} {T K : Type} `{!OutboxTables T}.
Context (publish : string → EventEnvelope → M K AppError unit)
  (on_permanent_failure : OutboxEvent → M K AppError unit)
  `{!BrokerLaws publish on_permanent_failure}
  (serde_error : Value → string) (with_redis : bool).
Abbreviation world := (db T (K * redis)).
Implicit Types s : world.
Abbreviation process cfg := (process_event publish on_permanent_failure serde_error with_redis cfg).
Abbreviation ok := (relay_ok publish on_permanent_failure).
Abbreviation log := (w_log publish on_permanent_failure).

(** The world, and the events the relays have claimed and still hold in memory. *)
Inductive relay_step : world * list OutboxEvent → world * list OutboxEvent → Prop :=
| claim_step cfg es s s' fl :
    on_pool (claim_batch (batch_size cfg) (instance_id cfg)) s = (Ok es, s') →
    relay_step (s, fl) (s', fl ++ es)
| lost_claim_step cfg err s s' fl :
    on_pool (claim_batch (T := T) (batch_size cfg) (instance_id cfg)) s = (Err err, s') →
    relay_step (s, fl) (s', fl)
| event_step cfg e o s s' fl fl' :
    process cfg e s = (o, s') → relay_step (s, fl ++ e :: fl') (s', fl ++ fl')
| crash_step s fl fl' : fl' `sublist_of` fl → relay_step (s, fl) (s, fl')
| loop_step cfg cancelled o s s' fl :
    process_pending publish on_permanent_failure serde_error with_redis cfg cancelled s = (o, s') →
    relay_step (s, fl) (s', fl)
| stale_step cfg o s s' fl : stale_lock_tick cfg s = (o, s') → relay_step (s, fl) (s', fl)
| cleanup_step cfg cancelled fuel o s s' fl :
    cleanup_tick cfg cancelled 0 fuel s = (o, s') → relay_step (s, fl) (s', fl)
| clock_step s now fl : relay_step (s, fl) (at_time now s, fl)
| insert_step i now id r t s fl :
    insert_outbox_row i now id (d_committed s) = Ok (r, t) →
    Forall (λ e, oe_id e ≠ id ∧ oe_event_id e ≠ oi_event_id i) fl →
    r_str (d_ext s).2 !! dedup_key (oi_event_id i) = None →
    relay_step (s, fl) (MkDb t (d_env s) (d_ext s), fl).

Definition fleet_ok (c : world * list OutboxEvent) : Prop :=
  ok c.1 ∧ Forall (λ e, known e c.1) c.2.
(** Every event is still in the table, or the broker has taken it. *)
Definition no_loss s s' : Prop :=
  (∃ l, log s' = log s ++ l) ∧
  ∀ r, r ∈ w_rows s → sent (log s') r ∨ ∃ r', r' ∈ w_rows s' ∧ same_event r r'.

#[export] Instance no_loss_preorder : PreOrder no_loss.
Proof.
  split.
  - intros s. split; [exists []; by rewrite app_nil_r|]. intros r Hr. right. by exists r.
  - intros s1 s2 s3 ([l1 E1] & F1) ([l2 E2] & F2). split.
    + exists (l1 ++ l2). by rewrite E2, E1, app_assoc.
    + intros r Hr. destruct (F1 r Hr) as [Hs|(r2 & Hr2 & Hs2)].
      * left. eapply log_mono; [by exists l2|done].
      * destruct (F2 r2 Hr2) as [Hs|(r3 & Hr3 & Hs3)].
        -- left. eapply sent_same; [symmetry; exact Hs2|done].
        -- right. exists r3. split; [done|]. by etrans.
Qed.

Lemma fleet_evolves s s' fl fl' :
  fleet_ok (s, fl) → fl' `sublist_of` fl → ok s' →
  evolves publish on_permanent_failure s s' → fleet_ok (s', fl') ∧ no_loss s s'.
Proof.
  intros [Hok Hfl] Hsub Hok' Hev. split; [split; [done|]|split; apply Hev].
  rewrite Forall_forall in Hfl. apply Forall_forall. intros e He. simpl.
  eapply known_stable; [exact Hev|]. apply Hfl. by eapply sublist_subseteq.
Qed.

Lemma insert_fleet i now id r t s fl :
  insert_outbox_row i now id (d_committed s) = Ok (r, t) →
  Forall (λ e, oe_id e ≠ id ∧ oe_event_id e ≠ oi_event_id i) fl →
  r_str (d_ext s).2 !! dedup_key (oi_event_id i) = None →
  fleet_ok (s, fl) → fleet_ok (MkDb t (d_env s) (d_ext s), fl) ∧ no_loss s (MkDb t (d_env s) (d_ext s)).
Proof.
  unfold insert_outbox_row. intros Hi Hfl Hcache [[(Hid & He & Hf) Hc] Hk].
  destruct (existsb _ _) eqn:E1 in Hi; [done|]. destruct (existsb _ _) eqn:E2 in Hi; [done|].
  injection Hi as <- Et. set (s' := MkDb t _ _).
  assert (w_rows s' = w_rows s ++ [new_outbox_row now id i]) as Er.
  { unfold w_rows, s'. simpl. by rewrite <-Et, outbox_set. }
  split; [split; [split; [split_and!|]|]|split]; simpl.
  - rewrite Er. apply NoDup_fmap_snoc; [done|]. eapply existsb_false_fmap; [|exact E1].
    intros x. apply bool_decide_eq_true.
  - rewrite Er. apply NoDup_fmap_snoc; [done|]. eapply existsb_false_fmap; [|exact E2].
    intros x. apply bool_decide_eq_true.
  - rewrite Er. apply Forall_app. split; [exact Hf|].
    apply Forall_singleton. split; [|done]. unfold retries_ok. simpl. lia.
  - rewrite Er. intros x [Hx|Hx%list_elem_of_singleton]%elem_of_app Hl; [by apply Hc|]. by subst.
  - simpl in Hk. rewrite Forall_forall in Hk, Hfl. apply Forall_forall. intros e Hin x. rewrite Er.
    intros [Hx|Hx%list_elem_of_singleton]%elem_of_app Hx'; [by apply (Hk e Hin)|]. subst x.
    destruct (Hfl e Hin) as [Hn1 Hn2]. simpl in Hx'. naive_solver.
  - exists []. by rewrite app_nil_r.
  - intros x Hx. right. exists x. split; [|done]. rewrite Er. apply elem_of_app. by left.
Qed.

Lemma fleet_step c c' : relay_step c c' → fleet_ok c → fleet_ok c' ∧ no_loss c.1 c'.1.
Proof.
  intros Hstep Hok. destruct Hstep as [cfg es s s' fl Hr|cfg err s s' fl Hr|cfg e o s s' fl fl' Hr|
    s fl fl' Hsub|cfg cancelled o s s' fl Hr|cfg o s s' fl Hr|cfg cancelled fuel o s s' fl Hr|
    s now fl|i now id r t s fl Hi Hfl Hcache]; simpl in *.
  - destruct (good_claim _ _ (λ _, True) _ _ _ _ _ (proj1 Hok) I Hr) as [Hok' Hev].
    destruct (fleet_evolves s s' fl fl Hok) as [[_ Hk] Hl]; [done..|]. split; [split|]; [done| |done].
    apply Forall_app. split; [done|]. eapply claim_known; [exact (proj1 Hok)|exact Hr].
  - destruct (good_claim _ _ (λ _, True) _ _ _ _ _ (proj1 Hok) I Hr). by eapply fleet_evolves.
  - assert (known e s) as Hk.
    { destruct Hok as [_ Hk]. simpl in Hk. rewrite Forall_forall in Hk. apply Hk.
      apply elem_of_app. right. by left. }
    destruct (good_process_event _ _ _ _ _ _ _ _ _ (proj1 Hok) Hk Hr).
    eapply fleet_evolves; [exact Hok| |done|done].
    apply sublist_app; [done|]. by apply sublist_cons.
  - eapply fleet_evolves; [exact Hok|done|apply Hok|reflexivity].
  - destruct (good_drain _ _ _ _ _ _ _ _ _ _ _ (proj1 Hok) I Hr). by eapply fleet_evolves.
  - destruct (good_stale_tick _ _ _ _ _ _ (proj1 Hok) I Hr). by eapply fleet_evolves.
  - destruct (good_cleanup_tick _ _ _ _ _ _ _ _ _ (proj1 Hok) I Hr). by eapply fleet_evolves.
  - split; [exact Hok|]. split; [exists []; by rewrite app_nil_r|]. intros r Hr. right. by exists r.
  - by eapply insert_fleet.
Qed.

(** C23: No event is lost. Several relays, their crashes, the services that insert events, the
    stale-lock and the cleanup loops are interleaved in any order, every statement, publication
    and cache command may fail or lose its answer, and still: an event that was in the outbox
    is still there, or the broker has taken it. It is marked as published, deleted, or found in
    the deduplication cache, only after the broker has taken it; and it is pending as long as
    it has attempts left, and failed only when they are used up. *)
Theorem relay_no_loss s fl s' fl' :
  rtc relay_step (s, fl) (s', fl') → ok s → Forall (λ e, known e s) fl →
  no_loss s s' ∧
  (∀ r, r ∈ w_rows s' → retries_ok r ∧
     (oe_status r = Published ∨ remembered s' r → sent (log s') r)).
Proof.
  intros Hrun Hok Hfl. assert (∀ c c', rtc relay_step c c' → fleet_ok c → fleet_ok c' ∧ no_loss c.1 c'.1)
    as Hall.
  { induction 1 as [c|c1 c2 c3 Hs _ IH]; intros Hc; [split; [done|reflexivity]|].
    apply fleet_step in Hs as [Hc2 Hl]; [|done]. destruct (IH Hc2) as [? ?].
    split; [done|]. by etrans. }
  destruct (Hall _ _ Hrun (conj Hok Hfl)) as [[[(_ & _ & Hf) Hc] _] Hl]. split; [done|].
  intros r Hr. rewrite Forall_forall in Hf. destruct (Hf r Hr) as [Hret Hp].
  split; [done|]. intros [?|?]; [by apply Hp|by apply Hc].
Qed.

(** The loops of a relay, however they are woken, only take these steps, and nothing after the
    shutdown. *)
Lemma loop_steps {S} (f : S → world) fl (body : nat → M S AppError unit) i listener ws x o x' :
  (∀ i x o x', body i x = (o, x') → rtc relay_step (f x, fl) (f x', fl)) →
  wake_loop body i listener ws x = (o, x') → rtc relay_step (f x, fl) (f x', fl).
Proof.
  intros Hb. revert x o x'. set (R x x' := rtc relay_step (f x, fl) (f x', fl)).
  assert (PreOrder R) by (split; [intros x; apply rtc_refl|intros x y z; unfold R; apply transitivity]).
  exact (keeps_wake_loop R body i listener ws Hb).
Qed.
Theorem relay_loops_are_steps cfg fl s :
  (∀ cancelled listener ws b o s' b',
     relay_loop publish on_permanent_failure serde_error with_redis cfg cancelled listener ws (s, b) = (o, (s', b')) →
     rtc relay_step (s, fl) (s', fl)) ∧
  (∀ ws o s', stale_lock_loop cfg ws s = (o, s') → rtc relay_step (s, fl) (s', fl)) ∧
  (∀ cancelled fuel ws o s', cleanup_loop cfg cancelled fuel ws s = (o, s') → rtc relay_step (s, fl) (s', fl)).
Proof.
  split_and!.
  - intros cancelled listener ws b o s' b' Hr. apply (loop_steps fst fl) in Hr; [exact Hr|].
    intros i [x t] o1 [x' t']. unfold mbind, M_bind, modify, zoom. simpl.
    destruct (process_pending _ _ _ _ _ _ x) as [o2 x2] eqn:Ep. intros [= <- <- _]. by eapply rtc_once, loop_step.
  - intros ws o s' Hr. apply (loop_steps id fl) in Hr; [exact Hr|].
    intros i x o1 x' Ht. by eapply rtc_once, stale_step.
  - intros cancelled fuel ws o s' Hr. apply (loop_steps id fl) in Hr; [exact Hr|].
    intros i x o1 x' Ht. by eapply rtc_once, cleanup_step.
Qed.
End runs.

(** ** Claims *)

Section claims.
Context `{Externals, !ScanOrder OutboxEvent, RedisApi} {T K : Type} `{!OutboxTables T}.
Implicit Types s : db T (K * redis).

(** A successful claim: which rows it takes, and what it does to the table. *)
Definition claimed (now : Z) (n : nat) (inst : string) (rows es rows' : list OutboxEvent) : Prop :=
  (length es ≤ n)%nat ∧ NoDup (oe_aggregate_id <$> es) ∧
  (∀ e, e ∈ es → e ∈ rows' ∧ ∃ r, r ∈ rows ∧ e = with_lock (Some inst) (Some now) r ∧
     oe_status r = Pending ∧ oe_next_retry_at r ≤ now ∧ oe_locked_by r = None ∧
     ∀ r', r' ∈ rows → oe_status r' = Pending → oe_next_retry_at r' ≤ now →
       oe_aggregate_id r' = oe_aggregate_id r → oe_created_at r ≤ oe_created_at r') ∧
  (∀ r, r ∈ rows → oe_id r ∉ (oe_id <$> es) → r ∈ rows') ∧
  oe_id <$> rows' = oe_id <$> rows.

Lemma is_due_iff now r : is_due now r = true ↔ oe_status r = Pending ∧ oe_next_retry_at r ≤ now.
Proof. unfold is_due. rewrite andb_true_iff, bool_decide_eq_true, Z.leb_le. done. Qed.

Lemma with_lock_ids by_ at_ (rows : list OutboxEvent) : oe_id <$> (with_lock by_ at_ <$> rows) = oe_id <$> rows.
Proof. by rewrite <-list_fmap_compose. Qed.

Lemma claim_stmt_claimed now n inst id t es t' :
  NoDup (oe_id <$> outbox_events t) → claim_stmt n inst now id t = Ok (es, t') →
  claimed now n inst (outbox_events t) es (outbox_events t').
Proof.
  intros Hid [= <- <-]. rewrite outbox_set. set (rows := outbox_events t) in *.
  set (taken := locked_rows now n rows).
  assert (∀ r, r ∈ taken → r ∈ rows) as Hsub.
  { intros r Hr. eapply elem_of_submseteq; [exact Hr|apply locked_sub]. }
  unfold claimed. rewrite with_lock_ids. split_and!.
  - rewrite length_fmap. apply firstn_le_length.
  - rewrite <-list_fmap_compose. change (NoDup (oe_aggregate_id <$> taken)).
    eapply submseteq_NoDup; [|apply fmap_submseteq, locked_sub_oldest]. apply keep_first_NoDup.
  - intros e (r & -> & Hr)%list_elem_of_fmap. split.
    { apply elem_of_update_where. exists r. split; [by apply Hsub|].
      rewrite bool_decide_true; [done|]. apply list_elem_of_fmap. by exists r. }
    exists r. pose proof Hr as Hold. eapply elem_of_submseteq in Hold; [|apply locked_sub_oldest].
    apply oldest_spec in Hold as (Hin & [Hst Hnow]%is_due_iff & Hmin).
    unfold taken, locked_rows in Hr. apply elem_of_take in Hr as (i & Hr & _).
    apply list_elem_of_lookup_2, list_elem_of_In, filter_In in Hr as [_ Hu].
    apply bool_decide_eq_true in Hu. split_and!; try done. intros r' Hr' Hst' Hnow'.
    apply Hmin; [done|]. by apply is_due_iff.
  - intros r Hr Hni. apply elem_of_update_where. exists r. split; [done|].
    by rewrite bool_decide_false.
  - by apply fmap_update_where.
Qed.

Lemma claim_batch_claimed n inst s es s' :
  NoDup (oe_id <$> w_rows s) → on_pool (claim_batch n inst) s = (Ok es, s') →
  claimed (e_now (d_env s)) n inst (w_rows s) es (w_rows s').
Proof.
  intros Hid (c' & Hr & Ec & _)%on_pool_ok. unfold claim_batch in Hr.
  apply map_err_ok, exec_ok in Hr as (_ & _ & _ & i & Hc). simpl in *.
  apply claim_stmt_claimed in Hc; [|done]. unfold w_rows. by rewrite Ec.
Qed.

(** C24: A claim takes at most a batch of events, at most one of each aggregate, and of each
    aggregate the oldest of those that are due; every one was pending, due and unlocked, and
    is now locked by the claiming relay, and no other row changes. So no event is claimed
    twice while it is locked: another claim, by any relay and at any later time, takes none
    of the events of the first. *)
Theorem claim_batch_exclusive n1 inst1 s es1 s1 now n2 inst2 es2 s2 :
  NoDup (oe_id <$> w_rows s) →
  on_pool (claim_batch n1 inst1) s = (Ok es1, s1) →
  on_pool (claim_batch n2 inst2) (at_time now s1) = (Ok es2, s2) →
  claimed (e_now (d_env s)) n1 inst1 (w_rows s) es1 (w_rows s1) ∧
  ∀ e, e ∈ es1 → oe_id e ∉ (oe_id <$> es2).
Proof.
  intros Hid Hr1%claim_batch_claimed Hr2; [|done].
  pose proof Hr1 as (_ & _ & Htaken & _ & Hids).
  assert (NoDup (oe_id <$> w_rows s1)) as Hid1 by by rewrite Hids.
  apply claim_batch_claimed in Hr2 as (_ & _ & Htaken2 & _); [|done].
  split; [done|]. intros e [He (r & _ & Eq & _)]%Htaken (e2 & E2 & He2)%list_elem_of_fmap.
  apply Htaken2 in He2 as (_ & r2 & Hr2 & -> & _ & _ & Hu & _).
  assert (e = r2) as ->; [|by subst]. by eapply NoDup_fmap_inj_in; [exact Hid1|..].
Qed.
End claims.

(** ** The cleanup loop *)

Section cleanup.
Context `{Externals, !ScanOrder OutboxEvent, RedisApi} {T K : Type} `{!OutboxTables T}.
Implicit Types s : db T (K * redis).
Implicit Types cfg : RelayConfig.

Lemma cleanup_published_ok secs s k s' :
  on_pool (cleanup_published secs) s = (Ok k, s') →
  delete_upto 1000 (is_expired secs (e_now (d_env s))) (w_rows s) = (w_rows s', k).
Proof.
  intros (c' & Hr & Ec & _)%on_pool_ok. unfold cleanup_published in Hr.
  apply map_err_ok, exec_ok in Hr as (_ & _ & _ & i & Hc). simpl in *.
  unfold w_rows. destruct (delete_upto _ _ _) as [rows j]. injection Hc as <- Et.
  by rewrite Ec, <-Et, outbox_set.
Qed.

Lemma cleanup_fuel cfg cancelled f1 f2 i s :
  (length (w_rows s) < f1)%nat → (length (w_rows s) < f2)%nat →
  cleanup_tick cfg cancelled i f1 s = cleanup_tick cfg cancelled i f2 s.
Proof.
  revert f2 i s. induction f1 as [|f1 IH]; intros [|f2] i s Hf1 Hf2; try lia. simpl.
  destruct (cancelled i); [done|]. unfold catch.
  destruct (on_pool _ s) as [o s1] eqn:Hr. destruct o as [[|k]|e|]; try done.
  apply cleanup_published_ok, delete_upto_spec in Hr as (El & _). apply IH; lia.
Qed.

Lemma cleanup_calm cfg fuel i s :
  e_faults (d_env s) = [] → (length (w_rows s) < fuel)%nat →
  ∃ s', cleanup_tick cfg (λ _, false) i fuel s = (Ok tt, s') ∧ d_ext s' = d_ext s ∧
    w_rows s' = List.filter (λ r, negb (is_expired (cleanup_max_age cfg) (e_now (d_env s)) r)) (w_rows s).
Proof.
  revert i s. induction fuel as [|fuel IH]; intros i s Hf Hfuel; [lia|]. simpl. unfold catch.
  unfold cleanup_published at 1. rewrite on_pool_calm by done. fold (w_rows s).
  destruct (delete_upto _ _ _) as [rows k] eqn:Ed.
  apply delete_upto_spec in Ed as (El & Ef & Ez). set (s1 := MkDb _ _ _).
  assert (w_rows s1 = rows) as Er by apply outbox_set. destruct k as [|k].
  - destruct (Ez eq_refl) as [-> ->]; [done|]. by exists s1.
  - destruct (IH (S i) s1) as (s' & -> & Ex & Ew); [done|rewrite Er; lia|].
    exists s'. split_and!; [done|done|]. rewrite Ew, Er. exact Ef.
Qed.

(** The inner loop of the cleanup always ends: with more rounds than the table has rows
    the answer no longer depends on their number, whatever is lost on the way, since every
    round but the last deletes a row. When nothing is lost and no shutdown is requested, it
    ends well, and the table keeps exactly the rows that are not expired, in their order. *)
Theorem cleanup_terminates cfg cancelled fuel s :
  (length (w_rows s) < fuel)%nat →
  cleanup_tick cfg cancelled 0 fuel s = cleanup_tick cfg cancelled 0 (S (length (w_rows s))) s ∧
  (e_faults (d_env s) = [] → ∃ s',
     cleanup_tick cfg (λ _, false) 0 fuel s = (Ok tt, s') ∧ d_ext s' = d_ext s ∧
     w_rows s' =
       List.filter (λ r, negb (is_expired (cleanup_max_age cfg) (e_now (d_env s)) r)) (w_rows s)).
Proof. intros Hf. split; [apply cleanup_fuel; lia|]. intros Hc. by apply cleanup_calm. Qed.
End cleanup.
