(* ===== verification/RelayLive.v ===== *)
(** * The outbox relay: progress

    When nothing is lost and the broker takes what it is given, a batch publishes every
    event it claims, and records it. *)

From S2P Require Import Prelude RustStr Externals Errors Events Db Outbox Redis Relay.
From S2P Require Import RelayProps RelayTheorems.

Local Open Scope Z_scope.

Lemma update_checked_all {A} (p : A → bool) (f : A → outcome sql_error A) g l :
  (∀ x, x ∈ l → p x = true → f x = Ok (g x)) →
  ∃ n, update_checked p f l = Ok (n, update_where p g l).
Proof.
  induction l as [|x l IH]; intros Hf; simpl; [by exists 0%nat|].
  destruct IH as [n Hn]; [intros y Hy; apply Hf; by right|].
  destruct (p x) eqn:Ep; [rewrite (Hf x) by (done || by left)|]; simpl; rewrite Hn; simpl; eauto.
Qed.

Section live.
Context `{Externals, !ScanOrder OutboxEvent, RedisCacheLaws} {T K : Type} `{!OutboxTables T}.
Context (publish : string → EventEnvelope → M K AppError unit)
  (on_permanent_failure : OutboxEvent → M K AppError unit)
  `{!BrokerLaws publish on_permanent_failure}
  (serde_error : Value → string) (with_redis : bool).
Abbreviation world := (db T (K * redis)).
Implicit Types s : world.
Implicit Types cfg : RelayConfig.
Abbreviation process cfg := (process_event publish on_permanent_failure serde_error with_redis cfg).
Abbreviation ok := (relay_ok publish on_permanent_failure).
Abbreviation log := (w_log publish on_permanent_failure).
Abbreviation evo := (evolves publish on_permanent_failure).

Definition calm s : Prop := e_faults (d_env s) = [].
(** The broker takes every message. *)
Definition broker_up : Prop := ∀ topic e k, ∃ k', publish topic e k = (Ok tt, k').
Definition readable (e : OutboxEvent) : Prop := ∃ env, envelope_of_value (oe_payload e) = Some env.
(** The row with an identifier may become published; it has been. *)
Definition open_id (id : Uuid) (rows : list OutboxEvent) : Prop :=
  ∀ r, r ∈ rows → oe_id r = id → oe_status r ≠ FailedStatus.
Definition closed_id (id : Uuid) (rows : list OutboxEvent) : Prop :=
  ∀ r, r ∈ rows → oe_id r = id → oe_status r = Published.
(** The rows with other identifiers. *)
Definition same_others (id : Uuid) (rows rows' : list OutboxEvent) : Prop :=
  ∀ r, oe_id r ≠ id → r ∈ rows ↔ r ∈ rows'.

Lemma w_rows_set rows (t : T) env (x : K * redis) :
  w_rows (MkDb (set_outbox_events rows t) env x) = rows.
Proof. apply outbox_set. Qed.

Lemma record_calm cfg e s :
  calm s → open_id (oe_id e) (w_rows s) →
  ∃ s', logged (record_published cfg e) s = (Ok tt, s') ∧ d_ext s' = d_ext s ∧ calm s' ∧
    closed_id (oe_id e) (w_rows s') ∧ same_others (oe_id e) (w_rows s) (w_rows s').
Proof.
  intros Hc Hopen. unfold logged, catch, record_published. destruct (delete_on_publish cfg).
  - unfold delete_published. rewrite on_pool_calm by done. fold (w_rows s). simpl.
    eexists. split; [reflexivity|]. split; [done|]. split; [done|]. rewrite w_rows_set. split.
    + intros r [_ Hn]%list_elem_of_In%filter_In Hid%has_id_iff. by rewrite Hid in Hn.
    + intros r Hid. rewrite !list_elem_of_In, filter_In.
      assert (has_id (oe_id e) r = false) as -> by (by apply bool_decide_eq_false). naive_solver.
  - unfold mark_published. rewrite on_pool_calm by done. unfold update_row. fold (w_rows s).
    edestruct (update_checked_all (has_id (oe_id e)) (published_row (e_now (d_env s)))
      (λ r, match published_row (e_now (d_env s)) r with Ok r' => r' | _ => r end) (w_rows s))
      as [n ->].
    { intros r Hr Hid%has_id_iff. pose proof (Hopen r Hr Hid). unfold published_row.
      by destruct (oe_status r). }
    simpl. eexists. split; [reflexivity|]. split; [done|]. split; [done|]. rewrite w_rows_set. split.
    + intros r' (r & Hr & ->)%elem_of_update_where Hid. destruct (has_id _ r) eqn:Er.
      * apply has_id_iff in Er. pose proof (Hopen r Hr Er). unfold published_row in *.
        by destruct (oe_status r).
      * by apply has_id_iff in Hid; rewrite Hid in Er.
    + intros r Hid. rewrite elem_of_update_where. split.
      * intros Hr. exists r. split; [done|].
        assert (has_id (oe_id e) r = false) as -> by (by apply bool_decide_eq_false). done.
      * intros (r0 & Hr0 & ->). destruct (has_id _ r0) eqn:Er; [|done]. exfalso. apply Hid.
        apply has_id_iff in Er. unfold published_row. by destruct (status_transition _ _).
Qed.

Lemma hit_calm e s : ∃ b s', dedup_hit with_redis e s = (Ok b, s') ∧
  (calm s → calm s') ∧ w_rows s' = w_rows s ∧ log s' = log s.
Proof.
  unfold dedup_hit. destruct with_redis; [|by exists false, s].
  destruct (is_published _ s) as [o s'] eqn:Hr.
  apply (is_published_inv publish on_permanent_failure) in Hr as (b & -> & Er & El & Ee & _).
  exists b, s'. unfold calm. by rewrite Ee.
Qed.

Lemma dedup_record_calm e s : ∃ s', dedup_record with_redis e s = (Ok tt, s') ∧
  (calm s → calm s') ∧ w_rows s' = w_rows s ∧ log s' = log s.
Proof.
  unfold dedup_record. destruct with_redis; [|by exists s].
  destruct (dedup_mark_published _ s) as [o s'] eqn:Hr.
  apply (dedup_mark_inv publish on_permanent_failure) in Hr as (-> & Er & El & Ee & _).
  exists s'. unfold calm. by rewrite Ee.
Qed.

Lemma publish_calm e s :
  broker_up → readable e →
  ∃ s', publish_payload publish serde_error (oe_topic e) (oe_payload e) s = (Ok tt, s') ∧
    (calm s → calm s') ∧ w_rows s' = w_rows s.
Proof.
  intros Hup [env He]. unfold publish_payload. rewrite He.
  destruct (Hup (oe_topic e) env (d_ext s).1) as [k' Hk].
  exists (MkDb (d_committed s) (d_env s) (k', (d_ext s).2)). split; [|done].
  unfold mbind, M_bind, lift. simpl. unfold on_broker, zoom. by rewrite Hk.
Qed.

(** The event [e] has been handled between [s] and [s']. *)
Definition handled (e : OutboxEvent) s s' : Prop :=
  (∀ r, r ∈ w_rows s → oe_id r = oe_id e → sent (log s') r) ∧ closed_id (oe_id e) (w_rows s').

Lemma process_event_calm cfg e s :
  ok s → known e s → calm s → open_id (oe_id e) (w_rows s) → broker_up → readable e →
  ∃ s', process cfg e s = (Ok tt, s') ∧ calm s' ∧ handled e s s' ∧
    same_others (oe_id e) (w_rows s) (w_rows s').
Proof.
  intros Hok Hk Hc Hopen Hup Hread. unfold process_event.
  fold (dedup_hit (T := T) (K := K) with_redis e) (dedup_record (T := T) (K := K) with_redis e).
  destruct (hit_calm e s) as (b & s1 & Hr & Hc1 & Er1 & El1).
  pose proof (hit_settled publish on_permanent_failure with_redis e s b s1 Hok Hk Hr) as [_ Hset].
  unfold mbind at 1, M_bind at 1. rewrite Hr. destruct b.
  - destruct (record_calm cfg e s1) as (s2 & Hr2 & Ex2 & Hc2 & Hcl & Hoth);
      [auto|by rewrite Er1|].
    exists s2. split_and!; [exact Hr2|done| |by rewrite <-Er1]. split; [|done].
    intros r Hin Hid. unfold w_log. rewrite Ex2. fold (log s1). apply Hset; [done|by rewrite Er1|done].
  - destruct (publish_calm e s1 Hup Hread) as (s2 & Hr2 & Hc2 & Er2).
    unfold catch at 1. rewrite Hr2.
    pose proof (publish_sent publish on_permanent_failure serde_error e s1 tt s2 Hr2) as Hsent.
    destruct (dedup_record_calm e s2) as (s3 & Hr3 & Hc3 & Er3 & El3).
    unfold mbind, M_bind. rewrite Hr3.
    destruct (record_calm cfg e s3) as (s4 & Hr4 & Ex4 & Hc4 & Hcl & Hoth);
      [auto|by rewrite Er3, Er2, Er1|].
    exists s4. split_and!; [exact Hr4|done| |by rewrite Er3, Er2, Er1 in Hoth]. split; [|done].
    intros r Hin Hid. unfold w_log. rewrite Ex4. fold (log s3). rewrite El3.
    eapply sent_same; [|exact Hsent]. apply Hk; auto.
Qed.

Lemma process_all_calm cfg es s :
  ok s → Forall (λ e, known e s) es → calm s → NoDup (oe_id <$> es) →
  Forall (λ e, open_id (oe_id e) (w_rows s)) es → broker_up → Forall readable es →
  ∃ s', for_each es (process cfg) s = (Ok tt, s') ∧ evo s s' ∧
    Forall (λ e, handled e s s') es ∧
    ∀ r, oe_id r ∉ (oe_id <$> es) → r ∈ w_rows s ↔ r ∈ w_rows s'.
Proof.
  intros Hok Hk Hc Hnd Hopen Hup Hread. revert s Hok Hk Hc Hnd Hopen Hread.
  induction es as [|e es IH]; intros s Hok Hk Hc Hnd Hopen Hread.
  { exists s. by split_and!. }
  apply Forall_cons in Hk as [Hke Hk], Hopen as [Hoe Hopen], Hread as [Hre Hread].
  rewrite fmap_cons in Hnd. apply NoDup_cons in Hnd as [Hne Hnd].
  destruct (process_event_calm cfg e s) as (s1 & Hr1 & Hc1 & [Hs1 Hcl1] & Ho1); try done.
  destruct (good_process_event publish on_permanent_failure serde_error with_redis cfg e
    _ _ _ Hok Hke Hr1) as [Hok1 Hev1].
  assert (∀ e', e' ∈ es → oe_id e' ≠ oe_id e) as Hdiff.
  { intros e' He' E. apply Hne. apply list_elem_of_fmap. by exists e'. }
  destruct (IH s1) as (s2 & Hr2 & Hev2 & Hh2 & Ho2); try done.
  { by eapply (all_known_stable publish on_permanent_failure). }
  { rewrite Forall_forall in Hopen. apply Forall_forall. intros e' He' r Hr Hid.
    apply (Hopen e' He'); [|done]. apply Ho1; [|done]. rewrite Hid. by apply Hdiff. }
  exists s2. split_and!.
  - simpl. unfold mbind, M_bind. by rewrite Hr1.
  - by etrans.
  - constructor; [split|].
    + intros r Hr Hid. eapply log_mono; [apply Hev2|]. by apply Hs1.
    + intros r Hr Hid. apply Hcl1; [|done]. apply Ho2; [by rewrite Hid|done].
    + rewrite Forall_forall in Hh2. apply Forall_forall. intros e' He'.
      destruct (Hh2 e' He') as [Hs Hcl]. split; [|done]. intros r Hr Hid. apply Hs; [|done].
      apply Ho1; [|done]. rewrite Hid. by apply Hdiff.
  - rewrite fmap_cons. intros r [Hn1 Hn2]%not_elem_of_cons.
    rewrite (Ho1 r Hn1). by apply Ho2.
Qed.

(** Every aggregate whose due events are unlocked has its oldest one taken, when the batch is
    large enough and no row is held by another transaction. *)
Lemma locked_rows_complete now n rows r :
  (∀ l, lock_scan l ≡ₚ l) → (length rows ≤ n)%nat → r ∈ rows → is_due now r = true →
  (∀ r', r' ∈ rows → is_due now r' = true → oe_aggregate_id r' = oe_aggregate_id r →
     oe_locked_by r' = None) →
  ∃ r0, r0 ∈ locked_rows now n rows ∧ oe_aggregate_id r0 = oe_aggregate_id r ∧
    oe_created_at r0 ≤ oe_created_at r.
Proof.
  intros Hscan Hn Hr Hd Hu.
  destruct (keep_first_complete [] (order_by oe_created_at (sort_scan (List.filter (is_due now) rows))) r)
    as (r0 & Hr0 & Ha); [|apply not_elem_of_nil|].
  { rewrite due_order. by apply list_elem_of_In, filter_In; rewrite <-list_elem_of_In. }
  change (r0 ∈ oldest_per_aggregate now rows) in Hr0.
  pose proof (oldest_spec _ _ _ Hr0) as (Hin & Hd0 & Hmin). exists r0.
  split_and!; [|done|by apply Hmin]. unfold locked_rows. rewrite take_ge.
  - apply list_elem_of_In, filter_In. rewrite <-list_elem_of_In, Hscan. split; [done|].
    apply bool_decide_eq_true, Hu; done.
  - assert (∀ l k : list OutboxEvent, l ⊆+ k → (length l ≤ length k)%nat) as Hlen
      by apply submseteq_length.
    etrans; [apply filter_length_le|]. rewrite (Hlen _ _ (lock_scan_sub _)).
    etrans; [apply Hlen, oldest_sub|]. etrans; [apply filter_length_le|]. done.
Qed.

(** C25: When nothing is lost and the broker takes what it is given, a batch is delivered: the
    relay answers with the number of events it has claimed, and each of them has been taken
    by the broker and is marked as published, or gone from the table. Every aggregate with due
    events, none of them locked, has its oldest one delivered, if the batch is as large as the
    table and no other transaction holds the rows. *)
Theorem relay_publishes cfg s :
  ok s → calm s → broker_up → Forall readable (w_rows s) →
  ∃ s' taken,
    process_batch publish on_permanent_failure serde_error with_redis cfg s =
      (Ok (length taken), s') ∧
    Forall (λ r, r ∈ w_rows s ∧ sent (log s') r ∧ closed_id (oe_id r) (w_rows s')) taken ∧
    ((∀ l, lock_scan l ≡ₚ l) → (length (w_rows s) ≤ batch_size cfg)%nat →
     ∀ r, r ∈ w_rows s → is_due (e_now (d_env s)) r = true →
       (∀ r', r' ∈ w_rows s → is_due (e_now (d_env s)) r' = true →
          oe_aggregate_id r' = oe_aggregate_id r → oe_locked_by r' = None) →
       ∃ r0, r0 ∈ taken ∧ oe_aggregate_id r0 = oe_aggregate_id r ∧
         oe_created_at r0 ≤ oe_created_at r).
Proof.
  intros Hok Hc Hup Hread. set (taken := locked_rows (e_now (d_env s)) (batch_size cfg) (w_rows s)).
  assert (∀ r, r ∈ taken → r ∈ w_rows s) as Hsub.
  { intros r Hr. eapply elem_of_submseteq; [exact Hr|apply locked_sub]. }
  destruct (on_pool (claim_batch (batch_size cfg) (instance_id cfg)) s) as [o s1] eqn:Hr.
  pose proof (proj1 (proj1 Hok)) as Hid.
  assert (Hrun := Hr). unfold claim_batch in Hrun. rewrite on_pool_calm in Hrun by done.
  injection Hrun as <- Es1. fold (w_rows s) in Hr. fold taken in Hr.
  set (es := with_lock (Some (instance_id cfg)) (Some (e_now (d_env s))) <$> taken) in *.
  destruct (good_claim publish on_permanent_failure (λ _, True) _ _ _ _ _ Hok I Hr) as [Hok1 Hev1].
  pose proof (claim_known publish on_permanent_failure _ _ _ _ _ Hok Hr) as Hk.
  pose proof (claim_batch_claimed _ _ _ _ _ Hid Hr) as (_ & _ & Htaken & Hrest & Hids).
  destruct (process_all_calm cfg es s1) as (s2 & Hr2 & Hev2 & Hh & _); try done.
  { by rewrite <-Es1. }
  { unfold es. rewrite with_lock_ids. eapply submseteq_NoDup; [exact Hid|].
    apply fmap_submseteq, locked_sub. }
  { apply Forall_forall. intros e He r Hr1 Eid. destruct (Htaken e He) as (He1 & r0 & _ & -> & Hst & _).
    assert (r = with_lock (Some (instance_id cfg)) (Some (e_now (d_env s))) r0) as ->.
    { eapply NoDup_fmap_inj_in; [|exact Hr1|exact He1|exact Eid]. by rewrite Hids. }
    simpl. by rewrite Hst. }
  { apply Forall_forall. intros e He. destruct (Htaken e He) as (_ & r & Hin & -> & _).
    rewrite Forall_forall in Hread. exact (Hread r Hin). }
  exists s2, taken. split_and!.
  - unfold process_batch. unfold mbind at 1, M_bind at 1. rewrite Hr.
    replace (length taken) with (length es) by apply length_fmap. destruct es as [|e es'].
    + by injection Hr2 as <-.
    + unfold mbind, M_bind. by rewrite Hr2.
  - rewrite Forall_forall in Hh. apply Forall_forall. intros r Hin.
    destruct (Hh (with_lock (Some (instance_id cfg)) (Some (e_now (d_env s))) r)) as [Hs Hcl];
      [apply list_elem_of_fmap; by exists r|].
    split_and!; [by apply Hsub| |exact Hcl].
    eapply (sent_same _ (with_lock (Some (instance_id cfg)) (Some (e_now (d_env s))) r)); [done|].
    apply Hs; [|done]. eapply Htaken. apply list_elem_of_fmap. by exists r.
  - intros Hscan Hn r Hin Hd Hu. by apply locked_rows_complete.
Qed.
End live.
