(* ===== verification/RelayWitness.v ===== *)
(** * The outbox relay: concrete runs

    A table of three events about two aggregates, a broker that keeps a log, and the Redis of
    two maps; the relay's theorems applied to its batches. *)

From S2P Require Import Prelude RustStr Externals Sample Errors Events Db Outbox Redis.
From S2P Require Import Relay RelayProps RelayTheorems RelayLive.

Local Open Scope Z_scope.

#[local] Existing Instance sample.
#[local] Instance cache_redis : RedisApi := sample_redis (λ _ _ _ m, (0, m)).
#[local] Instance cache_view : RedisView := sample_redis_view (λ _ _ _ m, (0, m)).
#[local] Instance cache_laws : RedisCacheLaws.
Proof.
  split.
  - intros k. apply store_reads. intros r Hb%bool_decide_eq_true. by apply not_eq_None_Some.
  - intros k v n r o r' [= <- <-]. done.
Qed.

(** Rows in the order of the table, none of them held by another transaction. *)
#[local] Instance table_scan : ScanOrder OutboxEvent := table_order OutboxEvent.

Definition box_tables : Type := list OutboxEvent * list ProcessedEvent.
#[local] Instance box_outbox : OutboxTables box_tables := {|
  outbox_events t := t.1; set_outbox_events l t := (l, t.2);
  processed_events t := t.2; set_processed_events l t := (t.1, l);
  outbox_set t l := eq_refl; processed_set t l := eq_refl;
  outbox_set_processed t l := eq_refl; processed_set_outbox t l := eq_refl |}.

Definition log_broker : Type := list (string * EventEnvelope).
Definition log_publish (topic : string) (e : EventEnvelope) : M log_broker AppError unit :=
  λ k, (Ok tt, k ++ [(topic, e)]).
Definition log_escalation (_ : OutboxEvent) : M log_broker AppError unit := mret tt.
#[local] Instance log_broker_laws : BrokerLaws log_publish log_escalation.
Proof.
  refine (Build_BrokerLaws _ _ _ _ id _ _).
  - intros topic e k o k' [= <- <-]. done.
  - intros e k o k' [= <- <-]. done.
Defined.

Abbreviation box := (db box_tables (log_broker * redis)).
Definition empty_box : box := MkDb ([], []) (MkEnv 5000000 0 []) ([], MkStore ∅ ∅).
Definition announce (ty : EventType) (agg : Uuid) : M box AppError unit :=
  on_pool (write_event "orders.events" ty AggOrder agg Order None (jobj [])).
Definition three_events : box :=
  ((_ ← announce OrderCreated ("a" : string); _ ← announce OrderCancelled ("a" : string);
    announce OrderCreated ("b" : string)) empty_box).2.

Lemma three_events_ok : relay_ok log_publish log_escalation three_events.
Proof.
  split; [split_and!|].
  - apply (bool_decide_unpack _). vm_compute. reflexivity.
  - apply (bool_decide_unpack _). vm_compute. reflexivity.
  - assert (Forall (λ r, oe_status r = Pending ∧ oe_retry_count r < oe_max_retries r)
      (w_rows three_events)) as Hf by (apply (bool_decide_unpack _); vm_compute; reflexivity).
    eapply Forall_impl; [exact Hf|]. intros r [E Hlt]. unfold row_ok, retries_ok. by rewrite E.
  - intros r Hr Hl. by destruct Hl.
Qed.

Definition relay_cfg : RelayConfig := {|
  instance_id := "relay-1"; batch_size := 50; poll_interval := 500; stale_lock_check_interval := 30;
  stale_lock_timeout := 60; cleanup_interval := 3600; cleanup_max_age := 60; delete_on_publish := false |}.
Abbreviation relay_run := (process_batch log_publish log_escalation (λ _, "bad payload") true).

(** The first batch publishes the oldest event of each of the two aggregates. *)
Lemma relay_publishes_witness :
  ∃ s' (taken : list OutboxEvent), relay_run relay_cfg three_events = (Ok (length taken), s') ∧ length taken = 2%nat.
Proof.
  destruct (relay_publishes log_publish log_escalation (λ _, "bad payload") true relay_cfg
    three_events three_events_ok eq_refl) as (s' & taken & Hr & _).
  - intros topic e k. eexists. reflexivity.
  - assert (forallb (λ e, is_some (envelope_of_value (oe_payload e))) (w_rows three_events) = true)
      as Hf by (vm_compute; reflexivity).
    rewrite forallb_forall in Hf. apply Forall_forall. intros e Hin%list_elem_of_In%Hf.
    revert Hin. unfold readable.
    destruct (envelope_of_value (oe_payload e)); [eauto|done].
  - exists s', taken. split; [exact Hr|]. assert ((relay_run relay_cfg three_events).1 = Ok 2%nat) as Hn by (vm_compute; reflexivity).
    rewrite Hr in Hn. by injection Hn as ->.
Defined.

Abbreviation claim_of n id := (on_pool (claim_batch n id) : M box AppError (list OutboxEvent)).

(** Two relays claim one after the other; the second gets nothing that the first has. *)
Lemma claim_batch_exclusive_witness :
  let c1 := claim_of 1 "relay-1" three_events in
  let es1 := match c1.1 with Ok es => es | _ => [] end in
  let c2 := claim_of 5 "relay-2" (at_time 6000000 c1.2) in
  let es2 := match c2.1 with Ok es => es | _ => [] end in
  (length es1, length es2) = (1%nat, 1%nat) ∧ ∀ e, e ∈ es1 → oe_id e ∉ (oe_id <$> es2).
Proof.
  intros c1 es1 c2 es2. split; [vm_compute; reflexivity|].
  refine (proj2 (claim_batch_exclusive 1 "relay-1" three_events es1 c1.2 6000000 5 "relay-2" es2 c2.2
    (proj1 (proj1 three_events_ok)) (run_ok_default [] _ _) (run_ok_default [] _ _)));
    vm_compute; reflexivity.
Defined.

(** The table after two batches; later the cleanup removes all rows. *)
Definition all_published : box := (relay_run relay_cfg (relay_run relay_cfg three_events).2).2.

Lemma cleanup_terminates_witness :
  let s := at_time 100000000 all_published in
  length (w_rows s) = 3%nat ∧
  ∃ s', cleanup_tick relay_cfg (λ _, false) 0 4 s = (Ok tt, s') ∧ w_rows s' = [].
Proof.
  intros s. split; [vm_compute; reflexivity|].
  assert (length (w_rows s) = 3%nat) as Hn by (vm_compute; reflexivity).
  destruct (proj2 (cleanup_terminates relay_cfg (λ _, false) 4 s ltac:(rewrite Hn; lia)))
    as (s' & Hr & _ & Hw); [apply nil_length_inv; vm_compute; reflexivity|].
  exists s'. split; [exact Hr|]. rewrite Hw. apply nil_length_inv. vm_compute. reflexivity.
Defined.

(** A relay claims two events and publishes one of them, another relay crashes, a third works
    through the table. *)
Definition held : list OutboxEvent :=
  match (claim_of 50 "relay-1" three_events).1 with Ok es => es | _ => [] end.
Definition after_claim : box := (claim_of 50 "relay-1" three_events).2.
Definition run_event (e : OutboxEvent) (s : box) :=
  process_event log_publish log_escalation (λ _, "bad payload") true relay_cfg e s.
Definition run_loop (s : box) :=
  process_pending log_publish log_escalation (λ _, "bad payload") true relay_cfg (λ _, false) s.
Definition late (s : box) : box := (stale_lock_tick relay_cfg (at_time 100000000 s)).2.

Lemma relay_no_loss_witness :
  match held with
  | e :: fl =>
      let s' := (run_loop (late (run_event e after_claim).2)).2 in
      no_loss log_publish log_escalation three_events s' ∧ length (d_ext s').1 = 3%nat
  | [] => False
  end.
Proof.
  destruct held as [|e fl] eqn:E.
  { assert (length held = 2%nat) as El by (vm_compute; reflexivity). by rewrite E in El. }
  set (s1 := (run_event e after_claim).2). set (s2 := (run_loop (late s1)).2). split.
  - refine (proj1 (relay_no_loss log_publish log_escalation (λ _, "bad payload") true
      three_events [] s2 [] _ three_events_ok (Forall_nil_2 _))).
    eapply rtc_l; [apply (claim_step _ _ _ _ relay_cfg held three_events after_claim []);
      apply run_ok_default; vm_compute; reflexivity|].
    rewrite E. simpl.
    eapply rtc_l; [eapply (event_step _ _ _ _ relay_cfg e _ after_claim s1 [] fl), surjective_pairing|].
    eapply rtc_l; [apply (crash_step _ _ _ _ s1 fl []), sublist_nil_l|].
    eapply rtc_l; [apply (clock_step _ _ _ _ s1 100000000 [])|].
    eapply rtc_l; [eapply (stale_step _ _ _ _ relay_cfg _ _ (late s1) []), surjective_pairing|].
    eapply rtc_l; [eapply (loop_step _ _ _ _ relay_cfg (λ _, false) _ _ s2 []), surjective_pairing|].
    apply rtc_refl.
  - assert (∀ es, held = es → match es with e :: _ =>
      length (d_ext (run_loop (late (run_event e after_claim).2)).2).1 = 3%nat | [] => False end) as Hn
      by (intros es <-; vm_compute; reflexivity).
    exact (Hn _ E).
Defined.
