(* ===== verification/Kafka.v ===== *)
(** * Kafka: publishing, topics, positions
    (shared/src/events/producer.rs, admin.rs, health.rs, publisher.rs, and the start of a consumer)

    The broker is a class: a log of records with partitions, offsets and positions. *)

From S2P Require Import Prelude RustStr Externals Errors Events Db Outbox Consumer ConsumerProps Redis Relay.

Local Open Scope Z_scope.

(** ** The publisher (producer.rs) *)

Section publisher.
Context `{Externals}.

Record kafka_record := {
  kr_topic : string; kr_key : string; kr_payload : payload_bytes; kr_headers : list (string * string) }.

Definition record_headers (m : EventMetadata) : list (string * string) :=
  [("event_id", uuid_to_string (em_event_id m));
   ("event_type", event_type_str (em_event_type m));
   ("aggregate_type", aggregate_type_str (em_aggregate_type m));
   ("aggregate_id", uuid_to_string (em_aggregate_id m));
   ("source_service", source_service_str (em_source_service m))] ++
  match em_correlation_id m with Some cid => [("correlation_id", cid)] | None => [] end ++
  match em_causation_id m with Some cause => [("causation_id", uuid_to_string cause)] | None => [] end.
Definition record_of (topic : string) (e : EventEnvelope) : kafka_record := {|
  kr_topic := topic; kr_key := partition_key e; kr_payload := PJson (envelope_to_value e);
  kr_headers := record_headers (env_metadata e) |}.

(** [FutureProducer::send], over the state of the broker; an envelope always has a JSON text. *)
Context {K : Type} (send : kafka_record → M K string unit).
Definition kafka_publish (topic : string) (envelope : EventEnvelope) : M K AppError unit :=
  map_err (λ e, InternalServerError ("Kafka send: " +:+ e)) (send (record_of topic envelope)).
End publisher.

(** ** The broker *)

(** What Kafka documents: a record goes to the partition its key has in its topic, offsets grow
    along a partition, and a consumer group reads on one after the offset it committed last. The
    log of the broker is the list of the records in the order they were taken. *)
Class BrokerApi `{Externals} := {
  partition_of : string → string → Z;
  messages : list kafka_record → list message;
  position : list (string * Z * Z) → string → Z → Z;
  messages_lookup log n r : log !! n = Some r → ∃ offset, messages log !! n = Some {|
    msg_topic := kr_topic r; msg_partition := partition_of (kr_topic r) (kr_key r);
    msg_offset := offset; msg_payload := kr_payload r |};
  messages_ordered log n n' m m' : (n < n')%nat → messages log !! n = Some m → messages log !! n' = Some m' →
    msg_topic m' = msg_topic m → msg_partition m' = msg_partition m → msg_offset m < msg_offset m';
  position_snoc offsets topic partition offset :
    position (offsets ++ [(topic, partition, offset)]) topic partition = offset + 1 }.

(** What a consumer that starts again is given. *)
Definition resumed `{BrokerApi} (offsets : list (string * Z * Z)) (ms : list message) : list message :=
  List.filter (λ m, position offsets (msg_topic m) (msg_partition m) <=? msg_offset m) ms.

(** ** Topics (admin.rs), the start of a consumer, the health check (health.rs) *)

(** The client library, over the state of the cluster. The metadata are fetched on a thread of
    their own, which may also panic. *)
Inductive metadata_error : Type := FetchFailed (e : string) | TaskFailed (e : string).
Definition metadata_error_text (e : metadata_error) : string :=
  match e with FetchFailed e => e | TaskFailed e => "Health check task failed: " +:+ e end.
Class KafkaClient := {
  cluster : Type;
  admin_new : string → M cluster string unit;
  create_topics : list (string * Z * Z * gmap string string) → M cluster string (list (option (string * string)));
  subscribe : list string → M cluster string unit;
  fetch_metadata : M cluster metadata_error nat }.

Section client.
Context `{KafkaClient}.

Record TopicSpec := { sp_name : string; sp_partitions : Z; sp_replication_factor : Z; sp_config : gmap string string }.
Definition TopicSpec_new (name : string) (partitions replication_factor : Z) : TopicSpec := {|
  sp_name := name; sp_partitions := partitions; sp_replication_factor := replication_factor; sp_config := ∅ |}.
Definition with_config (key value : string) (s : TopicSpec) : TopicSpec := {|
  sp_name := sp_name s; sp_partitions := sp_partitions s; sp_replication_factor := sp_replication_factor s;
  sp_config := <[key := value]> (sp_config s) |}.

(** A result is the topic and the code of an error; an existing topic is not an error. *)
Definition TOPIC_EXISTS : string := "TopicAlreadyExists".
Fixpoint topic_results (results : list (option (string * string))) : outcome AppError unit :=
  match results with
  | [] => Ok tt
  | None :: results => topic_results results
  | Some (topic, code) :: results =>
      if bool_decide (code = TOPIC_EXISTS) then topic_results results
      else Err (InternalServerError ("Failed to create topic '" +:+ topic +:+ "': " +:+ code))
  end.
Definition ensure_topics (specs : list TopicSpec) : M cluster AppError unit :=
  match specs with
  | [] => mret tt
  | _ =>
      results ← map_err (λ e, InternalServerError ("Kafka create_topics: " +:+ e))
        (create_topics ((λ s, (sp_name s, sp_partitions s, sp_replication_factor s, sp_config s)) <$> specs));
      lift (topic_results results)
  end.
Definition KafkaAdmin_new (brokers : string) : M cluster AppError unit :=
  map_err (λ e, InternalServerError ("Kafka admin init: " +:+ e)) (admin_new brokers).

Definition dlq_specs (cfg : ConsumerConfig) : list TopicSpec :=
  (λ t, TopicSpec_new (dlq_topic_for cfg t) 1 1) <$> topics cfg.
Definition ensure_dlq_topics (brokers : string) (cfg : ConsumerConfig) : M cluster AppError unit :=
  _ ← KafkaAdmin_new brokers;
  ensure_topics (dlq_specs cfg).
(** The start of [run]: whether the loops are started. *)
Definition start_consumer (brokers : string) (cfg : ConsumerConfig) : M cluster Empty_set bool :=
  _ ← (if auto_create_dlq_topics cfg then
         catch (ensure_dlq_topics brokers cfg) (λ _, mret tt) (λ _, mret tt)
       else mret tt);
  catch (subscribe (topics cfg)) (λ _, mret true) (λ _, mret false).

Inductive KafkaHealthStatus : Type := Up | Down.
Record KafkaHealth := { kh_status : KafkaHealthStatus; kh_broker_count : nat; kh_error : option string }.
Definition is_healthy (h : KafkaHealth) : bool := match kh_status h with Up => true | Down => false end.
Definition check : M cluster Empty_set KafkaHealth :=
  catch fetch_metadata
    (λ n, mret {| kh_status := Up; kh_broker_count := n; kh_error := None |})
    (λ e, mret {| kh_status := Down; kh_broker_count := 0; kh_error := Some (metadata_error_text e) |}).
End client.

(** ** From the outbox to a consumer *)

Section journey.
Context `{Externals, !ScanOrder OutboxEvent, !RedisApi} {T : Type} `{!OutboxTables T}.
Context {K : Type} (send : kafka_record → M K string unit) `{!BrokerApi}.

(** The record of an event on a topic: keyed by the aggregate, with the event as its payload and
    its metadata as headers, each of them once and the two that are optional only when given. *)
Definition header_of (m : EventMetadata) (k v : string) : Prop :=
  (k = "event_id" ∧ v = uuid_to_string (em_event_id m)) ∨
  (k = "event_type" ∧ v = event_type_str (em_event_type m)) ∨
  (k = "aggregate_type" ∧ v = aggregate_type_str (em_aggregate_type m)) ∨
  (k = "aggregate_id" ∧ v = uuid_to_string (em_aggregate_id m)) ∨
  (k = "source_service" ∧ v = source_service_str (em_source_service m)) ∨
  (k = "correlation_id" ∧ em_correlation_id m = Some v) ∨
  (k = "causation_id" ∧ ∃ cause, em_causation_id m = Some cause ∧ v = uuid_to_string cause).
Record carries (topic : string) (e : EventEnvelope) (r : kafka_record) : Prop := {
  cr_topic : kr_topic r = topic;
  cr_key : kr_key r = uuid_to_string (em_aggregate_id (env_metadata e));
  cr_payload : from_slice (kr_payload r) = Some e;
  cr_once : NoDup (fst <$> kr_headers r);
  cr_headers k v : (k, v) ∈ kr_headers r ↔ header_of (env_metadata e) k v }.

Lemma record_carries topic e : carries topic e (record_of topic e).
Proof.
  split; [done|done|apply envelope_roundtrip_eq|..]; simpl; unfold record_headers;
    destruct (em_correlation_id _) as [cid|] eqn:Hc, (em_causation_id _) as [cause|] eqn:Hk; simpl.
  1-4: apply (bool_decide_unpack _); vm_compute; exact I.
  all: intros k v; unfold header_of; rewrite Hc, Hk, !elem_of_cons, elem_of_nil; split;
    [intros Hin; repeat destruct Hin as [[= -> ->]|Hin]; first [done|eauto 12]
    |intros Hh; repeat destruct Hh as [[-> Hh]|Hh]; destruct_and?; try destruct Hh as (-> & ? & ? & ->); naive_solver].
Qed.

(** C21: An event arrives as it was announced. The relay, given the row that announces an event,
    sends one record, to the topic of the row, which carries the event: the identifier of its
    aggregate as key, its metadata as headers, and as payload the event as a consumer reads it; the
    publication succeeds exactly if the broker takes the record. Wherever a record that carries the
    event is in the log, a consumer of the topic reads back the event. The records that carry events
    of one aggregate are in one partition, in the order in which they were published. *)
Theorem event_travels serde_error topic e (s : db T (K * redis)) :
  (∃ r, carries topic e r ∧
     publish_payload (kafka_publish send) serde_error (oi_topic (from_envelope topic e)) (oi_payload (from_envelope topic e)) s =
       on_broker (map_err (λ e, InternalServerError ("Kafka send: " +:+ e)) (send r)) s) ∧
  (∀ log n r, log !! n = Some r → carries topic e r →
     ∃ m, messages log !! n = Some m ∧ msg_topic m = topic ∧ from_slice (msg_payload m) = Some e) ∧
  (∀ log n n' r r' e', (n < n')%nat → log !! n = Some r → log !! n' = Some r' →
     carries topic e r → carries topic e' r' →
     em_aggregate_id (env_metadata e') = em_aggregate_id (env_metadata e) →
     ∃ m m', messages log !! n = Some m ∧ messages log !! n' = Some m' ∧
       msg_partition m' = msg_partition m ∧ msg_offset m < msg_offset m').
Proof.
  split_and!.
  - exists (record_of topic e). split; [apply record_carries|].
    unfold publish_payload, mbind, M_bind. simpl. by rewrite envelope_roundtrip_eq.
  - intros log n r [offset Hm]%messages_lookup []. eexists. split; [exact Hm|]. done.
  - intros log n n' r r' e' Hn [o Hr]%messages_lookup [o' Hr']%messages_lookup [Et Ek _ _ _] [Et' Ek' _ _ _] Ha.
    rewrite Et, Ek in Hr. rewrite Et', Ek', Ha in Hr'.
    eexists _, _. split_and!; [done|done|done|]. by eapply messages_ordered.
Qed.
End journey.

(** ** A message that is passed over *)

Section passed_over.
Context `{BrokerApi} {T X : Type} `{!OutboxTables T}.
Implicit Types (w : cworld (T := T) (X := X)) (m : message).

(** A transaction that cannot begin: nothing happens, and nothing is committed. *)
Lemma begin_lost d h cfg m e w :
  from_slice (msg_payload m) = Some e → e_faults (d_env (w_db w)) = [FBefore] →
  ∃ w', process_message d h cfg m w = (Ok tt, w') ∧
    d_committed (w_db w') = d_committed (w_db w) ∧ d_ext (w_db w') = d_ext (w_db w) ∧
    e_faults (d_env (w_db w')) = [] ∧ w_offsets w' = w_offsets w ∧ w_dlq w' = w_dlq w.
Proof.
  intros He Hf. unfold process_message, mbind, M_bind, gets. rewrite He.
  unfold process_with_retry. rewrite Nat.add_1_r. cbn [retry_loop].
  unfold mbind, M_bind, in_db, zoom, try_process_once, begin_tx, pop_fault. rewrite Hf. simpl.
  eexists. split; [reflexivity|]. by split_and!.
Qed.

Lemma mark_other id id' ty src g now (t : T) :
  id ≠ id' → processed (mark_processed_row id ty src g now t) id' g = processed t id' g.
Proof.
  intros Hne. unfold mark_processed_row. case_match; [done|]. unfold processed.
  rewrite processed_set, existsb_app. simpl. unfold is_processed_row at 2. simpl.
  rewrite bool_decide_false by done. by rewrite orb_false_r.
Qed.

(** C22: A message that was not handled can be lost. The consumer goes on after a message whose
    offset it did not commit: when the database loses the transaction of one message and the
    next message of the partition is handled, the committed position is behind both. The first
    event is neither marked as processed nor in the dead-letter topic, and no consumer of the
    group that starts again is given its message. *)
Theorem uncommitted_message_passed_over d h cfg m1 m2 e1 e2 w :
  from_slice (msg_payload m1) = Some e1 → from_slice (msg_payload m2) = Some e2 →
  msg_topic m2 = msg_topic m1 → msg_partition m2 = msg_partition m1 → msg_offset m1 < msg_offset m2 →
  event_id e1 ≠ event_id e2 → e_faults (d_env (w_db w)) = [FBefore] →
  processed (d_committed (w_db w)) (event_id e1) (group_id cfg) = false →
  processed (d_committed (w_db w)) (event_id e2) (group_id cfg) = false →
  (∀ env, e_faults env = [] → ∃ ss,
     h e2 (MkSession (MkConn (d_committed (w_db w)) TxActive env) (d_committed (w_db w)) (d_ext (w_db w))) = (Ok tt, ss) ∧
     c_status (s_conn ss) = TxActive ∧ e_faults (s_env ss) = [] ∧
     processed (c_tables (s_conn ss)) (event_id e1) (group_id cfg) = false) →
  ∃ w', message_loop d h cfg [m1; m2] w = (Ok tt, w') ∧
    processed (d_committed (w_db w')) (event_id e1) (group_id cfg) = false ∧ w_dlq w' = w_dlq w ∧
    (∀ ms, m1 ∉ resumed (w_offsets w') ms) ∧
    processed (d_committed (w_db w')) (event_id e2) (group_id cfg) = true.
Proof.
  intros He1 He2 Ht Hp Hlt Hne Hf H1 H2 Hh.
  destruct (begin_lost d h cfg m1 e1 w He1 Hf) as (w1 & E1 & Hc1 & Hx1 & Hf1 & Ho1 & Hd1).
  destruct (Hh (bump (d_env (w_db w1)))) as (ss & Hs & Hst & Hq & Hm); [done|].
  destruct (message_processed d h cfg m2 e2 w1 ss) as (w2 & E2 & Hc2 & Ho2 & Hd2);
    [done|done|by rewrite Hc1|by rewrite Hc1, Hx1|done|done|].
  exists w2. cbn [message_loop]. unfold mbind, M_bind. rewrite E1, E2. simpl. split_and!.
  - done.
  - rewrite Hc2, mark_other by done. done.
  - congruence.
  - intros ms [_ Hle%Z.leb_le]%list_elem_of_In%filter_In.
    rewrite Ho2, <-Ht, <-Hp, position_snoc in Hle. lia.
  - rewrite Hc2. apply mark_processed_row_processed.
Qed.
End passed_over.
