(* ===== verification/Jobs.v ===== *)
(** * Persistent jobs (shared/src/jobs)

    The table [persistent_jobs] with its triggers and its partial unique index
    (shared/tests/migrations/000004_persistent_jobs.sql), the statements of repository.rs,
    the registry, and the runner: it claims as many jobs as it has capacity for, runs each
    in a task of its own, and records the result. *)

From S2P Require Import Prelude RustStr Externals Errors Db Outbox.

Local Open Scope Z_scope.

(** ** Job names (types.rs) *)

Record JobName := MkJobName { job_name_str : string }.

(** Lower case letters, digits, '.', '_' and '-'. *)
Definition is_job_char (b : nat) : bool :=
  ((97 <=? b) && (b <=? 122) || (48 <=? b) && (b <=? 57) || (b =? 46) || (b =? 95) || (b =? 45))%nat.
Definition is_dot (b : nat) : bool := (b =? 46)%nat.
Fixpoint consecutive_dots (l : list nat) : bool :=
  match l with
  | a :: l => match l with
              | b :: _ => is_dot a && is_dot b || consecutive_dots l
              | [] => false
              end
  | [] => false
  end.
Definition ends_in_dot (l : list nat) : bool :=
  match last l with Some b => is_dot b | None => false end.

Definition JobName_new (input : string) : outcome AppError JobName :=
  let trimmed := trim input in
  let l := bytes trimmed in
  if is_empty trimmed then Err (BadRequest "Job name must not be empty")
  else if (255 <? str_len trimmed)%nat then
    Err (BadRequest "Job name must not exceed 255 characters")
  else if negb (forallb is_job_char l) then
    Err (BadRequest "Job name must contain only lowercase alphanumeric, dots, underscores, and hyphens")
  else if negb (existsb is_dot l) then
    Err (BadRequest "Job name must contain at least one dot for namespacing (e.g. 'payment.disburse')")
  else if match l with b :: _ => is_dot b | [] => false end || ends_in_dot l then
    Err (BadRequest "Job name must not start or end with a dot")
  else if consecutive_dots l then
    Err (BadRequest "Job name must not contain consecutive dots")
  else Ok (MkJobName trimmed).

(** ** Rows *)

Inductive JobStatus : Type :=
| JobPending | JobRunning | JobCompleted | JobFailed | JobDeadLettered | JobCancelled.
#[export] Instance JobStatus_eq_dec : EqDecision JobStatus.
Proof. solve_decision. Defined.
Definition job_status_str (s : JobStatus) : string :=
  match s with
  | JobPending => "pending" | JobRunning => "running" | JobCompleted => "completed"
  | JobFailed => "failed" | JobDeadLettered => "dead_lettered" | JobCancelled => "cancelled"
  end.

Inductive JobError : Type := Transient (msg : string) | Permanent (msg : string).
Definition job_error_display (e : JobError) : string :=
  match e with
  | Transient msg => "transient: " +:+ msg
  | Permanent msg => "permanent: " +:+ msg
  end.

Inductive DedupStrategy : Type := DedupSkip | DedupEnqueue | DedupReplace.
Record JobConfig := {
  jc_max_retries : option Z; jc_timeout_seconds : option Z;
  jc_dedup_strategy : DedupStrategy; jc_dedup_key : option string }.
Definition JobConfig_default : JobConfig := {|
  jc_max_retries := None; jc_timeout_seconds := None;
  jc_dedup_strategy := DedupSkip; jc_dedup_key := None |}.

Inductive RecurringFailurePolicy : Type := Die | ResetToNext.

(** The library of cron expressions; instants and durations count microseconds. *)
Class CronApi := {
  CronSchedule : Type;
  cron_to_string : CronSchedule → string;
  (** the first tick after an instant; how many ticks lie after one instant and up to another *)
  cron_next : CronSchedule → Z → option Z;
  cron_ticks : CronSchedule → Z → Z → nat }.

Section jobs.
Context `{Externals, CronApi}.

Record Job := MkJob {
  jb_id : Uuid; jb_job_type : string; jb_payload : Value; jb_status : JobStatus;
  jb_schedule : option string; jb_dedup_key : option string;
  jb_max_retries : Z; jb_timeout_seconds : Z; jb_attempts : Z;
  jb_last_error : option string; jb_locked_by : option string; jb_locked_at : option Z;
  jb_next_run_at : Z; jb_created_at : Z; jb_updated_at : Z }.

Inductive JobSchedule : Type := Cron (s : CronSchedule) | Interval (d : Z).

Record RecurringJobDefinition := {
  rd_job_name : JobName; rd_schedule : JobSchedule; rd_payload : Value;
  rd_dedup_key : string; rd_config : option JobConfig;
  rd_failure_policy : RecurringFailurePolicy }.

(** The key of the index [idx_jobs_dedup], for the rows it covers. *)
Definition active_key (r : Job) : option (string * string) :=
  match jb_status r, jb_dedup_key r with
  | JobPending, Some k | JobRunning, Some k => Some (jb_job_type r, k)
  | _, _ => None
  end.
Definition dedup_index (rows : list Job) : outcome sql_error unit :=
  if decide (NoDup (omap active_key rows)) then Ok tt else Err (UniqueViolation "idx_jobs_dedup").

(** The trigger [enforce_job_status_transition]. *)
Definition job_transition (r : Job) (new : JobStatus) : outcome sql_error unit :=
  if decide (jb_status r = new) then Ok tt
  else match jb_status r, new with
       | JobPending, JobRunning | JobRunning, JobCompleted | JobRunning, JobFailed
       | JobRunning, JobDeadLettered | JobRunning, JobPending | JobPending, JobCancelled
       | JobDeadLettered, JobPending | JobFailed, JobPending => Ok tt
       | JobCompleted, JobPending =>
           match jb_schedule r with
           | Some _ => Ok tt
           | None => Err (CheckViolation
               "completed -> pending only valid for recurring jobs (schedule IS NOT NULL)")
           end
       | _, _ => Err (CheckViolation "invalid job status transition")
       end.

(** An updated row; the trigger [persistent_jobs_before_update] stamps it. *)
Definition changed_job (now : Z) (r : Job) (status : JobStatus) (attempts : Z)
    (last_error locked_by : option string) (locked_at : option Z) (next_run_at : Z)
    : outcome sql_error Job :=
  _ ← job_transition r status;
  Ok (MkJob (jb_id r) (jb_job_type r) (jb_payload r) status (jb_schedule r) (jb_dedup_key r)
        (jb_max_retries r) (jb_timeout_seconds r) attempts last_error locked_by locked_at
        next_run_at (jb_created_at r) now).

Class JobTables (T : Type) := {
  persistent_jobs : T → list Job;
  set_persistent_jobs : list Job → T → T;
  jobs_set t l : persistent_jobs (set_persistent_jobs l t) = l }.
End jobs.

(** ** Statements (repository.rs) *)

Section statements.
Context `{Externals, CronApi, !ScanOrder Job} {T : Type} `{!JobTables T}.

Definition has_job_id (id : Uuid) (r : Job) : bool := bool_decide (jb_id r = id).

(** [UPDATE persistent_jobs SET .. WHERE p]: the number of rows, with the index checked. *)
Definition update_jobs (p : Job → bool) (f : Job → outcome sql_error Job) (t : T)
    : outcome sql_error (nat * T) :=
  '(n, rows) ← update_checked p f (persistent_jobs t);
  _ ← dedup_index rows;
  Ok (n, set_persistent_jobs rows t).
Definition update_job (id : Uuid) (f : Z → Job → outcome sql_error Job)
    : M (conn T) AppError unit :=
  map_err internal_err (exec (λ now _ t,
    '(_, t') ← update_jobs (has_job_id id) (f now) t; Ok (tt, t'))).

(** The row an INSERT creates, before the defaults of the table. *)
Definition new_job (now : Z) (id : Uuid) (job_type : string) (payload : Value)
    (schedule dedup_key : option string) (max_retries timeout_seconds : Z) : Job := {|
  jb_id := id; jb_job_type := job_type; jb_payload := payload; jb_status := JobPending;
  jb_schedule := schedule; jb_dedup_key := dedup_key; jb_max_retries := max_retries;
  jb_timeout_seconds := timeout_seconds; jb_attempts := 0; jb_last_error := None;
  jb_locked_by := None; jb_locked_at := None; jb_next_run_at := now; jb_created_at := now;
  jb_updated_at := now |}.
Definition varchar_null (column : string) (s : option string) : outcome sql_error (option string) :=
  match s with Some s => s ← varchar column 255 s; Ok (Some s) | None => Ok None end.
Definition insert_job (job_type : string) (payload : Value) (schedule dedup_key : option string)
    (max_retries timeout_seconds : Z) (now : Z) (id : Uuid) (t : T) : outcome sql_error (Uuid * T) :=
  job_type ← varchar "job_type" 255 job_type;
  schedule ← varchar_null "schedule" schedule;
  dedup_key ← varchar_null "dedup_key" dedup_key;
  _ ← unique "persistent_jobs_pkey" (has_job_id id) (persistent_jobs t);
  let rows := persistent_jobs t ++
    [new_job now id job_type payload schedule dedup_key max_retries timeout_seconds] in
  _ ← dedup_index rows;
  Ok (id, set_persistent_jobs rows t).

Definition cfg_max_retries (config : option JobConfig) : Z :=
  as_i32 (default 5 (config ≫= jc_max_retries)).
Definition cfg_timeout (config : option JobConfig) : Z :=
  as_i32 (default 300 (config ≫= jc_timeout_seconds)).

Definition enqueue_job (name : JobName) (payload : Value) (config : option JobConfig)
    : M (conn T) AppError Uuid :=
  map_err internal_err (exec (insert_job (job_name_str name) payload None
    (config ≫= jc_dedup_key) (cfg_max_retries config) (cfg_timeout config))).

(** *** Claiming *)

Definition is_runnable (now : Z) (r : Job) : bool :=
  bool_decide (jb_status r = JobPending) && (jb_next_run_at r <=? now).
Definition claimable (now : Z) (n : nat) (rows : list Job) : list Job :=
  take n (skip_locked (order_by jb_next_run_at (sort_scan (List.filter (is_runnable now) rows)))).
Definition running_job (instance : string) (now : Z) (r : Job) : outcome sql_error Job :=
  attempts ← int4 (jb_attempts r + 1);
  changed_job now r JobRunning attempts (jb_last_error r) (Some instance) (Some now)
    (jb_next_run_at r).
Definition claim_jobs (n : nat) (instance : string) (now : Z) (_ : Uuid) (t : T)
    : outcome sql_error (list Job * T) :=
  let ids := jb_id <$> claimable now n (persistent_jobs t) in
  let claimed r := bool_decide (jb_id r ∈ ids) in
  '(_, t') ← update_jobs claimed (running_job instance now) t;
  Ok (List.filter claimed (persistent_jobs t'), t').
Definition claim_batch (limit : Z) (instance : string) : M (conn T) AppError (list Job) :=
  map_err internal_err (exec (claim_jobs (Z.to_nat limit) instance)).

(** *** Recording the result *)

Definition mark_completed (id : Uuid) : M (conn T) AppError unit :=
  update_job id (λ now r,
    changed_job now r JobCompleted (jb_attempts r) (jb_last_error r) None None (jb_next_run_at r)).

Definition backoff_secs (attempts : Z) : Z := 2 ^ Z.min attempts 10.
Definition retried_job (error : string) (max_retries : Z) (now : Z) (r : Job)
    : outcome sql_error Job :=
  if max_retries <=? jb_attempts r then
    changed_job now r JobFailed (jb_attempts r) (Some error) None None (jb_next_run_at r)
  else
    changed_job now r JobPending (jb_attempts r) (Some error) None None
      (now + backoff_secs (jb_attempts r) * second).
Definition mark_retry_or_failed (id : Uuid) (error : string) (max_retries : Z)
    : M (conn T) AppError unit :=
  update_job id (retried_job error max_retries).

Definition mark_dead_lettered (id : Uuid) (error : string) : M (conn T) AppError unit :=
  update_job id (λ now r,
    changed_job now r JobDeadLettered (jb_attempts r) (Some error) None None (jb_next_run_at r)).

Definition reset_job (next_run_at : Z) (now : Z) (r : Job) : outcome sql_error Job :=
  changed_job now r JobPending 0 None None None next_run_at.
Definition reset_recurring (id : Uuid) (next_run_at : Z) : M (conn T) AppError unit :=
  update_job id (reset_job next_run_at).

(** *** Maintenance *)

Definition is_stale_job (secs now : Z) (r : Job) : bool :=
  bool_decide (jb_status r = JobRunning) &&
  match jb_locked_at r with Some at_ => at_ <? now - secs * second | None => false end.
Definition freed_job (now : Z) (r : Job) : outcome sql_error Job :=
  changed_job now r JobPending (jb_attempts r) (jb_last_error r) None None (jb_next_run_at r).
Definition release_stale_locks (secs : Z) : M (conn T) AppError nat :=
  map_err internal_err (exec (λ now _ t, update_jobs (is_stale_job secs now) (freed_job now) t)).

Definition is_old_job (secs now : Z) (r : Job) : bool :=
  bool_decide (jb_status r = JobCompleted) && (jb_updated_at r <? now - secs * second).
Definition cleanup_completed (secs : Z) : M (conn T) AppError nat :=
  map_err internal_err (exec (λ now _ t,
    let '(rows, k) := delete_upto 1000 (is_old_job secs now) (persistent_jobs t) in
    Ok (k, set_persistent_jobs rows t))).

(** *** Recurring jobs *)

Definition schedule_str (s : JobSchedule) : string :=
  match s with
  | Cron s => cron_to_string s
  | Interval d => "@every " +:+ pretty (d / second) +:+ "s"
  end.
(** [ON CONFLICT .. DO NOTHING]: a conflict with the index, and only that, is no error. *)
Definition seed_job (def : RecurringJobDefinition) (now : Z) (id : Uuid) (t : T)
    : outcome sql_error (option Uuid * T) :=
  match insert_job (job_name_str (rd_job_name def)) (rd_payload def)
          (Some (schedule_str (rd_schedule def))) (Some (rd_dedup_key def))
          (cfg_max_retries (rd_config def)) (cfg_timeout (rd_config def)) now id t with
  | Ok (id, t') => Ok (Some id, t')
  | Err (UniqueViolation "idx_jobs_dedup") => Ok (None, t)
  | Err e => Err e
  | Panic => Panic
  end.
Definition seed_recurring_job (def : RecurringJobDefinition) : M (conn T) AppError (option Uuid) :=
  map_err internal_err (exec (seed_job def)).
End statements.
