(* ===== verification/JobRunner.v ===== *)
(** * The job registry and the job runner (shared/src/jobs/registry.rs, runner.rs) *)

From S2P Require Import Prelude RustStr Externals Errors Db Outbox Jobs.

Local Open Scope Z_scope.

(** config/job_runner_config.rs; times in seconds. *)
Record JobRunnerConfig := {
  jr_instance_id : string; jr_max_concurrent_jobs : nat; jr_poll_interval_ms : Z;
  jr_stale_lock_check_interval : Z; jr_stale_lock_timeout : Z; jr_cleanup_interval : Z;
  jr_cleanup_max_age : Z; jr_default_max_retries : Z; jr_default_timeout_seconds : Z }.
(** The instance identifier is drawn. *)
Definition JobRunnerConfig_default (id : string) : JobRunnerConfig := {|
  jr_instance_id := id; jr_max_concurrent_jobs := 5; jr_poll_interval_ms := 1000;
  jr_stale_lock_check_interval := 30; jr_stale_lock_timeout := 300; jr_cleanup_interval := 3600;
  jr_cleanup_max_age := 7 * 24 * 3600; jr_default_max_retries := 5; jr_default_timeout_seconds := 300 |}.

(** ** Schedules *)

Section schedules.
Context `{Externals, CronApi}.

(** The last instant of chrono's [DateTime<Utc>]. *)
Definition MAX_UTC : Z := 8210266876799999999.

Definition compute_next_run_at {S E} (now : Z) (schedule : JobSchedule) : M S E Z :=
  match schedule with
  | Cron s => match cron_next s now with Some t => mret t | None => panic end
  | Interval d => if now + d <=? MAX_UTC then mret (now + d) else panic
  end.

Definition count_missed_ticks (now : Z) (schedule : JobSchedule) (last_run : Z) : nat :=
  match schedule with
  | Cron s => (cron_ticks s last_run now - 1)%nat
  | Interval d =>
      let elapsed := Z.max (Z.quot (now - last_run) second) 0 in
      let interval_secs := d / second in
      if interval_secs =? 0 then 0%nat else (Z.to_nat (elapsed / interval_secs) - 1)%nat
  end.
End schedules.

Section runner.
Context `{Externals, CronApi, !ScanOrder Job} {T X : Type} `{!JobTables T}.
Abbreviation world := (db T X).

(** [jh_execute payload timeout]: the handler under [tokio::time::timeout]; [None] when the
    time ran out, whatever had been done by then. *)
Record JobHandler := {
  jh_job_type : string;
  jh_execute : Value → Z → M world JobError (option unit) }.

(** ** The registry *)

Record JobRegistry := { handlers : gmap string JobHandler; recurring : list RecurringJobDefinition }.
Definition JobRegistry_new : JobRegistry := {| handlers := ∅; recurring := [] |}.

Definition register (r : JobRegistry) (h : JobHandler) : outcome AppError JobRegistry :=
  match JobName_new (jh_job_type h) with
  | Ok name =>
      let key := job_name_str name in
      match handlers r !! key with
      | Some _ => Panic
      | None => Ok {| handlers := <[key := h]> (handlers r); recurring := recurring r |}
      end
  | _ => Panic
  end.
Definition register_recurring (r : JobRegistry) (def : RecurringJobDefinition)
    : outcome AppError JobRegistry :=
  match handlers r !! job_name_str (rd_job_name def) with
  | Some _ => Ok {| handlers := handlers r; recurring := recurring r ++ [def] |}
  | None => Panic
  end.
Definition registry_get (r : JobRegistry) (job_type : string) : option JobHandler :=
  handlers r !! job_type.

(** ** The runner *)

(** A spawned task: the job, and what the runner looked up for it. *)
Record task := {
  tk_job : Job; tk_handler : JobHandler; tk_is_recurring : bool;
  tk_policy : RecurringFailurePolicy; tk_schedule : option JobSchedule }.

(** The counter of jobs in flight, and the tasks whose guards it counts. *)
Record runner := MkRunner { in_flight : nat; tasks : list task }.
(** The runner with the database. *)
Definition rworld : Type := world * runner.

Definition on_db {E A} (m : M world E A) : M rworld E A := zoom fst (λ s w, (s, w.2)) m.

Definition spawn (reg : JobRegistry) (job : Job) : option task :=
  h ← registry_get reg (jb_job_type job);
  let is_recurring := is_some (jb_schedule job) in
  let def := if is_recurring
    then List.find (λ d, bool_decide (job_name_str (rd_job_name d) = jb_job_type job)) (recurring reg)
    else None in
  Some {| tk_job := job; tk_handler := h; tk_is_recurring := is_recurring;
          tk_policy := default Die (rd_failure_policy <$> def);
          tk_schedule := rd_schedule <$> def |}.

(** [as i32] of the capacity; a job without a handler is left as it is. *)
Definition capacity (cfg : JobRunnerConfig) (current : nat) : Z :=
  as_i32 (Z.of_nat (jr_max_concurrent_jobs cfg - current)).
Definition process_available (cfg : JobRunnerConfig) (reg : JobRegistry) (cancelled : bool)
    : M rworld AppError unit :=
  if cancelled then mret tt
  else
    current ← gets (λ w, in_flight w.2);
    let capacity := capacity cfg current in
    if capacity <=? 0 then mret tt
    else
      catch (on_db (on_pool (claim_batch capacity (jr_instance_id cfg))))
        (λ jobs,
          let new := omap (spawn reg) jobs in
          modify (λ w, (w.1, MkRunner (in_flight w.2 + length new) (tasks w.2 ++ new))))
        (λ _, mret tt).

Definition db_now {E} : M world E Z := gets (λ s, e_now (d_env s)).
(** An error that is only logged. *)
Definition noted {A} (m : M world AppError A) : M world AppError unit :=
  catch m (λ _, mret tt) (λ _, mret tt).
Definition reset_slot (id : Uuid) (schedule : option JobSchedule) : M world AppError unit :=
  match schedule with
  | Some s =>
      now ← db_now;
      next ← compute_next_run_at now s;
      noted (on_pool (reset_recurring id next))
  | None => mret tt
  end.

(** The body of a task. *)
Definition run_task (t : task) : M world AppError unit :=
  let job := tk_job t in
  let id := jb_id job in
  catch (jh_execute (tk_handler t) (jb_payload job) (jb_timeout_seconds job mod 2 ^ 64))
    (λ result,
      match result with
      | Some _ =>
          _ ← noted (on_pool (mark_completed id));
          reset_slot id (tk_schedule t)
      | None => mret tt
      end)
    (λ err,
      match err with
      | Transient msg =>
          _ ← noted (on_pool (mark_retry_or_failed id msg (jb_max_retries job)));
          if tk_is_recurring t && (jb_max_retries job <=? jb_attempts job) then
            match tk_policy t with
            | Die => mret tt
            | ResetToNext => reset_slot id (tk_schedule t)
            end
          else mret tt
      | Permanent msg => noted (on_pool (mark_dead_lettered id msg))
      end).

(** A task runs to its end, or panics: its guard gives its place back in any case. *)
Definition drop_guard (i : nat) (r : runner) : runner :=
  MkRunner (in_flight r - 1) (delete i (tasks r)).

(** *** The other loops *)

Definition stale_lock_tick (cfg : JobRunnerConfig) : M world AppError unit :=
  noted (on_pool (release_stale_locks (jr_stale_lock_timeout cfg))).
Fixpoint cleanup_tick (cfg : JobRunnerConfig) (cancelled : nat → bool) (i fuel : nat)
    : M world AppError unit :=
  match fuel with
  | O => mret tt
  | S fuel =>
      if cancelled i then mret tt
      else
        catch (on_pool (cleanup_completed (jr_cleanup_max_age cfg)))
          (λ n, match n with O => mret tt | _ => cleanup_tick cfg cancelled (S i) fuel end)
          (λ _, mret tt)
  end.
Definition seed_recurring_jobs (reg : JobRegistry) : M world AppError unit :=
  for_each (recurring reg) (λ def, noted (on_pool (seed_recurring_job def))).

(** The loops; the runner that [run] starts seeds the recurring jobs first. *)
Definition claim_and_execute_loop (cfg : JobRunnerConfig) (reg : JobRegistry) (cancelled : nat → bool)
    (listener : bool) (ws : list wake) : M rworld AppError unit :=
  wake_loop (λ i, process_available cfg reg (cancelled i)) 0 listener ws.
Definition stale_lock_recovery_loop (cfg : JobRunnerConfig) (ws : list wake) : M world AppError unit :=
  wake_loop (λ _, stale_lock_tick cfg) 0 false ws.
Definition cleanup_loop (cfg : JobRunnerConfig) (cancelled : nat → nat → bool) (fuel : nat) (ws : list wake)
    : M world AppError unit :=
  wake_loop (λ i, cleanup_tick cfg (cancelled i) 0 fuel) 0 false ws.
End runner.

(** ** The end of a runner: [drain] waits for the jobs in flight *)

(** Where [drain] is: before it reads the counter, between the counter and the creation of the
    [notified()] future, waiting for it or the deadline, or at its end. *)
Inductive drain_place : Type := DrainCheck | DrainArm | DrainWait | DrainDone | DrainTimeout.
(** The jobs in flight, the dropped guards that have not notified yet, and [drain]. *)
Record drain_state := DrainState { dr_in_flight : nat; dr_notifying : nat; dr_place : drain_place }.

(** The loops have ended, so no job starts. [fetch_sub] and [notify_waiters] of a dropped guard and
    the steps of [drain] interleave; a notification reaches only a future that exists. *)
Inductive drain_step : drain_state → drain_state → Prop :=
| guard_sub n m p : drain_step (DrainState (S n) m p) (DrainState n (S m) p)
| guard_notify n m p :
    drain_step (DrainState n (S m) p) (DrainState n m match p with DrainWait => DrainCheck | p => p end)
| drain_empty m : drain_step (DrainState 0 m DrainCheck) (DrainState 0 m DrainDone)
| drain_busy n m : drain_step (DrainState (S n) m DrainCheck) (DrainState (S n) m DrainArm)
| drain_arm n m : drain_step (DrainState n m DrainArm) (DrainState n m DrainWait)
| drain_deadline n m : drain_step (DrainState n m DrainWait) (DrainState n m DrainTimeout).
