(* ===== verification/JobProps.v ===== *)
(** * Persistent jobs: the table's invariant

    Identifiers and active deduplication keys stay unique, a job is locked exactly while it
    runs, every job moves along the legal transitions and keeps what it was enqueued with,
    and only completed jobs disappear - for every statement, and for the runner's programs. *)

From S2P Require Import Prelude RustStr Externals Errors Db Outbox Jobs JobRunner.

Local Open Scope Z_scope.

Section rows.
Context `{Externals, CronApi}.
Implicit Types (r : Job) (rows : list Job).

(** One legal change of status, as the trigger has it. *)
Definition legal (schedule : option string) (a b : JobStatus) : Prop :=
  match a, b with
  | JobPending, JobRunning | JobRunning, JobCompleted | JobRunning, JobFailed
  | JobRunning, JobDeadLettered | JobRunning, JobPending | JobPending, JobCancelled
  | JobDeadLettered, JobPending | JobFailed, JobPending => True
  | JobCompleted, JobPending => schedule ≠ None
  | _, _ => False
  end.

(** What a job is enqueued with. *)
Definition same_job r r' : Prop :=
  jb_id r' = jb_id r ∧ jb_job_type r' = jb_job_type r ∧ jb_payload r' = jb_payload r ∧
  jb_schedule r' = jb_schedule r ∧ jb_dedup_key r' = jb_dedup_key r ∧
  jb_max_retries r' = jb_max_retries r ∧ jb_timeout_seconds r' = jb_timeout_seconds r ∧
  jb_created_at r' = jb_created_at r.
Definition job_moves r r' : Prop :=
  same_job r r' ∧ rtc (legal (jb_schedule r)) (jb_status r) (jb_status r').

#[export] Instance job_moves_preorder : PreOrder job_moves.
Proof.
  unfold job_moves, same_job. split; [by intros r; split_and!|].
  intros r1 r2 r3 ((?&?&?&Es&?&?&?&?)&M1) ((?&?&?&?&?&?&?&?)&M2). rewrite Es in M2.
  split; [split_and!; congruence|]. by etrans.
Qed.

Lemma job_transition_legal r new u :
  job_transition r new = Ok u → rtc (legal (jb_schedule r)) (jb_status r) new.
Proof.
  unfold job_transition. case_decide as E; [by intros _; rewrite E|]. intros Ht.
  apply rtc_once. unfold legal. destruct (jb_status r), new; try done. by destruct (jb_schedule r).
Qed.

Lemma changed_job_ok now r st att err by_ at_ next r' :
  changed_job now r st att err by_ at_ next = Ok r' →
  job_moves r r' ∧ jb_status r' = st ∧ jb_attempts r' = att ∧ jb_last_error r' = err ∧
  jb_locked_by r' = by_ ∧ jb_locked_at r' = at_ ∧ jb_next_run_at r' = next ∧ jb_updated_at r' = now.
Proof.
  unfold changed_job. intros (u & Ht%job_transition_legal & Hr)%obind_ok. simplify_eq.
  split_and!; done.
Qed.

(** A final status is final. *)
Lemma completed_final r r' :
  job_moves r r' → jb_schedule r = None → jb_status r = JobCompleted → jb_status r' = JobCompleted.
Proof.
  intros [_ Hm] Hs Hst. rewrite Hs, Hst in Hm. inversion Hm as [|? b ? Hl]; [done|].
  by destruct b; destruct Hl.
Qed.
Lemma cancelled_final r r' :
  job_moves r r' → jb_status r = JobCancelled → jb_status r' = JobCancelled.
Proof.
  intros [_ Hm] Hst. rewrite Hst in Hm. inversion Hm as [|? b ? Hl]; [done|]. by destruct b.
Qed.

(** ** The invariant *)

(** The lock of a job: held exactly while it runs. *)
Definition lock_ok r : Prop :=
  match jb_status r with
  | JobRunning => jb_locked_by r ≠ None ∧ jb_locked_at r ≠ None
  | _ => jb_locked_by r = None ∧ jb_locked_at r = None
  end.
Definition jobs_ok rows : Prop :=
  NoDup (jb_id <$> rows) ∧ NoDup (omap active_key rows) ∧ Forall lock_ok rows.
(** Every job is still there, further on its way. *)
Definition kept rows rows' : Prop := ∀ r, r ∈ rows → ∃ r', r' ∈ rows' ∧ job_moves r r'.
(** The cleanup: every job is still there as it was, or was completed. *)
Definition swept rows rows' : Prop := ∀ r, r ∈ rows → r ∈ rows' ∨ jb_status r = JobCompleted.

#[export] Instance kept_preorder : PreOrder kept.
Proof.
  split; [intros rows r Hr; by exists r|].
  intros l1 l2 l3 H12 H23 r Hr. destruct (H12 r Hr) as (r2 & Hr2 & Hm).
  destruct (H23 r2 Hr2) as (r3 & Hr3 & Hm'). exists r3. split; [done|by etrans].
Qed.
#[export] Instance swept_preorder : PreOrder swept.
Proof.
  split; [intros rows r Hr; by left|].
  intros l1 l2 l3 H12 H23 r Hr. destruct (H12 r Hr) as [Hr2|?]; [by apply H23|by right].
Qed.

Lemma dedup_index_ok rows u : dedup_index rows = Ok u ↔ NoDup (omap active_key rows).
Proof. unfold dedup_index. destruct u. case_decide; naive_solver. Qed.

(** One row is replaced by its next state. *)
Definition row_moves r r' : Prop := job_moves r r' ∧ (lock_ok r → lock_ok r').

Lemma moved_job_ids rows rows' : Forall2 row_moves rows rows' → jb_id <$> rows' = jb_id <$> rows.
Proof.
  induction 1 as [|r r' l l' [[[Hid _] _] _] _ IH]; [done|]. rewrite !fmap_cons. by f_equal.
Qed.
Lemma moved_locks rows rows' : Forall2 row_moves rows rows' → Forall lock_ok rows → Forall lock_ok rows'.
Proof.
  induction 1 as [|r r' l l' [_ Hr] _ IH]; [done|]. intros [Hlr Hl]%Forall_cons. constructor; auto.
Qed.

Lemma moved_rows_ok rows rows' :
  Forall2 row_moves rows rows' → NoDup (omap active_key rows') → jobs_ok rows →
  jobs_ok rows' ∧ kept rows rows'.
Proof.
  intros Hm Hk (Hi & _ & Hl). split; [split_and!|].
  - by rewrite (moved_job_ids _ _ Hm).
  - done.
  - by eapply moved_locks.
  - intros r Hr. apply list_elem_of_lookup in Hr as [i Hi'].
    eapply Forall2_lookup_l in Hm as (r' & Hr' & [Hmv _]); [|exact Hi'].
    exists r'. split; [by eapply list_elem_of_lookup_2|done].
Qed.

Lemma deleted_rows_ok (p : Job → bool) n rows rows' k :
  (∀ r, p r = true → jb_status r = JobCompleted) →
  delete_upto n p rows = (rows', k) → jobs_ok rows → jobs_ok rows' ∧ swept rows rows'.
Proof.
  intros Hp Hd (Hi & Hk & Hl).
  assert (rows' `sublist_of` rows ∧ ∀ r, r ∈ rows → r ∈ rows' ∨ p r = true) as [Hsub Hin].
  { clear -Hd. revert n rows' k Hd. induction rows as [|r rows IH]; intros [|n] rows' k Hd;
      simpl in Hd; try by (simplify_eq; auto).
    destruct (p r) eqn:Ep.
    - destruct (delete_upto n p rows) as [l j] eqn:E. simplify_eq. apply IH in E as [Hs Hin].
      split; [by apply sublist_cons|]. intros x [->|Hx]%elem_of_cons; auto.
    - destruct (delete_upto (S n) p rows) as [l j] eqn:E. simplify_eq. apply IH in E as [Hs Hin].
      split; [by apply sublist_skip|]. intros x [->|Hx]%elem_of_cons; [left; by left|].
      destruct (Hin x Hx); [left; by right|by right]. }
  split; [split_and!|].
  - eapply sublist_NoDup; [exact Hi|]. by apply fmap_sublist.
  - eapply sublist_NoDup; [exact Hk|]. by apply sublist_omap.
  - rewrite Forall_forall in Hl. apply Forall_forall. intros r Hr. apply Hl.
    by eapply sublist_subseteq.
  - intros r Hr. destruct (Hin r Hr) as [?|Hd']; [by left|right; by apply Hp].
Qed.
End rows.

(** ** The statements *)

Section statements.
Context `{Externals, CronApi, !ScanOrder Job} {T : Type} `{!JobTables T}.
Implicit Types t : T.

(** The tables move along the life of the jobs; the cleanup. *)
Definition jobs_rel t t' : Prop :=
  jobs_ok (persistent_jobs t) →
  jobs_ok (persistent_jobs t') ∧ kept (persistent_jobs t) (persistent_jobs t').
#[export] Instance jobs_rel_preorder : PreOrder jobs_rel.
Proof.
  split; [intros t Hok; split; [done|reflexivity]|].
  intros t1 t2 t3 H12 H23 Hok. destruct (H12 Hok) as [Hok2 Hk]. destruct (H23 Hok2) as [Hok3 Hk'].
  split; [done|]. by etrans.
Qed.

Definition swept_rel t t' : Prop :=
  jobs_ok (persistent_jobs t) →
  jobs_ok (persistent_jobs t') ∧ swept (persistent_jobs t) (persistent_jobs t').
#[export] Instance swept_rel_preorder : PreOrder swept_rel.
Proof.
  split; [intros t Hok; split; [done|reflexivity]|].
  intros t1 t2 t3 H12 H23 Hok. destruct (H12 Hok) as [Hok2 Hk]. destruct (H23 Hok2) as [Hok3 Hk'].
  split; [done|]. by etrans.
Qed.

Lemma update_jobs_rel p f t n t' :
  (∀ r r', f r = Ok r' → row_moves r r') → update_jobs p f t = Ok (n, t') → jobs_rel t t'.
Proof.
  unfold update_jobs. intros Hf Hu Hok. apply obind_ok in Hu as ([k rows] & Hu & Hr).
  apply obind_ok in Hr as (u & Hk%dedup_index_ok & Hr). simplify_eq. rewrite jobs_set.
  apply update_checked_ok in Hu as [_ Hu]. apply moved_rows_ok; [|done|done].
  eapply Forall2_impl_in; [exact Hu|]. simpl. intros r r' _. destruct (p r); [by apply Hf|].
  intros ->. split; [reflexivity|done].
Qed.

(** The row functions of the statements. *)
Lemma changed_row_moves now r st att err next r' :
  st ≠ JobRunning → changed_job now r st att err None None next = Ok r' → row_moves r r'.
Proof.
  intros Hst (Hm & Es & _ & _ & Eb & Ea & _)%changed_job_ok. split; [done|]. intros _.
  unfold lock_ok. rewrite Es, Eb, Ea. by destruct st.
Qed.
Lemma running_row_moves inst now r r' : running_job inst now r = Ok r' → row_moves r r'.
Proof.
  unfold running_job. intros (a & _ & (Hm & Es & _ & _ & Eb & Ea & _)%changed_job_ok)%obind_ok.
  split; [done|]. intros _. unfold lock_ok. by rewrite Es, Eb, Ea.
Qed.
Lemma retried_row_moves error n now r r' : retried_job error n now r = Ok r' → row_moves r r'.
Proof. unfold retried_job. case_match; by apply changed_row_moves. Qed.

Lemma keeps_update_job id f :
  (∀ now r r', f now r = Ok r' → row_moves r r') →
  keeps (tables_rel jobs_rel) (update_job (T := T) id f).
Proof.
  intros Hf. apply keeps_map_err, keeps_exec; [typeclasses eauto|].
  intros now i t a t' (x & Hu & Hr)%obind_ok. destruct x as [n t1]. simplify_eq.
  eapply update_jobs_rel; [|exact Hu]. intros r r'. apply Hf.
Qed.

Lemma insert_job_rel ty p sch key mr ts now id t a t' :
  insert_job ty p sch key mr ts now id t = Ok (a, t') → jobs_rel t t'.
Proof.
  unfold insert_job. intros Hr (Hi & _ & Hl). inv_ok Hr. simplify_eq. rewrite jobs_set.
  match goal with Hu : unique _ _ _ = Ok _ |- _ => apply unique_ok in Hu; rename Hu into Hid end.
  match goal with Hd : dedup_index _ = Ok _ |- _ => apply dedup_index_ok in Hd; rename Hd into Hk end.
  split; [split_and!|].
  - apply NoDup_fmap_snoc; [done|]. simpl. eapply existsb_false_fmap; [|exact Hid].
    intros x. apply bool_decide_eq_true.
  - done.
  - apply Forall_app. split; [done|]. by apply Forall_singleton.
  - intros r Hr. exists r. split; [apply elem_of_app; by left|reflexivity].
Qed.

Lemma keeps_enqueue name p cfg : keeps (tables_rel jobs_rel) (enqueue_job (T := T) name p cfg).
Proof.
  apply keeps_map_err, keeps_exec; [typeclasses eauto|]. intros now id t a t'. apply insert_job_rel.
Qed.
Lemma keeps_seed def : keeps (tables_rel jobs_rel) (seed_recurring_job (T := T) def).
Proof.
  apply keeps_map_err, keeps_exec; [typeclasses eauto|]. intros now id t a t'. unfold seed_job.
  destruct (insert_job _ _ _ _ _ _ _ _ _) as [[b t1]|e|] eqn:Hi; [|..].
  - intros [= _ <-]. by eapply insert_job_rel.
  - destruct e; try done. repeat case_match; try done. intros [= _ <-]. reflexivity.
  - done.
Qed.
Lemma keeps_claim n inst : keeps (tables_rel jobs_rel) (claim_batch (T := T) n inst).
Proof.
  apply keeps_map_err, keeps_exec; [typeclasses eauto|].
  intros now id t a t' ([k t1] & Hu & Hr)%obind_ok. simplify_eq.
  eapply update_jobs_rel; [|exact Hu]. intros r r'. apply running_row_moves.
Qed.
Lemma keeps_completed id : keeps (tables_rel jobs_rel) (mark_completed (T := T) id).
Proof. apply keeps_update_job. intros now r r'. by apply changed_row_moves. Qed.
Lemma keeps_job_retry id e n : keeps (tables_rel jobs_rel) (mark_retry_or_failed (T := T) id e n).
Proof. apply keeps_update_job. intros now r r'. apply retried_row_moves. Qed.
Lemma keeps_dead id e : keeps (tables_rel jobs_rel) (mark_dead_lettered (T := T) id e).
Proof. apply keeps_update_job. intros now r r'. by apply changed_row_moves. Qed.
Lemma keeps_reset id next : keeps (tables_rel jobs_rel) (reset_recurring (T := T) id next).
Proof. apply keeps_update_job. intros now r r'. by apply changed_row_moves. Qed.
Lemma keeps_release secs : keeps (tables_rel jobs_rel) (release_stale_locks (T := T) secs).
Proof.
  apply keeps_map_err, keeps_exec; [typeclasses eauto|]. intros now id t a t'.
  apply update_jobs_rel. intros r r'. by apply changed_row_moves.
Qed.
Lemma keeps_cleanup secs : keeps (tables_rel swept_rel) (cleanup_completed (T := T) secs).
Proof.
  apply keeps_map_err, keeps_exec; [typeclasses eauto|]. intros now id t a t' Hd Hok.
  destruct (delete_upto _ _ _) as [rows k] eqn:E. simplify_eq. rewrite jobs_set.
  eapply deleted_rows_ok; [|exact E|done]. unfold is_old_job. intros r [Hst _]%andb_true_iff.
  by apply bool_decide_eq_true in Hst.
Qed.
End statements.
#[export] Hint Resolve keeps_enqueue keeps_seed keeps_claim keeps_completed keeps_job_retry keeps_dead
  keeps_reset keeps_release keeps_cleanup : keeps.
