(* ===== verification/JobTheorems.v ===== *)
(** * Persistent jobs: theorems

    Several runners, their crashes, the services that enqueue jobs and the maintenance loops,
    interleaved statement by statement for the claims and task by task for the handlers. *)

From S2P Require Import Prelude RustStr Externals Errors Db Outbox Jobs JobRunner JobProps.

Local Open Scope Z_scope.

Lemma length_omap_le {A B} (f : A → option B) l : (length (omap f l) ≤ length l)%nat.
Proof. induction l as [|x l IH]; simpl; [done|]. destruct (f x); [by apply le_n_S|by apply le_S]. Qed.

Section runs.
Context `{Externals, CronApi, !ScanOrder Job} {T X : Type} `{!JobTables T}.
Abbreviation world := (db T X).
Implicit Types s : world.
Context (cfg : nat → JobRunnerConfig) (reg : JobRegistry (T := T) (X := X)).

(** What is required of a handler: it changes jobs only along their life (it may enqueue
    some), and it may change everything else. *)
Definition handler_ok (h : JobHandler (T := T) (X := X)) : Prop :=
  ∀ payload timeout, keeps (db_rel jobs_rel) (jh_execute h payload timeout).

(** The database, and the runners: the [i]-th is configured by [cfg i]. *)
Inductive job_step : world * list (runner (T := T) (X := X)) →
    world * list (runner (T := T) (X := X)) → Prop :=
| claim_step i cancelled o r r' s s' rs :
    rs !! i = Some r → process_available (cfg i) reg cancelled (s, r) = (o, (s', r')) →
    job_step (s, rs) (s', <[i := r']> rs)
| task_step i j o t r s s' rs :
    rs !! i = Some r → tasks r !! j = Some t → run_task t s = (o, s') →
    job_step (s, rs) (s', <[i := drop_guard j r]> rs)
| crash_step i s rs : job_step (s, rs) (s, <[i := MkRunner 0 []]> rs)
| stale_step i o s s' rs : stale_lock_tick (cfg i) s = (o, s') → job_step (s, rs) (s', rs)
| cleanup_step i cancelled fuel o s s' rs :
    cleanup_tick (cfg i) cancelled 0 fuel s = (o, s') → job_step (s, rs) (s', rs)
| seed_step o s s' rs : seed_recurring_jobs reg s = (o, s') → job_step (s, rs) (s', rs)
| enqueue_step name payload c o s s' rs :
    on_pool (enqueue_job name payload c) s = (o, s') → job_step (s, rs) (s', rs)
| clock_step now s rs : job_step (s, rs) (at_time now s, rs).

(** *** The database side *)

Lemma keeps_noted {A} (m : M world AppError A) :
  keeps (db_rel jobs_rel) m → keeps (db_rel jobs_rel) (noted m).
Proof. intros Hm. unfold noted. apply keeps_catch; [typeclasses eauto|done|..]; keeps_tac. Qed.

Lemma keeps_reset_slot id sched : keeps (db_rel jobs_rel) (reset_slot (T := T) (X := X) id sched).
Proof.
  unfold reset_slot. destruct sched as [sc|]; [|keeps_tac].
  apply keeps_bind; [typeclasses eauto|unfold db_now; keeps_tac|]. intros now.
  apply keeps_bind; [typeclasses eauto| |].
  - unfold compute_next_run_at. keeps_tac.
  - intros next. apply keeps_noted, keeps_on_pool, keeps_reset.
Qed.

Lemma keeps_run_task t : handler_ok (tk_handler t) → keeps (db_rel jobs_rel) (run_task t).
Proof.
  intros Hh. unfold run_task. apply keeps_catch; [typeclasses eauto|apply Hh| |].
  - intros [u|]; [|keeps_tac]. apply keeps_bind; [typeclasses eauto| |intros _; apply keeps_reset_slot].
    apply keeps_noted, keeps_on_pool, keeps_completed.
  - intros [msg|msg]; [|apply keeps_noted, keeps_on_pool, keeps_dead].
    apply keeps_bind; [typeclasses eauto|apply keeps_noted, keeps_on_pool, keeps_job_retry|].
    intros _. destruct (_ && _); [|keeps_tac]. destruct (tk_policy t); [keeps_tac|].
    apply keeps_reset_slot.
Qed.

Lemma keeps_stale_tick c : keeps (db_rel jobs_rel) (stale_lock_tick (T := T) (X := X) c).
Proof. apply keeps_noted, keeps_on_pool, keeps_release. Qed.
Lemma keeps_cleanup_tick c cancelled i fuel :
  keeps (db_rel swept_rel) (cleanup_tick (T := T) (X := X) c cancelled i fuel).
Proof.
  revert i. induction fuel as [|fuel IH]; intros i; simpl; [keeps_tac|].
  destruct (cancelled i); [keeps_tac|].
  apply keeps_catch; [typeclasses eauto|apply keeps_on_pool, keeps_cleanup| |keeps_tac].
  intros [|n]; [keeps_tac|apply IH].
Qed.
Lemma keeps_seed_all : keeps (db_rel jobs_rel) (seed_recurring_jobs reg).
Proof.
  apply keeps_for_each; [typeclasses eauto|]. intros def _. apply keeps_noted, keeps_on_pool, keeps_seed.
Qed.

(** *** The runner side: a place is counted for every task *)

Definition runner_ok (i : nat) (r : runner (T := T) (X := X)) : Prop :=
  in_flight r = length (tasks r) ∧ (in_flight r ≤ jr_max_concurrent_jobs (cfg i))%nat ∧
  Forall (λ t, ∃ k, handlers reg !! k = Some (tk_handler t)) (tasks r).

Lemma as_i32_le z : 0 ≤ z → 0 < as_i32 z → as_i32 z ≤ z.
Proof.
  unfold as_i32. intros Hz Hp.
  pose proof (Z.div_mod (z + 2 ^ 31) (2 ^ 32) ltac:(lia)).
  pose proof (Z.mod_pos_bound (z + 2 ^ 31) (2 ^ 32) ltac:(lia)).
  pose proof (Z.div_pos (z + 2 ^ 31) (2 ^ 32) ltac:(lia) ltac:(lia)). lia.
Qed.

(** How many jobs a claim answers. *)
Lemma claimed_length n inst now id t es t' :
  jobs_ok (persistent_jobs t) → claim_jobs (T := T) n inst now id t = Ok (es, t') → (length es ≤ n)%nat.
Proof.
  unfold claim_jobs. intros Hok ([k t1] & Hu & Hr)%obind_ok. simplify_eq.
  destruct (update_jobs_rel _ _ _ _ _ (running_row_moves inst now) Hu Hok) as [(Hid & _) _].
  set (ids := jb_id <$> claimable now n (persistent_jobs t)).
  assert (length (jb_id <$> List.filter (λ r, bool_decide (jb_id r ∈ ids)) (persistent_jobs t'))
    ≤ length ids)%nat as Hle.
  { apply submseteq_length, NoDup_submseteq.
    - eapply sublist_NoDup; [exact Hid|]. apply fmap_sublist, filter_sublist.
    - intros x (r & -> & Hr)%list_elem_of_fmap. apply list_elem_of_In, filter_In in Hr as [_ Hr].
      by apply bool_decide_eq_true in Hr. }
  rewrite length_fmap in Hle. etrans; [exact Hle|]. unfold ids. rewrite length_fmap.
  apply firstn_le_length.
Qed.

Lemma spawned_handlers jobs :
  Forall (λ t, ∃ k, handlers reg !! k = Some (tk_handler t)) (omap (spawn reg) jobs).
Proof.
  apply Forall_forall. intros t (j & _ & Hs)%list_elem_of_omap. unfold spawn in Hs.
  destruct (registry_get reg (jb_job_type j)) as [h|] eqn:Eh; simpl in Hs; [|done].
  injection Hs as <-. by exists (jb_job_type j).
Qed.

Lemma claim_step_ok i cancelled o r r' s s' :
  jobs_ok (persistent_jobs (d_committed s)) → runner_ok i r →
  process_available (cfg i) reg cancelled (s, r) = (o, (s', r')) →
  db_rel jobs_rel s s' ∧ runner_ok i r'.
Proof.
  intros Hok (Hn & Hmax & Hh). unfold process_available.
  assert (db_rel jobs_rel s s) as Hrefl by reflexivity.
  destruct cancelled; [by intros [= _ <- <-]|]. unfold mbind, M_bind, gets. simpl.
  destruct (Z.leb_spec (capacity (cfg i) (in_flight r)) 0) as [|Hc]; [by intros [= _ <- <-]|].
  unfold catch, on_db, zoom. simpl. destruct (on_pool _ s) as [o1 s1] eqn:Hr.
  assert (db_rel jobs_rel s s1) as Hrel by (eapply keeps_on_pool; [apply keeps_claim|exact Hr]).
  destruct o1 as [jobs|e|]; intros [= _ <- <-]; [|done..]. split; [done|].
  apply on_pool_ok in Hr as (c' & Hr & _). unfold claim_batch in Hr.
  apply map_err_ok, exec_ok in Hr as (_ & _ & _ & id & Hr). simpl in Hr.
  apply claimed_length in Hr; [|done]. pose proof (length_omap_le (spawn reg) jobs).
  unfold capacity in *. pose proof (as_i32_le (Z.of_nat (jr_max_concurrent_jobs (cfg i) - in_flight r))).
  split_and!; simpl.
  - rewrite length_app. lia.
  - lia.
  - apply Forall_app. split; [done|apply spawned_handlers].
Qed.

(** *** Runs *)

Definition sys_ok (c : world * list (runner (T := T) (X := X))) : Prop :=
  jobs_ok (persistent_jobs (d_committed c.1)) ∧ ∀ i r, c.2 !! i = Some r → runner_ok i r.

Lemma drop_guard_ok i j r t : runner_ok i r → tasks r !! j = Some t → runner_ok i (drop_guard j r).
Proof.
  intros (Hn & Hmax & Hh) Ht. split_and!; simpl; [|lia|by apply Forall_delete].
  rewrite length_delete by done. lia.
Qed.

Lemma insert_runner_ok i r' (rs : list (runner (T := T) (X := X))) :
  runner_ok i r' → (∀ k r, rs !! k = Some r → runner_ok k r) →
  ∀ k r, <[i := r']> rs !! k = Some r → runner_ok k r.
Proof.
  intros Hr' Hrs k r. rewrite list_lookup_insert_Some. intros [(-> & <- & _)|[_ Hk]]; auto.
Qed.

Lemma job_step_ok c c' :
  (∀ k h, handlers reg !! k = Some h → handler_ok h) → job_step c c' → sys_ok c →
  sys_ok c' ∧ (db_rel jobs_rel c.1 c'.1 ∨ db_rel swept_rel c.1 c'.1).
Proof.
  intros Hh Hstep [Hok Hrs].
  assert (∀ s' rs', db_rel jobs_rel c.1 s' ∨ db_rel swept_rel c.1 s' →
    (∀ i r, rs' !! i = Some r → runner_ok i r) →
    sys_ok (s', rs') ∧ (db_rel jobs_rel c.1 s' ∨ db_rel swept_rel c.1 s')) as Hend.
  { intros s' rs' Hrel Hrs'. split; [split; [|done]|done].
    destruct Hrel as [Hrel|Hrel]; by apply Hrel in Hok as [? _]. }
  destruct Hstep as [i cancelled o r r' s s' rs Hi Hr|i j o t r s s' rs Hi Hj Hr|i s rs|i o s s' rs Hr|
    i cancelled fuel o s s' rs Hr|o s s' rs Hr|name payload c o s s' rs Hr|now s rs]; simpl in *;
    apply Hend.
  - left. by eapply claim_step_ok in Hr as [? _]; [|done|auto].
  - eapply claim_step_ok in Hr as [_ ?]; [|done|auto]. by apply insert_runner_ok.
  - left. pose proof (Hrs _ _ Hi) as (_ & _ & Ht). rewrite Forall_forall in Ht.
    destruct (Ht t) as [k Hk]; [by eapply list_elem_of_lookup_2|].
    eapply keeps_run_task; [by eapply Hh|exact Hr].
  - apply insert_runner_ok; [|done]. eapply drop_guard_ok; [by apply Hrs|exact Hj].
  - left. reflexivity.
  - apply insert_runner_ok; [|done]. split_and!; [done|simpl; lia|constructor].
  - left. by eapply keeps_stale_tick.
  - done.
  - right. by eapply keeps_cleanup_tick.
  - done.
  - left. by eapply keeps_seed_all.
  - done.
  - left. eapply keeps_on_pool; [apply keeps_enqueue|exact Hr].
  - done.
  - left. unfold db_rel, at_time. simpl. reflexivity.
  - done.
Qed.

(** A job is still there, with its status if that is final, or was completed on the way. *)
Definition final r : Prop :=
  jb_status r = JobCancelled ∨ jb_status r = JobCompleted ∧ jb_schedule r = None.
Definition lives_on c c' r : Prop :=
  (∃ r', r' ∈ persistent_jobs (d_committed c'.1) ∧ job_moves r r' ∧
     (final r → jb_status r' = jb_status r)) ∨
  ∃ c1 r1, rtc job_step c c1 ∧ rtc job_step c1 c' ∧
    r1 ∈ persistent_jobs (d_committed c1.1) ∧ job_moves r r1 ∧ jb_status r1 = JobCompleted.

Lemma job_run_ok c c' :
  (∀ k h, handlers reg !! k = Some h → handler_ok h) → rtc job_step c c' → sys_ok c →
  sys_ok c' ∧ ∀ r, r ∈ persistent_jobs (d_committed c.1) → lives_on c c' r.
Proof.
  intros Hh. induction 1 as [c|c1 c2 c3 Hs Hrun IH]; intros Hok.
  { split; [done|]. intros r Hr. left. by exists r. }
  assert (∀ r r', job_moves r r' → final r → jb_status r' = jb_status r) as Hfinal.
  { intros r r' Hm [Hst|[Hst Hn]]; rewrite Hst; [by eapply cancelled_final|by eapply completed_final]. }
  pose proof Hs as Hstep. eapply job_step_ok in Hstep as [Hok2 Hr]; [|done|done].
  destruct (IH Hok2) as [Hok3 Hl]. split; [done|]. intros r Hin.
  assert ((∃ r2, r2 ∈ persistent_jobs (d_committed c2.1) ∧ job_moves r r2) ∨
    jb_status r = JobCompleted) as [(r2 & Hr2 & Hm)|Hc].
  { destruct Hr as [Hr|Hr]; destruct (Hr (proj1 Hok)) as [_ Hk]; [left; by apply Hk|].
    destruct (Hk r Hin) as [?|?]; [left; by exists r|by right]. }
  - destruct (Hl r2 Hr2) as [(r3 & Hr3 & Hm' & _)|(c' & r' & Hr1 & Hr' & Hin' & Hm' & Hc)].
    + left. exists r3. assert (job_moves r r3) by by etrans. split_and!; [done|done|by apply Hfinal].
    + right. exists c', r'. split_and!; [by eapply rtc_l|done|done|by etrans|done].
  - right. exists c1, r. split_and!; [done|by eapply rtc_l|done|reflexivity|done].
Qed.

(** C26: The life of a job. Whatever runners claim, finish, crash, and whatever services enqueue,
    in whatever order and with whatever failures: at most one pending or running job has a
    given type and deduplication key; a job is locked, with the time of the lock, exactly while
    it runs, so the recovery of stale locks can always free it; every job stays in the table,
    with what it was enqueued with, and moves only along the legal transitions, unless it has
    been completed on the way. A cancelled job, and a completed one that does not recur, is
    never run again. *)
Theorem job_lifecycle s rs s' rs' :
  (∀ k h, handlers reg !! k = Some h → handler_ok h) →
  rtc job_step (s, rs) (s', rs') → sys_ok (s, rs) →
  jobs_ok (persistent_jobs (d_committed s')) ∧
  ∀ r, r ∈ persistent_jobs (d_committed s) → lives_on (s, rs) (s', rs') r.
Proof. intros Hh Hrun Hok. by destruct (job_run_ok _ _ Hh Hrun Hok) as [[Hok' _] Hl]. Qed.

(** A runner never runs more jobs than it may: its counter is the number of its tasks, whose
    guards give their places back, and it is at most [max_concurrent_jobs] - also when the
    capacity does not fit the 32 bits it is cast to. *)
Theorem runner_capacity s rs s' rs' i r :
  (∀ k h, handlers reg !! k = Some h → handler_ok h) →
  rtc job_step (s, rs) (s', rs') → sys_ok (s, rs) → rs' !! i = Some r →
  in_flight r = length (tasks r) ∧ (length (tasks r) ≤ jr_max_concurrent_jobs (cfg i))%nat.
Proof.
  intros Hh Hrun Hok Hi. destruct (job_run_ok _ _ Hh Hrun Hok) as [[_ Hrs] _].
  destruct (Hrs i r Hi) as (Hn & Hmax & _). by rewrite <-Hn.
Qed.

(** The loops of the [i]-th runner, however they are woken, only take these steps. *)
Lemma job_loop_steps {S} (f : S → world * list (runner (T := T) (X := X))) (body : nat → M S AppError unit) k listener ws x o x' :
  (∀ k x o x', body k x = (o, x') → rtc job_step (f x) (f x')) →
  wake_loop body k listener ws x = (o, x') → rtc job_step (f x) (f x').
Proof.
  intros Hb. revert x o x'. set (R x x' := rtc job_step (f x) (f x')).
  assert (PreOrder R) by (split; [intros x; apply rtc_refl|intros x y z; unfold R; apply transitivity]).
  exact (keeps_wake_loop R body k listener ws Hb).
Qed.
Theorem job_loops_are_steps i r rs s :
  rs !! i = Some r →
  (∀ cancelled listener ws o s' r',
     claim_and_execute_loop (cfg i) reg cancelled listener ws (s, r) = (o, (s', r')) →
     rtc job_step (s, rs) (s', <[i := r']> rs)) ∧
  (∀ ws o s', stale_lock_recovery_loop (cfg i) ws s = (o, s') → rtc job_step (s, rs) (s', rs)) ∧
  (∀ cancelled fuel ws o s', cleanup_loop (cfg i) cancelled fuel ws s = (o, s') → rtc job_step (s, rs) (s', rs)).
Proof.
  intros Hi. split_and!.
  - intros cancelled listener ws o s' r' Hr.
    apply (job_loop_steps (λ x, (x.1, <[i := x.2]> rs))) in Hr; [|clear Hr].
    { simpl in Hr. by rewrite list_insert_id in Hr. }
    intros k [x t] o1 [x' t'] Hr. simpl.
    apply rtc_once. rewrite <-(list_insert_insert_eq rs i t' t). eapply claim_step; [|exact Hr].
    apply list_lookup_insert_eq. by eapply lookup_lt_Some.
  - intros ws o s' Hr. apply (job_loop_steps (λ x, (x, rs))) in Hr; [exact Hr|].
    intros k x o1 x' Ht. by eapply rtc_once, stale_step.
  - intros cancelled fuel ws o s' Hr. apply (job_loop_steps (λ x, (x, rs))) in Hr; [exact Hr|].
    intros k x o1 x' Ht. by eapply rtc_once, cleanup_step.
Qed.
End runs.

(** ** The shutdown *)

Definition drain_measure (d : drain_state) : nat :=
  4 * dr_in_flight d + 3 * dr_notifying d +
  match dr_place d with DrainCheck => 3 | DrainArm => 2 | DrainWait => 1 | _ => 0 end.

Lemma drain_step_decreases d d' : drain_step d d' → (drain_measure d' < drain_measure d)%nat.
Proof. unfold drain_measure. destruct 1; simpl; try lia. destruct p; lia. Qed.
Lemma drained_empty d d' : rtc drain_step d d' →
  (dr_place d = DrainDone → dr_in_flight d = 0%nat) → dr_place d' = DrainDone → dr_in_flight d' = 0%nat.
Proof.
  induction 1 as [d|d d1 d' Hs _ IH]; intros Hd; [done|]. apply IH.
  destruct Hs as [n m p|n m p| | | |]; simpl in *; try done; [intros ->; by specialize (Hd eq_refl)|].
  by destruct p.
Qed.

(** The shutdown of a runner ends: no run of [drain] and the guards is infinite, and where none of
    them can go on every guard is gone and [drain] has returned, without a job in flight or at the
    deadline. But the last guard may fall between the test of the counter and the registration:
    then nothing is in flight any more and yet only the deadline wakes [drain]. *)
Theorem drain_ends n :
  let start := DrainState n 0 DrainCheck in
  well_founded (flip drain_step) ∧
  (∀ d, rtc drain_step start d → dr_place d = DrainDone → dr_in_flight d = 0%nat) ∧
  (∀ d, rtc drain_step start d → (∀ d', ¬ drain_step d d') →
     dr_in_flight d = 0%nat ∧ dr_notifying d = 0%nat ∧ (dr_place d = DrainDone ∨ dr_place d = DrainTimeout)) ∧
  ((0 < n)%nat → rtc drain_step start (DrainState 0 0 DrainWait) ∧
     ∀ d, drain_step (DrainState 0 0 DrainWait) d → dr_place d = DrainTimeout).
Proof.
  split_and!.
  - apply (wf_projected (<)%nat drain_measure); [|apply lt_wf]. intros d d'. apply drain_step_decreases.
  - intros d Hr. by apply (drained_empty _ _ Hr).
  - intros [i m p] _ Hstuck. simpl.
    destruct i as [|i]; [|by destruct (Hstuck _ (guard_sub i m p))].
    destruct m as [|m]; [|by destruct (Hstuck _ (guard_notify 0 m p))].
    destruct p; [by destruct (Hstuck _ (drain_empty 0))|by destruct (Hstuck _ (drain_arm 0 0))
                |by destruct (Hstuck _ (drain_deadline 0 0))|auto..].
  - intros Hn. split; [|by inversion 1].
    assert (∀ k, rtc drain_step (DrainState k 0 DrainArm) (DrainState 0 0 DrainArm)) as Hgone.
    { induction k as [|k IH]; [reflexivity|].
      eapply rtc_l; [apply guard_sub|]. eapply rtc_l; [apply guard_notify|]. apply IH. }
    destruct n as [|n]; [lia|]. eapply rtc_l; [apply drain_busy|]. etrans; [apply Hgone|].
    apply rtc_once, drain_arm.
Qed.
