(* ===== verification/JobResults.v ===== *)
(** * Persistent jobs: claims and results

    What one claim takes, and the row every result of a handler leaves, as a function of the
    claimed row. *)

From S2P Require Import Prelude RustStr Externals Errors Db Outbox Jobs JobRunner JobProps.

Local Open Scope Z_scope.

(** ** Job names *)

Lemma JobName_new_ok s n :
  JobName_new s = Ok n →
  job_name_str n = trim s ∧ (0 < str_len (trim s) ≤ 255)%nat ∧
  forallb is_job_char (bytes (trim s)) = true ∧ existsb is_dot (bytes (trim s)) = true ∧
  consecutive_dots (bytes (trim s)) = false ∧ ends_in_dot (bytes (trim s)) = false.
Proof.
  unfold JobName_new. destruct (is_empty (trim s)) eqn:He; [done|].
  destruct (Nat.ltb_spec 255 (str_len (trim s))); [done|].
  destruct (forallb _ _) eqn:Hc; [|done]. destruct (existsb _ _) eqn:Hd; [|done]. simpl.
  destruct (_ || _) eqn:Hs; [done|]. destruct (consecutive_dots _) eqn:Hcd; [done|].
  intros [= <-]. apply orb_false_iff in Hs as [_ Hs]. split_and!; try done.
  destruct (trim s); simpl in *; [done|]. unfold str_len. simpl. lia.
Qed.

(** A job name is accepted as it is by the constructor that made it. *)
Lemma JobName_new_idem s n : JobName_new s = Ok n → JobName_new (job_name_str n) = Ok n.
Proof.
  intros Hn. pose proof (JobName_new_ok s n Hn) as (E & _). rewrite E.
  unfold JobName_new in *. rewrite trim_trim. exact Hn.
Qed.

(** ** Claims *)

Lemma filter_update_where {A} (p : A → bool) (f : A → A) l :
  (∀ x, p (f x) = p x) → List.filter p (update_where p f l) = f <$> List.filter p l.
Proof.
  intros Hp. unfold update_where. induction l as [|x l IH]; [done|]. simpl.
  destruct (p x) eqn:E; simpl; rewrite ?Hp, E; [f_equal|]; exact IH.
Qed.

Lemma Forall2_fun {A B} (f : A → B) l k : Forall2 (λ x y, y = f x) l k → k = f <$> l.
Proof. induction 1 as [|x y l k -> _ IH]; [done|]. by rewrite fmap_cons, IH. Qed.

Section claims.
Context `{Externals, CronApi, !ScanOrder Job} {T X : Type} `{!JobTables T}.
Implicit Types (r e : Job) (rows : list Job).

(** The row a claim makes of a pending one. *)
Definition claimed_row (inst : string) (now : Z) r : Job :=
  MkJob (jb_id r) (jb_job_type r) (jb_payload r) JobRunning (jb_schedule r) (jb_dedup_key r)
    (jb_max_retries r) (jb_timeout_seconds r) (jb_attempts r + 1) (jb_last_error r) (Some inst)
    (Some now) (jb_next_run_at r) (jb_created_at r) now.

Definition job_claimed (now : Z) (n : nat) (inst : string) (rows es rows' : list Job) : Prop :=
  (length es ≤ n)%nat ∧ jb_id <$> rows' = jb_id <$> rows ∧
  (∀ e, e ∈ es → e ∈ rows' ∧ ∃ r, r ∈ rows ∧ e = claimed_row inst now r ∧
     jb_status r = JobPending ∧ jb_next_run_at r ≤ now) ∧
  (∀ r, r ∈ rows → jb_id r ∉ (jb_id <$> es) → r ∈ rows') ∧
  ((∀ l, skip_locked l = l) → ∀ r e, r ∈ rows → jb_status r = JobPending → jb_next_run_at r ≤ now →
     jb_id r ∉ (jb_id <$> es) → length es = n ∧ (e ∈ es → jb_next_run_at e ≤ jb_next_run_at r)).

Lemma is_runnable_iff now r :
  is_runnable now r = true ↔ jb_status r = JobPending ∧ jb_next_run_at r ≤ now.
Proof. unfold is_runnable. rewrite andb_true_iff, bool_decide_eq_true, Z.leb_le. done. Qed.

Lemma runnable_order now rows :
  order_by jb_next_run_at (sort_scan (List.filter (is_runnable now) rows)) ≡ₚ
    List.filter (is_runnable now) rows.
Proof. by rewrite order_by_perm, sort_scan_perm. Qed.

Lemma claimable_sub now n rows : claimable now n rows ⊆+ List.filter (is_runnable now) rows.
Proof.
  rewrite <-(runnable_order now rows). apply sublist_submseteq.
  etrans; [apply sublist_take|apply skip_locked_sub].
Qed.

(** Jobs that are left out wait for jobs that are due no later. *)
Lemma claimable_first now n rows r :
  (∀ l, skip_locked l = l) → r ∈ rows → is_runnable now r = true → r ∉ claimable now n rows →
  length (claimable now n rows) = n ∧
  ∀ r', r' ∈ claimable now n rows → jb_next_run_at r' ≤ jb_next_run_at r.
Proof.
  intros Hskip Hr Hrun Hni. unfold claimable in *. rewrite Hskip in *.
  set (l := order_by _ _) in *.
  assert (r ∈ l) as Hl by (unfold l; rewrite runnable_order; apply list_elem_of_In, filter_In;
    by rewrite <-list_elem_of_In).
  pose proof (order_by_sorted jb_next_run_at (sort_scan (List.filter (is_runnable now) rows))) as Hs.
  fold l in Hs. rewrite <-(take_drop n l) in Hl, Hs. apply elem_of_app in Hl as [?|Hl]; [done|].
  split.
  - rewrite length_take. assert (0 < length (drop n l))%nat as Hd.
    { destruct (drop n l); [by apply not_elem_of_nil in Hl|simpl; lia]. }
    rewrite length_drop in Hd. lia.
  - intros r' Hr'. by eapply StronglySorted_app_1_elem_of in Hs.
Qed.

Lemma running_job_row inst now r r' :
  running_job inst now r = Ok r' → jb_status r = JobPending → r' = claimed_row inst now r.
Proof.
  unfold running_job, changed_job. intros (a & [-> _]%int4_ok & (u & _ & Hr)%obind_ok)%obind_ok _.
  by simplify_eq.
Qed.

Lemma claim_jobs_claimed now n inst id t es t' :
  NoDup (jb_id <$> persistent_jobs t) → claim_jobs n inst now id t = Ok (es, t') →
  job_claimed now n inst (persistent_jobs t) es (persistent_jobs t').
Proof.
  unfold claim_jobs. set (rows := persistent_jobs t). set (taken := claimable now n rows).
  intros Hid ([k t1] & Hu & Hr)%obind_ok. simplify_eq.
  unfold update_jobs in Hu. apply obind_ok in Hu as ([k' rows'] & Hu & Hd).
  apply obind_ok in Hd as (u & _ & Hd). simplify_eq. rewrite jobs_set.
  apply update_checked_ok in Hu as [_ Hu]. fold rows in Hu.
  set (p := λ r, bool_decide (jb_id r ∈ jb_id <$> taken)) in *.
  change (Forall2 (λ r r', if p r then running_job inst now r = Ok r' else r' = r) rows rows') in Hu.
  assert (∀ r, r ∈ taken → r ∈ rows ∧ is_runnable now r = true) as Hsub.
  { intros r Hr. eapply elem_of_submseteq in Hr; [|apply claimable_sub].
    apply list_elem_of_In, filter_In in Hr. by rewrite <-list_elem_of_In in Hr. }
  assert (∀ r, r ∈ rows → p r = true ↔ r ∈ taken) as Hp.
  { intros r Hin. unfold p. rewrite bool_decide_eq_true. split; [|apply list_elem_of_fmap_2].
    intros (r0 & E & Hr0)%list_elem_of_fmap. replace r with r0; [done|].
    eapply NoDup_fmap_inj_in; [exact Hid| |done|done]. by apply Hsub. }
  assert (rows' = update_where p (claimed_row inst now) rows) as ->.
  { apply (Forall2_fun (λ r, if p r then claimed_row inst now r else r)).
    eapply Forall2_impl_in; [exact Hu|]. simpl. intros r r' Hin. destruct (p r) eqn:Epr; [|done].
    intros Hrow. apply Hp in Epr; [|done]. apply Hsub in Epr as [_ [Hst _]%is_runnable_iff].
    by eapply running_job_row. }
  rewrite filter_update_where by done.
  assert (List.filter p rows ≡ₚ taken) as Hperm.
  { pose proof (NoDup_fmap_1 _ _ Hid) as Hnd. apply NoDup_Permutation.
    - eapply sublist_NoDup; [exact Hnd|]. apply filter_sublist.
    - eapply submseteq_NoDup; [|apply claimable_sub]. eapply sublist_NoDup; [exact Hnd|].
      apply filter_sublist.
    - intros r. rewrite list_elem_of_In, filter_In, <-list_elem_of_In. split.
      + intros [Hin Hpr]. by apply Hp in Hpr.
      + intros Hr. pose proof (Hsub r Hr) as [Hin _]. split; [done|by apply Hp]. }
  assert (∀ r, r ∈ rows → jb_id r ∉ (jb_id <$> (claimed_row inst now <$> List.filter p rows)) →
    r ∉ taken) as Hni.
  { intros r Hin Hni Hr. apply Hni. rewrite <-list_fmap_compose, Hperm.
    apply list_elem_of_fmap. by exists r. }
  unfold job_claimed. rewrite length_fmap. split_and!.
  - rewrite Hperm. unfold taken, claimable. apply firstn_le_length.
  - by apply fmap_update_where.
  - intros e (r & -> & Hr)%list_elem_of_fmap. rewrite Hperm in Hr.
    pose proof (Hsub r Hr) as [Hin [Hst Hnow]%is_runnable_iff]. split; [|by exists r].
    apply elem_of_update_where. exists r. split; [done|]. by rewrite (proj2 (Hp r Hin) Hr).
  - intros r Hin Hnr%Hni; [|done]. apply elem_of_update_where. exists r. split; [done|].
    destruct (p r) eqn:Epr; [|done]. by apply Hp in Epr.
  - intros Hskip r e Hin Hst Hnow Hnr%Hni; [|done].
    destruct (claimable_first now n rows r Hskip Hin (proj2 (is_runnable_iff _ _) (conj Hst Hnow)) Hnr)
      as [Hn Hmin].
    split; [by rewrite Hperm|]. intros (r' & -> & Hr')%list_elem_of_fmap. rewrite Hperm in Hr'.
    exact (Hmin r' Hr').
Qed.

Lemma claim_batch_spec n inst (s : db T X) es s' :
  NoDup (jb_id <$> persistent_jobs (d_committed s)) →
  on_pool (claim_batch n inst) s = (Ok es, s') →
  job_claimed (e_now (d_env s)) (Z.to_nat n) inst (persistent_jobs (d_committed s)) es
    (persistent_jobs (d_committed s')).
Proof.
  intros Hid (c' & Hr & -> & _)%on_pool_ok. unfold claim_batch in Hr.
  apply map_err_ok, exec_ok in Hr as (_ & _ & _ & i & Hc). simpl in Hc.
  by eapply claim_jobs_claimed.
Qed.

(** A claim takes at most as many jobs as it asks for; each was pending and due, and is now
    running, locked by the runner, with one more attempt; no other job changes. No due job is
    left out for one that was due later, unless another transaction holds its row. Another
    claim, by any runner and at any later time, takes none of the claimed jobs while they
    run. *)
Theorem job_claim_exclusive n1 inst1 (s : db T X) es1 s1 now n2 inst2 es2 s2 :
  NoDup (jb_id <$> persistent_jobs (d_committed s)) →
  on_pool (claim_batch n1 inst1) s = (Ok es1, s1) →
  on_pool (claim_batch n2 inst2) (at_time now s1) = (Ok es2, s2) →
  job_claimed (e_now (d_env s)) (Z.to_nat n1) inst1 (persistent_jobs (d_committed s)) es1
    (persistent_jobs (d_committed s1)) ∧
  ∀ e, e ∈ es1 → jb_id e ∉ (jb_id <$> es2).
Proof.
  intros Hid Hr1%claim_batch_spec Hr2; [|done]. split; [done|].
  destruct Hr1 as (_ & Hids & Htaken & _).
  apply claim_batch_spec in Hr2 as (_ & _ & Htaken2 & _); [|simpl; by rewrite Hids].
  intros e [He (r & _ & Eq & _)]%Htaken (e2 & E2 & He2)%list_elem_of_fmap.
  apply Htaken2 in He2 as (_ & r2 & Hr2 & -> & Hst & _). simpl in Hr2, E2.
  assert (e = r2) as ->; [|by subst].
  eapply NoDup_fmap_inj_in; [|exact He|exact Hr2|done]. by rewrite Hids.
Qed.
End claims.

(** ** Results *)

Section results.
Context `{Externals, CronApi, !ScanOrder Job} {T X : Type} `{!JobTables T}.
Implicit Types (j : Job) (rows : list Job) (s : db T X).
Abbreviation rows_of s := (persistent_jobs (d_committed s)).

Definition set_job j rows : list Job := update_where (has_job_id (jb_id j)) (λ _, j) rows.

(** The job [j] with a new status, unlocked. *)
Definition settled_job j (st : JobStatus) (attempts : Z) (err : option string) (next now : Z) : Job :=
  MkJob (jb_id j) (jb_job_type j) (jb_payload j) st (jb_schedule j) (jb_dedup_key j)
    (jb_max_retries j) (jb_timeout_seconds j) attempts err None None next (jb_created_at j) now.
Definition next_tick (now : Z) (schedule : option JobSchedule) : option Z :=
  match schedule with
  | Some (Cron c) => cron_next c now
  | Some (Interval d) => if now + d <=? MAX_UTC then Some (now + d) else None
  | None => None
  end.

(** The row a result leaves of the claimed job. *)
Definition result_row (t : task (T := T) (X := X)) (now : Z) (res : outcome JobError (option unit)) : Job :=
  let j := tk_job t in
  match res with
  | Ok (Some _) =>
      match next_tick now (tk_schedule t) with
      | Some next => settled_job j JobPending 0 None next now
      | None => settled_job j JobCompleted (jb_attempts j) (jb_last_error j) (jb_next_run_at j) now
      end
  | Ok None | Panic => j
  | Err (Transient msg) =>
      if jb_max_retries j <=? jb_attempts j then
        match tk_policy t, next_tick now (tk_schedule t) with
        | ResetToNext, Some next => settled_job j JobPending 0 None next now
        | _, _ => settled_job j JobFailed (jb_attempts j) (Some msg) (jb_next_run_at j) now
        end
      else
        settled_job j JobPending (jb_attempts j) (Some msg)
          (now + backoff_secs (jb_attempts j) * second) now
  | Err (Permanent msg) =>
      settled_job j JobDeadLettered (jb_attempts j) (Some msg) (jb_next_run_at j) now
  end.

(** *** Replacing one row *)

Lemma has_job_id_iff id j : has_job_id id j = true ↔ jb_id j = id.
Proof. apply bool_decide_eq_true. Qed.

Lemma set_job_ids j rows : jb_id <$> set_job j rows = jb_id <$> rows.
Proof. apply fmap_update_where. by intros x ->%has_job_id_iff. Qed.

Lemma set_job_twice j1 j2 rows : jb_id j1 = jb_id j2 → set_job j2 (set_job j1 rows) = set_job j2 rows.
Proof.
  intros E. unfold set_job, update_where. rewrite <-list_fmap_compose. apply list_fmap_ext.
  intros _ x _. simpl. rewrite E. destruct (has_job_id (jb_id j2) x) eqn:Ex; [|by rewrite Ex].
  assert (has_job_id (jb_id j2) j1 = true) as -> by by apply has_job_id_iff. done.
Qed.

Lemma set_job_in j rows : (∃ x, x ∈ rows ∧ jb_id x = jb_id j) → j ∈ set_job j rows.
Proof.
  intros (x & Hx & E). apply elem_of_update_where. exists x. split; [done|].
  by rewrite (proj2 (has_job_id_iff _ _) E).
Qed.

(** A row whose key is dropped or kept does not break the index. *)
Lemma set_job_keys j j' rows :
  NoDup (jb_id <$> rows) → j ∈ rows → jb_id j' = jb_id j →
  active_key j' = active_key j ∨ active_key j' = None →
  NoDup (omap active_key rows) → NoDup (omap active_key (set_job j' rows)).
Proof.
  intros Hid Hj Eid Hkey Hk. eapply sublist_NoDup; [exact Hk|].
  assert (∀ x, x ∈ rows → has_job_id (jb_id j') x = true → active_key j' = active_key x ∨ active_key j' = None)
    as Hx.
  { intros x Hx E%has_job_id_iff. assert (x = j) as ->; [|done].
    eapply NoDup_fmap_inj_in; [exact Hid|done|done|congruence]. }
  clear -Hx. unfold set_job, update_where. induction rows as [|x rows IH]; [done|].
  assert (omap active_key ((λ y, if has_job_id (jb_id j') y then j' else y) <$> rows)
    `sublist_of` omap active_key rows) as IH' by (apply IH; intros y Hy; apply Hx; by right).
  rewrite fmap_cons. cbn [omap list_omap].
  destruct (has_job_id (jb_id j') x) eqn:E.
  - destruct (Hx x (list_elem_of_here _ _) E) as [->| ->].
    + destruct (active_key x); [by apply sublist_skip|done].
    + destruct (active_key x); [by apply sublist_cons|done].
  - destruct (active_key x); [by apply sublist_skip|done].
Qed.

Lemma update_checked_one j j' (f : Job → outcome sql_error Job) rows :
  NoDup (jb_id <$> rows) → j ∈ rows → jb_id j' = jb_id j → f j = Ok j' →
  ∃ n, update_checked (has_job_id (jb_id j)) f rows = Ok (n, set_job j' rows).
Proof.
  intros Hid Hj Eid Hf. unfold set_job. rewrite Eid.
  assert (∀ x, x ∈ rows → has_job_id (jb_id j) x = true → x = j) as Hx.
  { intros x Hx E%has_job_id_iff. by eapply NoDup_fmap_inj_in. }
  clear Hid Hj. induction rows as [|x rows IH]; [by exists 0%nat|].
  destruct IH as [n Hn]; [intros y Hy; apply Hx; by right|]. simpl.
  destruct (has_job_id (jb_id j) x) eqn:E.
  - rewrite (Hx x (list_elem_of_here _ _) E), Hf. simpl. rewrite Hn. simpl. eauto.
  - rewrite Hn. simpl. eauto.
Qed.

Lemma update_job_calm j j' f s :
  e_faults (d_env s) = [] → NoDup (jb_id <$> rows_of s) → j ∈ rows_of s → jb_id j' = jb_id j →
  f (e_now (d_env s)) j = Ok j' → NoDup (omap active_key (set_job j' (rows_of s))) →
  noted (on_pool (update_job (jb_id j) f)) s =
    (Ok tt, MkDb (set_persistent_jobs (set_job j' (rows_of s)) (d_committed s)) (bump (d_env s)) (d_ext s)).
Proof.
  intros Hc Hid Hj Eid Hf Hk. unfold noted, catch, update_job. rewrite on_pool_calm by done.
  unfold update_jobs. destruct (update_checked_one j j' _ _ Hid Hj Eid Hf) as [n ->]. simpl.
  rewrite (proj2 (dedup_index_ok _ tt) Hk). reflexivity.
Qed.

(** *** The body of a task *)

Lemma changed_settled now j st att err next :
  job_transition j st = Ok tt →
  changed_job now j st att err None None next = Ok (settled_job j st att err next now).
Proof. intros Ht. unfold changed_job. by rewrite Ht. Qed.

(** The row [j] has become [j']; everything outside the database is as it was. *)
Definition became j' s s' : Prop :=
  rows_of s' = set_job j' (rows_of s) ∧ d_ext s' = d_ext s.

Lemma mark_calm j f st att err next s :
  e_faults (d_env s) = [] → jobs_ok (rows_of s) → j ∈ rows_of s → jb_status j = JobRunning →
  job_transition j st = Ok tt →
  f (e_now (d_env s)) j = changed_job (e_now (d_env s)) j st att err None None next →
  ∃ s', noted (on_pool (update_job (jb_id j) f)) s = (Ok tt, s') ∧
    became (settled_job j st att err next (e_now (d_env s))) s s' ∧
    e_faults (d_env s') = [] ∧ e_now (d_env s') = e_now (d_env s).
Proof.
  intros Hc (Hid & Hk & _) Hj Hst Ht Hf. rewrite changed_settled in Hf by done.
  eexists. split;
    [apply (update_job_calm j (settled_job j st att err next (e_now (d_env s)))); try done|].
  - eapply (set_job_keys j); try done. unfold active_key. rewrite Hst. simpl.
    destruct st; destruct (jb_dedup_key j); auto.
  - unfold became. simpl. by rewrite jobs_set.
Qed.

Lemma spawn_spec (reg : JobRegistry (T := T) (X := X)) j t :
  spawn reg j = Some t → tk_job t = j ∧ tk_is_recurring t = is_some (jb_schedule j) ∧
    (tk_schedule t ≠ None → jb_schedule j ≠ None).
Proof.
  unfold spawn. destruct (registry_get _ _) as [h|]; simpl; [|done].
  intros [= <-]. simpl. by destruct (jb_schedule j).
Qed.

(** The slot of a recurring job is reset, whatever became of the row before. *)
Lemma reset_calm j j1 sched s0 s :
  e_faults (d_env s) = [] → e_now (d_env s) = e_now (d_env s0) →
  jobs_ok (rows_of s0) → j ∈ rows_of s0 → jb_status j = JobRunning →
  became j1 s0 s → same_job j j1 → job_transition j1 JobPending = Ok tt →
  became match next_tick (e_now (d_env s0)) sched with
         | Some next => settled_job j JobPending 0 None next (e_now (d_env s0))
         | None => j1
         end s0 (reset_slot (jb_id j) sched s).2.
Proof.
  intros Hc Hn (Hid & Hk & _) Hj Hst [Er Ex] Hsame Ht.
  destruct (next_tick _ sched) as [next|] eqn:Enext.
  2: { unfold reset_slot. destruct sched as [sc|]; [|done]. unfold db_now, gets, mbind, M_bind.
       rewrite Hn. unfold compute_next_run_at, next_tick in *.
       destruct sc as [c|d]; [by rewrite Enext|]. by destruct (_ <=? _). }
  assert (jb_id j1 = jb_id j) as Eid by apply Hsame.
  set (j2 := settled_job j JobPending 0 None next (e_now (d_env s0))).
  assert (set_job j2 (rows_of s) = set_job j2 (rows_of s0)) as E2.
  { rewrite Er. by apply set_job_twice. }
  assert (noted (on_pool (reset_recurring (jb_id j1) next)) s =
    (Ok tt, MkDb (set_persistent_jobs (set_job j2 (rows_of s)) (d_committed s)) (bump (d_env s)) (d_ext s)))
    as Hreset.
  { apply (update_job_calm j1 j2); [done|by rewrite Er, set_job_ids| |done| |].
    - rewrite Er. apply set_job_in. by exists j.
    - unfold reset_job. rewrite changed_settled by done. unfold j2, settled_job.
      destruct Hsame as (-> & -> & -> & -> & -> & -> & -> & ->). by rewrite Hn.
    - rewrite E2. eapply (set_job_keys j); try done. left. unfold active_key. by rewrite Hst. }
  destruct sched as [sc|]; [|done]. unfold reset_slot, db_now, gets, mbind, M_bind. rewrite Hn.
  assert (compute_next_run_at (S := db T X) (E := AppError) (e_now (d_env s0)) sc s = (Ok next, s)) as ->.
  { unfold compute_next_run_at, next_tick in *. destruct sc as [c|d]; [by rewrite Enext|].
    destruct (_ <=? _); [|done]. by injection Enext as ->. }
  rewrite <-Eid, Hreset. split; simpl; [by rewrite jobs_set, E2|done].
Qed.

(** C27: The result of a job is recorded as the reference function [result_row] says, when nothing
    is lost: the row of the job becomes - completed, or for a recurring job pending again at
    its next tick with a clean slate; after a transient failure pending with a delay that
    doubles with the attempts up to 1024 seconds, or failed, or reset, when the attempts are
    used up; after a permanent failure dead-lettered; after a timeout or a panic as it was.
    No other job and nothing outside the table changes beyond what the handler did. *)
Theorem job_result_recorded (reg : JobRegistry (T := T) (X := X)) t res s s1 :
  spawn reg (tk_job t) = Some t → jb_status (tk_job t) = JobRunning →
  jh_execute (tk_handler t) (jb_payload (tk_job t)) (jb_timeout_seconds (tk_job t) mod 2 ^ 64) s = (res, s1) →
  e_faults (d_env s1) = [] → jobs_ok (rows_of s1) → tk_job t ∈ rows_of s1 →
  became (result_row t (e_now (d_env s1)) res) s1 (run_task t s).2.
Proof.
  intros Hspawn Hst Hrun Hc Hok Hj. unfold run_task, catch. rewrite Hrun.
  assert (became (tk_job t) s1 s1) as Hsame.
  { split; [|done]. unfold set_job, update_where. rewrite <-list_fmap_id at 1. apply list_fmap_ext.
    intros i x Hx. simpl. destruct (has_job_id _ x) eqn:E; [|done]. apply has_job_id_iff in E.
    eapply NoDup_fmap_inj_in; [apply Hok|by eapply list_elem_of_lookup_2|done|done]. }
  set (j := tk_job t) in *. set (now := e_now (d_env s1)).
  assert (∀ st, st ≠ JobCancelled → job_transition j st = Ok tt) as Htr.
  { intros st Hne. unfold job_transition. rewrite Hst. by destruct st. }
  assert (tk_is_recurring t = is_some (jb_schedule j) ∧
    (tk_schedule t ≠ None → jb_schedule j ≠ None)) as [Hrec Hsched].
  { by apply spawn_spec in Hspawn as [_ ?]. }
  destruct res as [[u|]|[msg|msg]|]; simpl; change (tk_job t) with j; [|done| | |done].
  - destruct (mark_calm j (λ now r, changed_job now r JobCompleted (jb_attempts r) (jb_last_error r)
      None None (jb_next_run_at r)) JobCompleted _ _ _ s1 Hc Hok Hj Hst (Htr JobCompleted ltac:(done)) eq_refl)
      as (s2 & Hr2 & Hb & Hc2 & Hn2).
    unfold mbind, M_bind, mark_completed. rewrite Hr2.
    destruct (tk_schedule t) as [sc|] eqn:Esc; [|exact Hb].
    apply (reset_calm j _ (Some sc) s1 s2 Hc2 Hn2 Hok Hj Hst Hb); [done|].
    unfold job_transition. simpl. destruct (jb_schedule j); [done|]. by destruct Hsched.
  - unfold mbind, M_bind, mark_retry_or_failed.
    destruct (Z.leb_spec (jb_max_retries j) (jb_attempts j)) as [Hex|Hmore]; simpl.
    + destruct (mark_calm j (retried_job msg (jb_max_retries j)) JobFailed (jb_attempts j) (Some msg)
        (jb_next_run_at j) s1 Hc Hok Hj Hst (Htr JobFailed ltac:(done))) as (s2 & Hr2 & Hb & Hc2 & Hn2).
      { unfold retried_job. by rewrite (proj2 (Z.leb_le _ _) Hex). }
      rewrite Hr2, Hrec, andb_true_r.
      destruct (jb_schedule j) as [str|] eqn:Estr; simpl.
      * destruct (tk_policy t); [exact Hb|].
        by apply (reset_calm j _ (tk_schedule t) s1 s2 Hc2 Hn2 Hok Hj Hst Hb).
      * destruct (tk_schedule t) as [sc|] eqn:Esc; [by destruct Hsched|].
        by destruct (tk_policy t).
    + destruct (mark_calm j (retried_job msg (jb_max_retries j)) JobPending (jb_attempts j) (Some msg)
        (now + backoff_secs (jb_attempts j) * second) s1 Hc Hok Hj Hst (Htr JobPending ltac:(done)))
        as (s2 & Hr2 & Hb & _).
      { unfold retried_job. by rewrite (proj2 (Z.leb_gt _ _) Hmore). }
      by rewrite Hr2, andb_false_r.
  - destruct (mark_calm j (λ now r, changed_job now r JobDeadLettered (jb_attempts r) (Some msg)
      None None (jb_next_run_at r)) JobDeadLettered _ _ _ s1 Hc Hok Hj Hst
      (Htr JobDeadLettered ltac:(done)) eq_refl) as (s2 & Hr2 & Hb & _).
    unfold mark_dead_lettered. by rewrite Hr2.
Qed.
End results.
