(* ===== verification/JobWitness.v ===== *)
(** * Persistent jobs: concrete runs

    A table of jobs alone, a clockwork for cron, and handlers that succeed, fail or run out of
    time; the theorems applied to their runs. *)

From S2P Require Import Prelude RustStr Externals Sample Errors Db Outbox.
From S2P Require Import Jobs JobRunner JobProps JobTheorems JobResults.

Local Open Scope Z_scope.

#[local] Existing Instance sample.
(** A cron expression is a period; its ticks are the multiples. *)
#[local] Instance period_cron : CronApi := {|
  CronSchedule := Z; cron_to_string := pretty; cron_next p now := Some ((now / p + 1) * p);
  cron_ticks p a b := Z.to_nat (b / p - a / p) |}.
#[local] Instance job_scan : ScanOrder Job := table_order Job.
#[local] Instance job_list : JobTables (list Job) := {|
  persistent_jobs t := t; set_persistent_jobs l _ := l; jobs_set t l := eq_refl |}.

Abbreviation jobs_world := (db (list Job) unit).
Definition a_handler (ty : string) (m : M jobs_world JobError (option unit)) : JobHandler :=
  {| jh_job_type := ty; jh_execute := λ _ _, m |}.
Definition sends : JobHandler := a_handler "mail.send" (mret (Some tt)).
Definition fails : JobHandler := a_handler "mail.fail" (fail (Transient "busy")).

Definition registered : JobRegistry :=
  match (r ← register JobRegistry_new sends; register r fails) with
  | Ok r => r | _ => JobRegistry_new end.
Definition the_job (input : string) : JobName :=
  match JobName_new input with Ok n => n | _ => MkJobName "" end.

(** The names, as the constructor takes them. *)
Example job_names :
  is_ok (JobName_new "  payment.disburse  ") = true ∧ the_job "  payment.disburse  " = MkJobName "payment.disburse" ∧
  is_ok (JobName_new "payment..disburse") = false ∧ is_ok (JobName_new "paymentdisburse") = false ∧
  is_ok (JobName_new "Payment.disburse") = false ∧ is_ok (JobName_new "payment.disburse.") = false.
Proof. vm_compute. repeat split. Qed.

Lemma registered_ok k h : handlers registered !! k = Some h → handler_ok h.
Proof.
  assert (handlers registered = {[ "mail.send" := sends; "mail.fail" := fails ]}) as -> by reflexivity.
  rewrite lookup_insert_Some, lookup_singleton_Some. intros [[_ <-]|[_ [_ <-]]] p t; simpl; keeps_tac.
Qed.

Definition runner_cfg (_ : nat) : JobRunnerConfig := {|
  jr_instance_id := "runner"; jr_max_concurrent_jobs := 1; jr_poll_interval_ms := 1000;
  jr_stale_lock_check_interval := 30; jr_stale_lock_timeout := 60; jr_cleanup_interval := 3600;
  jr_cleanup_max_age := 0; jr_default_max_retries := 5; jr_default_timeout_seconds := 300 |}.
Definition enqueue (ty key : string) : M jobs_world AppError Uuid :=
  on_pool (enqueue_job (the_job ty) jnull (Some {|
    jc_max_retries := Some 3; jc_timeout_seconds := None;
    jc_dedup_strategy := DedupSkip; jc_dedup_key := Some key |})).
Definition two_jobs : jobs_world :=
  (enqueue "mail.fail" "b" (enqueue "mail.send" "a" (MkDb [] (MkEnv 1000000 0 []) tt)).2).2.

(** A decidable form of the invariant, for concrete tables. *)
Definition lock_okb (r : Job) : bool :=
  match jb_status r with
  | JobRunning => is_some (jb_locked_by r) && is_some (jb_locked_at r)
  | _ => negb (is_some (jb_locked_by r)) && negb (is_some (jb_locked_at r))
  end.
Lemma jobs_okb rows :
  bool_decide (NoDup (jb_id <$> rows)) && bool_decide (NoDup (omap active_key rows)) &&
    forallb lock_okb rows = true → jobs_ok rows.
Proof.
  intros [[Hi%bool_decide_eq_true Hk%bool_decide_eq_true]%andb_true_iff Hl]%andb_true_iff.
  split_and!; [done..|]. rewrite forallb_forall in Hl. apply Forall_forall.
  intros r Hr%list_elem_of_In%Hl. unfold lock_ok, lock_okb in *.
  by destruct (jb_status r), (jb_locked_by r), (jb_locked_at r).
Qed.

Lemma two_jobs_ok : sys_ok runner_cfg registered (two_jobs, [MkRunner 0 []]).
Proof.
  split; [apply jobs_okb; vm_compute; reflexivity|].
  intros [|i] r Hr; [|done]. injection Hr as <-. split_and!; [done|simpl; lia|constructor].
Qed.

(** *** One runner with one place: it claims a job, runs it, and claims the other *)

Abbreviation rstate := (runner (T := list Job) (X := unit)).
Definition round (w : jobs_world * rstate) : jobs_world * rstate :=
  (process_available (runner_cfg 0) registered false w).2.
Definition claimed_one : jobs_world * rstate := round (two_jobs, MkRunner 0 []).
Definition first_task (w : jobs_world * rstate) : option task := tasks w.2 !! 0%nat.
Definition after_task (w : jobs_world * rstate) : jobs_world * rstate :=
  match first_task w with
  | Some t => ((run_task t w.1).2, drop_guard 0 w.2)
  | None => w
  end.
Definition second_claim : jobs_world * rstate := round (after_task claimed_one).

Lemma one_run : rtc (job_step runner_cfg registered) (two_jobs, [MkRunner 0 []])
  (second_claim.1, [second_claim.2]).
Proof.
  assert (∀ w, job_step runner_cfg registered (w.1, [w.2]) ((round w).1, [(round w).2])) as Hround.
  { intros [s r]. unfold round. destruct (process_available _ _ _ (s, r)) as [o [s' r']] eqn:E.
    exact (claim_step _ _ 0 false o r r' s s' [r] eq_refl E). }
  eapply rtc_l; [apply (Hround (two_jobs, MkRunner 0 []))|].
  eapply rtc_l; [|apply rtc_once, Hround]. fold claimed_one.
  assert (is_some (first_task claimed_one) = true) as Ht by (vm_compute; reflexivity).
  unfold after_task. destruct (first_task claimed_one) as [t|] eqn:E; [|done].
  exact (task_step _ _ 0 0 _ t claimed_one.2 claimed_one.1 _ [claimed_one.2] eq_refl E
    (surjective_pairing _)).
Qed.

Lemma job_lifecycle_witness :
  jobs_ok (d_committed second_claim.1) ∧
  jb_status <$> d_committed second_claim.1 = [JobCompleted; JobRunning].
Proof.
  split; [|vm_compute; reflexivity].
  exact (proj1 (job_lifecycle runner_cfg registered _ _ _ _ registered_ok one_run two_jobs_ok)).
Defined.

Lemma runner_capacity_witness :
  in_flight second_claim.2 = 1%nat ∧ (length (tasks second_claim.2) ≤ 1)%nat.
Proof.
  split; [vm_compute; reflexivity|].
  exact (proj2 (runner_capacity runner_cfg registered _ _ _ _ 0 second_claim.2 registered_ok one_run
    two_jobs_ok eq_refl)).
Defined.

(** *** Claims and results *)

Abbreviation claim_of n id := (on_pool (claim_batch n id) : M jobs_world AppError (list Job)).
Lemma job_claim_exclusive_witness :
  let c1 := claim_of 1 "runner-1" two_jobs in
  let es1 := match c1.1 with Ok es => es | _ => [] end in
  let c2 := claim_of 5 "runner-2" (at_time 90000000 c1.2) in
  let es2 := match c2.1 with Ok es => es | _ => [] end in
  (length es1, length es2) = (1%nat, 1%nat) ∧ ∀ e, e ∈ es1 → jb_id e ∉ (jb_id <$> es2).
Proof.
  intros c1 es1 c2 es2. split; [vm_compute; reflexivity|].
  assert (is_ok c1.1 = true) as H1 by (vm_compute; reflexivity).
  assert (is_ok c2.1 = true) as H2 by (vm_compute; reflexivity).
  exact (proj2 (job_claim_exclusive 1 "runner-1" two_jobs es1 c1.2 90000000 5 "runner-2" es2 c2.2
    (proj1 (proj1 two_jobs_ok)) (run_ok_default [] c1 H1) (run_ok_default [] c2 H2))).
Defined.

(** The failing job is run for the first time. *)
Definition no_job : Job := new_job 0 "" "" jnull None None 0 0.
Definition failing_job : Job := default no_job (d_committed second_claim.1 !! 1%nat).
Definition failing : task := default
  {| tk_job := no_job; tk_handler := fails; tk_is_recurring := false; tk_policy := Die;
     tk_schedule := None |} (spawn registered failing_job).
Lemma failing_spawned : tk_job failing = failing_job ∧ spawn registered failing_job = Some failing.
Proof.
  assert (is_some (spawn registered failing_job) = true) as Hs by (vm_compute; reflexivity).
  unfold failing. destruct (spawn registered failing_job) as [t|] eqn:E; [|discriminate Hs].
  split; [|reflexivity]. exact (proj1 (spawn_spec _ _ _ E)).
Qed.
Lemma failing_there : failing_job ∈ persistent_jobs (d_committed second_claim.1).
Proof.
  assert (is_some (d_committed second_claim.1 !! 1%nat) = true) as Hs by (vm_compute; reflexivity).
  unfold failing_job. destruct (d_committed second_claim.1 !! 1%nat) as [j|] eqn:E;
    [|discriminate Hs].
  exact (list_elem_of_lookup_2 _ _ _ E).
Qed.

Lemma job_result_recorded_witness :
  let s := second_claim.1 in
  let r := result_row failing (e_now (d_env s)) (Err (Transient "busy")) in
  (jb_status r, jb_next_run_at r) = (JobPending, 3000000) ∧
  persistent_jobs (d_committed (run_task failing s).2) = set_job r (persistent_jobs (d_committed s)).
Proof.
  intros s r. split; [vm_compute; reflexivity|].
  destruct failing_spawned as [Ej Hspawn].
  assert (spawn registered (tk_job failing) = Some failing) as Hs by (rewrite Ej; exact Hspawn).
  assert (jb_status (tk_job failing) = JobRunning) as Hst by (vm_compute; reflexivity).
  assert (tk_job failing ∈ persistent_jobs (d_committed s)) as Hin by (rewrite Ej; exact failing_there).
  assert (jobs_ok (persistent_jobs (d_committed s))) as Hok by (apply jobs_okb; vm_compute; reflexivity).
  exact (proj1 (job_result_recorded registered failing (Err (Transient "busy")) s s Hs Hst
    (@eq_refl (outcome JobError (option unit) * jobs_world) (Err (Transient "busy"), s)
     <: jh_execute (tk_handler failing) (jb_payload (tk_job failing))
       (jb_timeout_seconds (tk_job failing) mod 2 ^ 64) s = (Err (Transient "busy"), s))
    (@eq_refl (list fault) [] <: e_faults (d_env s) = []) Hok Hin)).
Defined.
