(* ===== verification/Server.v ===== *)
(** * Configuration and start-up of the services
    (shared/src/config, shared/src/server.rs, the start of cache/mod.rs and db/mod.rs, the main.rs
    of the services)

    A service is declared with a builder: the infrastructure it needs, and what runs beside its
    HTTP server. [run] initializes what was declared and starts the tasks; it is modelled up to the
    bound listener. A failed [expect] or [assert!] is a [Panic]. *)

From S2P Require Import Prelude RustStr Regex Externals Errors Auth Events Db Outbox Consumer Redis Relay Jobs JobRunner.

Local Open Scope Z_scope.

(** ** The environment (config/mod.rs) *)

(** [std::env::var]; a value that is not Unicode counts as not set. *)
Definition environ : Type := gmap string string.

Definition digit_value (c : Z) : option Z := if ascii_digit c then Some (c - 48) else None.
Fixpoint digits_value (acc : Z) (l : list Z) : option Z :=
  match l with
  | [] => Some acc
  | c :: l => d ← digit_value c; digits_value (acc * 10 + d) l
  end.
(** [str::parse] for an integer type with the given range. *)
Definition parse_int (lo hi : Z) (s : string) : option Z :=
  let '(sign, l) := match chars s with
                    | 43 :: l => (1, l)
                    | 45 :: l => if lo <? 0 then (-1, l) else (1, 45 :: l)
                    | l => (1, l)
                    end in
  match l with
  | [] => None
  | _ => z ← digits_value 0 l; if (lo <=? sign * z) && (sign * z <=? hi) then Some (sign * z) else None
  end.
Definition parse_u16 : string → option Z := parse_int 0 (2 ^ 16 - 1).
Definition parse_u32 : string → option Z := parse_int 0 (2 ^ 32 - 1).
Definition parse_u64 : string → option Z := parse_int 0 (2 ^ 64 - 1).
Definition parse_i64 : string → option Z := parse_int (- 2 ^ 63) (2 ^ 63 - 1).
Definition parse_bool (s : string) : option bool :=
  if bool_decide (s = "true") then Some true else if bool_decide (s = "false") then Some false else None.

Section config.
Context (environment : environ).

Definition read_env_or (key default_value : string) : string := default default_value (environment !! key).
Definition parse_env_or {A} (parse : string → option A) (key : string) (default_value : A) : A :=
  default default_value (v ← environment !! key; parse v).

(** [expect] and [assert!] *)
Definition expect {E A} (o : option A) : outcome E A := match o with Some a => Ok a | None => Panic end.
Definition ensure {E} (b : bool) : outcome E unit := if b then Ok tt else Panic.

(** ** The configurations *)

Record DbConfig := { db_url : string; db_max_connections : Z }.
Definition DbConfig_new {E} (db_url_key : string) : outcome E DbConfig :=
  url ← expect (environment !! db_url_key);
  max_connections ← expect (v ← environment !! "DB_MAX_CONNECTIONS"; parse_u32 v);
  _ ← ensure (negb (is_empty url));
  _ ← ensure (0 <? max_connections);
  Ok {| db_url := url; db_max_connections := max_connections |}.

Definition AuthConfig_new {E} : outcome E AuthConfig :=
  access_secret ← expect (environment !! "ACCESS_TOKEN_SECRET");
  refresh_secret ← expect (environment !! "REFRESH_TOKEN_SECRET");
  access_expiry ← expect (v ← environment !! "ACCESS_TOKEN_EXPIRY"; parse_u64 v);
  refresh_expiry ← expect (v ← environment !! "REFRESH_TOKEN_EXPIRY"; parse_u64 v);
  let config := {| access_token_secret := access_secret; refresh_token_secret := refresh_secret;
                   access_token_expiry_secs := access_expiry; refresh_token_expiry_secs := refresh_expiry |} in
  _ ← ensure (auth_config_ok config);
  Ok config.

Definition KafkaConfig_new : string := read_env_or "KAFKA_BROKERS" "localhost:29092".
Definition RedisConfig_try_new : option string := environment !! "REDIS_URL".

(** The identifier is used when the environment has none. *)
Definition RelayConfig_from_env {E} (id : string) : outcome E RelayConfig :=
  let batch := parse_env_or parse_i64 "OUTBOX_RELAY_BATCH_SIZE" 50 in
  let poll := parse_env_or parse_u64 "OUTBOX_RELAY_POLL_INTERVAL_MS" 500 in
  let check := parse_env_or parse_u64 "OUTBOX_RELAY_STALE_LOCK_CHECK_INTERVAL_SECS" 30 in
  let timeout := parse_env_or parse_u64 "OUTBOX_RELAY_STALE_LOCK_TIMEOUT_SECS" 60 in
  _ ← ensure (0 <? batch);
  _ ← ensure (0 <? poll);
  _ ← ensure (check <? timeout);
  Ok {| instance_id := read_env_or "OUTBOX_RELAY_INSTANCE_ID" id; batch_size := Z.to_nat batch;
        poll_interval := poll; stale_lock_check_interval := check; stale_lock_timeout := timeout;
        cleanup_interval := parse_env_or parse_u64 "OUTBOX_RELAY_CLEANUP_INTERVAL_SECS" 3600;
        cleanup_max_age := parse_env_or parse_u64 "OUTBOX_RELAY_CLEANUP_MAX_AGE_SECS" (7 * 24 * 3600);
        delete_on_publish := parse_env_or parse_bool "OUTBOX_RELAY_DELETE_ON_PUBLISH" false |}.

Definition JobRunnerConfig_from_env {E} (id : string) : outcome E JobRunnerConfig :=
  let max_concurrent := parse_env_or parse_u64 "JOB_RUNNER_MAX_CONCURRENT_JOBS" 5 in
  let poll := parse_env_or parse_u64 "JOB_RUNNER_POLL_INTERVAL_MS" 1000 in
  let check := parse_env_or parse_u64 "JOB_RUNNER_STALE_LOCK_CHECK_INTERVAL_SECS" 30 in
  let timeout := parse_env_or parse_u64 "JOB_RUNNER_STALE_LOCK_TIMEOUT_SECS" 300 in
  _ ← ensure (0 <? max_concurrent);
  _ ← ensure (0 <? poll);
  _ ← ensure (check <? timeout);
  Ok {| jr_instance_id := read_env_or "JOB_RUNNER_INSTANCE_ID" id; jr_max_concurrent_jobs := Z.to_nat max_concurrent;
        jr_poll_interval_ms := poll; jr_stale_lock_check_interval := check; jr_stale_lock_timeout := timeout;
        jr_cleanup_interval := parse_env_or parse_u64 "JOB_RUNNER_CLEANUP_INTERVAL_SECS" 3600;
        jr_cleanup_max_age := parse_env_or parse_u64 "JOB_RUNNER_CLEANUP_MAX_AGE_SECS" (7 * 24 * 3600);
        jr_default_max_retries := parse_env_or parse_u32 "JOB_RUNNER_DEFAULT_MAX_RETRIES" 5;
        jr_default_timeout_seconds := parse_env_or parse_u32 "JOB_RUNNER_DEFAULT_TIMEOUT_SECS" 300 |}.

(** Durations in milliseconds. *)
Definition ConsumerConfig_from_env (group : string) (topic_names : list string) : ConsumerConfig := {|
  group_id := group; topics := topic_names;
  max_retries := Z.to_nat (parse_env_or parse_u32 "EVENT_CONSUMER_MAX_RETRIES" 3);
  retry_base_delay := parse_env_or parse_u64 "EVENT_CONSUMER_RETRY_BASE_DELAY_MS" 1000;
  retry_max_delay := parse_env_or parse_u64 "EVENT_CONSUMER_RETRY_MAX_DELAY_SECS" 30 * 1000;
  dlq_topic_override := environment !! "EVENT_CONSUMER_DLQ_TOPIC";
  session_timeout := parse_env_or parse_u64 "EVENT_CONSUMER_SESSION_TIMEOUT_SECS" 30 * 1000;
  auto_create_dlq_topics := parse_env_or parse_bool "EVENT_CONSUMER_AUTO_CREATE_DLQ" true;
  processed_events_cleanup_interval := parse_env_or parse_u64 "EVENT_CONSUMER_CLEANUP_INTERVAL_SECS" 3600 * 1000;
  processed_events_max_age := parse_env_or parse_u64 "EVENT_CONSUMER_CLEANUP_MAX_AGE_SECS" (7 * 24 * 3600) * 1000 |}.
End config.

(** ** Infrastructure (server.rs) *)

Inductive InfraDep : Type := Postgres (url_env migrations_dir : string) | RedisDep | KafkaDep.
Definition infra_dep_display (d : InfraDep) : string :=
  match d with
  | Postgres url_env _ => "Postgres(" +:+ url_env +:+ ")"
  | RedisDep => "Redis"
  | KafkaDep => "Kafka"
  end.
Definition describe_deps (deps : list InfraDep) : string :=
  match deps with [] => "none" | _ => join ", " (infra_dep_display <$> deps) end.
Definition is_kafka (d : InfraDep) : bool := match d with KafkaDep => true | _ => false end.
Definition is_redis (d : InfraDep) : bool := match d with RedisDep => true | _ => false end.

(** What the libraries do at start-up, over the state of the world; an error is its text. *)
Class Platform := {
  platform : Type;
  PgPool : Type;
  RedisConn : Type;
  connect_db : DbConfig → M platform string PgPool;
  run_migrations : PgPool → string → M platform string unit;
  redis_open : string → M platform string unit;
  redis_connect : string → M platform string RedisConn;
  create_consumer : list (string * string) → M platform string unit;
  create_producer : list (string * string) → M platform string unit;
  bind_listener : Z → M platform string unit }.

Section server.
Context `{Platform}.

Record Infra := { in_db : option PgPool; in_redis : option RedisConn; in_kafka : option string }.
Definition require_db {E} (infra : Infra) : outcome E PgPool := expect (in_db infra).
Definition require_redis {E} (infra : Infra) : outcome E RedisConn := expect (in_redis infra).
Definition require_kafka {E} (infra : Infra) : outcome E string := expect (in_kafka infra).

(** [Path::join] *)
Definition path_join (base p : string) : string :=
  if String.prefix "/" p then p
  else if is_empty base || bool_decide (last (chars base) = Some 47) then base +:+ p
  else base +:+ "/" +:+ p.
Definition migrate_db (environment : environ) (pool : PgPool) (dir : string) : M platform string unit :=
  match environment !! "CARGO_MANIFEST_DIR" with
  | None => fail "environment variable not found"
  | Some crate_dir => run_migrations pool (path_join crate_dir dir)
  end.
Definition init_db (environment : environ) (config : DbConfig) (dir : string) : M platform string PgPool :=
  pool ← connect_db config;
  _ ← migrate_db environment pool dir;
  mret pool.
Definition init_redis (url : string) : M platform string RedisConn := _ ← redis_open url; redis_connect url.
Definition init_optional_redis (environment : environ) : M platform string (option RedisConn) :=
  match RedisConfig_try_new environment with
  | Some url => catch (init_redis url) (λ conn, mret (Some conn)) (λ _, mret None)
  | None => mret None
  end.

Definition init_dep (environment : environ) (infra : Infra) (d : InfraDep) : M platform string Infra :=
  match d with
  | Postgres url_env dir =>
      config ← lift (DbConfig_new environment url_env);
      pool ← init_db environment config dir;
      mret {| in_db := Some pool; in_redis := in_redis infra; in_kafka := in_kafka infra |}
  | RedisDep =>
      conn ← init_optional_redis environment;
      mret {| in_db := in_db infra; in_redis := conn; in_kafka := in_kafka infra |}
  | KafkaDep =>
      mret {| in_db := in_db infra; in_redis := in_redis infra; in_kafka := Some (KafkaConfig_new environment) |}
  end.
Fixpoint init_deps (environment : environ) (infra : Infra) (deps : list InfraDep) : M platform string Infra :=
  match deps with
  | [] => mret infra
  | d :: deps => infra ← init_dep environment infra d; init_deps environment infra deps
  end.
Definition do_init_infra (environment : environ) (deps : list InfraDep) : M platform string Infra :=
  init_deps environment {| in_db := None; in_redis := None; in_kafka := None |} deps.

(** ** The builder *)

Record ConsumerRegistration := { cg_group_id : string; cg_topics : list string }.

(** The factories run after the initialization; the handlers and the registry they make are those
    of the services, and are left out. *)
Record ServiceBuilder := {
  sb_name : string; sb_http_port_env : string; sb_deps : list InfraDep;
  sb_consumer_factory : option (Infra → outcome string (list ConsumerRegistration));
  sb_relay_config : option RelayConfig;
  sb_job_runner_factory : option (Infra → outcome string unit) }.

Definition ServiceBuilder_new (name : string) : ServiceBuilder := {|
  sb_name := name; sb_http_port_env := "PORT"; sb_deps := []; sb_consumer_factory := None;
  sb_relay_config := None; sb_job_runner_factory := None |}.
Definition http_port_env (key : string) (b : ServiceBuilder) : ServiceBuilder := {|
  sb_name := sb_name b; sb_http_port_env := key; sb_deps := sb_deps b;
  sb_consumer_factory := sb_consumer_factory b; sb_relay_config := sb_relay_config b;
  sb_job_runner_factory := sb_job_runner_factory b |}.
Definition with_deps (deps : list InfraDep) (b : ServiceBuilder) : ServiceBuilder := {|
  sb_name := sb_name b; sb_http_port_env := sb_http_port_env b; sb_deps := deps;
  sb_consumer_factory := sb_consumer_factory b; sb_relay_config := sb_relay_config b;
  sb_job_runner_factory := sb_job_runner_factory b |}.
Definition with_db_migrations (url_env dir : string) (b : ServiceBuilder) : ServiceBuilder :=
  with_deps (sb_deps b ++ [Postgres url_env dir]) b.
Definition with_db (url_env : string) : ServiceBuilder → ServiceBuilder := with_db_migrations url_env "./migrations".
Definition with_redis (b : ServiceBuilder) : ServiceBuilder := with_deps (sb_deps b ++ [RedisDep]) b.
(** [if !deps.iter().any(..) { deps.push(Kafka) }] *)
Definition declare_kafka (deps : list InfraDep) : list InfraDep :=
  if existsb is_kafka deps then deps else deps ++ [KafkaDep].
Definition with_consumers (factory : Infra → outcome string (list ConsumerRegistration)) (b : ServiceBuilder)
    : ServiceBuilder := {|
  sb_name := sb_name b; sb_http_port_env := sb_http_port_env b; sb_deps := declare_kafka (sb_deps b);
  sb_consumer_factory := Some factory; sb_relay_config := sb_relay_config b;
  sb_job_runner_factory := sb_job_runner_factory b |}.
(** The environment is read here; [id] is drawn. *)
Definition with_outbox_relay (environment : environ) (id : string) (b : ServiceBuilder)
    : outcome string ServiceBuilder :=
  config ← RelayConfig_from_env environment id;
  Ok {| sb_name := sb_name b; sb_http_port_env := sb_http_port_env b; sb_deps := declare_kafka (sb_deps b);
        sb_consumer_factory := sb_consumer_factory b; sb_relay_config := Some config;
        sb_job_runner_factory := sb_job_runner_factory b |}.
Definition with_job_runner (factory : Infra → outcome string unit) (b : ServiceBuilder) : ServiceBuilder := {|
  sb_name := sb_name b; sb_http_port_env := sb_http_port_env b; sb_deps := sb_deps b;
  sb_consumer_factory := sb_consumer_factory b; sb_relay_config := sb_relay_config b;
  sb_job_runner_factory := Some factory |}.

(** ** Start-up *)

(** A task that is spawned; a relay has the optional Redis connection. *)
Inductive task : Type :=
| ConsumerTask (brokers : string) (config : ConsumerConfig) (pool : PgPool)
| RelayTask (config : RelayConfig) (pool : PgPool) (redis : option RedisConn)
| JobRunnerTask (config : JobRunnerConfig) (pool : PgPool).

(** The clients of consumer.rs and producer.rs; durations in milliseconds. *)
Definition KafkaEventConsumer_new (brokers : string) (config : ConsumerConfig) : M platform AppError unit :=
  _ ← map_err (λ e, InternalServerError ("Kafka consumer init: " +:+ e)) (create_consumer
        [("bootstrap.servers", brokers); ("group.id", group_id config); ("enable.auto.commit", "false");
         ("auto.offset.reset", "earliest"); ("session.timeout.ms", pretty (session_timeout config))]);
  map_err (λ e, InternalServerError ("Kafka DLQ producer init: " +:+ e)) (create_producer
    [("bootstrap.servers", brokers); ("message.timeout.ms", "10000")]).
Definition KafkaEventPublisher_new (brokers : string) : M platform AppError unit :=
  map_err (λ e, InternalServerError ("Kafka producer init: " +:+ e)) (create_producer
    [("bootstrap.servers", brokers); ("message.timeout.ms", "30000")]).

(** A consumer that cannot be created is only logged. *)
Fixpoint start_consumers (brokers : string) (pool : PgPool) (regs : list ConsumerRegistration)
    : M platform string (list task) :=
  match regs with
  | [] => mret []
  | reg :: regs =>
      let config := ConsumerConfig_new (cg_group_id reg) (cg_topics reg) in
      started ← catch (KafkaEventConsumer_new brokers config) (λ _, mret [ConsumerTask brokers config pool]) (λ _, mret []);
      rest ← start_consumers brokers pool regs;
      mret (started ++ rest)
  end.
Definition spawn_consumers (factory : option (Infra → outcome string (list ConsumerRegistration))) (infra : Infra)
    : M platform string (list task) :=
  match factory with
  | None => mret []
  | Some factory =>
      consumers ← lift (factory infra);
      kafka_config ← lift (require_kafka infra);
      pool ← lift (require_db infra);
      start_consumers kafka_config pool consumers
  end.
Definition spawn_relay (relay_config : option RelayConfig) (infra : Infra) : M platform string (list task) :=
  match relay_config with
  | None => mret []
  | Some config =>
      kafka_config ← lift (require_kafka infra);
      pool ← lift (require_db infra);
      _ ← map_err app_error_display (KafkaEventPublisher_new kafka_config);
      mret [RelayTask config pool (in_redis infra)]
  end.
Definition spawn_job_runner (environment : environ) (id : string) (factory : option (Infra → outcome string unit))
    (infra : Infra) : M platform string (list task) :=
  match factory with
  | None => mret []
  | Some factory =>
      _ ← lift (factory infra);
      pool ← lift (require_db infra);
      config ← lift (JobRunnerConfig_from_env environment id);
      mret [JobRunnerTask config pool]
  end.

Definition parse_http_port {E} (environment : environ) (b : ServiceBuilder) : outcome E Z :=
  port ← expect (parse_u16 (read_env_or environment (sb_http_port_env b) "3000"));
  _ ← ensure (0 <? port);
  Ok port.

Record running {App : Type} := { rn_port : Z; rn_infra : Infra; rn_app : App; rn_tasks : list task }.
Arguments running : clear implicits.

(** [run], up to the bound listener. *)
Definition run {App} (environment : environ) (id : string) (b : ServiceBuilder) (build_app : Infra → outcome string App)
    : M platform string (running App) :=
  port ← lift (parse_http_port environment b);
  infra ← do_init_infra environment (sb_deps b);
  app ← lift (build_app infra);
  consumers ← spawn_consumers (sb_consumer_factory b) infra;
  relay ← spawn_relay (sb_relay_config b) infra;
  jobs ← spawn_job_runner environment id (sb_job_runner_factory b) infra;
  _ ← bind_listener port;
  mret {| rn_port := port; rn_infra := infra; rn_app := app; rn_tasks := consumers ++ relay ++ jobs |}.

(** [run_with_grpc]; the port of the gRPC server is the second component. *)
Record GrpcConfig := { gc_port_env_key : string; gc_default_port : Z }.
Definition grpc_port {E} (environment : environ) (c : GrpcConfig) : outcome E Z :=
  port ← expect (parse_u16 (read_env_or environment (gc_port_env_key c) (pretty (gc_default_port c))));
  _ ← ensure (0 <? port);
  Ok port.
Definition run_with_grpc {App} (environment : environ) (id : string) (b : ServiceBuilder) (c : GrpcConfig)
    (build_app : Infra → outcome string App) : M platform string (running App * Z) :=
  _ ← lift (parse_http_port (E := string) environment b);
  grpc ← lift (grpc_port environment c);
  service ← run environment id b build_app;
  mret (service, grpc).

(** ** The services (main.rs): the configuration their handlers get *)

Definition cart_main (environment : environ) (id : string) : M platform string (running AuthConfig) :=
  run environment id (with_redis (http_port_env "CART_PORT" (ServiceBuilder_new "cart")))
    (λ infra, _ ← require_redis infra; AuthConfig_new environment).
Definition service_app (environment : environ) (infra : Infra) : outcome string AuthConfig :=
  _ ← require_db infra; AuthConfig_new environment.
Definition identity_main (environment : environ) (id : string) : M platform string (running AuthConfig * Z) :=
  run_with_grpc environment id
    (with_redis (with_db "IDENTITY_DB_URL" (http_port_env "IDENTITY_PORT" (ServiceBuilder_new "identity"))))
    {| gc_port_env_key := "IDENTITY_GRPC_PORT"; gc_default_port := 50051 |} (service_app environment).
Definition catalog_main (environment : environ) (id : string) : M platform string (running AuthConfig) :=
  b ← lift (with_outbox_relay environment id (with_consumers
    (λ infra, _ ← require_db infra; Ok [{| cg_group_id := "catalog-service"; cg_topics := ["orders.events"] |}])
    (with_redis (with_db "CATALOG_DB_URL" (http_port_env "CATALOG_PORT" (ServiceBuilder_new "catalog"))))));
  run environment id b (service_app environment).
Definition order_main (environment : environ) (id : string) : M platform string (running AuthConfig) :=
  b ← lift (with_outbox_relay environment id (with_consumers
    (λ _, Ok [{| cg_group_id := "order-service"; cg_topics := ["catalog.events"; "payments.events"] |}])
    (with_db "ORDER_DB_URL" (http_port_env "ORDER_PORT" (ServiceBuilder_new "order")))));
  run environment id b (service_app environment).
Definition payment_main (environment : environ) (id : string) : M platform string (running AuthConfig) :=
  b ← lift (with_outbox_relay environment id (with_consumers
    (λ infra, _ ← require_db infra; Ok [{| cg_group_id := "payment-service";
       cg_topics := ["catalog.events"; "orders.events"; "payments.events"] |}])
    (with_redis (with_db "PAYMENT_DB_URL" (http_port_env "PAYMENT_PORT" (ServiceBuilder_new "payment"))))));
  run environment id b (service_app environment).
End server.
Arguments running {_} _.

(** ** What a service that has started has *)

Section started.
Context `{Platform}.
Implicit Types (b : ServiceBuilder) (infra : Infra) (environment : environ).

(** Builders that are made with the methods. *)
Inductive built : ServiceBuilder → Prop :=
| built_new name : built (ServiceBuilder_new name)
| built_port key b : built b → built (http_port_env key b)
| built_db url_env dir b : built b → built (with_db_migrations url_env dir b)
| built_redis b : built b → built (with_redis b)
| built_consumers factory b : built b → built (with_consumers factory b)
| built_relay environment id b b' : built b → with_outbox_relay environment id b = Ok b' → built b'
| built_job_runner factory b : built b → built (with_job_runner factory b).

Definition relay_config_ok (c : RelayConfig) : Prop :=
  (0 < batch_size c)%nat ∧ 0 < poll_interval c ∧ stale_lock_check_interval c < stale_lock_timeout c.
Definition job_config_ok (c : JobRunnerConfig) : Prop :=
  (0 < jr_max_concurrent_jobs c)%nat ∧ 0 < jr_poll_interval_ms c ∧ jr_stale_lock_check_interval c < jr_stale_lock_timeout c.

Lemma ensure_ok {E} (x : bool) u : ensure (E := E) x = Ok u ↔ x = true.
Proof. destruct x, u; naive_solver. Qed.
Lemma expect_ok {E A} (o : option A) a : expect (E := E) o = Ok a ↔ o = Some a.
Proof. destruct o; naive_solver. Qed.

Lemma RelayConfig_from_env_ok {E} environment id c :
  RelayConfig_from_env (E := E) environment id = Ok c → relay_config_ok c.
Proof.
  intros (? & Hb%ensure_ok & (? & Hp%ensure_ok & (? & Hc%ensure_ok & [= <-])%obind_ok)%obind_ok)%obind_ok.
  apply Z.ltb_lt in Hb, Hp, Hc. unfold relay_config_ok. simpl. split_and!; lia.
Qed.
Lemma JobRunnerConfig_from_env_ok {E} environment id c :
  JobRunnerConfig_from_env (E := E) environment id = Ok c → job_config_ok c.
Proof.
  intros (? & Hb%ensure_ok & (? & Hp%ensure_ok & (? & Hc%ensure_ok & [= <-])%obind_ok)%obind_ok)%obind_ok.
  apply Z.ltb_lt in Hb, Hp, Hc. unfold job_config_ok. simpl. split_and!; lia.
Qed.

Lemma declare_kafka_kafka deps : existsb is_kafka (declare_kafka deps) = true.
Proof. unfold declare_kafka. destruct (existsb is_kafka deps) eqn:E; [done|]. by rewrite existsb_app, orb_true_r. Qed.

(** Consumers and the relay come with their declaration. *)
Lemma built_declares b : built b →
  (is_Some (sb_consumer_factory b) ∨ is_Some (sb_relay_config b) → existsb is_kafka (sb_deps b) = true) ∧
  (∀ c, sb_relay_config b = Some c → relay_config_ok c).
Proof.
  induction 1 as [name|key b _ IH|url dir b _ [IH ?]|b _ [IH ?]|factory b _ [_ ?]|env id b b' _ [_ IH] Hb|factory b _ IH];
    simpl in *; try done.
  - split; [|done]. by intros [[? ?]|[? ?]].
  - split; [|done]. intros Hx. by rewrite existsb_app, (IH Hx).
  - split; [|done]. intros Hx. by rewrite existsb_app, (IH Hx).
  - split; [|done]. intros _. apply declare_kafka_kafka.
  - apply obind_ok in Hb as (c & Hc%RelayConfig_from_env_ok & [= <-]). simpl. split.
    + intros _. apply declare_kafka_kafka.
    + by intros ? [= <-].
Qed.

(** The infrastructure, against what was declared and how the libraries answered. A database was
    connected and migrated; Redis is there exactly if the connection was made. *)
Definition databases (deps : list InfraDep) : list (string * string) :=
  omap (λ d, match d with Postgres url_env dir => Some (url_env, dir) | _ => None end) deps.
Definition connected_db environment (pool : PgPool) (declared : string * string) : Prop :=
  ∃ url n crate w0 w1 w2, environment !! declared.1 = Some url ∧ is_empty url = false ∧ 0 < n ∧
    (v ← environment !! "DB_MAX_CONNECTIONS"; parse_u32 v) = Some n ∧
    environment !! "CARGO_MANIFEST_DIR" = Some crate ∧
    connect_db {| db_url := url; db_max_connections := n |} w0 = (Ok pool, w1) ∧
    run_migrations pool (path_join crate declared.2) w1 = (Ok tt, w2).
Definition redis_answered (url : string) (redis : option RedisConn) : Prop :=
  ∃ w0 w1, match redis with
           | Some conn => ∃ w2, redis_open url w0 = (Ok tt, w1) ∧ redis_connect url w1 = (Ok conn, w2)
           | None => ∃ e, redis_open url w0 = (Err e, w1) ∨ redis_connect url w0 = (Err e, w1)
           end.
Record initialized environment (deps : list InfraDep) infra : Prop := {
  i_db : match last (databases deps) with
         | None => in_db infra = None
         | Some declared => ∃ pool, in_db infra = Some pool ∧ connected_db environment pool declared
         end;
  i_redis : if existsb is_redis deps
            then match environment !! "REDIS_URL" with
                 | None => in_redis infra = None
                 | Some url => redis_answered url (in_redis infra)
                 end
            else in_redis infra = None;
  i_kafka : in_kafka infra = if existsb is_kafka deps then Some (read_env_or environment "KAFKA_BROKERS" "localhost:29092")
                             else None }.

Lemma init_redis_answered url w :
  match init_redis url w with
  | (Ok conn, _) => redis_answered url (Some conn)
  | (Err _, _) => redis_answered url None
  | (Panic, _) => True
  end.
Proof.
  unfold init_redis, redis_answered, mbind, M_bind. destruct (redis_open url w) as [[[]|e|] w1] eqn:Ho; [|by eauto 8|done].
  destruct (redis_connect url w1) as [[conn|e|] w2] eqn:Hc; by eauto 8.
Qed.
Lemma init_optional_redis_answered environment w redis w' :
  init_optional_redis environment w = (Ok redis, w') →
  match environment !! "REDIS_URL" with None => redis = None | Some url => redis_answered url redis end.
Proof.
  unfold init_optional_redis, RedisConfig_try_new. destruct (environment !! "REDIS_URL") as [url|].
  2:{ by intros [<- _]%ret_ok. }
  pose proof (init_redis_answered url w) as Ha.
  by intros [(conn & w1 & Hi & [<- _]%ret_ok)|(e & w1 & Hi & [<- _]%ret_ok)]%catch_ok; rewrite Hi in Ha.
Qed.
Lemma init_db_connected environment url_env dir (config : DbConfig) pool w w' :
  DbConfig_new (E := string) environment url_env = Ok config → init_db environment config dir w = (Ok pool, w') →
  connected_db environment pool (url_env, dir).
Proof.
  intros (url & Hu%expect_ok & (n & Hn%expect_ok &
    (? & He%ensure_ok & (? & Hp%ensure_ok & [= <-])%obind_ok)%obind_ok)%obind_ok)%obind_ok.
  intros (pool' & w1 & Hc & ([] & w2 & Hm & [<- _]%ret_ok)%bind_ok)%bind_ok. unfold migrate_db in Hm.
  destruct (environment !! "CARGO_MANIFEST_DIR") as [crate|] eqn:Ecrate; [|done].
  apply negb_true_iff in He. apply Z.ltb_lt in Hp. unfold connected_db. by eauto 15.
Qed.

(** The last declaration of each kind counts. *)
Lemma init_deps_snoc environment deps d : ∀ infra0 w infra w',
  init_deps environment infra0 (deps ++ [d]) w = (Ok infra, w') →
  ∃ infra1 w1, init_deps environment infra0 deps w = (Ok infra1, w1) ∧ init_dep environment infra1 d w1 = (Ok infra, w').
Proof.
  induction deps as [|d' deps IH]; intros infra0 w infra w' Hr; cbn [init_deps app] in *.
  - apply bind_ok in Hr as (infra1 & w1 & Hd & [<- <-]%ret_ok). by exists infra0, w.
  - apply bind_ok in Hr as (infra1 & w1 & Hd & (infra2 & w2 & Hi & Hl)%IH). exists infra2, w2. split; [|done].
    unfold mbind, M_bind. by rewrite Hd.
Qed.
Lemma init_infra_ok environment deps : ∀ w infra w',
  do_init_infra environment deps w = (Ok infra, w') → initialized environment deps infra.
Proof.
  unfold do_init_infra. induction deps as [|d deps IH] using rev_ind; intros w infra w' Hr.
  { apply ret_ok in Hr as [<- _]. by split. }
  apply init_deps_snoc in Hr as (infra1 & w1 & [Hdb Hre Hk]%IH & Hd).
  destruct d as [url dir| |]; simpl in Hd.
  - apply bind_ok in Hd as (c & w2 & [Hc _]%lift_ok & (pool & w3 & Hi & [<- _]%ret_ok)%bind_ok).
    split; unfold databases; rewrite ?omap_app, ?existsb_app; simpl; rewrite ?orb_false_r, ?last_snoc; [|done..].
    exists pool. split; [done|]. by eapply init_db_connected.
  - apply bind_ok in Hd as (conn & w2 & Hc%init_optional_redis_answered & [<- _]%ret_ok).
    split; unfold databases; rewrite ?omap_app, ?existsb_app, ?app_nil_r, ?orb_false_r, ?orb_true_r; simpl;
      rewrite ?app_nil_r; done.
  - apply ret_ok in Hd as [<- _].
    split; unfold databases; rewrite ?omap_app, ?existsb_app, ?app_nil_r, ?orb_false_r, ?orb_true_r; simpl;
      rewrite ?app_nil_r; done.
Qed.

(** The task of a registered consumer group, or none if a client could not be created for it. *)
Definition consumer_answered (brokers : string) (pool : PgPool) (reg : ConsumerRegistration) (ts : list task) : Prop :=
  let config := ConsumerConfig_new (cg_group_id reg) (cg_topics reg) in
  ∃ settings w0 w1,
    (ts = [ConsumerTask brokers config pool] ∧ create_consumer settings w0 = (Ok tt, w1) ∧
     ("bootstrap.servers", brokers) ∈ settings ∧ ("group.id", cg_group_id reg) ∈ settings ∧
     ("enable.auto.commit", "false") ∈ settings) ∨
    (ts = [] ∧ ∃ e, create_consumer settings w0 = (Err e, w1) ∨ create_producer settings w0 = (Err e, w1)).
Record tasks_started environment id b infra (ts consumers relays jobs : list task) : Prop := {
  t_all : ts = consumers ++ relays ++ jobs;
  t_consumers : match sb_consumer_factory b with
                | None => consumers = []
                | Some factory => ∃ regs brokers pool each,
                    factory infra = Ok regs ∧ in_kafka infra = Some brokers ∧ in_db infra = Some pool ∧
                    Forall2 (consumer_answered brokers pool) regs each ∧ consumers = concat each
                end;
  t_relay : match sb_relay_config b with
            | None => relays = []
            | Some config => ∃ pool, in_db infra = Some pool ∧ relay_config_ok config ∧
                relays = [RelayTask config pool (in_redis infra)]
            end;
  t_jobs : match sb_job_runner_factory b with
           | None => jobs = []
           | Some factory => ∃ pool config, factory infra = Ok tt ∧ in_db infra = Some pool ∧
               JobRunnerConfig_from_env (E := string) environment id = Ok config ∧ job_config_ok config ∧
               jobs = [JobRunnerTask config pool]
           end }.

Lemma consumer_new_answered brokers (config : ConsumerConfig) w :
  match KafkaEventConsumer_new brokers config w with
  | (Ok _, _) => ∃ settings w0 w1, create_consumer settings w0 = (Ok tt, w1) ∧
      ("bootstrap.servers", brokers) ∈ settings ∧ ("group.id", group_id config) ∈ settings ∧
      ("enable.auto.commit", "false") ∈ settings
  | (Err _, _) => ∃ settings w0 w1 e, create_consumer settings w0 = (Err e, w1) ∨ create_producer settings w0 = (Err e, w1)
  | (Panic, _) => True
  end.
Proof.
  unfold KafkaEventConsumer_new, map_err, mbind, M_bind.
  match goal with |- context [create_consumer ?l w] => destruct (create_consumer l w) as [[[]|e|] w1] eqn:Hc end;
    simpl; [|by eauto 8|done].
  match goal with |- context [create_producer ?l w1] => destruct (create_producer l w1) as [[[]|e|] w2] eqn:Hp end;
    simpl; [|by eauto 8|done].
  eexists _, _, _. split; [exact Hc|]. split_and!; rewrite !elem_of_cons; tauto.
Qed.
Lemma start_consumers_ok brokers pool regs : ∀ w ts w',
  start_consumers brokers pool regs w = (Ok ts, w') →
  ∃ each, Forall2 (consumer_answered brokers pool) regs each ∧ ts = concat each.
Proof.
  induction regs as [|reg regs IH]; intros w ts w' Hr; cbn [start_consumers] in Hr.
  { apply ret_ok in Hr as [<- _]. by exists []. }
  apply bind_ok in Hr as (l & w1 & Hc & (rest & w2 & (each & Hf & ->)%IH & [<- _]%ret_ok)%bind_ok).
  exists (l :: each). split; [constructor; [|done]|done]. unfold consumer_answered.
  pose proof (consumer_new_answered brokers (ConsumerConfig_new (cg_group_id reg) (cg_topics reg)) w) as Ha.
  apply catch_ok in Hc as [(? & ? & Hk & [<- _]%ret_ok)|(? & ? & Hk & [<- _]%ret_ok)]; rewrite Hk in Ha;
    destruct Ha as (settings & w3 & w4 & Ha); exists settings, w3, w4; [by left|by right].
Qed.
Lemma spawned_ok environment id b infra w0 consumers w1 relays w2 jobs w3 :
  (∀ c, sb_relay_config b = Some c → relay_config_ok c) →
  spawn_consumers (sb_consumer_factory b) infra w0 = (Ok consumers, w1) →
  spawn_relay (sb_relay_config b) infra w1 = (Ok relays, w2) →
  spawn_job_runner environment id (sb_job_runner_factory b) infra w2 = (Ok jobs, w3) →
  tasks_started environment id b infra (consumers ++ relays ++ jobs) consumers relays jobs.
Proof.
  intros Hok Hc Hr Hj. split; [done|..].
  - unfold spawn_consumers in Hc. destruct (sb_consumer_factory b) as [factory|]; [|by apply ret_ok in Hc as [<- _]].
    apply bind_ok in Hc as (regs & w4 & [Hf _]%lift_ok & (brokers & w5 & [Hk%expect_ok _]%lift_ok &
      (pool & w6 & [Hp%expect_ok _]%lift_ok & (each & ? & ->)%start_consumers_ok)%bind_ok)%bind_ok).
    by exists regs, brokers, pool, each.
  - unfold spawn_relay in Hr. destruct (sb_relay_config b) as [config|]; [|by apply ret_ok in Hr as [<- _]].
    apply bind_ok in Hr as (brokers & w4 & _ & (pool & w5 & [Hp%expect_ok _]%lift_ok &
      (? & w6 & _ & [<- _]%ret_ok)%bind_ok)%bind_ok). exists pool. by split_and!; [|apply Hok|].
  - unfold spawn_job_runner in Hj. destruct (sb_job_runner_factory b) as [factory|]; [|by apply ret_ok in Hj as [<- _]].
    apply bind_ok in Hj as ([] & w4 & [Hf _]%lift_ok & (pool & w5 & [Hp%expect_ok _]%lift_ok &
      (config & w6 & [Hc' _]%lift_ok & [<- _]%ret_ok)%bind_ok)%bind_ok).
    exists pool, config. split_and!; try done. by eapply JobRunnerConfig_from_env_ok.
Qed.

Lemma parse_int_range lo hi s z : parse_int lo hi s = Some z → lo <= z <= hi.
Proof.
  unfold parse_int. intros Hz. case_match. case_match; [done|].
  apply bind_Some in Hz as (v & _ & Hz). destruct (_ && _) eqn:E in Hz; [|done].
  apply andb_prop in E as [?%Z.leb_le ?%Z.leb_le]. injection Hz as <-. lia.
Qed.
Lemma parse_http_port_ok {E} environment b port :
  parse_http_port (E := E) environment b = Ok port →
  1 <= port <= 65535 ∧ parse_u16 (read_env_or environment (sb_http_port_env b) "3000") = Some port.
Proof.
  intros (p & Hp%expect_ok & (? & Hpos%ensure_ok & [= <-])%obind_ok)%obind_ok. split; [|done].
  apply parse_int_range in Hp. apply Z.ltb_lt in Hpos. simpl in *. lia.
Qed.
Lemma parse_http_port_no_err {E} environment b (e : E) : parse_http_port environment b ≠ Err e.
Proof. unfold parse_http_port. destruct (parse_u16 _) as [port|]; simpl; [|done]. by destruct (0 <? port). Qed.

(** C40: A service that starts listens on the port of its variable, in 1..65535. Its database, if it
    declared one, is connected to the address its variable gives and migrated; its Kafka brokers are
    there exactly if declared. Declared Redis with an address is connected, and is missing exactly if
    the connection failed; undeclared or without an address it is absent. What runs beside the server
    is, in order: a consumer for every registered group, with its topics and the default
    configuration, unless a client could not be created for that group; a relay exactly if one was
    asked for, on the database and the Redis there is; a job runner likewise, configured by the
    environment. A stale lock is older than one check in both configurations. Whatever runs beside
    the server needs a declared database. *)
Theorem service_started {App} environment id b (build_app : Infra → outcome string App) w r w' :
  built b → run environment id b build_app w = (Ok r, w') →
  (1 <= rn_port r <= 65535 ∧ parse_u16 (read_env_or environment (sb_http_port_env b) "3000") = Some (rn_port r)) ∧
  initialized environment (sb_deps b) (rn_infra r) ∧
  build_app (rn_infra r) = Ok (rn_app r) ∧
  (∃ consumers relays jobs, tasks_started environment id b (rn_infra r) (rn_tasks r) consumers relays jobs) ∧
  (is_Some (sb_consumer_factory b) ∨ is_Some (sb_relay_config b) ∨ is_Some (sb_job_runner_factory b) →
   databases (sb_deps b) ≠ []).
Proof.
  intros Hb Hr. destruct (built_declares b Hb) as [_ Hrc]. unfold run in Hr.
  apply bind_ok in Hr as (port & w0 & Hport & Hr). apply lift_ok in Hport as [Hport%parse_http_port_ok _].
  apply bind_ok in Hr as (infra & w1 & Hi%init_infra_ok & Hr).
  apply bind_ok in Hr as (app & w2 & Ha & Hr). apply lift_ok in Ha as [Ha _].
  apply bind_ok in Hr as (cs & w3 & Hcs & (rs & w4 & Hrs & (js & w5 & Hjs & Hr)%bind_ok)%bind_ok).
  apply bind_ok in Hr as (? & w6 & _ & [<- _]%ret_ok). simpl.
  pose proof (spawned_ok _ _ _ _ _ _ _ _ _ _ _ Hrc Hcs Hrs Hjs) as Ht.
  do 3 (split; [done|]). split; [by eexists _, _, _|]. intros Hs Hnone. pose proof (i_db _ _ _ Hi) as Hdb.
  rewrite Hnone in Hdb. simpl in Hdb. destruct Ht as [_ Hc Hrl Hj].
  destruct Hs as [[? E]|[[? E]|[? E]]]; rewrite E in *; naive_solver.
Qed.

(** The cart has no database, so its start is the case that needs Redis: without a URL it panics. *)
Theorem cart_needs_redis environment id w :
  environment !! "REDIS_URL" = None → cart_main environment id w = (Panic, w).
Proof.
  intros Hu. unfold cart_main, run, lift, mbind, M_bind.
  destruct (parse_http_port _ _) as [port|e|] eqn:Hp; [| |done].
  - unfold do_init_infra. simpl. unfold init_optional_redis, RedisConfig_try_new. by rewrite Hu.
  - by apply parse_http_port_no_err in Hp.
Qed.
(** So it does when the connection fails. *)
Theorem cart_needs_connection environment id w url e w' :
  environment !! "REDIS_URL" = Some url → init_redis url w = (Err e, w') →
  (cart_main environment id w).1 = Panic.
Proof.
  intros Hu Hc. unfold cart_main, run, lift, mbind, M_bind.
  destruct (parse_http_port _ _) as [port|e'|] eqn:Hp; [| |done].
  - unfold do_init_infra. simpl. unfold init_optional_redis, RedisConfig_try_new, mbind, M_bind, catch. by rewrite Hu, Hc.
  - by apply parse_http_port_no_err in Hp.
Qed.
End started.

(** ** Examples *)

Section examples.
#[local] Instance sample_platform : Platform := {|
  platform := unit; PgPool := string; RedisConn := string;
  connect_db c := mret (db_url c); run_migrations _ _ := mret tt; redis_open _ := mret tt; redis_connect url := mret url;
  create_consumer _ := mret tt; create_producer _ := mret tt; bind_listener _ := mret tt |}.
Definition sample_environment : environ := list_to_map [
  ("CATALOG_DB_URL", "postgres://db/catalog"); ("DB_MAX_CONNECTIONS", "10"); ("CATALOG_PORT", "3002");
  ("REDIS_URL", "redis://cache"); ("CARGO_MANIFEST_DIR", "/srv/catalog"); ("ACCESS_TOKEN_SECRET", "a"); ("REFRESH_TOKEN_SECRET", "r");
  ("ACCESS_TOKEN_EXPIRY", "900"); ("REFRESH_TOKEN_EXPIRY", "604800")].
Definition sample_builder : ServiceBuilder :=
  with_job_runner (λ _, Ok tt) (with_consumers
    (λ _, Ok [{| cg_group_id := "catalog-service"; cg_topics := ["orders.events"] |}])
    (with_redis (with_db "CATALOG_DB_URL" (http_port_env "CATALOG_PORT" (ServiceBuilder_new "catalog"))))).
Definition sample_start := run sample_environment "id" sample_builder (service_app sample_environment) tt.

(** The catalog as it is starts a consumer and a relay. *)
Example catalog_starts :
  match (catalog_main sample_environment "id" tt).1 with
  | Ok r => bool_decide (rn_port r = 3002) && bool_decide (length (rn_tasks r) = 2%nat) && existsb (λ t, match t with RelayTask _ _ _ => true | _ => false end) (rn_tasks r)
  | _ => false
  end = true.
Proof. vm_compute. reflexivity. Qed.

Lemma service_started_witness :
  ∃ r, sample_start = (Ok r, tt) ∧ 1 <= rn_port r <= 65535 ∧
    initialized sample_environment (sb_deps sample_builder) (rn_infra r) ∧
    is_Some (in_redis (rn_infra r)) ∧ length (rn_tasks r) = 2%nat.
Proof.
  destruct sample_start as [[r|e|] []] eqn:E; [|by vm_compute in E..].
  exists r. split; [done|].
  assert (built sample_builder) as Hb by repeat constructor.
  pose proof (service_started sample_environment "id" sample_builder _ tt r tt Hb E) as ([? _] & ? & _).
  split; [done|]. split; [done|]. vm_compute in E. injection E as <-. split; [by eexists|done].
Defined.
End examples.
