(* ===== verification/Ledger.v ===== *)
(** * Payment service: the double-entry ledger (payment/src/ledger)

    Accounts, transactions and entries with the constraints of their tables, the
    repository, the balances view and the payment state derived from an order's
    transactions; and the error type of the service (payment/src/payments/error.rs). *)

From S2P Require Import Prelude RustStr Externals Errors Events Db Outbox Gateway.

Local Open Scope Z_scope.

Inductive NormalBalance : Type := NbDebit | NbCredit.
#[export] Instance NormalBalance_eq_dec : EqDecision NormalBalance.
Proof. solve_decision. Defined.
Definition normal_balance_str (b : NormalBalance) : string :=
  match b with NbDebit => "debit" | NbCredit => "credit" end.

Inductive AccountType : Type := Buyer | GatewayHolding | PlatformRevenue | SellerPayable.
#[export] Instance AccountType_eq_dec : EqDecision AccountType.
Proof. solve_decision. Defined.
Definition account_type_str (a : AccountType) : string :=
  match a with
  | Buyer => "buyer" | GatewayHolding => "gateway_holding"
  | PlatformRevenue => "platform_revenue" | SellerPayable => "seller_payable"
  end.
Definition normal_balance (a : AccountType) : NormalBalance :=
  match a with Buyer | GatewayHolding => NbDebit | PlatformRevenue | SellerPayable => NbCredit end.

Inductive TransactionType : Type := Authorization | Capture | Void | Refund.
#[export] Instance TransactionType_eq_dec : EqDecision TransactionType.
Proof. solve_decision. Defined.
Definition transaction_type_str (t : TransactionType) : string :=
  match t with
  | Authorization => "authorization" | Capture => "capture" | Void => "void" | Refund => "refund"
  end.

Inductive TransactionStatus : Type := TxPending | TxPosted | TxDiscarded.
#[export] Instance TransactionStatus_eq_dec : EqDecision TransactionStatus.
Proof. solve_decision. Defined.
Definition transaction_status_str (s : TransactionStatus) : string :=
  match s with TxPending => "pending" | TxPosted => "posted" | TxDiscarded => "discarded" end.

Inductive EntryDirection : Type := Debit | Credit.
#[export] Instance EntryDirection_eq_dec : EqDecision EntryDirection.
Proof. solve_decision. Defined.
Definition direction_str (d : EntryDirection) : string :=
  match d with Debit => "debit" | Credit => "credit" end.

Inductive PaymentState : Type :=
| PsNew | PsAuthorized | PsCaptured | PsVoided | PsRefunded | PsPending | PsFailed.
#[export] Instance PaymentState_eq_dec : EqDecision PaymentState.
Proof. solve_decision. Defined.
(** The [Debug] form. *)
Definition payment_state_str (s : PaymentState) : string :=
  match s with
  | PsNew => "New" | PsAuthorized => "Authorized" | PsCaptured => "Captured"
  | PsVoided => "Voided" | PsRefunded => "Refunded" | PsPending => "Pending"
  | PsFailed => "Failed"
  end.

Section ledger.
Context `{Externals}.

(** ** Errors *)

Inductive PaymentError : Type :=
| ValidationFailed (msg : string)
| InvalidState (operation : string) (state : PaymentState)
| AmountTampered (requested approved : Decimal)
| PaymentNotFound (msg : string)
| GatewayDeclined (code message : string)
| GatewayRetryable (code message : string)
| PaymentInfra (e : AppError).

Definition invalid_state_msg (operation : string) (state : PaymentState) : string :=
  "Cannot " +:+ operation +:+ " payment in state: " +:+ payment_state_str state.
Definition tampered_msg (requested approved : Decimal) : string :=
  "Amount tampering detected: requested=" +:+ dec_to_string requested +:+ ", approved=" +:+
  dec_to_string approved.

Definition payment_error_display (e : PaymentError) : string :=
  match e with
  | ValidationFailed m => "Validation failed: " +:+ m
  | InvalidState op st => invalid_state_msg op st
  | AmountTampered r a => tampered_msg r a
  | PaymentNotFound m => "Not found: " +:+ m
  | GatewayDeclined c m => "Gateway declined [" +:+ c +:+ "]: " +:+ m
  | GatewayRetryable c m => "Gateway retryable error [" +:+ c +:+ "]: " +:+ m
  | PaymentInfra e => app_error_display e
  end.

Definition payment_error_of_gateway (e : GatewayError) : PaymentError :=
  if is_retryable e then GatewayRetryable (ge_code e) (ge_message e)
  else GatewayDeclined (ge_code e) (ge_message e).

Definition app_of_payment_error (e : PaymentError) : AppError :=
  match e with
  | ValidationFailed m => BadRequest m
  | InvalidState op st => BadRequest (invalid_state_msg op st)
  | AmountTampered r a => BadRequest (tampered_msg r a)
  | PaymentNotFound m => NotFound m
  | GatewayDeclined c m => BadRequest ("Gateway declined [" +:+ c +:+ "]: " +:+ m)
  | GatewayRetryable c m => InternalServerError ("Gateway error [" +:+ c +:+ "]: " +:+ m)
  | PaymentInfra e => e
  end.

(** ** The payment state and its guards *)

Definition validate_for_authorize (s : PaymentState) : outcome PaymentError unit :=
  match s with PsNew | PsFailed => Ok tt | _ => Err (InvalidState "authorize" s) end.
Definition validate_for_capture (s : PaymentState) : outcome PaymentError unit :=
  match s with PsAuthorized => Ok tt | _ => Err (InvalidState "capture" s) end.
Definition validate_for_void (s : PaymentState) : outcome PaymentError unit :=
  match s with PsAuthorized => Ok tt | _ => Err (InvalidState "void" s) end.
Definition validate_for_refund (s : PaymentState) : outcome PaymentError unit :=
  match s with PsCaptured => Ok tt | _ => Err (InvalidState "refund" s) end.

(** ** Tables *)

Record AccountEntity := MkAccount {
  ac_id : Uuid; ac_created_at : Z; ac_account_type : AccountType;
  ac_normal_balance : NormalBalance; ac_reference_id : Uuid; ac_currency : string }.

Record LedgerTransactionEntity := MkLedgerTx {
  lt_id : Uuid; lt_created_at : Z; lt_order_id : Uuid; lt_type : TransactionType;
  lt_status : TransactionStatus; lt_idempotency_key : string;
  lt_gateway_reference : option string; lt_metadata : Value }.

Record LedgerEntryEntity := MkEntry {
  le_id : Uuid; le_created_at : Z; le_transaction_id : Uuid; le_account_id : Uuid;
  le_direction : EntryDirection; le_amount : Decimal }.

Record payment_tables := MkPaymentTables {
  pt_accounts : list AccountEntity;
  pt_transactions : list LedgerTransactionEntity;
  pt_entries : list LedgerEntryEntity;
  pt_outbox : list OutboxEvent;
  pt_processed : list ProcessedEvent }.

#[export, program] Instance payment_outbox : OutboxTables payment_tables := {|
  outbox_events := pt_outbox;
  set_outbox_events l t :=
    MkPaymentTables (pt_accounts t) (pt_transactions t) (pt_entries t) l (pt_processed t);
  processed_events := pt_processed;
  set_processed_events l t :=
    MkPaymentTables (pt_accounts t) (pt_transactions t) (pt_entries t) (pt_outbox t) l;
|}.
Solve All Obligations with done.

Definition set_accounts l t : payment_tables :=
  MkPaymentTables l (pt_transactions t) (pt_entries t) (pt_outbox t) (pt_processed t).
Definition set_transactions l t : payment_tables :=
  MkPaymentTables (pt_accounts t) l (pt_entries t) (pt_outbox t) (pt_processed t).
Definition set_entries l t : payment_tables :=
  MkPaymentTables (pt_accounts t) (pt_transactions t) l (pt_outbox t) (pt_processed t).

Abbreviation tx := (M (conn payment_tables)).

Definition failed_to {A} (what : string) (m : tx sql_error A) : tx AppError A :=
  map_err (λ e, InternalServerError (what +:+ ": " +:+ sqlx_display e)) m.

(** ** Accounts *)

Definition is_account (ty : AccountType) (reference : Uuid) (currency : string)
    (a : AccountEntity) : bool :=
  bool_decide (ac_reference_id a = reference) && bool_decide (ac_account_type a = ty) &&
  bool_decide (ac_currency a = currency).
Definition has_account_id (id : Uuid) (a : AccountEntity) : bool := bool_decide (ac_id a = id).

(** [INSERT INTO accounts .. ON CONFLICT (..) DO NOTHING RETURNING *] *)
Definition insert_account (ty : AccountType) (reference : Uuid) (currency : string)
    (now : Z) (id : Uuid) (t : payment_tables)
    : outcome sql_error (option AccountEntity * payment_tables) :=
  currency ← varchar "currency" 3 currency;
  if existsb (is_account ty reference currency) (pt_accounts t) then Ok (None, t)
  else
    _ ← unique "accounts_pkey" (has_account_id id) (pt_accounts t);
    let a := MkAccount id now ty (normal_balance ty) reference currency in
    Ok (Some a, set_accounts (pt_accounts t ++ [a]) t).

Definition get_or_create_account (ty : AccountType) (reference : Uuid) (currency : string)
    : tx AppError AccountEntity :=
  account ← failed_to "Failed to create account" (exec (insert_account ty reference currency));
  match account with
  | Some a => mret a
  | None => failed_to "Failed to fetch account"
      (fetch_one (λ t, List.find (is_account ty reference currency) (pt_accounts t)))
  end.

(** ** Transactions *)

Definition has_tx_id (id : Uuid) (x : LedgerTransactionEntity) : bool := bool_decide (lt_id x = id).
Definition has_tx_key (key : string) (x : LedgerTransactionEntity) : bool :=
  bool_decide (lt_idempotency_key x = key).

Definition varchar_opt (column : string) (n : nat) (s : option string)
    : outcome sql_error (option string) :=
  match s with None => Ok None | Some s => s ← varchar column n s; Ok (Some s) end.

Definition insert_transaction (order_id : Uuid) (ty : TransactionType) (key : string)
    (reference : option string) (now : Z) (id : Uuid) (t : payment_tables)
    : outcome sql_error (LedgerTransactionEntity * payment_tables) :=
  key ← varchar "idempotency_key" 255 key;
  reference ← varchar_opt "gateway_reference" 255 reference;
  _ ← unique "ledger_transactions_pkey" (has_tx_id id) (pt_transactions t);
  _ ← unique "ledger_transactions_idempotency_key_key" (has_tx_key key) (pt_transactions t);
  let x := MkLedgerTx id now order_id ty TxPending key reference (jobj []) in
  Ok (x, set_transactions (pt_transactions t ++ [x]) t).

Definition create_transaction (order_id : Uuid) (ty : TransactionType) (key : string)
    (reference : option string) : tx AppError LedgerTransactionEntity :=
  failed_to "Failed to create transaction" (exec (insert_transaction order_id ty key reference)).

Definition get_transaction_by_idempotency_key (key : string)
    : tx AppError (option LedgerTransactionEntity) :=
  failed_to "Failed to fetch transaction"
    (query (λ t, List.find (has_tx_key key) (pt_transactions t))).

Definition with_status (st : TransactionStatus) (reference : option string)
    (x : LedgerTransactionEntity) : LedgerTransactionEntity :=
  MkLedgerTx (lt_id x) (lt_created_at x) (lt_order_id x) (lt_type x) st (lt_idempotency_key x)
    (match reference with Some r => Some r | None => lt_gateway_reference x end) (lt_metadata x).

(** The number of rows affected, and the new tables. *)
Definition update_transaction_stmt (id : Uuid) (st : TransactionStatus) (reference : option string)
    (_ : Z) (_ : Uuid) (t : payment_tables) : outcome sql_error (nat * payment_tables) :=
  reference ← varchar_opt "gateway_reference" 255 reference;
  Ok (rows_affected (has_tx_id id) (pt_transactions t),
      set_transactions (update_where (has_tx_id id) (with_status st reference) (pt_transactions t)) t).

Definition update_transaction_status (id : Uuid) (st : TransactionStatus)
    (reference : option string) : tx AppError unit :=
  n ← failed_to "Failed to update transaction" (exec (update_transaction_stmt id st reference));
  assert_that (n =? 1)%nat.

Definition transactions_of (order_id : Uuid) (t : payment_tables) : list LedgerTransactionEntity :=
  List.filter (λ x, bool_decide (lt_order_id x = order_id)) (pt_transactions t).

(** [ORDER BY created_at DESC] *)
Definition list_transactions_by_order (order_id : Uuid)
    : tx AppError (list LedgerTransactionEntity) :=
  failed_to "Failed to list transactions"
    (query (λ t, order_by (λ x, - lt_created_at x) (transactions_of order_id t))).

(** ** Entries *)

Definition has_entry_id (id : Uuid) (e : LedgerEntryEntity) : bool := bool_decide (le_id e = id).

Definition insert_entry (transaction_id account_id : Uuid) (dir : EntryDirection) (amount : Decimal)
    (now : Z) (id : Uuid) (t : payment_tables)
    : outcome sql_error (LedgerEntryEntity * payment_tables) :=
  amount ← numeric amount;
  _ ← check_constraint "chk_amount" (dec_ltb dec_zero amount);
  _ ← unique "ledger_entries_pkey" (has_entry_id id) (pt_entries t);
  _ ← foreign_key "ledger_entries_transaction_id_fkey" (has_tx_id transaction_id) (pt_transactions t);
  _ ← foreign_key "ledger_entries_account_id_fkey" (has_account_id account_id) (pt_accounts t);
  let e := MkEntry id now transaction_id account_id dir amount in
  Ok (e, set_entries (pt_entries t ++ [e]) t).

Definition create_entry (transaction_id account_id : Uuid) (dir : EntryDirection)
    (amount : Decimal) : tx AppError LedgerEntryEntity :=
  failed_to "Failed to create entry" (exec (insert_entry transaction_id account_id dir amount)).

Definition entries_of (transaction_id : Uuid) (t : payment_tables) : list LedgerEntryEntity :=
  List.filter (λ e, bool_decide (le_transaction_id e = transaction_id)) (pt_entries t).

Definition list_entries_by_transaction (transaction_id : Uuid)
    : tx AppError (list LedgerEntryEntity) :=
  failed_to "Failed to list entries"
    (query (λ t, order_by le_created_at (entries_of transaction_id t))).

(** ** The view [account_balances]

    Its sums are unbounded numerics; they are counted here in units of 10^-28. *)

Record AccountBalanceEntity := MkBalance {
  ab_account_id : Uuid; ab_account_type : AccountType; ab_reference_id : Uuid;
  ab_normal_balance : NormalBalance; ab_currency : string;
  ab_total_debits : Z; ab_total_credits : Z; ab_balance : Z }.

(** The entry belongs to a posted transaction. *)
Definition posted_entry (t : payment_tables) (e : LedgerEntryEntity) : bool :=
  existsb (λ x, has_tx_id (le_transaction_id e) x && bool_decide (lt_status x = TxPosted))
    (pt_transactions t).

Definition account_total (d : EntryDirection) (account : Uuid) (t : payment_tables) : Z :=
  zsum ((λ e, dec_units (le_amount e)) <$>
    List.filter (λ e, bool_decide (le_account_id e = account) &&
      (posted_entry t e && bool_decide (le_direction e = d))) (pt_entries t)).

Definition account_balance (t : payment_tables) (a : AccountEntity) : AccountBalanceEntity :=
  let debits := account_total Debit (ac_id a) t in
  let credits := account_total Credit (ac_id a) t in
  MkBalance (ac_id a) (ac_account_type a) (ac_reference_id a) (ac_normal_balance a)
    (ac_currency a) debits credits
    (match ac_normal_balance a with NbDebit => debits - credits | NbCredit => credits - debits end).

Definition get_account_balances (reference : Uuid) : tx AppError (list AccountBalanceEntity) :=
  failed_to "Failed to fetch balances"
    (query (λ t, account_balance t <$>
       List.filter (λ a, bool_decide (ac_reference_id a = reference)) (pt_accounts t))).

(** ** The payment state of an order, from its transactions, latest first *)

Definition state_of_type (ty : TransactionType) : PaymentState :=
  match ty with
  | Refund => PsRefunded | Void => PsVoided | Capture => PsCaptured | Authorization => PsAuthorized
  end.

Definition derive_payment_state (txs : list LedgerTransactionEntity) : PaymentState :=
  match txs with
  | [] => PsNew
  | _ =>
      match List.find (λ x, bool_decide (lt_status x = TxPosted)) txs with
      | Some x => state_of_type (lt_type x)
      | None =>
          if existsb (λ x, bool_decide (lt_status x = TxPending)) txs then PsPending else PsFailed
      end
  end.
End ledger.
