(* ===== verification/PaymentService.v ===== *)
(** * Payment service: rules, operations and event handlers
    (payment/src/payments, payment/src/consumers)

    An operation reads on the pool, then calls the gateway, then writes: in a
    transaction of its own (the functions of the public API), or on the consumer's
    transaction (the functions with the suffix on_tx). *)

From S2P Require Import Prelude RustStr Externals Errors Rules Auth Events Db Outbox Consumer.
From S2P Require Import Gateway Ledger Redis DistributedLock.

Local Open Scope Z_scope.

Section payments.
Context `{Externals, RedisApi} {G : Type} (gateway : PaymentGateway G).

(** ** Rules (payments/rules.rs) *)

Inductive PaymentCheck : Type :=
| MinAmount (v : Decimal)
| MaxAmount (v : Decimal)
| PaymentCurrencySupported
| ValidStateForOperation
| CaptureAmountConsistent.

Definition payment_check_str (c : PaymentCheck) : string :=
  match c with
  | MinAmount v => "amount must be at least $" +:+ dec_to_string v
  | MaxAmount v => "amount must not exceed $" +:+ dec_to_string v
  | PaymentCurrencySupported => "currency must be supported"
  | ValidStateForOperation => "payment must be in valid state for operation"
  | CaptureAmountConsistent => "capture amount must match authorization"
  end.

Definition MIN_PAYMENT_AMOUNT : Decimal := dec_new 50 2.
Definition MAX_PAYMENT_AMOUNT : Decimal := dec_new 100000 0.
Definition SUPPORTED_CURRENCIES : list string := ["USD"; "KRW"; "EUR"; "GBP"; "JPY"].

Definition authorization_rules : Rule PaymentCheck :=
  all [check (MinAmount MIN_PAYMENT_AMOUNT); check (MaxAmount MAX_PAYMENT_AMOUNT);
       check PaymentCurrencySupported; check ValidStateForOperation].
Definition capture_rules : Rule PaymentCheck :=
  all [check ValidStateForOperation; check CaptureAmountConsistent].

Record AuthorizationContext := {
  ax_amount : Decimal; ax_currency : string; ax_payment_state : PaymentState }.
Record CaptureContext := {
  cx_payment_state : PaymentState; cx_auth_amount : Decimal; cx_capture_amount : Decimal }.

Definition eval_authorization (ctx : AuthorizationContext) (c : PaymentCheck) : bool :=
  match c with
  | MinAmount min => dec_leb min (ax_amount ctx)
  | MaxAmount max => dec_leb (ax_amount ctx) max
  | PaymentCurrencySupported => bool_decide (ax_currency ctx ∈ SUPPORTED_CURRENCIES)
  | ValidStateForOperation =>
      match ax_payment_state ctx with PsNew | PsFailed => true | _ => false end
  | CaptureAmountConsistent => true
  end.

Definition eval_capture (ctx : CaptureContext) (c : PaymentCheck) : bool :=
  match c with
  | ValidStateForOperation =>
      match cx_payment_state ctx with PsAuthorized => true | _ => false end
  | CaptureAmountConsistent => dec_eqb (cx_capture_amount ctx) (cx_auth_amount ctx)
  | _ => true
  end.

(** ** Helpers (payments/service.rs) *)

Abbreviation ext := (G * redis)%type.
Abbreviation tx := (M (conn payment_tables)).
Abbreviation svc := (M (db payment_tables ext)).
Abbreviation sess := (M (session payment_tables ext)).

Definition call_gateway {A} (m : M G GatewayError A) : svc GatewayError A :=
  zoom (λ s : db payment_tables ext, (d_ext s).1)
    (λ g s, MkDb (d_committed s) (d_env s) (g, (d_ext s).2)) m.

Definition validate_authorization (amount : Decimal) (currency : string) (st : PaymentState)
    : outcome AppError unit :=
  let ctx := {| ax_amount := amount; ax_currency := currency; ax_payment_state := st |} in
  let result := evaluate_detailed (eval_authorization ctx) authorization_rules in
  if negb (passed result) then
    Err (app_of_payment_error
      (ValidationFailed (join "; " (failure_messages payment_check_str result))))
  else Ok tt.

Definition write_outbox (order_id : Uuid) (ty : EventType) (payload : Value) : tx AppError unit :=
  write_event "payments.events" ty AggPayment order_id Payment None payload.

Definition create_account_pair (order_id : Uuid) (currency : string)
    (debit_type credit_type : AccountType) : tx AppError (Uuid * Uuid) :=
  debit_acct ← get_or_create_account debit_type order_id currency;
  credit_acct ← get_or_create_account credit_type order_id currency;
  mret (ac_id debit_acct, ac_id credit_acct).

Definition write_entry_pair (transaction_id debit_account credit_account : Uuid) (amount : Decimal)
    : tx AppError unit :=
  _ ← create_entry transaction_id debit_account Debit amount;
  _ ← create_entry transaction_id credit_account Credit amount;
  mret tt.

Definition post_transaction (transaction_id : Uuid) : tx AppError unit :=
  update_transaction_status transaction_id TxPosted None.

Definition auth_key (order_id : Uuid) : string := "auth:" +:+ uuid_to_string order_id.
Definition capture_key (order_id : Uuid) : string := "capture:" +:+ uuid_to_string order_id.
Definition void_key (order_id : Uuid) : string := "void:" +:+ uuid_to_string order_id.

Definition order_payload (order_id : Uuid) : Value :=
  jobj [("order_id", jstr (uuid_to_string order_id))].
Definition reason_payload (order_id : Uuid) (reason : string) : Value :=
  jobj [("order_id", jstr (uuid_to_string order_id)); ("reason", jstr reason)].
Definition authorized_payload (order_id payment_id : Uuid) (reference : string) : Value :=
  jobj [("order_id", jstr (uuid_to_string order_id));
        ("payment_id", jstr (uuid_to_string payment_id));
        ("gateway_reference", jstr reference)].
Definition retry_payload (order_id : Uuid) (retry_count : Z) (reason : string) : Value :=
  jobj [("order_id", jstr (uuid_to_string order_id)); ("retry_count", jint retry_count);
        ("reason", jstr reason)].
Definition tampering_reason (requested approved : Decimal) : string :=
  "Amount tampering: requested=" +:+ dec_to_string requested +:+ ", approved=" +:+
  dec_to_string approved.

Definition record_authorization (order_id : Uuid) (amount : Decimal) (currency reference : string)
    : tx AppError unit :=
  '(buyer, holding) ← create_account_pair order_id currency Buyer GatewayHolding;
  ledger_tx ← create_transaction order_id Authorization (auth_key order_id) (Some reference);
  _ ← write_entry_pair (lt_id ledger_tx) holding buyer amount;
  _ ← post_transaction (lt_id ledger_tx);
  write_outbox order_id PaymentAuthorized (authorized_payload order_id (lt_id ledger_tx) reference).

Definition record_capture (order_id : Uuid) (auth_currency : string) (amount : Decimal)
    (key reference : string) : tx AppError unit :=
  '(holding, revenue) ← create_account_pair order_id auth_currency GatewayHolding PlatformRevenue;
  capture_tx ← create_transaction order_id Capture key (Some reference);
  _ ← write_entry_pair (lt_id capture_tx) revenue holding amount;
  _ ← post_transaction (lt_id capture_tx);
  write_outbox order_id PaymentCaptured (order_payload order_id).

Definition record_void (order_id auth_tx_id : Uuid) (auth_currency : string) (amount : Decimal)
    (key : string) : tx AppError unit :=
  _ ← update_transaction_status auth_tx_id TxDiscarded None;
  '(buyer, holding) ← create_account_pair order_id auth_currency Buyer GatewayHolding;
  void_tx ← create_transaction order_id Void key None;
  _ ← write_entry_pair (lt_id void_tx) buyer holding amount;
  _ ← post_transaction (lt_id void_tx);
  write_outbox order_id PaymentVoided (order_payload order_id).

Definition is_posted_authorization (x : LedgerTransactionEntity) : bool :=
  bool_decide (lt_type x = Authorization) && bool_decide (lt_status x = TxPosted).

Definition validate_operation (operation : string) (st : PaymentState) : outcome AppError unit :=
  if decide (operation = "capture") then omap_err app_of_payment_error (validate_for_capture st)
  else if decide (operation = "void") then omap_err app_of_payment_error (validate_for_void st)
  else Ok tt.

Definition find_posted_authorization (order_id : Uuid) (operation : string)
    : svc AppError (Uuid * string * string * Decimal) :=
  transactions ← on_pool (list_transactions_by_order order_id);
  let payment_state := derive_payment_state transactions in
  _ ← lift (validate_operation operation payment_state);
  auth_tx ← lift (ok_or (NotFound "No posted authorization found")
               (List.find is_posted_authorization transactions));
  reference ← lift (ok_or (InternalServerError "Authorization missing gateway reference")
                 (lt_gateway_reference auth_tx));
  auth_entries ← on_pool (list_entries_by_transaction (lt_id auth_tx));
  let amount := default dec_zero (le_amount <$> head auth_entries) in
  let currency := default "USD" (as_str (jindex (lt_metadata auth_tx) "currency")) in
  mret (lt_id auth_tx, reference, currency, amount).

(** [write_payment_event]: [what] is the [Debug] form of the event type. *)
Definition write_payment_event (order_id : Uuid) (ty : EventType) (what : string) (payload : Value)
    : svc AppError unit :=
  map_err (λ e, InternalServerError ("Failed to write " +:+ what +:+ ": " +:+ tx_error_display e))
    (with_transaction (map_err tx_of_app (write_outbox order_id ty payload))).

Definition handle_tampered_amount (order_id : Uuid) (requested : Decimal) (r : GatewayAuthResult)
    : svc AppError unit :=
  _ ← catch (call_gateway (gw_void gateway (gateway_reference r))) (λ _, mret tt) (λ _, mret tt);
  _ ← write_payment_event order_id PaymentFailed "PaymentFailed"
        (reason_payload order_id (tampering_reason requested (approved_amount r)));
  fail (app_of_payment_error (AmountTampered requested (approved_amount r))).

(** ** The public API on the pool *)

(** The read phase of an authorization: [true] when there is nothing to do because the
    order has an authorization that is not discarded. *)
Definition authorization_read (order_id : Uuid) (amount : Decimal) (currency : string)
    : svc AppError bool :=
  existing ← on_pool (get_transaction_by_idempotency_key (auth_key order_id));
  if match existing with
     | Some x => negb (bool_decide (lt_status x = TxDiscarded))
     | None => false
     end then mret true
  else
    transactions ← on_pool (list_transactions_by_order order_id);
    let payment_state := derive_payment_state transactions in
    _ ← lift (validate_authorization amount currency payment_state);
    mret false.

Definition authorize_payment (order_id : Uuid) (amount : Decimal) (currency : string)
    : svc AppError unit :=
  done ← authorization_read order_id amount currency;
  if done : bool then mret tt
  else
    catch (call_gateway (gw_authorize gateway (auth_key order_id) order_id amount currency))
      (λ result,
        if negb (dec_eqb (approved_amount result) amount) then
          handle_tampered_amount order_id amount result
        else
          map_err (λ e, InternalServerError ("Failed to authorize: " +:+ tx_error_display e))
            (with_transaction (map_err tx_of_app
               (record_authorization order_id amount currency (gateway_reference result)))))
      (λ gw_err, write_payment_event order_id PaymentFailed "PaymentFailed"
                   (reason_payload order_id (ge_message gw_err))).

Definition app_of_gateway_error (e : GatewayError) : AppError :=
  app_of_payment_error (payment_error_of_gateway e).

Definition capture_payment (order_id : Uuid) : svc AppError unit :=
  '(_, reference, currency, amount) ← find_posted_authorization order_id "capture";
  _ ← map_err app_of_gateway_error (call_gateway (gw_capture gateway reference));
  map_err (λ e, InternalServerError ("Failed to capture payment: " +:+ tx_error_display e))
    (with_transaction (map_err tx_of_app
       (record_capture order_id currency amount (capture_key order_id) reference))).

Definition void_payment (order_id : Uuid) : svc AppError unit :=
  '(auth_tx_id, reference, currency, amount) ← find_posted_authorization order_id "void";
  _ ← map_err app_of_gateway_error (call_gateway (gw_void gateway reference));
  map_err (λ e, InternalServerError ("Failed to void payment: " +:+ tx_error_display e))
    (with_transaction (map_err tx_of_app
       (record_void order_id auth_tx_id currency amount (void_key order_id)))).

(** ** The API on the consumer's transaction *)

Definition authorize_payment_on_tx (order_id : Uuid) (amount : Decimal) (currency : string)
    : sess AppError unit :=
  done ← in_service (authorization_read order_id amount currency);
  if done : bool then mret tt
  else
    catch (in_service (call_gateway
             (gw_authorize gateway (auth_key order_id) order_id amount currency)))
      (λ result,
        if negb (dec_eqb (approved_amount result) amount) then
          _ ← catch (in_service (call_gateway (gw_void gateway (gateway_reference result))))
                (λ _, mret tt) (λ _, mret tt);
          _ ← in_tx (write_outbox order_id PaymentFailed
                (reason_payload order_id (tampering_reason amount (approved_amount result))));
          fail (app_of_payment_error (AmountTampered amount (approved_amount result)))
        else in_tx (record_authorization order_id amount currency (gateway_reference result)))
      (λ gw_err, in_tx (write_outbox order_id PaymentFailed
                   (reason_payload order_id (ge_message gw_err)))).

Definition capture_payment_on_tx (order_id : Uuid) : sess AppError unit :=
  '(_, reference, currency, amount) ← in_service (find_posted_authorization order_id "capture");
  catch (in_service (call_gateway (gw_capture gateway reference)))
    (λ _, in_tx (record_capture order_id currency amount (capture_key order_id) reference))
    (λ gw_err,
      if is_retryable gw_err then
        in_tx (write_outbox order_id PaymentCaptureRetryRequested
                 (retry_payload order_id 1 (ge_message gw_err)))
      else
        in_tx (write_outbox order_id PaymentFailed
                 (reason_payload order_id ("Capture declined: " +:+ ge_message gw_err)))).

Definition void_payment_on_tx (order_id : Uuid) : sess AppError unit :=
  '(auth_tx_id, reference, currency, amount) ← in_service (find_posted_authorization order_id "void");
  _ ← map_err app_of_gateway_error (in_service (call_gateway (gw_void gateway reference)));
  in_tx (record_void order_id auth_tx_id currency amount (void_key order_id)).

(** ** Event handlers (payment/src/consumers) *)

Definition handle_inventory_reserved (e : EventEnvelope) : sess AppError unit :=
  order_id ← lift (payload_uuid e "order_id");
  total_amount ← lift (ok_or (BadRequest "Missing or invalid total_amount")
    (s ← as_str (jindex (env_payload e) "total_amount"); dec_parse s));
  let currency := default "USD" (as_str (jindex (env_payload e) "currency")) in
  authorize_payment_on_tx order_id total_amount currency.

Definition handle_order_confirmed (e : EventEnvelope) : sess AppError unit :=
  order_id ← lift (payload_uuid e "order_id");
  capture_payment_on_tx order_id.

Definition handle_order_cancelled (e : EventEnvelope) : sess AppError unit :=
  order_id ← lift (payload_uuid e "order_id");
  transactions ← in_service (on_pool (list_transactions_by_order order_id));
  match derive_payment_state transactions with
  | PsAuthorized => void_payment_on_tx order_id
  | _ => mret tt
  end.

Definition MAX_CAPTURE_RETRIES : Z := 10.
(** [as u32] *)
Definition as_u32 (z : Z) : Z := z mod 2 ^ 32.

Definition handle_capture_retry (e : EventEnvelope) : sess AppError unit :=
  order_id ← lift (payload_uuid e "order_id");
  let retry_count := as_u32 (default 0 (as_u64 (jindex (env_payload e) "retry_count"))) in
  if MAX_CAPTURE_RETRIES <=? retry_count then
    in_tx (write_outbox order_id PaymentFailed (reason_payload order_id
      ("Capture failed after " +:+ pretty retry_count +:+ " retries")))
  else
    '(_, reference, currency, amount) ← in_service (find_posted_authorization order_id "capture");
    catch (in_service (call_gateway (gw_capture gateway reference)))
      (λ _, in_tx (record_capture order_id currency amount (capture_key order_id) reference))
      (λ gw_err,
        if is_retryable gw_err then
          in_tx (write_outbox order_id PaymentCaptureRetryRequested
                   (retry_payload order_id (retry_count + 1) (ge_message gw_err)))
        else
          in_tx (write_outbox order_id PaymentFailed (reason_payload order_id
                   ("Capture permanently failed: " +:+ ge_message gw_err)))).

(** The TTL of the lock, in milliseconds. *)
Definition lock_ttl (ty : EventType) : Z :=
  match ty with OrderConfirmed | PaymentCaptureRetryRequested => 60000 | _ => 30000 end.

Definition on_redis {E A} (m : M redis E A) : sess E A :=
  zoom (λ s : session payment_tables ext, (s_ext s).2)
    (λ r s, MkSession (s_conn s) (s_committed s) ((s_ext s).1, r)) m.

Definition permanent_of_app (e : AppError) : HandlerError := Permanent (app_error_display e).

(** The lock is optional ([lock]), and an unavailable Redis does not stop the handler. *)
Definition acquire_guard (lock : bool) (order_id : Uuid) (ty : EventType)
    : sess HandlerError (option LockGuard) :=
  let lock_key := "payment:" +:+ uuid_to_string order_id in
  if lock then
    token ← in_tx now_v7;
    catch (on_redis (acquire (uuid_to_string token) lock_key (lock_ttl ty)))
      (λ guard, mret (Some guard))
      (λ err, match err with
              | AlreadyHeld => fail (Transient (lock_key +:+ " in-flight, will retry"))
              | RedisUnavailable _ => mret None
              end)
  else mret None.

Definition release_guard (guard : option LockGuard) : sess HandlerError unit :=
  match guard with
  | Some g => catch (on_redis (release g)) (λ _, mret tt) (λ _, mret tt)
  | None => mret tt
  end.

Definition payment_dispatch (e : EventEnvelope) : sess HandlerError unit :=
  match em_event_type (env_metadata e) with
  | InventoryReserved => map_err handler_of_app (handle_inventory_reserved e)
  | OrderConfirmed => map_err handler_of_app (handle_order_confirmed e)
  | OrderCancelled => map_err handler_of_app (handle_order_cancelled e)
  | PaymentCaptureRetryRequested => map_err handler_of_app (handle_capture_retry e)
  | _ => mret tt
  end.

Definition payment_handler (lock : bool) : handler (T := payment_tables) (X := ext) := λ e,
  let ty := em_event_type (env_metadata e) in
  match ty with
  | InventoryReserved | OrderConfirmed | OrderCancelled | PaymentCaptureRetryRequested =>
      order_id ← lift (omap_err permanent_of_app (payload_uuid e "order_id"));
      guard ← acquire_guard lock order_id ty;
      catch (payment_dispatch e)
        (λ r, _ ← release_guard guard; mret r)
        (λ err, _ ← release_guard guard; fail err)
  | _ => mret tt
  end.

(** ** The status endpoint (payments/routes.rs, payments/dtos.rs) *)

Record EntryRes := {
  er_id : string; er_account_id : string; er_direction : EntryDirection; er_amount : Decimal }.
Definition EntryRes_new (e : LedgerEntryEntity) : EntryRes := {|
  er_id := fmt_id (le_id e); er_account_id := fmt_id (le_account_id e);
  er_direction := le_direction e; er_amount := le_amount e |}.

Record TransactionRes := {
  tr_id : string; tr_created_at : string; tr_transaction_type : TransactionType;
  tr_status : TransactionStatus; tr_idempotency_key : string;
  tr_gateway_reference : option string; tr_entries : list EntryRes }.
Definition TransactionRes_new (x : LedgerTransactionEntity) (es : list LedgerEntryEntity)
    : TransactionRes := {|
  tr_id := fmt_id (lt_id x); tr_created_at := fmt_datetime (lt_created_at x);
  tr_transaction_type := lt_type x; tr_status := lt_status x;
  tr_idempotency_key := lt_idempotency_key x; tr_gateway_reference := lt_gateway_reference x;
  tr_entries := EntryRes_new <$> es |}.

Record AccountBalanceRes := {
  br_account_type : AccountType; br_normal_balance : NormalBalance; br_currency : string;
  br_total_debits : Z; br_total_credits : Z; br_balance : Z }.
Definition AccountBalanceRes_new (b : AccountBalanceEntity) : AccountBalanceRes := {|
  br_account_type := ab_account_type b; br_normal_balance := ab_normal_balance b;
  br_currency := ab_currency b; br_total_debits := ab_total_debits b;
  br_total_credits := ab_total_credits b; br_balance := ab_balance b |}.

Record PaymentStatusRes := {
  pr_order_id : string; pr_state : PaymentState; pr_transactions : list TransactionRes;
  pr_balances : list AccountBalanceRes }.

Fixpoint transaction_responses (txs : list LedgerTransactionEntity)
    : svc AppError (list TransactionRes) :=
  match txs with
  | [] => mret []
  | x :: txs =>
      entries ← on_pool (list_entries_by_transaction (lt_id x));
      rest ← transaction_responses txs;
      mret (TransactionRes_new x entries :: rest)
  end.

Definition get_payment_status (order_id : Uuid) : svc AppError PaymentStatusRes :=
  transactions ← on_pool (list_transactions_by_order order_id);
  let payment_state := derive_payment_state transactions in
  responses ← transaction_responses transactions;
  balances ← on_pool (get_account_balances order_id);
  mret {| pr_order_id := fmt_id order_id; pr_state := payment_state;
          pr_transactions := responses; pr_balances := AccountBalanceRes_new <$> balances |}.

(** The route is behind the middleware; the handler does not look at the user. *)
Definition payment_routes `{!JwtApi} (config : AuthConfig) (now : Z) (header : option (option string)) (order_id : Uuid)
    : svc (AuthMiddlewareError + AppError) PaymentStatusRes :=
  run_route config None now header (ProtectedRoute (λ _current_user, get_payment_status order_id)).
End payments.
