(* ===== verification/PaymentBook.v ===== *)
(** * Payment service: what one booking does to the ledger

    The three recording operations are one booking with different accounts; a booking
    that ends in success adds one posted transaction, one debit and one credit of the
    same positive amount, and one event. *)

From S2P Require Import Prelude RustStr Externals Errors Rules Auth Events Db Outbox Consumer.
From S2P Require Import Gateway Ledger PaymentService.

Local Open Scope Z_scope.

Section book.
Context `{Externals}.
Implicit Types (t : payment_tables) (c : conn payment_tables).

Definition account_key (a : AccountEntity) : Uuid * AccountType * string :=
  (ac_reference_id a, ac_account_type a, ac_currency a).
Definition accounts_ok (l : list AccountEntity) : Prop :=
  NoDup (ac_id <$> l) ∧ NoDup (account_key <$> l) ∧
  Forall (λ a, ac_normal_balance a = normal_balance (ac_account_type a)) l.

Lemma is_account_iff ty oid cur a : is_account ty oid cur a = true ↔ account_key a = (oid, ty, cur).
Proof.
  unfold is_account, account_key. rewrite !andb_true_iff, !bool_decide_eq_true. naive_solver.
Qed.

(** ** Accounts *)

(** New accounts of an order in one currency. *)
Definition opened (oid : Uuid) (cur : string) (l l' : list AccountEntity) : Prop :=
  ∃ as_, l' = l ++ as_ ∧ Forall (λ a, ac_reference_id a = oid ∧ ac_currency a = cur) as_ ∧
    (accounts_ok l → accounts_ok l').

#[local] Instance opened_preorder oid cur : PreOrder (opened oid cur).
Proof.
  split.
  - intros l. exists []. rewrite app_nil_r. done.
  - intros l1 l2 l3 (a & -> & Ha & H1) (b & -> & Hb & H2). exists (a ++ b).
    rewrite app_assoc. split_and!; [done|by apply Forall_app|auto].
Qed.

Lemma insert_account_ok ty oid cur now id t r t' :
  insert_account ty oid cur now id t = Ok (r, t') →
  t' = set_accounts (pt_accounts t') t ∧ opened oid cur (pt_accounts t) (pt_accounts t') ∧
  match r with
  | Some a => a ∈ pt_accounts t' ∧ is_account ty oid cur a = true
  | None => t' = t
  end.
Proof.
  unfold insert_account. intros Hr. apply obind_ok in Hr as (cur' & [-> _]%varchar_ok & Hr).
  destruct (existsb _ _) eqn:Ee in Hr.
  { simplify_eq. split_and!; [by destruct t'|reflexivity|done]. }
  apply obind_ok in Hr as ([] & Hu%unique_ok & Hr). simplify_eq. simpl. split_and!; [done| | |].
  - eexists; split; [done|]. split; [repeat constructor; done|].
    intros (H1 & H2 & H3). unfold accounts_ok. split_and!.
    + apply NoDup_fmap_snoc; [done|]. eapply existsb_false_fmap; [|exact Hu].
      intros x Hx. by apply bool_decide_eq_true.
    + apply NoDup_fmap_snoc; [done|]. eapply existsb_false_fmap; [|exact Ee].
      intros x Hx. by apply is_account_iff.
    + apply Forall_app. split; [done|]. by repeat constructor.
  - apply elem_of_app. right. by left.
  - by apply is_account_iff.
Qed.

Lemma get_or_create_account_ok ty oid cur c a c' :
  get_or_create_account ty oid cur c = (Ok a, c') →
  c_tables c' = set_accounts (pt_accounts (c_tables c')) (c_tables c) ∧
  opened oid cur (pt_accounts (c_tables c)) (pt_accounts (c_tables c')) ∧
  a ∈ pt_accounts (c_tables c') ∧ is_account ty oid cur a = true ∧
  e_now (c_env c') = e_now (c_env c).
Proof.
  unfold get_or_create_account, failed_to. intros Hr.
  apply bind_ok in Hr as (r & c1 & H1 & Hr). apply map_err_ok in H1.
  apply exec_ok in H1 as (_ & _ & Hn & id & E). apply insert_account_ok in E as (Et & Ho & E).
  destruct r as [a'|].
  - apply ret_ok in Hr as [-> <-]. destruct E. done.
  - apply map_err_ok, fetch_one_ok in Hr as (Hf & Ht & Hn'). rewrite Ht, Hn', E in *.
    apply find_some in Hf as [Hin Ha]. rewrite list_elem_of_In. done.
Qed.

(** ** Transactions and entries *)

Lemma varchar_opt_ok col n s r : varchar_opt col n s = Ok r → r = s.
Proof.
  destruct s; simpl; intros Hr; [|by simplify_eq].
  apply obind_ok in Hr as (x & [-> _]%varchar_ok & Hr). by simplify_eq.
Qed.

Lemma create_transaction_ok oid ty key ref c x c' :
  create_transaction oid ty key ref c = (Ok x, c') →
  x = MkLedgerTx (lt_id x) (e_now (c_env c)) oid ty TxPending key ref (jobj []) ∧
  (lt_id x ∉ (lt_id <$> pt_transactions (c_tables c))) ∧
  (key ∉ (lt_idempotency_key <$> pt_transactions (c_tables c))) ∧
  c_tables c' = set_transactions (pt_transactions (c_tables c) ++ [x]) (c_tables c) ∧
  e_now (c_env c') = e_now (c_env c).
Proof.
  unfold create_transaction, failed_to, insert_transaction. intros Hr. apply map_err_ok in Hr.
  apply exec_ok in Hr as (_ & _ & Hn & id & Hr).
  apply obind_ok in Hr as (k & [-> _]%varchar_ok & Hr).
  apply obind_ok in Hr as (r & ->%varchar_opt_ok & Hr).
  apply obind_ok in Hr as ([] & Hi%unique_ok & Hr).
  apply obind_ok in Hr as ([] & Hk%unique_ok & Hr). simplify_eq. simpl. split_and!; try done.
  - eapply existsb_false_fmap; [|exact Hi]. intros y Hy. by apply bool_decide_eq_true.
  - eapply existsb_false_fmap; [|exact Hk]. intros y Hy. by apply bool_decide_eq_true.
Qed.

Definition entry_of (now : Z) (xid account : Uuid) (dir : EntryDirection) (amount : Decimal)
    (e : LedgerEntryEntity) : Prop :=
  e = MkEntry (le_id e) now xid account dir amount.

Lemma create_entry_ok xid account dir amount c e c' :
  create_entry xid account dir amount c = (Ok e, c') →
  ∃ amt, dec_numeric amount = Some amt ∧ 0 < dec_units amt ∧
    entry_of (e_now (c_env c)) xid account dir amt e ∧
    c_tables c' = set_entries (pt_entries (c_tables c) ++ [e]) (c_tables c) ∧
    e_now (c_env c') = e_now (c_env c).
Proof.
  unfold create_entry, failed_to, insert_entry. intros Hr. apply map_err_ok in Hr.
  apply exec_ok in Hr as (_ & _ & Hn & id & Hr).
  apply obind_ok in Hr as (amt & Ha%numeric_ok & Hr).
  apply obind_ok in Hr as ([] & Hp%check_constraint_ok & Hr).
  apply obind_ok in Hr as ([] & _ & Hr). apply obind_ok in Hr as ([] & _ & Hr).
  apply obind_ok in Hr as ([] & _ & Hr). simplify_eq. exists amt. split_and!; try done.
  rewrite dec_ltb_units, dec_zero_units in Hp. by apply Z.ltb_lt in Hp.
Qed.

Lemma update_transaction_ok id st c u c' :
  update_transaction_status id st None c = (Ok u, c') →
  rows_affected (has_tx_id id) (pt_transactions (c_tables c)) = 1%nat ∧
  c_tables c' = set_transactions
    (update_where (has_tx_id id) (with_status st None) (pt_transactions (c_tables c))) (c_tables c) ∧
  e_now (c_env c') = e_now (c_env c).
Proof.
  unfold update_transaction_status, failed_to, update_transaction_stmt. intros Hr.
  apply bind_ok in Hr as (n & c1 & H1 & Hr). apply map_err_ok in H1.
  apply exec_ok in H1 as (_ & _ & Hn & i & E). simpl in E. simplify_eq.
  apply assert_ok in Hr as [Hb%Nat.eqb_eq <-]. done.
Qed.

Lemma update_other id st l :
  (id ∉ (lt_id <$> l)) → update_where (has_tx_id id) (with_status st None) l = l.
Proof.
  unfold update_where. induction l as [|x l IH]; [done|].
  rewrite fmap_cons, not_elem_of_cons, fmap_cons. intros [Hx Hl]. rewrite IH by done.
  unfold has_tx_id. by rewrite bool_decide_false by congruence.
Qed.

(** ** A booking *)

(** The debit and the credit of a booking, between two accounts of the order. *)
Definition entry_pair (now : Z) (oid : Uuid) (cur : string) (xid : Uuid) (dty cty : AccountType)
    (amt : Decimal) (accounts : list AccountEntity) (d k : LedgerEntryEntity) : Prop :=
  ∃ da ka, da ∈ accounts ∧ ka ∈ accounts ∧
    is_account dty oid cur da = true ∧ is_account cty oid cur ka = true ∧
    entry_of now xid (ac_id da) Debit amt d ∧ entry_of now xid (ac_id ka) Credit amt k ∧
    0 < dec_units amt.

Definition booked (now : Z) (oid : Uuid) (ty : TransactionType) (key : string) (ref : option string)
    (dty cty : AccountType) (cur : string) (amount : Decimal) (ev : EventType)
    (payload : Uuid → Value) t t' : Prop :=
  ∃ l x d k r amt,
    t' = MkPaymentTables l (pt_transactions t ++ [x]) (pt_entries t ++ [d; k])
           (pt_outbox t ++ [r]) (pt_processed t) ∧
    opened oid cur (pt_accounts t) l ∧
    x = MkLedgerTx (lt_id x) now oid ty TxPosted key ref (jobj []) ∧
    (lt_id x ∉ (lt_id <$> pt_transactions t)) ∧
    (key ∉ (lt_idempotency_key <$> pt_transactions t)) ∧
    dec_numeric amount = Some amt ∧ entry_pair now oid cur (lt_id x) dty cty amt l d k ∧
    event_row "payments.events" ev oid Payment (payload (lt_id x)) r.

(** The common shape of the recording operations: the accounts are opened in the order
    [ty1], [ty2]; [swap] tells whether the second one is debited. *)
Definition book (oid : Uuid) (ty : TransactionType) (key : string) (ref : option string)
    (ty1 ty2 : AccountType) (swap : bool) (cur : string) (amount : Decimal) (ev : EventType)
    (payload : Uuid → Value) : M (conn payment_tables) AppError unit :=
  '(a, b) ← create_account_pair oid cur ty1 ty2;
  x ← create_transaction oid ty key ref;
  _ ← write_entry_pair (lt_id x) (if swap then b else a) (if swap then a else b) amount;
  _ ← post_transaction (lt_id x);
  write_outbox oid ev (payload (lt_id x)).

Lemma account_pair_ok oid cur ty1 ty2 c a b c' :
  create_account_pair oid cur ty1 ty2 c = (Ok (a, b), c') →
  c_tables c' = set_accounts (pt_accounts (c_tables c')) (c_tables c) ∧
  opened oid cur (pt_accounts (c_tables c)) (pt_accounts (c_tables c')) ∧
  e_now (c_env c') = e_now (c_env c) ∧
  ∃ x y, x ∈ pt_accounts (c_tables c') ∧ y ∈ pt_accounts (c_tables c') ∧
    is_account ty1 oid cur x = true ∧ is_account ty2 oid cur y = true ∧ a = ac_id x ∧ b = ac_id y.
Proof.
  unfold create_account_pair. intros Hr.
  apply bind_ok in Hr as (x & c1 & H1 & Hr). apply bind_ok in Hr as (y & c2 & H2 & Hr).
  apply ret_ok in Hr as [[= <- <-] <-].
  apply get_or_create_account_ok in H1 as (E1 & O1 & I1 & A1 & N1), H2 as (E2 & O2 & I2 & A2 & N2).
  split_and!; [rewrite E2; rewrite E1; done|by etrans|congruence|].
  exists x, y. split_and!; try done. destruct O2 as (l & -> & _). apply elem_of_app. by left.
Qed.

Lemma book_ok oid ty key ref ty1 ty2 swap cur amount ev payload c u c' :
  book oid ty key ref ty1 ty2 swap cur amount ev payload c = (Ok u, c') →
  booked (e_now (c_env c)) oid ty key ref (if swap then ty2 else ty1) (if swap then ty1 else ty2)
    cur amount ev payload (c_tables c) (c_tables c') ∧ e_now (c_env c') = e_now (c_env c).
Proof.
  unfold book. intros Hr. apply bind_ok in Hr as ([a b] & c1 & H1 & Hr).
  apply account_pair_ok in H1 as (E1 & O1 & N1 & xa & ya & Ix & Iy & Ax & Ay & -> & ->).
  apply bind_ok in Hr as (x & c2 & H2 & Hr).
  apply create_transaction_ok in H2 as (Ex & Hid & Hk & E2 & N2).
  apply bind_ok in Hr as ([] & c3 & H3 & Hr). unfold write_entry_pair in H3.
  apply bind_ok in H3 as (d & c4 & H4 & H3). apply bind_ok in H3 as (k & c5 & H5 & H3).
  apply ret_ok in H3 as [_ <-].
  apply create_entry_ok in H4 as (amt & Ha & Hp & Ed & E4 & N4).
  apply create_entry_ok in H5 as (amt' & Ha' & _ & Ek & E5 & N5).
  rewrite Ha in Ha'. injection Ha' as <-.
  apply bind_ok in Hr as ([] & c6 & H6 & Hr). unfold post_transaction in H6.
  apply update_transaction_ok in H6 as (_ & E6 & N6).
  unfold write_outbox in Hr. apply write_event_ok in Hr as (r & E7 & Er & _ & N7).
  assert (c_tables c' = MkPaymentTables (pt_accounts (c_tables c1))
    (pt_transactions (c_tables c) ++ [with_status TxPosted None x])
    (pt_entries (c_tables c) ++ [d; k]) (pt_outbox (c_tables c) ++ [r])
    (pt_processed (c_tables c))) as Et.
  { rewrite E7, E6, E5, E4, E2. simpl. rewrite E1 in *. simpl in *. f_equal; [|by rewrite <-app_assoc].
    unfold update_where. rewrite fmap_app. fold (update_where (has_tx_id (lt_id x))
      (with_status TxPosted None) (pt_transactions (c_tables c))).
    rewrite update_other by done. simpl. unfold has_tx_id. by rewrite bool_decide_true by done. }
  split; [|congruence]. rewrite E1 in Hid, Hk. simpl in Hid, Hk. rewrite N1 in *.
  rewrite N4, N2 in Ek. rewrite N2 in Ed.
  exists (pt_accounts (c_tables c1)), (with_status TxPosted None x), d, k, r, amt.
  split_and!; [exact Et|exact O1|by rewrite Ex|by rewrite Ex|done|done| |exact Er].
  destruct swap.
  - by exists ya, xa.
  - by exists xa, ya.
Qed.

(** ** The three recording operations *)

Lemma record_authorization_ok oid amount cur ref c u c' :
  record_authorization oid amount cur ref c = (Ok u, c') →
  booked (e_now (c_env c)) oid Authorization (auth_key oid) (Some ref) GatewayHolding Buyer cur
    amount PaymentAuthorized (λ id, authorized_payload oid id ref) (c_tables c) (c_tables c').
Proof.
  intros Hr. by apply (book_ok oid Authorization (auth_key oid) (Some ref) Buyer GatewayHolding true
    cur amount PaymentAuthorized (λ id, authorized_payload oid id ref)) in Hr as [? _].
Qed.

Lemma record_capture_ok oid cur amount key ref c u c' :
  record_capture oid cur amount key ref c = (Ok u, c') →
  booked (e_now (c_env c)) oid Capture key (Some ref) PlatformRevenue GatewayHolding cur
    amount PaymentCaptured (λ _, order_payload oid) (c_tables c) (c_tables c').
Proof.
  intros Hr. by apply (book_ok oid Capture key (Some ref) GatewayHolding PlatformRevenue true
    cur amount PaymentCaptured (λ _, order_payload oid)) in Hr as [? _].
Qed.

(** The authorization is marked as discarded. *)
Definition discarded (id : Uuid) t : payment_tables :=
  set_transactions (update_where (has_tx_id id) (with_status TxDiscarded None) (pt_transactions t)) t.

Lemma record_void_ok oid id cur amount key c u c' :
  record_void oid id cur amount key c = (Ok u, c') →
  rows_affected (has_tx_id id) (pt_transactions (c_tables c)) = 1%nat ∧
  booked (e_now (c_env c)) oid Void key None Buyer GatewayHolding cur
    amount PaymentVoided (λ _, order_payload oid) (discarded id (c_tables c)) (c_tables c').
Proof.
  unfold record_void. intros Hr. apply bind_ok in Hr as ([] & c1 & H1 & Hr).
  apply update_transaction_ok in H1 as (Hn & E1 & N1). split; [done|].
  apply (book_ok oid Void key None Buyer GatewayHolding false
    cur amount PaymentVoided (λ _, order_payload oid)) in Hr as [Hb _].
  rewrite N1, E1 in Hb. exact Hb.
Qed.
End book.
