(* ===== verification/PaymentSteps.v ===== *)
(** * Payment service: the payment machine

    Every operation of the service, and every event it consumes, is at most one step of
    an abstract machine on the ledger: an authorization, a capture, a void, or an event
    that reports a failure. *)

From S2P Require Import Prelude RustStr Externals Errors Rules Auth Events Db Outbox Consumer.
From S2P Require Import ConsumerProps Gateway Ledger Redis DistributedLock PaymentService PaymentBook.

Local Open Scope Z_scope.

Section steps.
Context `{Externals, RedisApi} {G : Type} (gateway : PaymentGateway G).
Abbreviation pdb := (db payment_tables (G * redis)).
Abbreviation psess := (session payment_tables (G * redis)).
Implicit Types (t : payment_tables) (s : pdb) (ss : psess).

(** ** The machine *)

(** The state of an order's payment, as the service derives it. *)
Definition payment_state (oid : Uuid) t : PaymentState :=
  derive_payment_state (order_by (λ x, - lt_created_at x) (transactions_of oid t)).

(** The currency and the amount the service reads back from an authorization. *)
Definition read_currency (x : LedgerTransactionEntity) : string :=
  default "USD" (as_str (jindex (lt_metadata x) "currency")).
Definition read_amount (x : LedgerTransactionEntity) t : Decimal :=
  default dec_zero (le_amount <$> head (order_by le_created_at (entries_of (lt_id x) t))).

Definition authorization_of (oid : Uuid) (x : LedgerTransactionEntity) (ref : string) t : Prop :=
  payment_state oid t = PsAuthorized ∧ x ∈ transactions_of oid t ∧
  is_posted_authorization x = true ∧ lt_gateway_reference x = Some ref.

(** The payload of an event about the order. *)
Definition names_order (oid : Uuid) (payload : Value) : Prop :=
  (s ← as_str (jindex payload "order_id"); uuid_parse s) = Some oid.

(** What a step does. *)
Inductive payment_kind : Type :=
| KReport (ev : EventType)
| KAuthorize (amount : Decimal) (cur : string)
| KCapture
| KVoid.
Inductive payment_step_as (now : Z) (oid : Uuid) : payment_kind → payment_tables → payment_tables → Prop :=
| step_report t ev payload r :
    ev = PaymentFailed ∨ ev = PaymentCaptureRetryRequested → names_order oid payload →
    event_row "payments.events" ev oid Payment payload r →
    payment_step_as now oid (KReport ev) t (set_outbox_events (outbox_events t ++ [r]) t)
| step_authorize t t' amount cur ref :
    validate_authorization amount cur (payment_state oid t) = Ok tt →
    booked now oid Authorization (auth_key oid) (Some ref) GatewayHolding Buyer cur amount
      PaymentAuthorized (λ id, authorized_payload oid id ref) t t' →
    payment_step_as now oid (KAuthorize amount cur) t t'
| step_capture t t' x ref :
    authorization_of oid x ref t →
    booked now oid Capture (capture_key oid) (Some ref) PlatformRevenue GatewayHolding
      (read_currency x) (read_amount x t) PaymentCaptured (λ _, order_payload oid) t t' →
    payment_step_as now oid KCapture t t'
| step_void t t' x ref :
    authorization_of oid x ref t →
    rows_affected (has_tx_id (lt_id x)) (pt_transactions t) = 1%nat →
    booked now oid Void (void_key oid) None Buyer GatewayHolding
      (read_currency x) (read_amount x t) PaymentVoided (λ _, order_payload oid)
      (discarded (lt_id x) t) t' →
    payment_step_as now oid KVoid t t'.
Definition payment_step (now : Z) (oid : Uuid) t t' : Prop := ∃ k, payment_step_as now oid k t t'.

(** At most one step. *)
Definition at_most_one (now : Z) (oid : Uuid) t t' : Prop := t' = t ∨ payment_step now oid t t'.

(** ** Reads and gateway calls change nothing in the database *)

Definition still s s' : Prop :=
  d_committed s' = d_committed s ∧ e_now (d_env s') = e_now (d_env s).
#[export] Instance still_preorder : PreOrder still.
Proof. unfold still. split; [done|]. intros x y z [? ?] [? ?]. split; congruence. Qed.

Lemma keeps_pool_query {A} w (f : payment_tables → A) :
  keeps still (on_pool (failed_to w (query f))).
Proof.
  intros s o s'. unfold on_pool, failed_to, map_err, query, exec, pop_fault, still.
  destruct s as [t [n i fs] x]. simpl. destruct fs as [|[] fs]; simpl; by intros [= _ <-].
Qed.

Lemma pool_query_ok {A} w (f : payment_tables → A) s a s' :
  on_pool (failed_to w (query f)) s = (Ok a, s') → a = f (d_committed s) ∧ still s s'.
Proof.
  intros Hr. pose proof (keeps_pool_query w f _ _ _ Hr) as Hs. split; [|done].
  apply on_pool_ok in Hr as (c & Hr & _). by apply map_err_ok, query_ok in Hr as (-> & _).
Qed.

Lemma keeps_call_gateway {A} (m : M G GatewayError A) :
  keeps still (call_gateway m).
Proof. apply keeps_zoom. intros g o g' _ s _. by unfold still. Qed.

Lemma keeps_find_posted oid op : keeps still (find_posted_authorization oid op).
Proof.
  unfold find_posted_authorization, list_transactions_by_order, list_entries_by_transaction.
  apply keeps_bind; [typeclasses eauto|apply keeps_pool_query|intros txs].
  do 3 (apply keeps_bind; [typeclasses eauto|apply keeps_lift; typeclasses eauto|intros ?]).
  apply keeps_bind; [typeclasses eauto|apply keeps_pool_query|intros es].
  apply keeps_ret. typeclasses eauto.
Qed.

Lemma keeps_authorization_read oid amount cur : keeps still (authorization_read oid amount cur).
Proof.
  unfold authorization_read, get_transaction_by_idempotency_key, list_transactions_by_order.
  apply keeps_bind; [typeclasses eauto|apply keeps_pool_query|intros ex].
  destruct (match ex with Some x => _ | None => _ end); [apply keeps_ret; typeclasses eauto|].
  apply keeps_bind; [typeclasses eauto|apply keeps_pool_query|intros txs].
  apply keeps_bind; [typeclasses eauto|apply keeps_lift; typeclasses eauto|intros ?].
  apply keeps_ret. typeclasses eauto.
Qed.

Lemma authorization_read_ok oid amount cur s b s' :
  authorization_read oid amount cur s = (Ok b, s') →
  still s s' ∧ (b = false → validate_authorization amount cur (payment_state oid (d_committed s)) = Ok tt).
Proof.
  intros Hr. split; [by apply keeps_authorization_read in Hr|]. intros ->.
  unfold authorization_read, get_transaction_by_idempotency_key, list_transactions_by_order in Hr.
  apply bind_ok in Hr as (ex & s1 & H1 & Hr). apply pool_query_ok in H1 as [-> [Hs1 _]].
  destruct (match List.find _ _ with Some x => _ | None => _ end).
  { by apply ret_ok in Hr as [? _]. }
  apply bind_ok in Hr as (txs & s2 & H2 & Hr). apply pool_query_ok in H2 as [-> _].
  apply bind_ok in Hr as ([] & s3 & H3 & Hr). apply lift_ok in H3 as [H3 _].
  by rewrite Hs1 in H3.
Qed.

Lemma find_posted_ok oid op s id ref cur amt s' :
  op = "capture" ∨ op = "void" →
  find_posted_authorization oid op s = (Ok (id, ref, cur, amt), s') →
  still s s' ∧ ∃ x, authorization_of oid x ref (d_committed s) ∧ id = lt_id x ∧
    cur = read_currency x ∧ amt = read_amount x (d_committed s).
Proof.
  intros Hop Hr. split; [by apply keeps_find_posted in Hr|].
  unfold find_posted_authorization, list_transactions_by_order, list_entries_by_transaction in Hr.
  apply bind_ok in Hr as (txs & s1 & H1 & Hr). apply pool_query_ok in H1 as [-> [Hs1 _]].
  apply bind_ok in Hr as ([] & s2 & H2 & Hr). apply lift_ok in H2 as [H2 <-].
  apply bind_ok in Hr as (x & s2 & H3 & Hr). apply lift_ok in H3 as [H3%ok_or_ok <-].
  apply bind_ok in Hr as (ref' & s2 & H4 & Hr). apply lift_ok in H4 as [H4%ok_or_ok <-].
  apply bind_ok in Hr as (es & s2 & H5 & Hr). apply pool_query_ok in H5 as [-> [Hs2 _]].
  apply ret_ok in Hr as [E _]. injection E as <- <- <- <-. rewrite Hs1.
  apply find_some in H3 as [Hin Hx]. apply list_elem_of_In, elem_of_order_by in Hin.
  exists x. split_and!; try done. split_and!; try done. unfold payment_state.
  unfold validate_operation in H2. destruct Hop as [-> | ->]; simpl in H2;
    apply omap_err_ok in H2; destruct (derive_payment_state _); done.
Qed.

(** ** Operations on the pool *)

Lemma tx_step {A} (m : M (conn payment_tables) AppError A) now oid s o s' :
  (∀ c a c', m c = (Ok a, c') → c_tables c = d_committed s → e_now (c_env c) = now →
     payment_step now oid (d_committed s) (c_tables c')) →
  e_now (d_env s) = now →
  with_transaction (map_err tx_of_app m) s = (o, s') →
  at_most_one now oid (d_committed s) (d_committed s').
Proof.
  intros Hm Hn Hr.
  apply with_transaction_all_or_nothing in Hr as [_ [->|(e & a & c & Hc & He & _ & ->)]]; [by left|].
  right. apply map_err_ok in Hc. eapply Hm; [exact Hc|done|]. simpl. congruence.
Qed.

Lemma names_reason oid reason : names_order oid (reason_payload oid reason).
Proof. unfold names_order, reason_payload. json_simpl. by rewrite ?uuid_parse_to_string. Qed.
Lemma names_retry oid n reason : names_order oid (retry_payload oid n reason).
Proof. unfold names_order, retry_payload. json_simpl. by rewrite ?uuid_parse_to_string. Qed.

Lemma report_step ev oid payload c u c' :
  ev = PaymentFailed ∨ ev = PaymentCaptureRetryRequested → names_order oid payload →
  write_outbox oid ev payload c = (Ok u, c') →
  payment_step_as (e_now (c_env c)) oid (KReport ev) (c_tables c) (c_tables c').
Proof.
  intros Hev Hn (r & -> & Hr & _)%write_event_ok. by eapply step_report.
Qed.

Lemma write_payment_event_step oid what payload s o s' :
  names_order oid payload → write_payment_event oid PaymentFailed what payload s = (o, s') →
  at_most_one (e_now (d_env s)) oid (d_committed s) (d_committed s').
Proof.
  intros Hn (o' & Hr & _)%map_err_inv. eapply tx_step; [|done|exact Hr].
  intros c a c' Hc <- <-. eexists. eapply report_step; [|exact Hn|exact Hc]. by left.
Qed.

Lemma at_most_one_still s s1 s' oid :
  still s s1 → at_most_one (e_now (d_env s1)) oid (d_committed s1) (d_committed s') →
  at_most_one (e_now (d_env s)) oid (d_committed s) (d_committed s').
Proof. intros [-> ->]. done. Qed.

Lemma still_at_most_one s s' oid :
  still s s' → at_most_one (e_now (d_env s)) oid (d_committed s) (d_committed s').
Proof. intros [-> _]. by left. Qed.

Lemma tampered_step oid amount r s o s' :
  handle_tampered_amount gateway oid amount r s = (o, s') →
  at_most_one (e_now (d_env s)) oid (d_committed s) (d_committed s').
Proof.
  unfold handle_tampered_amount. intros [(u & s1 & H1 & Hr)|[_ (o1 & H1 & _)]]%bind_inv;
    assert (still s ltac:(first [exact s1|exact s'])) as Hs by
      (eapply keeps_catch; [..|exact H1]; [typeclasses eauto|apply keeps_call_gateway|
        intros ?; apply keeps_ret; typeclasses eauto..]).
  - eapply at_most_one_still; [exact Hs|].
    apply bind_inv in Hr as [(u2 & s2 & H2 & [= _ <-])|[_ (o2 & H2 & _)]];
      (eapply write_payment_event_step; [apply names_reason|done]).
  - by apply still_at_most_one.
Qed.

Lemma authorize_payment_step oid amount cur s o s' :
  authorize_payment gateway oid amount cur s = (o, s') →
  at_most_one (e_now (d_env s)) oid (d_committed s) (d_committed s').
Proof.
  unfold authorize_payment. intros [(b & s1 & H1 & Hr)|[_ (o1 & H1 & _)]]%bind_inv.
  2:{ apply keeps_authorization_read in H1. by apply still_at_most_one. }
  apply authorization_read_ok in H1 as [Hs Hv]. destruct b; [injection Hr as _ <-; by apply still_at_most_one|].
  unfold catch in Hr. destruct (call_gateway _ s1) as [og s2] eqn:Eg.
  apply keeps_call_gateway in Eg. eapply at_most_one_still; [exact Hs|].
  eapply at_most_one_still; [exact Eg|]. specialize (Hv eq_refl).
  destruct Hs as [Hc1 Hn1], Eg as [Hc2 Hn2]. destruct og as [r|e|].
  - destruct (negb _); [by eapply tampered_step|]. apply map_err_inv in Hr as (o' & Hr & _).
    eapply tx_step; [|done|exact Hr]. intros c a c' Hc Ht Hn. rewrite <-Ht, <-Hn.
    eexists. eapply step_authorize; [|by apply record_authorization_ok in Hc].
    by rewrite Ht, Hc2, Hc1.
  - eapply write_payment_event_step; [apply names_reason|done].
  - injection Hr as _ <-. by left.
Qed.

(** The operations that need an authorization: read, call, book. *)
Lemma authorized_op_step {A B} oid op (m : string → M G GatewayError A)
    (k : Uuid → string → string → Decimal → M (conn payment_tables) AppError B) what s o s' :
  op = "capture" ∨ op = "void" →
  (∀ x ref c u c', authorization_of oid x ref (c_tables c) →
     k (lt_id x) ref (read_currency x) (read_amount x (c_tables c)) c = (Ok u, c') →
     payment_step (e_now (c_env c)) oid (c_tables c) (c_tables c')) →
  (p ← find_posted_authorization oid op;
   let '(id, ref, cur, amt) := p in
   _ ← map_err app_of_gateway_error (call_gateway (m ref));
   map_err (λ e, InternalServerError (what +:+ tx_error_display e))
     (with_transaction (map_err tx_of_app (k id ref cur amt)))) s = (o, s') →
  at_most_one (e_now (d_env s)) oid (d_committed s) (d_committed s').
Proof.
  intros Hop Hk [([[[id ref] cur] amt] & s1 & H1 & Hr)|[_ (o1 & H1 & _)]]%bind_inv.
  2:{ apply keeps_find_posted in H1. by apply still_at_most_one. }
  apply find_posted_ok in H1 as [Hs (x & Hx & -> & -> & ->)]; [|done].
  apply bind_inv in Hr as [(u & s2 & H2 & Hr)|[_ (o1 & H2 & _)]];
    apply map_err_inv in H2 as (o2 & H2 & _); apply keeps_call_gateway in H2.
  2:{ apply still_at_most_one. by etrans. }
  assert (still s s2) as Hs2 by by etrans. eapply at_most_one_still; [exact Hs2|].
  apply map_err_inv in Hr as (o3 & Hr & _). eapply tx_step; [|done|exact Hr].
  intros c a c' Hc Ht Hn. rewrite <-Ht, <-Hn. destruct Hs2 as [Hs2 _]. rewrite <-Hs2, <-Ht in Hx, Hc.
  by eapply Hk.
Qed.

Lemma capture_payment_step oid s o s' :
  capture_payment gateway oid s = (o, s') →
  at_most_one (e_now (d_env s)) oid (d_committed s) (d_committed s').
Proof.
  eapply (authorized_op_step oid "capture" (λ ref, gw_capture gateway ref)
    (λ id ref cur amt, record_capture oid cur amt (capture_key oid) ref)); [by left|].
  intros x ref c u c' Hx Hc. eexists. eapply step_capture; [done|]. by apply record_capture_ok in Hc.
Qed.

Lemma void_payment_step oid s o s' :
  void_payment gateway oid s = (o, s') →
  at_most_one (e_now (d_env s)) oid (d_committed s) (d_committed s').
Proof.
  eapply (authorized_op_step oid "void" (λ ref, gw_void gateway ref)
    (λ id ref cur amt, record_void oid id cur amt (void_key oid))); [by right|].
  intros x ref c u c' Hx Hc. apply record_void_ok in Hc as [Hn Hb]. eexists. by eapply step_void.
Qed.

(** ** Operations in a session *)

Definition still_sess ss ss' : Prop :=
  s_committed ss' = s_committed ss ∧ c_tables (s_conn ss') = c_tables (s_conn ss) ∧
  e_now (s_env ss') = e_now (s_env ss).
#[export] Instance still_sess_preorder : PreOrder still_sess.
Proof.
  unfold still_sess. split; [done|]. intros x y z (?&?&?) (?&?&?). split_and!; congruence.
Qed.

Lemma keeps_in_service {E A} (m : M pdb E A) : keeps still m → keeps still_sess (in_service m).
Proof.
  intros Hm ss o ss'. unfold in_service. destruct (m _) as [o1 d] eqn:Em. intros [= _ <-].
  apply Hm in Em as [Hc Hn]. by unfold still_sess, s_env.
Qed.

Lemma in_service_ok {E A} (m : M pdb E A) ss a ss' :
  in_service m ss = (Ok a, ss') → keeps still m →
  still_sess ss ss' ∧ ∃ d, m (MkDb (s_committed ss) (s_env ss) (s_ext ss)) = (Ok a, d).
Proof.
  intros Hr Hm. split; [by eapply keeps_in_service|]. unfold in_service in Hr.
  destruct (m _) as [o1 d] eqn:Em. injection Hr as -> _. eauto.
Qed.

Lemma keeps_on_redis {E A} (m : M redis E A) : keeps still_sess (on_redis (G := G) m).
Proof. apply keeps_zoom. intros r o r' _ ss _. by unfold still_sess, s_env. Qed.

(** What a successful run in a session does to the tables of its transaction, which
    starts on the committed tables: at most one step, of a kind in [K]. *)
Implicit Types K : payment_kind → Prop.
Definition sess_step {E A} K (oid : Uuid) (m : M psess E A) : Prop :=
  ∀ ss a ss', m ss = (Ok a, ss') → c_tables (s_conn ss) = s_committed ss →
    c_tables (s_conn ss') = c_tables (s_conn ss) ∨
    ∃ k, K k ∧ payment_step_as (e_now (s_env ss)) oid k (c_tables (s_conn ss)) (c_tables (s_conn ss')).

Lemma still_sess_step {E A} K oid (m : M psess E A) : keeps still_sess m → sess_step K oid m.
Proof. intros Hm ss a ss' (_ & -> & _)%Hm _. by left. Qed.

Lemma after_still {E A} K oid (m : M psess E A) ss0 ss a ss' :
  still_sess ss0 ss → sess_step K oid m → m ss = (Ok a, ss') →
  c_tables (s_conn ss0) = s_committed ss0 →
  c_tables (s_conn ss') = c_tables (s_conn ss0) ∨
  ∃ k, K k ∧ payment_step_as (e_now (s_env ss0)) oid k (c_tables (s_conn ss0)) (c_tables (s_conn ss')).
Proof. intros (Hc & Ht & Hn) Hm Hr He. rewrite <-Ht, <-Hn. eapply Hm; [done|congruence]. Qed.

Lemma in_tx_report K oid ev payload :
  ev = PaymentFailed ∨ ev = PaymentCaptureRetryRequested → K (KReport ev) → names_order oid payload →
  sess_step K oid (in_tx (write_outbox oid ev payload) : M psess AppError unit).
Proof.
  intros Hev HK Hn ss u ss' (c & Hr & ->)%zoom_ok _. right. exists (KReport ev). split; [done|].
  by eapply report_step.
Qed.

(** What each of the operations may do. *)
Definition may_authorize (amount : Decimal) (cur : string) (k : payment_kind) : Prop :=
  k = KReport PaymentFailed ∨ k = KAuthorize amount cur.
Definition may_capture (k : payment_kind) : Prop :=
  match k with KReport _ | KCapture => True | _ => False end.

Lemma authorize_on_tx_step oid amount cur :
  sess_step (may_authorize amount cur) oid (authorize_payment_on_tx gateway oid amount cur).
Proof.
  intros ss u ss' Hr He. unfold authorize_payment_on_tx in Hr.
  apply bind_ok in Hr as (b & s1 & H1 & Hr).
  apply in_service_ok in H1 as [Hs (d & H1)]; [|apply keeps_authorization_read].
  apply authorization_read_ok in H1 as [_ Hv]. simpl in Hv.
  destruct b; [apply ret_ok in Hr as [_ <-]; destruct Hs as (_ & -> & _); by left|].
  specialize (Hv eq_refl).
  apply catch_ok in Hr as [(r & s2 & Hg & Hr)|(e & s2 & Hg & Hr)];
    apply (keeps_in_service _ (keeps_call_gateway _)) in Hg;
    assert (still_sess ss s2) as Hs2 by by etrans.
  - destruct (negb _).
    { apply bind_ok in Hr as (? & ? & _ & Hr). by apply bind_ok in Hr as (? & ? & _ & ?%fail_ok). }
    apply zoom_ok in Hr as (c & Hc & ->). destruct Hs2 as (_ & Ht & Hn). right. simpl.
    rewrite <-Ht, <-Hn. exists (KAuthorize amount cur). split; [by right|].
    eapply step_authorize; [|by apply record_authorization_ok in Hc]. by rewrite Ht, He.
  - eapply after_still; [exact Hs2|apply in_tx_report; [by left|by left|apply names_reason]|exact Hr|done].
Qed.

(** The capture of an authorized order, with the events [retry] and [reject] announce on
    a failure. *)
Lemma capture_step oid (retry reject : GatewayError → Value) :
  (∀ e, names_order oid (retry e)) → (∀ e, names_order oid (reject e)) →
  sess_step may_capture oid (p ← in_service (find_posted_authorization oid "capture");
    let '(_, ref, cur, amt) := p in
    catch (in_service (call_gateway (gw_capture gateway ref)))
      (λ _, in_tx (record_capture oid cur amt (capture_key oid) ref))
      (λ gw_err,
        if is_retryable gw_err then in_tx (write_outbox oid PaymentCaptureRetryRequested (retry gw_err))
        else in_tx (write_outbox oid PaymentFailed (reject gw_err))) : M psess AppError unit).
Proof.
  intros Hn1 Hn2 ss u ss' Hr He. apply bind_ok in Hr as ([[[id ref] cur] amt] & s1 & H1 & Hr).
  apply in_service_ok in H1 as [Hs (d & H1)]; [|apply keeps_find_posted].
  apply find_posted_ok in H1 as [_ (x & Hx & -> & -> & ->)]; [|by left]. simpl in Hx, Hr.
  apply catch_ok in Hr as [(r & s2 & Hg & Hr)|(e & s2 & Hg & Hr)];
    apply (keeps_in_service _ (keeps_call_gateway _)) in Hg;
    assert (still_sess ss s2) as Hs2 by by etrans.
  - apply zoom_ok in Hr as (c & Hc & ->). destruct Hs2 as (_ & Ht & Hn). right. simpl.
    rewrite <-He, <-Ht in Hx, Hc. rewrite <-Ht, <-Hn. exists KCapture. split; [done|].
    eapply step_capture; [exact Hx|].
    by apply record_capture_ok in Hc.
  - destruct (is_retryable e); (eapply after_still; [exact Hs2|apply in_tx_report|exact Hr|done]);
      [by right|done|done|by left|done|done].
Qed.

Lemma capture_on_tx_step oid : sess_step may_capture oid (capture_payment_on_tx gateway oid).
Proof.
  apply (capture_step oid (λ e, retry_payload oid 1 (ge_message e))
    (λ e, reason_payload oid ("Capture declined: " +:+ ge_message e)));
    intros e; [apply names_retry|apply names_reason].
Qed.

Lemma void_on_tx_step oid : sess_step (eq KVoid) oid (void_payment_on_tx gateway oid).
Proof.
  intros ss u ss' Hr He. unfold void_payment_on_tx in Hr.
  apply bind_ok in Hr as ([[[id ref] cur] amt] & s1 & H1 & Hr).
  apply in_service_ok in H1 as [Hs (d & H1)]; [|apply keeps_find_posted].
  apply find_posted_ok in H1 as [_ (x & Hx & -> & -> & ->)]; [|by right]. simpl in Hx, Hr.
  apply bind_ok in Hr as (r & s2 & Hg & Hr). apply map_err_ok in Hg.
  apply (keeps_in_service _ (keeps_call_gateway _)) in Hg.
  assert (still_sess ss s2) as Hs2 by by etrans.
  apply zoom_ok in Hr as (c & Hc & ->). destruct Hs2 as (_ & Ht & Hn). right. simpl.
  rewrite <-He, <-Ht in Hx, Hc. rewrite <-Ht, <-Hn. apply record_void_ok in Hc as [Ha Hb].
  exists KVoid. split; [done|]. by eapply step_void.
Qed.

(** ** The event handler *)

(** The order an event is about. *)
Definition about (e : EventEnvelope) (oid : Uuid) : Prop := payload_uuid e "order_id" = Ok oid.

Lemma with_order_step {A} K e (m : Uuid → M psess AppError A) oid :
  about e oid → (∀ oid, sess_step K oid (m oid)) →
  sess_step K oid (id ← lift (payload_uuid e "order_id"); m id).
Proof.
  intros Ha Hm ss a ss' Hr He. apply bind_ok in Hr as (i & s1 & [Hi <-]%lift_ok & Hr).
  unfold about in Ha. rewrite Ha in Hi. injection Hi as <-. by eapply Hm.
Qed.

Lemma map_err_step {A E F} K oid (f : E → F) (m : M psess E A) :
  sess_step K oid m → sess_step K oid (map_err f m).
Proof. intros Hm ss a ss' Hr%map_err_ok He. by eapply Hm. Qed.

(** The amount and the currency an InventoryReserved event asks for. *)
Definition requested_amount (e : EventEnvelope) : option Decimal :=
  s ← as_str (jindex (env_payload e) "total_amount"); dec_parse s.
Definition requested_currency (e : EventEnvelope) : string :=
  default "USD" (as_str (jindex (env_payload e) "currency")).
(** What an event may cause. *)
Definition may_cause (e : EventEnvelope) (k : payment_kind) : Prop :=
  match em_event_type (env_metadata e) with
  | InventoryReserved => ∃ amount, requested_amount e = Some amount ∧ may_authorize amount (requested_currency e) k
  | OrderConfirmed | PaymentCaptureRetryRequested => may_capture k
  | OrderCancelled => k = KVoid
  | _ => False
  end.

Lemma sess_step_mono {E A} K K' oid (m : M psess E A) : (∀ k, K k → K' k) → sess_step K oid m → sess_step K' oid m.
Proof. intros HK Hm ss a ss' Hr He. destruct (Hm ss a ss' Hr He) as [?|(k & ? & ?)]; eauto. Qed.

Lemma dispatch_step e oid : about e oid → sess_step (may_cause e) oid (payment_dispatch gateway e).
Proof.
  intros Ha. unfold payment_dispatch, may_cause.
  destruct (em_event_type (env_metadata e));
    try (apply still_sess_step, keeps_ret; typeclasses eauto); apply map_err_step.
  - apply with_order_step; [done|]. apply capture_on_tx_step.
  - apply (sess_step_mono (eq KVoid)); [by intros k <-|]. apply with_order_step; [done|]. intros i ss u ss' Hr He.
    apply bind_ok in Hr as (txs & s1 & H1 & Hr).
    apply (keeps_in_service _ (keeps_pool_query _ _)) in H1.
    destruct (derive_payment_state txs); try (apply ret_ok in Hr as [_ <-]; destruct H1 as (_ & -> & _); by left).
    eapply after_still; [exact H1|apply void_on_tx_step|exact Hr|done].
  - apply with_order_step; [done|]. intros i ss u ss' Hr He.
    apply bind_ok in Hr as (amt & s1 & [Hamt%ok_or_ok <-]%lift_ok & Hr).
    eapply sess_step_mono; [|apply authorize_on_tx_step|exact Hr|done]. intros k Hk. by exists amt.
  - apply with_order_step; [done|]. intros i. cbv zeta.
    destruct (MAX_CAPTURE_RETRIES <=? _); [apply in_tx_report; [by left|done|apply names_reason]|].
    apply (capture_step i (λ e', retry_payload i _ (ge_message e'))
      (λ e', reason_payload i ("Capture permanently failed: " +:+ ge_message e')));
      intros e'; [apply names_retry|apply names_reason].
Qed.

Lemma keeps_acquire_guard lock oid ty : keeps still_sess (acquire_guard (G := G) lock oid ty).
Proof.
  unfold acquire_guard. destruct lock; [|apply keeps_ret; typeclasses eauto].
  apply keeps_bind; [typeclasses eauto| |intros tok].
  - intros ss o ss'. unfold in_tx, zoom, now_v7. intros [= _ <-]. by unfold still_sess, s_env.
  - apply keeps_catch; [typeclasses eauto|apply keeps_on_redis| |].
    + intros g. apply keeps_ret. typeclasses eauto.
    + intros [|]; [apply keeps_fail|apply keeps_ret]; typeclasses eauto.
Qed.

Lemma keeps_release_guard g : keeps still_sess (release_guard (G := G) g).
Proof.
  destruct g; [|apply keeps_ret; typeclasses eauto].
  apply keeps_catch; [typeclasses eauto|apply keeps_on_redis|..]; intros ?; apply keeps_ret; typeclasses eauto.
Qed.

(** A handled event is at most one step of the machine, for the order of the event and of a kind
    the event may cause. *)
Lemma payment_handler_step lock e ss u ss' :
  payment_handler gateway lock e ss = (Ok u, ss') → c_tables (s_conn ss) = s_committed ss →
  c_tables (s_conn ss') = c_tables (s_conn ss) ∨
  ∃ oid k, about e oid ∧ may_cause e k ∧
    payment_step_as (e_now (s_env ss)) oid k (c_tables (s_conn ss)) (c_tables (s_conn ss')).
Proof.
  intros Hr He.
  assert (c_tables (s_conn ss') = c_tables (s_conn ss) ∨
    ∃ oid g ss1, about e oid ∧ still_sess ss ss1 ∧
      catch (payment_dispatch gateway e) (λ r, _ ← release_guard g; mret r)
        (λ err, _ ← release_guard g; fail err) ss1 = (Ok u, ss')) as [?|(oid & g & s1 & Ha & Hs & Hc)];
    [|by left|].
  { unfold payment_handler in Hr. destruct (em_event_type (env_metadata e));
      try (apply ret_ok in Hr as [_ <-]; by left); right;
      apply bind_ok in Hr as (oid & s0 & [Ho%omap_err_ok <-]%lift_ok & Hr);
      apply bind_ok in Hr as (g & s1 & Hg & Hr); apply keeps_acquire_guard in Hg; eauto 8. }
  apply catch_ok in Hc as [(r & s2 & Hd & Hr')|(er & s2 & _ & Hr')].
  - apply bind_ok in Hr' as (? & s3 & Hg & Hr'). apply ret_ok in Hr' as [_ <-].
    apply keeps_release_guard in Hg as (_ & -> & _).
    destruct (after_still _ oid _ _ _ _ _ Hs (dispatch_step e oid Ha) Hd He) as [?|(k & ? & ?)]; eauto 8.
  - by apply bind_ok in Hr' as (? & ? & _ & ?%fail_ok).
Qed.

(** Nothing is written outside the consumer's transaction, whatever the outcome. *)
Definition pool_same ss ss' : Prop := s_committed ss' = s_committed ss.
#[local] Instance pool_same_preorder : PreOrder pool_same.
Proof. unfold pool_same. split; [done|]. intros x y z ??. congruence. Qed.

Lemma keeps_still_pool {E A} (m : M psess E A) : keeps still_sess m → keeps pool_same m.
Proof. intros Hm ss o ss' Hr. by apply Hm in Hr as [? _]. Qed.
Lemma keeps_in_tx_pool {E A} (m : M (conn payment_tables) E A) :
  keeps pool_same (in_tx m : M psess E A).
Proof. apply keeps_zoom. by intros c o c' _ ss _. Qed.
Lemma keeps_gateway_pool {A} (m : M G GatewayError A) :
  keeps pool_same (in_service (call_gateway m)).
Proof. apply keeps_still_pool, keeps_in_service, keeps_call_gateway. Qed.
Lemma keeps_find_pool oid op : keeps pool_same (in_service (find_posted_authorization (G := G) oid op)).
Proof. apply keeps_still_pool, keeps_in_service, keeps_find_posted. Qed.
Lemma keeps_read_pool oid amount cur :
  keeps pool_same (in_service (authorization_read (G := G) oid amount cur)).
Proof. apply keeps_still_pool, keeps_in_service, keeps_authorization_read. Qed.
Lemma keeps_list_pool oid :
  keeps pool_same (in_service (on_pool (list_transactions_by_order oid)) : M psess _ _).
Proof. apply keeps_still_pool, keeps_in_service, keeps_pool_query. Qed.
Hint Resolve keeps_in_tx_pool keeps_gateway_pool keeps_find_pool keeps_read_pool keeps_list_pool : keeps.

Lemma keeps_dispatch_pool e : keeps pool_same (payment_dispatch gateway e).
Proof.
  unfold payment_dispatch, handle_order_confirmed, handle_order_cancelled, handle_inventory_reserved,
    handle_capture_retry, capture_payment_on_tx, authorize_payment_on_tx, void_payment_on_tx.
  keeps_tac.
Qed.

Lemma keeps_handler_pool lock e : keeps pool_same (payment_handler gateway lock e).
Proof.
  pose proof keeps_dispatch_pool. unfold payment_handler.
  destruct (em_event_type (env_metadata e)); try (apply keeps_ret; typeclasses eauto);
    (apply keeps_bind; [typeclasses eauto|apply keeps_lift; typeclasses eauto|intros oid]);
    (apply keeps_bind; [typeclasses eauto|apply keeps_still_pool, keeps_acquire_guard|intros g]);
    (apply keeps_catch; [typeclasses eauto|done|intros r|intros r]);
    (apply keeps_bind; [typeclasses eauto|apply keeps_still_pool, keeps_release_guard|intros ?]);
    first [apply keeps_ret|apply keeps_fail]; typeclasses eauto.
Qed.

(** ** The consumer's interface *)

Definition same_marks t t' : Prop := pt_processed t' = pt_processed t.
#[local] Instance same_marks_preorder : PreOrder same_marks.
Proof. unfold same_marks. split; [done|]. intros x y z ??. congruence. Qed.

Lemma keeps_marks_exec {A} w (f : Z → Uuid → payment_tables → outcome sql_error (A * payment_tables)) :
  (∀ now id t a t', f now id t = Ok (a, t') → same_marks t t') →
  keeps (tables_rel same_marks) (failed_to w (exec f)).
Proof. intros Hf. by apply keeps_map_err, keeps_exec; [typeclasses eauto|]. Qed.

Lemma keeps_marks_account ty oid cur :
  keeps (tables_rel same_marks) (get_or_create_account ty oid cur).
Proof.
  unfold get_or_create_account. apply keeps_bind; [typeclasses eauto| |intros [a|]].
  - apply keeps_marks_exec. intros now id t a t' (-> & _)%insert_account_ok. done.
  - apply keeps_ret. typeclasses eauto.
  - apply keeps_map_err, keeps_fetch_one. typeclasses eauto.
Qed.

Lemma keeps_marks_create_tx oid ty key ref :
  keeps (tables_rel same_marks) (create_transaction oid ty key ref).
Proof.
  apply keeps_marks_exec. unfold insert_transaction. intros now id t a t' Hr.
  repeat (apply obind_ok in Hr as (? & _ & Hr)). by simplify_eq.
Qed.
Lemma keeps_marks_entry x a d amt : keeps (tables_rel same_marks) (create_entry x a d amt).
Proof.
  apply keeps_marks_exec. unfold insert_entry. intros now id t e t' Hr.
  repeat (apply obind_ok in Hr as (? & _ & Hr)). by simplify_eq.
Qed.
Lemma keeps_marks_update id st ref :
  keeps (tables_rel same_marks) (update_transaction_status id st ref).
Proof.
  unfold update_transaction_status. apply keeps_bind; [typeclasses eauto| |].
  - apply keeps_marks_exec. unfold update_transaction_stmt. intros now i t n t' Hr.
    repeat (apply obind_ok in Hr as (? & _ & Hr)). by simplify_eq.
  - intros n. apply keeps_assert. typeclasses eauto.
Qed.
Lemma keeps_marks_outbox oid ev payload :
  keeps (tables_rel same_marks) (write_outbox oid ev payload).
Proof. by apply keeps_write_event; [typeclasses eauto|]. Qed.

Lemma keeps_marks_book oid ty key ref ty1 ty2 swap cur amount ev payload :
  keeps (tables_rel same_marks) (book oid ty key ref ty1 ty2 swap cur amount ev payload).
Proof.
  unfold book, create_account_pair, write_entry_pair, post_transaction.
  repeat first
    [ apply keeps_marks_account | apply keeps_marks_create_tx | apply keeps_marks_entry
    | apply keeps_marks_update | apply keeps_marks_outbox
    | apply keeps_bind; [typeclasses eauto| |] | apply keeps_ret; typeclasses eauto
    | match goal with |- ∀ x : _ * _, _ => intros [] | |- ∀ _, _ => intros ? end ].
Qed.

Definition sess_marks ss ss' : Prop := same_marks (c_tables (s_conn ss)) (c_tables (s_conn ss')).
#[local] Instance sess_marks_preorder : PreOrder sess_marks.
Proof. unfold sess_marks. split; [intros x; reflexivity|]. intros x y z ??. by etrans. Qed.

Lemma keeps_in_tx_marks {E A} (m : M (conn payment_tables) E A) :
  keeps (tables_rel same_marks) m → keeps sess_marks (in_tx m : M psess E A).
Proof. intros Hm. apply keeps_zoom. intros c o c' Hr ss <-. by apply Hm in Hr. Qed.
Lemma keeps_still_marks {E A} (m : M psess E A) : keeps still_sess m → keeps sess_marks m.
Proof. intros Hm ss o ss' (_ & Ht & _)%Hm. unfold sess_marks, same_marks. by rewrite Ht. Qed.
Lemma keeps_service_marks {E A} (m : M pdb E A) : keeps sess_marks (in_service m).
Proof.
  intros ss o ss'. unfold in_service. destruct (m _) as [o1 d]. intros [= _ <-].
  unfold sess_marks. reflexivity.
Qed.
Lemma keeps_report_marks oid ev payload :
  keeps sess_marks (in_tx (write_outbox oid ev payload) : M psess AppError unit).
Proof. apply keeps_in_tx_marks, keeps_marks_outbox. Qed.
Lemma keeps_auth_marks oid amount cur ref :
  keeps sess_marks (in_tx (record_authorization oid amount cur ref) : M psess AppError unit).
Proof.
  apply keeps_in_tx_marks, (keeps_marks_book oid Authorization (auth_key oid) (Some ref) Buyer
    GatewayHolding true cur amount PaymentAuthorized (λ id, authorized_payload oid id ref)).
Qed.
Lemma keeps_capture_marks oid cur amt key ref :
  keeps sess_marks (in_tx (record_capture oid cur amt key ref) : M psess AppError unit).
Proof.
  apply keeps_in_tx_marks, (keeps_marks_book oid Capture key (Some ref) GatewayHolding
    PlatformRevenue true cur amt PaymentCaptured (λ _, order_payload oid)).
Qed.
Lemma keeps_void_marks oid id cur amt key :
  keeps sess_marks (in_tx (record_void oid id cur amt key) : M psess AppError unit).
Proof.
  apply keeps_in_tx_marks. unfold record_void.
  apply keeps_bind; [typeclasses eauto|apply keeps_marks_update|intros ?].
  apply (keeps_marks_book oid Void key None Buyer GatewayHolding false cur amt PaymentVoided
    (λ _, order_payload oid)).
Qed.
Hint Resolve keeps_service_marks keeps_report_marks keeps_auth_marks keeps_capture_marks
  keeps_void_marks : keeps.

Lemma keeps_dispatch_marks e : keeps sess_marks (payment_dispatch gateway e).
Proof.
  unfold payment_dispatch, handle_order_confirmed, handle_order_cancelled, handle_inventory_reserved,
    handle_capture_retry, capture_payment_on_tx, authorize_payment_on_tx, void_payment_on_tx.
  keeps_tac.
Qed.

Lemma keeps_handler_marks lock e : keeps sess_marks (payment_handler gateway lock e).
Proof.
  pose proof keeps_dispatch_marks. unfold payment_handler.
  destruct (em_event_type (env_metadata e)); try (apply keeps_ret; typeclasses eauto);
    (apply keeps_bind; [typeclasses eauto|apply keeps_lift; typeclasses eauto|intros oid]);
    (apply keeps_bind; [typeclasses eauto|apply keeps_still_marks, keeps_acquire_guard|intros g]);
    (apply keeps_catch; [typeclasses eauto|done|intros r|intros r]);
    (apply keeps_bind; [typeclasses eauto|apply keeps_still_marks, keeps_release_guard|intros ?]);
    first [apply keeps_ret|apply keeps_fail]; typeclasses eauto.
Qed.

(** The payment handler keeps to the consumer's interface, for any gateway and lock. *)
#[export] Instance payment_handler_well_behaved lock :
  WellBehaved (payment_handler gateway lock) eq.
Proof.
  split.
  - intros e ss o ss' Hr. symmetry. by eapply keeps_handler_pool.
  - intros e ss u ss' Hr. by eapply keeps_handler_pool.
  - intros e ss u ss' Hr. by eapply keeps_handler_marks.
  - by intros t t' ->.
Qed.
End steps.
