(* ===== verification/PaymentProps.v ===== *)
(** * Payment service: the invariant of the ledger

    Along the steps of the payment machine every transaction stays balanced, an order's
    payment moves from new to authorized and then to captured or voided, the captured
    amount is the authorized one, and the balances of an order's accounts are known in
    each state. *)

From S2P Require Import Prelude RustStr Externals Errors Rules Auth Events Db Outbox Consumer.
From S2P Require Import ConsumerProps Gateway Ledger PaymentService PaymentBook PaymentSteps.

Local Open Scope Z_scope.

Section ledger.
Context `{Externals}.
Implicit Types (t : payment_tables) (x : LedgerTransactionEntity).

(** ** Balanced transactions *)

Definition numeric_scale : Z := 10 ^ 24.

(** The entries of a transaction are one debit and one credit of the same amount, of two
    accounts of its order. *)
Definition balanced t x (dty cty : AccountType) (cur : string) (amt : Z) : Prop :=
  ∃ d k a,
    entries_of (lt_id x) t = [d; k] ∧
    entry_pair (lt_created_at x) (lt_order_id x) cur (lt_id x) dty cty a (pt_accounts t) d k ∧
    dec_units a = amt ∧ (numeric_scale | amt).

Definition entries_ok t : Prop :=
  ∀ e, e ∈ pt_entries t → le_transaction_id e ∈ (lt_id <$> pt_transactions t).

(** ** The life of an order's payment *)

Definition is_tx (oid : Uuid) (ty : TransactionType) (key : string) (st : TransactionStatus) x : Prop :=
  lt_order_id x = oid ∧ lt_type x = ty ∧ lt_idempotency_key x = key ∧ lt_status x = st ∧
  lt_metadata x = jobj [].

(** The currency of a capture or a void: the code reads it from the metadata of the
    authorization, where nothing ever writes it, and falls back to this one. *)
Definition fallback_currency : string := "USD".

(** [phase oid t st amt cur]: the transactions of the order, in the order they were booked,
    its state, and the amount and currency of its authorization. *)
Inductive phase (oid : Uuid) t : PaymentState → Z → string → Prop :=
| phase_new : transactions_of oid t = [] → phase oid t PsNew 0 ""
| phase_authorized a amt cur :
    transactions_of oid t = [a] → is_tx oid Authorization (auth_key oid) TxPosted a →
    balanced t a GatewayHolding Buyer cur amt → phase oid t PsAuthorized amt cur
| phase_captured a c amt cur :
    transactions_of oid t = [a; c] → is_tx oid Authorization (auth_key oid) TxPosted a →
    is_tx oid Capture (capture_key oid) TxPosted c → lt_created_at a < lt_created_at c →
    balanced t a GatewayHolding Buyer cur amt →
    balanced t c PlatformRevenue GatewayHolding fallback_currency amt →
    phase oid t PsCaptured amt cur
| phase_voided a v amt cur :
    transactions_of oid t = [a; v] → is_tx oid Authorization (auth_key oid) TxDiscarded a →
    is_tx oid Void (void_key oid) TxPosted v →
    balanced t a GatewayHolding Buyer cur amt →
    balanced t v Buyer GatewayHolding fallback_currency amt →
    phase oid t PsVoided amt cur.

(** The invariant of the tables apart from the phases. *)
Definition frame_ok t : Prop :=
  accounts_ok (pt_accounts t) ∧ NoDup (lt_id <$> pt_transactions t) ∧
  NoDup (lt_idempotency_key <$> pt_transactions t) ∧ entries_ok t.

Definition ledger_ok (now : Z) t : Prop :=
  frame_ok t ∧ Forall (λ x, lt_created_at x ≤ now) (pt_transactions t) ∧
  ∀ oid, ∃ st amt cur, phase oid t st amt cur.

(** The legal moves of a payment. *)
Definition payment_move (a b : PaymentState) : Prop :=
  match a, b with
  | PsNew, PsAuthorized | PsAuthorized, PsCaptured | PsAuthorized, PsVoided => True
  | _, _ => False
  end.

Lemma order_by_two {A} (key : A → Z) a b :
  order_by key [a; b] = if key a <=? key b then [a; b] else [b; a].
Proof. done. Qed.

Lemma phase_state oid t st amt cur : phase oid t st amt cur → payment_state oid t = st.
Proof.
  unfold payment_state, is_tx. intros [Ht|a ? ? Ht (_&Hty&_&Hs&_) _|a c ? ? Ht (_&Hty&_&Hs&_) (_&Hty'&_&Hs'&_) Hlt _ _
    |a v ? ? Ht (_&Hty&_&Hs&_) (_&Hty'&_&Hs'&_) _ _]; rewrite Ht; unfold derive_payment_state.
  - done.
  - simpl. rewrite Hs. rewrite bool_decide_true by done. by rewrite Hty.
  - rewrite order_by_two. destruct (Z.leb_spec (- lt_created_at a) (- lt_created_at c)); [lia|].
    cbn [List.find]. rewrite Hs', bool_decide_true by done. by rewrite Hty'.
  - rewrite order_by_two. destruct (_ <=? _); cbn [List.find]; rewrite ?Hs, Hs'; simpl; by rewrite Hty'.
Qed.

(** ** One booking and the invariant *)

Lemma transactions_of_snoc oid l x :
  List.filter (λ y, bool_decide (lt_order_id y = oid)) (l ++ [x]) =
  List.filter (λ y, bool_decide (lt_order_id y = oid)) l ++
    (if decide (lt_order_id x = oid) then [x] else []).
Proof.
  rewrite List.filter_app. f_equal. simpl. case_decide.
  - by rewrite bool_decide_true.
  - by rewrite bool_decide_false.
Qed.


(** The tables after a booking. *)
Section booked.
Context (now : Z) (oid : Uuid) (ty : TransactionType) (key : string) (ref : option string)
  (dty cty : AccountType) (cur : string) (amount : Decimal) (ev : EventType) (payload : Uuid → Value).
Context t t' (Hb : booked now oid ty key ref dty cty cur amount ev payload t t').

Lemma booked_frame : frame_ok t → frame_ok t'.
Proof.
  destruct Hb as (l & x & d & k & r & amt & -> & (as_ & -> & _ & Hacc) & Ex & Hid & Hk & _ & Hp & _).
  intros (H1 & H2 & H3 & H4). split_and!; simpl.
  - by apply Hacc.
  - by apply NoDup_fmap_snoc.
  - apply NoDup_fmap_snoc; [done|]. by rewrite Ex.
  - intros e. cbn. rewrite fmap_app, !elem_of_app, list_elem_of_fmap.
    destruct Hp as (da & ka & _ & _ & _ & _ & Ed & Ek & _). intros [He|He].
    + apply H4, list_elem_of_fmap in He. by left.
    + right. apply list_elem_of_fmap. exists x. split; [|by left].
      apply elem_of_cons in He as [->|He]; [by rewrite Ed|].
      apply list_elem_of_singleton in He as ->. by rewrite Ek.
Qed.

Lemma booked_balanced x dt ct c0 amt :
  entries_ok t → x ∈ pt_transactions t → balanced t x dt ct c0 amt → balanced t' x dt ct c0 amt.
Proof.
  destruct Hb as (l & y & d & k & r & a & -> & (as_ & -> & _) & Ey & Hid & _ & _ & Hp & _).
  intros Hent Hin (d0 & k0 & a0 & He & (da & ka & Hda & Hka & Hrest) & Ha).
  exists d0, k0, a0. split_and!; [| |apply Ha..].
  - unfold entries_of in *. simpl. rewrite List.filter_app, He.
    assert (lt_id y ≠ lt_id x) as Hne.
    { intros E. apply Hid. rewrite E. by apply list_elem_of_fmap_2. }
    destruct Hp as (? & ? & _ & _ & _ & _ & Ed & Ek & _). rewrite Ed, Ek. simpl.
    by rewrite !bool_decide_false by done.
  - exists da, ka. split_and!; simpl; try (apply elem_of_app; by left); apply Hrest.
Qed.

Lemma booked_new :
  entries_ok t → ∃ x amt, pt_transactions t' = pt_transactions t ++ [x] ∧
    is_tx oid ty key TxPosted x ∧ lt_created_at x = now ∧ lt_gateway_reference x = ref ∧
    dec_numeric amount = Some amt ∧ balanced t' x dty cty cur (dec_units amt).
Proof.
  destruct Hb as (l & x & d & k & r & a & -> & (as_ & -> & _) & Ex & Hid & _ & Ha & Hp & _).
  intros Hent. exists x, a. split_and!; [done|by rewrite Ex|by rewrite Ex|by rewrite Ex|done|].
  exists d, k, a. split_and!; [| |done|by eapply dec_numeric_scale].
  - unfold entries_of. simpl. rewrite List.filter_app, filter_none.
    + destruct Hp as (? & ? & _ & _ & _ & _ & Ed & Ek & _). simpl. rewrite Ed, Ek. simpl.
      by rewrite !bool_decide_true by done.
    + intros e He. apply bool_decide_false. intros E. apply Hid. rewrite <-E. by apply Hent.
  - rewrite Ex. simpl. exact Hp.
Qed.
End booked.

(** ** One step and the invariant *)

Lemma transactions_of_in oid x t :
  x ∈ transactions_of oid t ↔ x ∈ pt_transactions t ∧ lt_order_id x = oid.
Proof.
  unfold transactions_of. rewrite list_elem_of_In, filter_In, bool_decide_eq_true, <-list_elem_of_In.
  done.
Qed.

Lemma phase_transport oid t t' st amt cur :
  transactions_of oid t' = transactions_of oid t →
  (∀ x dty cty c a, x ∈ transactions_of oid t → balanced t x dty cty c a → balanced t' x dty cty c a) →
  phase oid t st amt cur → phase oid t' st amt cur.
Proof.
  intros E Hb Hp. destruct Hp as [Ht|a ? ? Ht ? Hb1|a c ? ? Ht ? ? ? Hb1 Hb2|a v ? ? Ht ? ? Hb1 Hb2];
    rewrite Ht in Hb; rewrite Ht in E.
  - by constructor.
  - eapply phase_authorized; [done..|]. apply Hb; [by left|done].
  - eapply phase_captured; [done..| |]; (apply Hb; [|done]); [by left|right; by left].
  - eapply phase_voided; [done..| |]; (apply Hb; [|done]); [by left|right; by left].
Qed.

Lemma booked_others now oid ty key ref dty cty cur amount ev payload t t' oid' st amt c :
  booked now oid ty key ref dty cty cur amount ev payload t t' → entries_ok t → oid' ≠ oid →
  phase oid' t st amt c → phase oid' t' st amt c.
Proof.
  intros Hb He Hne. apply phase_transport.
  - destruct (booked_new _ _ _ _ _ _ _ _ _ _ _ _ _ Hb He) as (x & a & Ex & (Hx & _) & _).
    unfold transactions_of. rewrite Ex, transactions_of_snoc, decide_False by congruence.
    by rewrite app_nil_r.
  - intros x dt ct c0 a [Hin _]%transactions_of_in. by eapply booked_balanced.
Qed.

Lemma booked_created now0 now oid ty key ref dty cty cur amount ev payload t t' :
  booked now oid ty key ref dty cty cur amount ev payload t t' → now0 ≤ now →
  Forall (λ x, lt_created_at x ≤ now0) (pt_transactions t) →
  Forall (λ x, lt_created_at x ≤ now) (pt_transactions t').
Proof.
  intros (l & x & d & k & r & a & -> & _ & Ex & _) Hn Hf. apply Forall_app. split.
  - eapply Forall_impl; [exact Hf|]. simpl. lia.
  - apply Forall_singleton. rewrite Ex. simpl. lia.
Qed.

Lemma read_amount_balanced x t dty cty cur amt :
  balanced t x dty cty cur amt → dec_units (read_amount x t) = amt.
Proof.
  intros (d & k & a & He & (da & ka & _ & _ & _ & _ & Ed & Ek & _) & Ha & _).
  unfold read_amount. rewrite He, order_by_two.
  assert (le_created_at d = lt_created_at x ∧ le_amount d = a) as [E1 E2] by (by rewrite Ed).
  assert (le_created_at k = lt_created_at x) as -> by (by rewrite Ek).
  rewrite E1, Z.leb_refl. simpl. by rewrite E2.
Qed.

Lemma numeric_again d d' amt :
  dec_numeric d = Some d' → dec_units d = amt → (numeric_scale | amt) → dec_units d' = amt.
Proof. intros Hd <- Hs. by apply dec_numeric_units in Hd. Qed.

Lemma list_filter_update {A} (p q : A → bool) (f : A → A) l :
  (∀ z, p (f z) = p z) →
  List.filter p (update_where q f l) = update_where q f (List.filter p l).
Proof.
  intros Hp. unfold update_where. induction l as [|z l IH]; [done|].
  rewrite fmap_cons. cbn [List.filter]. destruct (q z) eqn:Eq.
  - rewrite Hp. destruct (p z); [|done]. by rewrite fmap_cons, IH, Eq.
  - destruct (p z); [|done]. by rewrite fmap_cons, IH, Eq.
Qed.

Lemma discarded_frame id t : frame_ok t → frame_ok (discarded id t).
Proof.
  intros (H1 & H2 & H3 & H4). unfold frame_ok, discarded, entries_ok. simpl.
  by rewrite !fmap_update_where.
Qed.

Lemma discarded_balanced id t x dty cty cur a st ref :
  balanced t x dty cty cur a → balanced (discarded id t) (with_status st ref x) dty cty cur a.
Proof. done. Qed.

Lemma discarded_transactions id oid t :
  transactions_of oid (discarded id t) =
  update_where (has_tx_id id) (with_status TxDiscarded None) (transactions_of oid t).
Proof. by apply list_filter_update. Qed.

Lemma has_tx_id_unique x y l :
  NoDup (lt_id <$> l) → x ∈ l → y ∈ l → lt_id x = lt_id y → x = y.
Proof.
  apply NoDup_fmap_inj_in.
Qed.

(** The state of an order after a step: unchanged, or moved with the same amount. *)
Definition moves_to (st : PaymentState) (amt : Z) (cur : string)
    (st' : PaymentState) (amt' : Z) (cur' : string) : Prop :=
  st' = st ∧ amt' = amt ∧ cur' = cur ∨
  payment_move st st' ∧ (st = PsNew ∨ amt' = amt ∧ cur' = cur).

Definition phases_move t t' : Prop :=
  ∀ oid st amt cur, phase oid t st amt cur →
    ∃ st' amt' cur', phase oid t' st' amt' cur' ∧ moves_to st amt cur st' amt' cur'.

Lemma authorized_phase oid x ref t st amt cur :
  authorization_of oid x ref t → phase oid t st amt cur →
  transactions_of oid t = [x] ∧ is_tx oid Authorization (auth_key oid) TxPosted x ∧
  balanced t x GatewayHolding Buyer cur amt ∧ st = PsAuthorized.
Proof.
  intros (Hs & Hin & Hx & _) Hp. pose proof (phase_state _ _ _ _ _ Hp) as Hs'. rewrite Hs in Hs'.
  destruct Hp as [| a ? ? Ht ? ?| |]; try done. rewrite Ht in Hin.
  apply list_elem_of_singleton in Hin as ->. done.
Qed.

Lemma read_currency_fallback oid ty key st x :
  is_tx oid ty key st x → read_currency x = fallback_currency.
Proof.
  intros (_ & _ & _ & _ & Hm). unfold read_currency. rewrite Hm.
  rewrite jindex_assoc by apply NoDup_nil_2. simpl. by rewrite as_str_jnull.
Qed.

Lemma validate_authorization_state amount cur st :
  validate_authorization amount cur st = Ok tt → st = PsNew ∨ st = PsFailed.
Proof.
  unfold validate_authorization. rewrite passed_evaluate_detailed. simpl.
  destruct st; rewrite ?andb_false_r; simpl; auto; done.
Qed.

Lemma step_report_phases t t1 :
  pt_accounts t1 = pt_accounts t → pt_transactions t1 = pt_transactions t →
  pt_entries t1 = pt_entries t → phases_move t t1.
Proof.
  intros E1 E2 E3 oid st amt cur Hp. exists st, amt, cur. split; [|by left].
  eapply phase_transport; [| |exact Hp]; unfold transactions_of; rewrite ?E2; [done|].
  intros x dt ct c a _. unfold balanced, entries_of. by rewrite E1, E3.
Qed.

(** The transactions of an order after a booking for it. *)
Lemma booked_of now oid ty key ref dty cty cur amount ev payload t t' :
  booked now oid ty key ref dty cty cur amount ev payload t t' → entries_ok t →
  ∃ x a, transactions_of oid t' = transactions_of oid t ++ [x] ∧ is_tx oid ty key TxPosted x ∧
    lt_created_at x = now ∧ dec_numeric amount = Some a ∧ balanced t' x dty cty cur (dec_units a).
Proof.
  intros Hb He. destruct (booked_new _ _ _ _ _ _ _ _ _ _ _ _ _ Hb He) as (y & a & Ey & Hy & Hc & _ & Ha & Hby).
  exists y, a. split_and!; try done. unfold transactions_of. rewrite Ey, transactions_of_snoc.
  by rewrite decide_True by apply Hy.
Qed.

(** The phase of the step's order after it. *)
Definition phase_after (oid : Uuid) (k : payment_kind) (st : PaymentState) (amt : Z) (c : string) t' : Prop :=
  match k with
  | KReport _ => phase oid t' st amt c
  | KAuthorize amount cur => st = PsNew ∧ ∃ a, dec_numeric amount = Some a ∧ phase oid t' PsAuthorized (dec_units a) cur
  | KCapture => st = PsAuthorized ∧ phase oid t' PsCaptured amt c
  | KVoid => st = PsAuthorized ∧ phase oid t' PsVoided amt c
  end.

Lemma step_authorize_phase now oid amount cur ref t t' st amt c :
  entries_ok t → validate_authorization amount cur (payment_state oid t) = Ok tt →
  booked now oid Authorization (auth_key oid) (Some ref) GatewayHolding Buyer cur amount
    PaymentAuthorized (λ id, authorized_payload oid id ref) t t' →
  phase oid t st amt c → phase_after oid (KAuthorize amount cur) st amt c t'.
Proof.
  intros He Hv Hb Hp. apply validate_authorization_state in Hv. rewrite (phase_state _ _ _ _ _ Hp) in Hv.
  destruct Hp as [Ht| | |]; try (by destruct Hv). split; [done|].
  destruct (booked_of _ _ _ _ _ _ _ _ _ _ _ _ _ Hb He) as (y & a & Ey & Hy & _ & Ha & Hby).
  exists a. split; [done|]. eapply phase_authorized; [|exact Hy|done]. by rewrite Ey, Ht.
Qed.

Lemma step_capture_phase now0 now oid x ref t t' st amt c :
  entries_ok t → Forall (λ x, lt_created_at x ≤ now0) (pt_transactions t) → now0 < now →
  authorization_of oid x ref t →
  booked now oid Capture (capture_key oid) (Some ref) PlatformRevenue GatewayHolding
    (read_currency x) (read_amount x t) PaymentCaptured (λ _, order_payload oid) t t' →
  phase oid t st amt c → phase_after oid KCapture st amt c t'.
Proof.
  intros He Hc Hnow Hx Hb Hp.
  destruct (authorized_phase _ _ _ _ _ _ _ Hx Hp) as (Ht & Hax & Hbx & ->). split; [done|].
  destruct (booked_of _ _ _ _ _ _ _ _ _ _ _ _ _ Hb He) as (y & a & Ey & Hy & Hcy & Hna & Hby).
  assert (x ∈ pt_transactions t) as Hin.
  { eapply transactions_of_in. rewrite Ht. by left. }
  eapply phase_captured; [|exact Hax|exact Hy| | |].
  - by rewrite Ey, Ht.
  - rewrite Hcy. rewrite Forall_forall in Hc. specialize (Hc x Hin). lia.
  - by eapply booked_balanced.
  - pose proof Hbx as (? & ? & ? & _ & _ & _ & Hdiv).
    rewrite (read_currency_fallback _ _ _ _ _ Hax) in Hby.
    rewrite (numeric_again _ _ amt Hna) in Hby; [done| |done]. by eapply read_amount_balanced.
Qed.

Lemma step_void_phase now oid x ref t t' st amt c :
  frame_ok t → authorization_of oid x ref t →
  booked now oid Void (void_key oid) None Buyer GatewayHolding
    (read_currency x) (read_amount x t) PaymentVoided (λ _, order_payload oid)
    (discarded (lt_id x) t) t' →
  phase oid t st amt c → phase_after oid KVoid st amt c t'.
Proof.
  intros Hfr Hx Hb Hp. pose proof (discarded_frame (lt_id x) t Hfr) as (_ & _ & _ & He').
  destruct (authorized_phase _ _ _ _ _ _ _ Hx Hp) as (Ht & Hax & Hbx & ->). split; [done|].
  destruct (booked_of _ _ _ _ _ _ _ _ _ _ _ _ _ Hb He') as (y & a & Ey & Hy & Hcy & Hna & Hby).
  assert (transactions_of oid (discarded (lt_id x) t) = [with_status TxDiscarded None x]) as Htd.
  { rewrite discarded_transactions, Ht. unfold update_where. simpl.
    unfold has_tx_id. by rewrite bool_decide_true by done. }
  apply (phase_voided oid t' (with_status TxDiscarded None x) y amt c);
    [by rewrite Ey, Htd|by destruct Hax as (? & ? & ? & _ & ?)|exact Hy| |].
  - eapply booked_balanced; [exact Hb|done| |by apply discarded_balanced].
    eapply transactions_of_in. rewrite Htd. by left.
  - pose proof Hbx as (? & ? & ? & _ & _ & _ & Hdiv).
    rewrite (read_currency_fallback _ _ _ _ _ Hax) in Hby.
    rewrite (numeric_again _ _ amt Hna) in Hby; [done| |done]. by eapply read_amount_balanced.
Qed.

Lemma step_phase now0 now oid k t t' st amt c :
  frame_ok t → Forall (λ x, lt_created_at x ≤ now0) (pt_transactions t) → now0 < now →
  payment_step_as now oid k t t' → phase oid t st amt c → phase_after oid k st amt c t'.
Proof.
  intros Hfr Hc Hnow Hs Hp. pose proof Hfr as (_ & _ & _ & He).
  destruct Hs as [t ev payload r Hev _ Hr|t t' amount cur ref Hv Hb|t t' x ref Hx Hb|t t' x ref Hx _ Hb].
  - by eapply phase_transport; [| |exact Hp].
  - by eapply step_authorize_phase.
  - by eapply step_capture_phase.
  - by eapply step_void_phase.
Qed.

(** The other orders stay in their phase. *)
Lemma step_others now oid k t t' oid' st amt c :
  frame_ok t → payment_step_as now oid k t t' → oid' ≠ oid → phase oid' t st amt c → phase oid' t' st amt c.
Proof.
  intros Hfr Hs Hne Hp. pose proof Hfr as (_ & Hi & _ & He).
  destruct Hs as [t ev payload r Hev _ Hr|t t' amount cur ref Hv Hb|t t' x ref Hx Hb|t t' x ref Hx _ Hb].
  - by eapply phase_transport; [| |exact Hp].
  - by eapply booked_others.
  - by eapply booked_others.
  - eapply booked_others; [exact Hb|by apply (discarded_frame (lt_id x) t Hfr)|done|].
    eapply phase_transport; [| |exact Hp]; [|intros y dt ct c0 a _ Hby; exact Hby].
    rewrite discarded_transactions. unfold update_where.
    rewrite <-(list_fmap_id (transactions_of oid' t)) at 2.
    apply list_fmap_ext. intros i y Hy%list_elem_of_lookup_2. unfold has_tx_id.
    rewrite bool_decide_false; [done|]. intros E. apply transactions_of_in in Hy as [Hy Hoy].
    destruct Hx as (_ & [Hxin Hxo]%transactions_of_in & _).
    rewrite (has_tx_id_unique _ _ _ Hi Hy Hxin E) in Hoy. congruence.
Qed.

Lemma step_phases_move now0 now oid k t t' :
  frame_ok t → Forall (λ x, lt_created_at x ≤ now0) (pt_transactions t) → now0 < now →
  payment_step_as now oid k t t' → phases_move t t'.
Proof.
  intros Hfr Hc Hnow Hs oid' st amt c Hp. destruct (decide (oid' = oid)) as [->|Hne].
  2:{ exists st, amt, c. split; [by eapply step_others|by left]. }
  pose proof (step_phase _ _ _ _ _ _ _ _ _ Hfr Hc Hnow Hs Hp) as Ha. unfold phase_after in Ha.
  destruct k; [exists st, amt, c; split; [done|by left]|destruct Ha as (-> & a & _ & Ha)|destruct Ha as [-> Ha]..];
    eexists _, _, _; (split; [exact Ha|]); right; (split; [done|]); [by left|by right..].
Qed.

Lemma payment_step_ok now0 now oid t t' :
  ledger_ok now0 t → now0 < now → payment_step now oid t t' →
  ledger_ok now t' ∧ phases_move t t'.
Proof.
  intros (Hfr & Hc & Hph) Hnow [k Hstep].
  pose proof (step_phases_move _ _ _ _ _ _ Hfr Hc Hnow Hstep) as Hm.
  assert (frame_ok t' ∧ Forall (λ x, lt_created_at x ≤ now) (pt_transactions t')) as (Hfr' & Hc').
  { destruct Hstep as [t ev payload r Hev _ Hr|t t' amount cur ref Hv Hb|t t' x ref Hx Hb|t t' x ref Hx _ Hb].
    - split; [done|]. eapply Forall_impl; [exact Hc|]. simpl. lia.
    - split; [by eapply booked_frame|eapply booked_created; [done| |done]; lia].
    - split; [by eapply booked_frame|eapply booked_created; [done| |done]; lia].
    - split; [eapply booked_frame; [done|by apply discarded_frame]|].
      eapply booked_created; [exact Hb|apply Z.lt_le_incl; exact Hnow|]. unfold discarded. simpl.
      apply Forall_forall. intros y (z & Hz & ->)%elem_of_update_where.
      rewrite Forall_forall in Hc. specialize (Hc z Hz). by case_match. }
  split; [|done]. split_and!; [done|done|]. intros oid'.
  destruct (Hph oid') as (st & amt & cur & Hp). destruct (Hm _ _ _ _ Hp) as (st' & amt' & cur' & ? & _).
  by exists st', amt', cur'.
Qed.

(** ** Balances *)

(** Debits minus credits of an account, over the posted transactions. *)
Definition net t (a : AccountEntity) : Z :=
  account_total Debit (ac_id a) t - account_total Credit (ac_id a) t.

Definition share (ty : AccountType) (oid : Uuid) (cur : string) (amt : Z) (a : AccountEntity) : Z :=
  if is_account ty oid cur a then amt else 0.

(** What a pair of entries adds to an account. *)
Definition contribution (acct : Uuid) (d k : LedgerEntryEntity) : Z :=
  (if decide (le_account_id d = acct) then dec_units (le_amount d) else 0) -
  (if decide (le_account_id k = acct) then dec_units (le_amount k) else 0).

Lemma same_account accounts ty oid cur a b :
  accounts_ok accounts → a ∈ accounts → b ∈ accounts → is_account ty oid cur b = true →
  ac_id b = ac_id a ↔ is_account ty oid cur a = true.
Proof.
  intros (Hi & Hk & _) [i Ha]%list_elem_of_lookup [j Hb]%list_elem_of_lookup Hb'%is_account_iff.
  rewrite is_account_iff. split.
  - intros E. assert (i = j) as ->; [|congruence]. apply (NoDup_lookup _ i j (ac_id a) Hi);
      rewrite list_lookup_fmap, ?Ha, ?Hb; simpl; congruence.
  - intros E. assert (i = j) as ->; [|congruence]. apply (NoDup_lookup _ i j (account_key a) Hk);
      rewrite list_lookup_fmap, ?Ha, ?Hb; simpl; congruence.
Qed.

Lemma pair_contribution now oid cur xid dty cty amt accounts d k a :
  entry_pair now oid cur xid dty cty amt accounts d k → accounts_ok accounts → a ∈ accounts →
  contribution (ac_id a) d k =
    share dty oid cur (dec_units amt) a - share cty oid cur (dec_units amt) a.
Proof.
  intros (da & ka & Hda & Hka & Hd & Hk & Ed & Ek & _) Hok Ha. unfold contribution, share.
  assert (le_account_id d = ac_id da ∧ le_amount d = amt) as [-> ->] by (by rewrite Ed).
  assert (le_account_id k = ac_id ka ∧ le_amount k = amt) as [-> ->] by (by rewrite Ek).
  pose proof (same_account _ _ _ _ _ _ Hok Ha Hda Hd) as Ed'.
  pose proof (same_account _ _ _ _ _ _ Hok Ha Hka Hk) as Ek'.
  destruct (is_account dty oid cur a), (is_account cty oid cur a);
    repeat case_decide; naive_solver.
Qed.

(** The entries of a transaction that is posted. *)
Lemma posted_entry_iff t e x :
  NoDup (lt_id <$> pt_transactions t) → x ∈ pt_transactions t → le_transaction_id e = lt_id x →
  posted_entry t e = bool_decide (lt_status x = TxPosted).
Proof.
  intros Hnd Hin E. unfold posted_entry. destruct (bool_decide (lt_status x = TxPosted)) eqn:Es.
  - apply existsb_exists. exists x. split; [by apply list_elem_of_In|].
    rewrite Es, andb_true_r. by apply bool_decide_true.
  - destruct (existsb _ _) eqn:Ex; [|done]. apply existsb_exists in Ex as (y & Hy & Hp).
    apply andb_true_iff in Hp as [Hid%bool_decide_eq_true Hp]. apply list_elem_of_In in Hy.
    assert (y = x) as -> by (eapply has_tx_id_unique; [done..|congruence]). congruence.
Qed.

(** The totals of two entries, a debit and a credit, both posted. *)
Lemma pair_totals t acct d k :
  le_direction d = Debit → le_direction k = Credit →
  posted_entry t d = true → posted_entry t k = true →
  zsum ((λ e, dec_units (le_amount e)) <$> List.filter (λ e, bool_decide (le_account_id e = acct) &&
      (posted_entry t e && bool_decide (le_direction e = Debit))) [d; k]) -
  zsum ((λ e, dec_units (le_amount e)) <$> List.filter (λ e, bool_decide (le_account_id e = acct) &&
      (posted_entry t e && bool_decide (le_direction e = Credit))) [d; k]) =
  contribution acct d k.
Proof.
  intros Hd Hk Pd Pk. unfold contribution. cbn [List.filter]. rewrite Hd, Hk, Pd, Pk.
  rewrite !(bool_decide_true (Debit = Debit)), !(bool_decide_true (Credit = Credit)) by done.
  rewrite !(bool_decide_false (Debit = Credit)), !(bool_decide_false (Credit = Debit)) by done.
  rewrite !andb_true_r, !andb_false_r.
  destruct (decide (le_account_id d = acct)) as [E1|E1], (decide (le_account_id k = acct)) as [E2|E2];
    rewrite ?(bool_decide_true (le_account_id d = acct)), ?(bool_decide_false (le_account_id d = acct)),
      ?(bool_decide_true (le_account_id k = acct)), ?(bool_decide_false (le_account_id k = acct)) by done;
    unfold zsum; simpl; lia.
Qed.

Lemma pair_directions now oid cur xid dty cty amt accounts d k :
  entry_pair now oid cur xid dty cty amt accounts d k →
  le_direction d = Debit ∧ le_direction k = Credit ∧ le_transaction_id d = xid ∧
  le_transaction_id k = xid.
Proof. intros (da & ka & _ & _ & _ & _ & -> & -> & _). done. Qed.

(** *** The net of an account, transaction by transaction *)

Definition tx_total (d : EntryDirection) (acct : Uuid) t x : Z :=
  zsum ((λ e, dec_units (le_amount e)) <$>
    List.filter (λ e, bool_decide (le_account_id e = acct) &&
      (posted_entry t e && bool_decide (le_direction e = d))) (entries_of (lt_id x) t)).

Lemma zsum_partition (g : LedgerEntryEntity → Z) (p : LedgerEntryEntity → bool) ids : ∀ es,
  NoDup ids → (∀ e, e ∈ es → le_transaction_id e ∈ ids) →
  zsum (g <$> List.filter p es) =
  zsum ((λ id, zsum (g <$> List.filter p
    (List.filter (λ e, bool_decide (le_transaction_id e = id)) es))) <$> ids).
Proof.
  induction ids as [|id ids IH]; intros es Hnd Hes.
  - rewrite filter_none; [done|]. intros e He. by apply Hes, not_elem_of_nil in He.
  - apply NoDup_cons in Hnd as [Hid Hnd]. rewrite fmap_cons, zsum_cons.
    rewrite (zsum_split _ _ (λ e, bool_decide (le_transaction_id e = id))).
    rewrite filter_filter. f_equal.
    { do 2 f_equal. apply List.filter_ext. intros e. apply andb_comm. }
    rewrite <-(filter_filter (λ e, negb (bool_decide (le_transaction_id e = id))) p).
    assert (∀ A (q r : A → bool) l, List.filter q (List.filter r l) = List.filter r (List.filter q l))
      as Hcomm by (intros; rewrite !filter_filter; apply List.filter_ext; intros; apply andb_comm).
    rewrite Hcomm, IH; [|done|].
    + f_equal. apply list_fmap_ext. intros i j Hj%list_elem_of_lookup_2. do 3 f_equal.
      rewrite filter_filter. apply List.filter_ext. intros e.
      case_bool_decide as E; simpl; [|done]. symmetry. apply bool_decide_false. congruence.
    + intros e. rewrite list_elem_of_In, filter_In, negb_true_iff, bool_decide_eq_false.
      intros [Hin%list_elem_of_In Hne]. apply Hes, elem_of_cons in Hin. naive_solver.
Qed.

Lemma account_total_by_tx d acct t :
  NoDup (lt_id <$> pt_transactions t) → entries_ok t →
  account_total d acct t = zsum (tx_total d acct t <$> pt_transactions t).
Proof.
  intros Hnd He. unfold account_total. rewrite (zsum_partition _ _ (lt_id <$> pt_transactions t)) by done.
  by rewrite <-list_fmap_compose.
Qed.

Lemma zsum_sub {A} (f g : A → Z) l :
  zsum (f <$> l) - zsum (g <$> l) = zsum ((λ z, f z - g z) <$> l).
Proof. induction l as [|z l IH]; [done|]. rewrite !fmap_cons, !zsum_cons. lia. Qed.

Lemma zsum_filter_zero {A} (f : A → Z) (p : A → bool) l :
  (∀ z, z ∈ l → p z = false → f z = 0) → zsum (f <$> l) = zsum (f <$> List.filter p l).
Proof.
  induction l as [|z l IH]; intros Hz; [done|]. rewrite fmap_cons, zsum_cons. cbn [List.filter].
  rewrite IH by (intros y Hy; apply Hz; by right). destruct (p z) eqn:Ep; [done|].
  rewrite (Hz z (list_elem_of_here _ _) Ep). lia.
Qed.

(** What a balanced transaction adds to an account. *)
Definition tx_net x (dty cty : AccountType) (cur : string) (amt : Z) (a : AccountEntity) : Z :=
  if decide (lt_status x = TxPosted) then
    share dty (lt_order_id x) cur amt a - share cty (lt_order_id x) cur amt a
  else 0.

Lemma tx_total_balanced t x dty cty cur amt a :
  frame_ok t → x ∈ pt_transactions t → a ∈ pt_accounts t → balanced t x dty cty cur amt →
  tx_total Debit (ac_id a) t x - tx_total Credit (ac_id a) t x = tx_net x dty cty cur amt a.
Proof.
  intros (Hacc & Hnd & _) Hin Ha (d & k & b & He & Hp & <- & _).
  destruct (pair_directions _ _ _ _ _ _ _ _ _ _ Hp) as (Dd & Dk & Xd & Xk).
  unfold tx_total, tx_net. rewrite He.
  assert (∀ e, le_transaction_id e = lt_id x → posted_entry t e = bool_decide (lt_status x = TxPosted))
    as Hpost by (intros e E; by apply posted_entry_iff).
  case_decide as Hs.
  - rewrite pair_totals; [|done|done|rewrite Hpost by done; by apply bool_decide_true..].
    by apply (pair_contribution _ _ _ _ _ _ _ _ _ _ _ Hp).
  - assert (∀ d', List.filter (λ e, bool_decide (le_account_id e = ac_id a) &&
      (posted_entry t e && bool_decide (le_direction e = d'))) [d; k] = []) as Hnone.
    { intros d'. apply filter_none. intros e He2.
      assert (le_transaction_id e = lt_id x) as Xe
        by (apply elem_of_cons in He2 as [->|He2]; [done|by apply list_elem_of_singleton in He2 as ->]).
      rewrite Hpost by done. rewrite (bool_decide_false (lt_status x = _)) by done.
      by rewrite andb_false_r. }
    by rewrite !Hnone.
Qed.

Lemma phase_balanced oid t st amt cur x :
  phase oid t st amt cur → x ∈ transactions_of oid t → ∃ dty cty c a, balanced t x dty cty c a.
Proof.
  intros [Ht|a ? ? Ht ? ?|a c ? ? Ht ? ? ? ? ?|a v ? ? Ht ? ? ? ?]; rewrite Ht;
    rewrite ?elem_of_cons, ?elem_of_nil; naive_solver.
Qed.

(** Only the order's own transactions touch its accounts. *)
Lemma net_of_order now oid t a :
  ledger_ok now t → a ∈ pt_accounts t → ac_reference_id a = oid →
  net t a = zsum ((λ x, tx_total Debit (ac_id a) t x - tx_total Credit (ac_id a) t x) <$>
    transactions_of oid t).
Proof.
  intros (Hfr & _ & Hph) Ha Hoid. pose proof Hfr as (_ & Hnd & _ & He). unfold net.
  rewrite !account_total_by_tx, zsum_sub by done.
  apply zsum_filter_zero. intros x Hx Hne%bool_decide_eq_false.
  destruct (Hph (lt_order_id x)) as (st & amt & cur & Hp).
  destruct (phase_balanced _ _ _ _ _ x Hp) as (dty & cty & c & b & Hb); [by apply transactions_of_in|].
  rewrite (tx_total_balanced _ _ _ _ _ _ _ Hfr Hx Ha Hb). unfold tx_net, share.
  assert (∀ ty, is_account ty (lt_order_id x) c a = false) as Hf.
  { intros ty. destruct (is_account ty (lt_order_id x) c a) eqn:E; [|done].
    apply is_account_iff in E. unfold account_key in E. naive_solver. }
  rewrite !Hf. by case_decide.
Qed.

(** The net of each account of an order, in each state of its payment. *)
Definition expected (oid : Uuid) (st : PaymentState) (amt : Z) (cur : string) (a : AccountEntity) : Z :=
  match st with
  | PsAuthorized => share GatewayHolding oid cur amt a - share Buyer oid cur amt a
  | PsCaptured => (share GatewayHolding oid cur amt a - share Buyer oid cur amt a) +
      (share PlatformRevenue oid fallback_currency amt a - share GatewayHolding oid fallback_currency amt a)
  | PsVoided => share Buyer oid fallback_currency amt a - share GatewayHolding oid fallback_currency amt a
  | _ => 0
  end.

Lemma net_expected now oid t st amt cur a :
  ledger_ok now t → a ∈ pt_accounts t → ac_reference_id a = oid → phase oid t st amt cur →
  net t a = expected oid st amt cur a.
Proof.
  intros Hok Ha Hoid Hp. rewrite (net_of_order now oid) by done. pose proof Hok as (Hfr & _).
  assert (∀ x, x ∈ transactions_of oid t → x ∈ pt_transactions t) as Hin
    by (intros x Hx; by apply transactions_of_in in Hx as [? _]).
  assert (∀ x st dty cty c amt ty key, x ∈ transactions_of oid t → is_tx oid ty key st x →
    balanced t x dty cty c amt →
    tx_total Debit (ac_id a) t x - tx_total Credit (ac_id a) t x =
    if decide (st = TxPosted) then share dty oid c amt a - share cty oid c amt a else 0) as Hnet.
  { intros x s dty cty c b ty key Hx (Ho & _ & _ & Hs & _) Hb.
    rewrite (tx_total_balanced _ _ _ _ _ _ _ Hfr (Hin x Hx) Ha Hb). unfold tx_net. by rewrite Ho, Hs. }
  destruct Hp as [Ht|x ? ? Ht Hx Hb|x y ? ? Ht Hx Hy _ Hb Hb'|x y ? ? Ht Hx Hy Hb Hb'];
    rewrite Ht in *; unfold expected.
  - done.
  - rewrite fmap_cons, zsum_cons.
    rewrite (Hnet x _ _ _ _ _ _ _ (list_elem_of_here _ _) Hx Hb). simpl. unfold zsum. simpl. lia.
  - rewrite !fmap_cons, !zsum_cons. rewrite (Hnet x _ _ _ _ _ _ _ (list_elem_of_here _ _) Hx Hb).
    rewrite (Hnet y _ _ _ _ _ _ _ (list_elem_of_further _ _ _ (list_elem_of_here _ _)) Hy Hb').
    simpl. unfold zsum. simpl. lia.
  - rewrite !fmap_cons, !zsum_cons. rewrite (Hnet x _ _ _ _ _ _ _ (list_elem_of_here _ _) Hx Hb).
    rewrite (Hnet y _ _ _ _ _ _ _ (list_elem_of_further _ _ _ (list_elem_of_here _ _)) Hy Hb').
    simpl. unfold zsum. simpl. lia.
Qed.
End ledger.
