(* ===== verification/PaymentSpec.v ===== *)
(** * Payment service: specification and properties

    Runs of the service at increasing times, with any gateway, any Redis and any faults:
    the ledger's invariant, the life of a payment, the balances the service reports, and
    what the operations do with the answers of the gateway. *)

From S2P Require Import Prelude RustStr Externals Errors Rules Auth Events Db Outbox Consumer.
From S2P Require Import ConsumerProps Gateway Ledger Redis DistributedLock PaymentService PaymentBook PaymentSteps.
From S2P Require Import PaymentProps.

Local Open Scope Z_scope.

Section spec.
Context `{Externals, RedisApi} {G : Type} (gateway : PaymentGateway G).
Abbreviation pdb := (db payment_tables (G * redis)).
Implicit Types (t : payment_tables) (s : pdb).

(** ** Runs *)

Inductive payment_op : Type :=
| OpAuthorize (oid : Uuid) (amount : Decimal) (cur : string)
| OpCapture (oid : Uuid)
| OpVoid (oid : Uuid)
| OpEvent (lock : bool) (group : string) (e : EventEnvelope).

Definition run_op (op : payment_op) s : pdb :=
  match op with
  | OpAuthorize oid amount cur => (authorize_payment gateway oid amount cur s).2
  | OpCapture oid => (capture_payment gateway oid s).2
  | OpVoid oid => (void_payment gateway oid s).2
  | OpEvent lock group e => (attempt (payment_handler gateway lock) group e s).2
  end.

(** The operations of a run, each with the time it starts at. *)
Fixpoint run_ops (ops : list (Z * payment_op)) s : pdb :=
  match ops with
  | [] => s
  | (now, op) :: ops => run_ops ops (run_op op (at_time now s))
  end.

(** The operations start at increasing times. *)
Fixpoint increasing (now : Z) (ops : list (Z * payment_op)) : Prop :=
  match ops with
  | [] => True
  | (n, _) :: ops => now < n ∧ increasing n ops
  end.
Fixpoint last_time (now : Z) (ops : list (Z * payment_op)) : Z :=
  match ops with [] => now | (n, _) :: ops => last_time n ops end.

(** At most one step of the machine, up to the markers of processed events. *)
Definition op_step (now : Z) t t' : Prop :=
  ∃ oid t1 l, at_most_one now oid t t1 ∧ t' = set_processed_events l t1.

Lemma op_step_same now oid t t' : at_most_one now oid t t' → op_step now t t'.
Proof. intros Hm. exists oid, t', (pt_processed t'). split; [done|by destruct t']. Qed.

(** What the consumer commits for an event: the marker, and at most one step for its order. *)
Lemma applied_step lock g now e t t' :
  applied (payment_handler gateway lock) g now e t t' →
  ∃ t1 l, t' = set_processed_events l t1 ∧
    (t1 = t ∨ ∃ oid k, about e oid ∧ may_cause e k ∧ payment_step_as now oid k t t1).
Proof.
  intros (c & x & ss & at_ & Et & Hh & _ & -> & En).
  apply payment_handler_step in Hh; [|done]. simpl in Hh. unfold s_env in Hh. simpl in Hh.
  rewrite En, Et in Hh. exists (c_tables (s_conn ss)).
  unfold mark_processed_row. case_match; eexists; (split; [|exact Hh]); [|done].
  instantiate (1 := pt_processed (c_tables (s_conn ss))). by destruct (c_tables (s_conn ss)).
Qed.

Lemma run_op_step op s : op_step (e_now (d_env s)) (d_committed s) (d_committed (run_op op s)).
Proof.
  destruct op as [oid amount cur|oid|oid|lock group e]; cbn [run_op].
  - destruct (authorize_payment _ _ _ _ s) as [o s'] eqn:Er.
    by eapply op_step_same, authorize_payment_step.
  - destruct (capture_payment _ _ s) as [o s'] eqn:Er. by eapply op_step_same, capture_payment_step.
  - destruct (void_payment _ _ s) as [o s'] eqn:Er. by eapply op_step_same, void_payment_step.
  - destruct (attempt _ _ _ s) as [o s'] eqn:Er. simpl.
    apply (attempt_spec (payment_handler gateway lock) eq) in Er as [(<- & _)|(_ & Ha & _)].
    { eapply (op_step_same _ (em_event_id (env_metadata e))). by left. }
    apply applied_step in Ha as (t1 & l & Et & [->|(oid & k & _ & _ & Hk)]).
    + exists (em_event_id (env_metadata e)), (d_committed s), l. split; [by left|done].
    + exists oid, t1, l. split; [right; by exists k|done].
Qed.

Lemma ledger_ok_later now now' t : ledger_ok now t → now ≤ now' → ledger_ok now' t.
Proof.
  intros (Hf & Hc & Hp) Hn. split_and!; [done| |done]. eapply Forall_impl; [exact Hc|]. simpl. lia.
Qed.

(** The markers of processed events are not part of the ledger. *)
Lemma marked_phases l t : phases_move t (set_processed_events l t).
Proof. by apply step_report_phases. Qed.

Lemma marked_ledger_ok now l t : ledger_ok now t → ledger_ok now (set_processed_events l t).
Proof.
  intros (Hf & Hc & Hp). split_and!; [exact Hf|exact Hc|]. intros oid.
  destruct (Hp oid) as (st & amt & cur & Hp').
  destruct (marked_phases l t _ _ _ _ Hp') as (st' & amt' & cur' & ? & _). by exists st', amt', cur'.
Qed.

Lemma moves_to_refl st amt cur : moves_to st amt cur st amt cur.
Proof. by left. Qed.

Lemma op_step_ok now0 now t t' :
  ledger_ok now0 t → now0 < now → op_step now t t' → ledger_ok now t' ∧ phases_move t t'.
Proof.
  intros Hok Hn (oid & t1 & l & Hm & ->).
  assert (ledger_ok now t1 ∧ phases_move t t1) as [Hok1 Hm1].
  { destruct Hm as [->|Hs]; [|by eapply payment_step_ok].
    split; [eapply ledger_ok_later; [done|lia]|by apply step_report_phases]. }
  split; [by apply marked_ledger_ok|].
  intros oid' st amt cur Hp. destruct (Hm1 _ _ _ _ Hp) as (st' & amt' & cur' & Hp' & ?).
  exists st', amt', cur'. split; [|done].
  apply (phase_transport oid' t1); [done| |done]. intros x dt ct c a _ Hb. exact Hb.
Qed.

(** What a payment can become. *)
Definition payment_reaches (st : PaymentState) (amt : Z) (cur : string)
    (st' : PaymentState) (amt' : Z) (cur' : string) : Prop :=
  st' = st ∧ amt' = amt ∧ cur' = cur ∨ st = PsNew ∨
  st = PsAuthorized ∧ (st' = PsCaptured ∨ st' = PsVoided) ∧ amt' = amt ∧ cur' = cur.

Lemma moves_then_reaches st amt cur st1 amt1 cur1 st' amt' cur' :
  moves_to st amt cur st1 amt1 cur1 → payment_reaches st1 amt1 cur1 st' amt' cur' →
  payment_reaches st amt cur st' amt' cur'.
Proof.
  unfold moves_to, payment_reaches, payment_move. intros [(-> & -> & ->)|(Hm & Ha)] Hr; [done|].
  destruct st; try done; [by right; left|]. destruct Ha as [?|[-> ->]]; [done|].
  destruct st1; try done; naive_solver.
Qed.

Lemma run_ops_ok ops : ∀ now s, ledger_ok now (d_committed s) → increasing now ops →
  ledger_ok (last_time now ops) (d_committed (run_ops ops s)) ∧
  ∀ oid st amt cur, phase oid (d_committed s) st amt cur →
    ∃ st' amt' cur', phase oid (d_committed (run_ops ops s)) st' amt' cur' ∧
      payment_reaches st amt cur st' amt' cur'.
Proof.
  induction ops as [|[n op] ops IH]; intros now s Hok Hi; simpl in *.
  { split; [done|]. intros oid st amt cur Hp. exists st, amt, cur. split; [done|by left]. }
  destruct Hi as [Hn Hi]. pose proof (run_op_step op (at_time n s)) as Hs. simpl in Hs.
  apply (op_step_ok now) in Hs as [Hok1 Hm]; [|done..]. destruct (IH n _ Hok1 Hi) as [Hok' Hr].
  split; [done|]. intros oid st amt cur Hp. destruct (Hm _ _ _ _ Hp) as (st1 & amt1 & cur1 & Hp1 & Hm1).
  destruct (Hr _ _ _ _ Hp1) as (st' & amt' & cur' & Hp' & Hr'). exists st', amt', cur'.
  split; [done|]. by eapply moves_then_reaches.
Qed.

(** ** Guards of an authorization *)

(** The order has an authorization that is not discarded. *)
Definition has_authorization (oid : Uuid) t : Prop :=
  ∃ x, List.find (has_tx_key (auth_key oid)) (pt_transactions t) = Some x ∧ lt_status x ≠ TxDiscarded.

Definition db_same s s' : Prop := d_committed s' = d_committed s ∧ d_ext s' = d_ext s.
#[export] Instance db_same_preorder : PreOrder db_same.
Proof. unfold db_same. split; [done|]. intros x y z [? ?] [? ?]. split; congruence. Qed.

Lemma keeps_query_same {A} w (f : payment_tables → A) :
  keeps db_same (on_pool (failed_to w (query f))).
Proof.
  intros s o s' Hr. pose proof (keeps_pool_query w f _ _ _ Hr) as [Hc _]. split; [done|].
  unfold on_pool in Hr. destruct (failed_to _ _ _) as [o1 c]. by injection Hr as _ <-.
Qed.

Lemma keeps_read_same oid amount cur : keeps db_same (authorization_read (G := G) oid amount cur).
Proof.
  unfold authorization_read, get_transaction_by_idempotency_key, list_transactions_by_order.
  apply keeps_bind; [typeclasses eauto|apply keeps_query_same|intros ex].
  destruct (match ex with Some x => _ | None => _ end); [apply keeps_ret; typeclasses eauto|].
  apply keeps_bind; [typeclasses eauto|apply keeps_query_same|intros txs].
  apply keeps_bind; [typeclasses eauto|apply keeps_lift; typeclasses eauto|intros ?].
  apply keeps_ret. typeclasses eauto.
Qed.

(** The read phase goes on to the gateway only for a new, valid authorization. *)
Lemma read_goes_on oid amount cur s s' :
  authorization_read oid amount cur s = (Ok false, s') →
  ¬ has_authorization oid (d_committed s) ∧
  validate_authorization amount cur (payment_state oid (d_committed s)) = Ok tt.
Proof.
  intros Hr. split; [|by apply authorization_read_ok in Hr as [_ Hv]; apply Hv].
  intros (x & Hf & Hx). unfold authorization_read, get_transaction_by_idempotency_key in Hr.
  apply bind_ok in Hr as (ex & s1 & H1 & Hr). apply pool_query_ok in H1 as [-> _].
  rewrite Hf, bool_decide_false in Hr by done. simpl in Hr. by apply ret_ok in Hr as [? _].
Qed.

(** ** Trial balance *)

Definition booked_total (d : EntryDirection) t : Z :=
  zsum ((λ e, dec_units (le_amount e)) <$>
    List.filter (λ e, bool_decide (le_direction e = d)) (pt_entries t)).

Lemma balanced_totals t x dty cty cur amt :
  balanced t x dty cty cur amt →
  ∀ d, zsum ((λ e, dec_units (le_amount e)) <$>
    List.filter (λ e, bool_decide (le_direction e = d)) (entries_of (lt_id x) t)) = amt.
Proof.
  intros (d & k & a & -> & (da & ka & _ & _ & _ & _ & -> & -> & _) & <- & _) dir.
  destruct dir; cbn [List.filter le_direction].
  - rewrite bool_decide_true, bool_decide_false by done. unfold zsum. simpl. lia.
  - rewrite bool_decide_false, bool_decide_true by done. unfold zsum. simpl. lia.
Qed.

Lemma trial_balance now t : ledger_ok now t → booked_total Debit t = booked_total Credit t.
Proof.
  intros ((_ & Hnd & _ & He) & _ & Hph). unfold booked_total.
  rewrite !(zsum_partition _ _ (lt_id <$> pt_transactions t)) by done.
  rewrite <-!list_fmap_compose. f_equal. apply list_fmap_ext.
  intros i x Hx%list_elem_of_lookup_2. simpl. destruct (Hph (lt_order_id x)) as (st & amt & cur & Hp).
  destruct (phase_balanced _ _ _ _ _ x Hp) as (dty & cty & c & a & Hb); [by apply transactions_of_in|].
  pose proof (balanced_totals _ _ _ _ _ _ Hb) as Ht. unfold entries_of in Ht. by rewrite !Ht.
Qed.

(** ** Reported balances *)

(** What the service reports for an account of an order, in each state of its payment:
    the balance is debits minus credits for a debit-normal account, and the opposite for
    a credit-normal one. *)
Definition reported (st : PaymentState) (amt : Z) (cur : string) (ty : AccountType) (c : string) : Z :=
  let in_cur := if decide (c = cur) then amt else 0 in
  let in_usd := if decide (c = fallback_currency) then amt else 0 in
  match st, ty with
  | PsAuthorized, Buyer | PsCaptured, Buyer => - in_cur
  | PsAuthorized, GatewayHolding => in_cur
  | PsCaptured, GatewayHolding => in_cur - in_usd
  | PsCaptured, PlatformRevenue => - in_usd
  | PsVoided, Buyer => in_usd
  | PsVoided, GatewayHolding => - in_usd
  | _, _ => 0
  end.

Lemma share_is ty oid cur amt a :
  ac_reference_id a = oid →
  share ty oid cur amt a = if decide (ac_account_type a = ty) then
    if decide (ac_currency a = cur) then amt else 0 else 0.
Proof.
  intros <-. unfold share, is_account. rewrite bool_decide_true by done.
  repeat case_decide; by rewrite ?bool_decide_true, ?bool_decide_false by done.
Qed.

Lemma account_balance_reported now oid t st amt cur a :
  ledger_ok now t → phase oid t st amt cur → a ∈ pt_accounts t → ac_reference_id a = oid →
  ab_balance (account_balance t a) = reported st amt cur (ac_account_type a) (ac_currency a).
Proof.
  intros Hok Hp Ha Ho. pose proof (net_expected _ _ _ _ _ _ _ Hok Ha Ho Hp) as Hn.
  destruct Hok as (((_ & _ & Hnb) & _) & _). rewrite Forall_forall in Hnb. specialize (Hnb a Ha).
  unfold net in Hn. unfold account_balance, reported. cbn [ab_balance]. rewrite Hnb.
  unfold expected in Hn.
  destruct st; rewrite ?(share_is _ _ _ _ _ Ho) in Hn; destruct (ac_account_type a); simpl in *;
    repeat case_decide; lia.
Qed.
End spec.
