(* ===== verification/PaymentAnswers.v ===== *)
(** * Payment service: what the operations do with the gateway's answers

    Every branch of an authorization, a capture and a void on the pool: when the gateway
    is called, and what is written for each of its answers. *)

From S2P Require Import Prelude RustStr Externals Errors Rules Auth Events Db Outbox Consumer.
From S2P Require Import ConsumerProps Gateway Ledger Redis DistributedLock PaymentService PaymentBook PaymentSteps.
From S2P Require Import PaymentProps PaymentSpec.

Local Open Scope Z_scope.

Section answers.
Context `{Externals, RedisApi} {G : Type} (gateway : PaymentGateway G).
Abbreviation pdb := (db payment_tables (G * redis)).
Implicit Types (t : payment_tables) (s : pdb).

(** One event is written and nothing else. *)
Definition announced (oid : Uuid) (ev : EventType) (payload : Value) t t' : Prop :=
  ∃ r, event_row "payments.events" ev oid Payment payload r ∧
    t' = set_outbox_events (outbox_events t ++ [r]) t.

(** ** Transactions on the pool *)

Lemma pool_tx_spec {A} (f : TxError → AppError) (m : M (conn payment_tables) AppError A) (R : payment_tables → Prop) s o s' :
  (∀ c a c', m c = (Ok a, c') → c_tables c = d_committed s → e_now (c_env c) = e_now (d_env s) →
     c_status c' = TxActive ∧ R (c_tables c')) →
  map_err f (with_transaction (map_err tx_of_app m)) s = (o, s') →
  d_ext s' = d_ext s ∧ (d_committed s' = d_committed s ∧ is_ok o = false ∨ R (d_committed s')).
Proof.
  intros Hm (o' & Hr & ->)%map_err_inv. destruct o' as [a|e|].
  1: { apply with_transaction_ok in Hr as (e & c & Hc%map_err_ok & Hn & Hx & _ & Hs). split; [done|].
       destruct (Hm _ _ _ Hc eq_refl Hn) as [Ha HR]. right.
       destruct Hs as [[_ ->]|[Hs _]]; [done|congruence]. }
  all: apply with_transaction_all_or_nothing in Hr as [Hx [Hs|(e' & a & c & Hc & Hn & _ & Hs)]];
    (split; [done|]); [by left|right]; rewrite Hs; apply map_err_ok in Hc; by eapply Hm.
Qed.

Lemma write_outbox_spec oid ev payload c u c' :
  write_outbox oid ev payload c = (Ok u, c') →
  c_status c' = TxActive ∧ announced oid ev payload (c_tables c) (c_tables c').
Proof. intros (r & -> & Hr & -> & _)%write_event_ok. split; [done|]. by exists r. Qed.

Lemma book_active oid ty key ref ty1 ty2 swap cur amount ev payload c u c' :
  book oid ty key ref ty1 ty2 swap cur amount ev payload c = (Ok u, c') → c_status c' = TxActive.
Proof.
  unfold book. intros ([a b] & c1 & _ & (x & c2 & _ & (w & c3 & _ & (p & c4 & _ & Hr)%bind_ok)%bind_ok)%bind_ok)%bind_ok.
  by apply write_outbox_spec in Hr as [? _].
Qed.

Lemma record_void_active oid id cur amount key c u c' :
  record_void oid id cur amount key c = (Ok u, c') → c_status c' = TxActive.
Proof.
  unfold record_void. intros (w & c1 & _ & Hr)%bind_ok.
  by apply (book_active oid Void key None Buyer GatewayHolding false cur amount PaymentVoided
    (λ _, order_payload oid)) in Hr.
Qed.

Lemma payment_event_spec oid ev what payload s o s' :
  write_payment_event oid ev what payload s = (o, s') →
  d_ext s' = d_ext s ∧ (d_committed s' = d_committed s ∧ is_ok o = false ∨
    announced oid ev payload (d_committed s) (d_committed s')).
Proof.
  apply (pool_tx_spec _ _ (announced oid ev payload (d_committed s))).
  intros c a c' Hc <- _. by eapply write_outbox_spec.
Qed.

(** ** Calls of the gateway *)

Lemma call_gateway_spec {A} (m : M G GatewayError A) s o s' :
  call_gateway m s = (o, s') →
  m (d_ext s).1 = (o, (d_ext s').1) ∧ d_committed s' = d_committed s ∧ d_env s' = d_env s.
Proof.
  unfold call_gateway, zoom. destruct (m (d_ext s).1) as [o1 g] eqn:Em. intros [= <- <-]. done.
Qed.

Lemma tampered_spec oid amount r s o s' :
  handle_tampered_amount gateway oid amount r s = (o, s') →
  is_ok o = false ∧
  (d_committed s' = d_committed s ∨
   announced oid PaymentFailed (reason_payload oid (tampering_reason amount (approved_amount r)))
     (d_committed s) (d_committed s')).
Proof.
  unfold handle_tampered_amount. intros Hr.
  assert (∀ o1 s1, catch (call_gateway (gw_void gateway (gateway_reference r)))
    (λ _, mret tt) (λ _, mret (M := M pdb AppError) tt) s = (o1, s1) → d_committed s1 = d_committed s) as Hk.
  { intros o1 s1 H1. unfold catch in H1. destruct (call_gateway _ s) as [og sg] eqn:Eg.
    apply call_gateway_spec in Eg as (_ & <- & _). by destruct og; injection H1 as _ <-. }
  apply bind_inv in Hr as [(u & s1 & H1 & Hr)|[Ho (o1 & H1 & _)]]; apply Hk in H1 as H1; [|auto].
  apply bind_inv in Hr as [(u2 & s2 & H2 & Hr)|[Ho (o1 & H2 & _)]];
    apply payment_event_spec in H2 as [_ H2]; rewrite H1 in H2.
  - injection Hr as <- <-. split; [done|]. destruct H2 as [[? _]|?]; auto.
  - split; [done|]. destruct H2 as [[? _]|?]; auto.
Qed.

(** ** Reads before a call *)

Lemma keeps_find_same oid op : keeps db_same (find_posted_authorization (G := G) oid op).
Proof.
  unfold find_posted_authorization, list_transactions_by_order, list_entries_by_transaction.
  apply keeps_bind; [typeclasses eauto|apply keeps_query_same|intros txs].
  do 3 (apply keeps_bind; [typeclasses eauto|apply keeps_lift; typeclasses eauto|intros ?]).
  apply keeps_bind; [typeclasses eauto|apply keeps_query_same|intros es].
  apply keeps_ret. typeclasses eauto.
Qed.

Lemma authorize_payment_spec oid amount cur s o s' :
  authorize_payment gateway oid amount cur s = (o, s') →
  db_same s s' ∨
  ¬ has_authorization oid (d_committed s) ∧
  validate_authorization amount cur (payment_state oid (d_committed s)) = Ok tt ∧
  ∃ og g, gw_authorize gateway (auth_key oid) oid amount cur (d_ext s).1 = (og, g) ∧
    match og with
    | Ok r =>
        if dec_eqb (approved_amount r) amount then
          (d_ext s').1 = g ∧
          (d_committed s' = d_committed s ∧ is_ok o = false ∨
           booked (e_now (d_env s)) oid Authorization (auth_key oid) (Some (gateway_reference r))
             GatewayHolding Buyer cur amount PaymentAuthorized
             (λ id, authorized_payload oid id (gateway_reference r)) (d_committed s) (d_committed s'))
        else
          is_ok o = false ∧
          (d_committed s' = d_committed s ∨
           announced oid PaymentFailed
             (reason_payload oid (tampering_reason amount (approved_amount r)))
             (d_committed s) (d_committed s'))
    | Err e =>
        (d_ext s').1 = g ∧
        (d_committed s' = d_committed s ∧ is_ok o = false ∨
         announced oid PaymentFailed (reason_payload oid (ge_message e)) (d_committed s) (d_committed s'))
    | Panic => d_committed s' = d_committed s
    end.
Proof.
  unfold authorize_payment. intros [(b & s1 & H1 & Hr)|[_ (o1 & H1 & _)]]%bind_inv.
  2:{ left. by eapply keeps_read_same. }
  pose proof (keeps_read_same _ _ _ _ _ _ H1) as Hs. destruct b.
  { injection Hr as _ <-. by left. }
  right. pose proof (keeps_authorization_read _ _ _ _ _ _ H1) as [_ Hn].
  apply read_goes_on in H1 as [Hna Hv]. split_and!; [done|done|].
  destruct Hs as [Hc Hx]. unfold catch in Hr.
  destruct (call_gateway _ s1) as [og s2] eqn:Eg. apply call_gateway_spec in Eg as (Hg & Hc2 & He2).
  rewrite Hx in Hg. exists og, (d_ext s2).1. split; [done|]. rewrite Hc in Hc2.
  destruct og as [r|e|].
  - destruct (dec_eqb _ _); simpl in Hr.
    + eapply (pool_tx_spec _ _ (λ t', booked (e_now (d_env s)) oid Authorization (auth_key oid)
        (Some (gateway_reference r)) GatewayHolding Buyer cur amount PaymentAuthorized
        (λ id, authorized_payload oid id (gateway_reference r)) (d_committed s) t')) in Hr.
      * rewrite Hc2 in Hr. destruct Hr as [-> Hr]. done.
      * intros c a c' Hc' Et En. rewrite Hc2 in Et. rewrite He2, Hn in En. split.
        -- by apply (book_active oid Authorization (auth_key oid) (Some (gateway_reference r)) Buyer
             GatewayHolding true cur amount PaymentAuthorized
             (λ id, authorized_payload oid id (gateway_reference r))) in Hc'.
        -- apply record_authorization_ok in Hc'. by rewrite Et, En in Hc'.
    + apply tampered_spec in Hr. by rewrite Hc2 in Hr.
  - apply payment_event_spec in Hr as [-> Hr]. by rewrite Hc2 in Hr.
  - by injection Hr as _ <-.
Qed.

(** The operations on an authorization: the gateway is called with the reference of the
    order's authorization, and only its consent is booked. *)
Lemma authorized_op_spec {A B} oid op (m : string → M G GatewayError A)
    (k : Uuid → string → string → Decimal → M (conn payment_tables) AppError B) what
    (R : LedgerTransactionEntity → string → payment_tables → payment_tables → Prop) s o s' :
  op = "capture" ∨ op = "void" →
  (∀ x ref c u c', e_now (c_env c) = e_now (d_env s) →
     k (lt_id x) ref (read_currency x) (read_amount x (c_tables c)) c = (Ok u, c') →
     c_status c' = TxActive ∧ R x ref (c_tables c) (c_tables c')) →
  (p ← find_posted_authorization oid op;
   let '(id, ref, cur, amt) := p in
   _ ← map_err app_of_gateway_error (call_gateway (m ref));
   map_err (λ e, InternalServerError (what +:+ tx_error_display e))
     (with_transaction (map_err tx_of_app (k id ref cur amt)))) s = (o, s') →
  db_same s s' ∧ is_ok o = false ∨
  ∃ x ref og g, authorization_of oid x ref (d_committed s) ∧ m ref (d_ext s).1 = (og, g) ∧
    (d_ext s').1 = g ∧
    (d_committed s' = d_committed s ∧ is_ok o = false ∨
     is_ok og = true ∧ R x ref (d_committed s) (d_committed s')).
Proof.
  intros Hop Hk [([[[id ref] cur] amt] & s1 & H1 & Hr)|[Ho (o1 & H1 & _)]]%bind_inv.
  2:{ left. split; [by eapply keeps_find_same|done]. }
  pose proof (keeps_find_same _ _ _ _ _ H1) as [Hc Hx].
  apply find_posted_ok in H1 as [[_ Hn] (x & Hx' & -> & -> & ->)]; [|done]. right.
  apply bind_inv in Hr as [(u & s2 & H2 & Hr)|[Ho (o1 & H2 & Ho1)]];
    apply map_err_inv in H2 as (og & H2 & E);
    apply call_gateway_spec in H2 as (Hg & Hc2 & He2); rewrite Hx in Hg.
  - eapply (pool_tx_spec _ _ (R x ref (d_committed s))) in Hr as [Hxs Hr].
    + exists x, ref, og, (d_ext s2).1. split_and!; [done|done|by rewrite Hxs|].
      rewrite Hc2, Hc in Hr. destruct og; try done. destruct Hr as [?|?]; auto.
    + intros c a c' Hc' Et En. assert (c_tables c = d_committed s) as Et' by congruence.
      rewrite <-Et' in Hc' |- *. eapply Hk; [congruence|done].
  - exists x, ref, og, (d_ext s').1. split_and!; [done..|]. left. split; [congruence|done].
Qed.

(** ** Properties *)

(** C19: An authorization on every branch. Either the gateway is not called and nothing
    changes; or the order had no standing authorization, the request is valid, and the
    gateway is called once, with the order's own key. Its consent to the requested amount
    is booked as one posted transaction with the PaymentAuthorized event, or the caller
    gets an error; an approval of another amount is never booked, and the caller always
    gets an error; a refusal is announced as PaymentFailed and nothing is booked. *)
Theorem authorize_payment_outcomes oid amount cur s o s' :
  authorize_payment gateway oid amount cur s = (o, s') →
  (d_committed s' = d_committed s ∧ d_ext s' = d_ext s) ∨
  ¬ has_authorization oid (d_committed s) ∧
  validate_authorization amount cur (payment_state oid (d_committed s)) = Ok tt ∧
  ∃ og g, gw_authorize gateway (auth_key oid) oid amount cur (d_ext s).1 = (og, g) ∧
    match og with
    | Ok r =>
        if dec_eqb (approved_amount r) amount then
          (d_ext s').1 = g ∧
          (d_committed s' = d_committed s ∧ is_ok o = false ∨
           booked (e_now (d_env s)) oid Authorization (auth_key oid) (Some (gateway_reference r))
             GatewayHolding Buyer cur amount PaymentAuthorized
             (λ id, authorized_payload oid id (gateway_reference r)) (d_committed s) (d_committed s'))
        else
          is_ok o = false ∧
          (d_committed s' = d_committed s ∨
           announced oid PaymentFailed
             (reason_payload oid (tampering_reason amount (approved_amount r)))
             (d_committed s) (d_committed s'))
    | Err e =>
        (d_ext s').1 = g ∧
        (d_committed s' = d_committed s ∧ is_ok o = false ∨
         announced oid PaymentFailed (reason_payload oid (ge_message e)) (d_committed s) (d_committed s'))
    | Panic => d_committed s' = d_committed s
    end.
Proof. apply authorize_payment_spec. Qed.

(** A capture on every branch. Without an authorized payment nothing happens and the
    caller gets an error; otherwise the gateway is asked to capture the reference of the
    order's authorization, and only when it consents can the capture be booked, with the
    amount and currency read back from the ledger. Any answer but success leaves the
    ledger as it was. *)
Theorem capture_payment_outcomes oid s o s' :
  capture_payment gateway oid s = (o, s') →
  (d_committed s' = d_committed s ∧ d_ext s' = d_ext s) ∧ is_ok o = false ∨
  ∃ x ref og g, authorization_of oid x ref (d_committed s) ∧
    gw_capture gateway ref (d_ext s).1 = (og, g) ∧ (d_ext s').1 = g ∧
    (d_committed s' = d_committed s ∧ is_ok o = false ∨
     is_ok og = true ∧
     booked (e_now (d_env s)) oid Capture (capture_key oid) (Some ref) PlatformRevenue GatewayHolding
       (read_currency x) (read_amount x (d_committed s)) PaymentCaptured (λ _, order_payload oid)
       (d_committed s) (d_committed s')).
Proof.
  eapply (authorized_op_spec oid "capture" (λ ref, gw_capture gateway ref)
    (λ id ref cur amt, record_capture oid cur amt (capture_key oid) ref) _
    (λ x ref t t', booked (e_now (d_env s)) oid Capture (capture_key oid) (Some ref) PlatformRevenue
      GatewayHolding (read_currency x) (read_amount x t) PaymentCaptured (λ _, order_payload oid) t t')).
  { by left. }
  intros x ref c u c' En Hc. split.
  - by apply (book_active oid Capture (capture_key oid) (Some ref) GatewayHolding PlatformRevenue true
      (read_currency x) (read_amount x (c_tables c)) PaymentCaptured (λ _, order_payload oid)) in Hc.
  - apply record_capture_ok in Hc. by rewrite En in Hc.
Qed.

(** A void on every branch: as for a capture; when the gateway consents, the
    authorization is discarded and the reversing entries are booked in the same
    transaction. *)
Theorem void_payment_outcomes oid s o s' :
  void_payment gateway oid s = (o, s') →
  (d_committed s' = d_committed s ∧ d_ext s' = d_ext s) ∧ is_ok o = false ∨
  ∃ x ref og g, authorization_of oid x ref (d_committed s) ∧
    gw_void gateway ref (d_ext s).1 = (og, g) ∧ (d_ext s').1 = g ∧
    (d_committed s' = d_committed s ∧ is_ok o = false ∨
     is_ok og = true ∧
     booked (e_now (d_env s)) oid Void (void_key oid) None Buyer GatewayHolding
       (read_currency x) (read_amount x (d_committed s)) PaymentVoided (λ _, order_payload oid)
       (discarded (lt_id x) (d_committed s)) (d_committed s')).
Proof.
  eapply (authorized_op_spec oid "void" (λ ref, gw_void gateway ref)
    (λ id ref cur amt, record_void oid id cur amt (void_key oid)) _
    (λ x ref t t', booked (e_now (d_env s)) oid Void (void_key oid) None Buyer GatewayHolding
      (read_currency x) (read_amount x t) PaymentVoided (λ _, order_payload oid)
      (discarded (lt_id x) t) t')).
  { by right. }
  intros x ref c u c' En Hc. split; [by eapply record_void_active|].
  apply record_void_ok in Hc as [_ Hc]. by rewrite En in Hc.
Qed.
End answers.
