(* ===== verification/PaymentTheorems.v ===== *)
(** * Payment service: properties

    The ledger's invariant and the life of a payment along runs of the service; what the
    status endpoint reports; repeated authorizations; and the exact conditions of the
    authorization rules. *)

From S2P Require Import Prelude RustStr Externals Errors Rules Auth Events Db Outbox Consumer.
From S2P Require Import ConsumerProps Gateway Ledger Redis DistributedLock PaymentService PaymentBook PaymentSteps.
From S2P Require Import PaymentProps PaymentSpec.

Local Open Scope Z_scope.

Section theorems.
Context `{Externals, RedisApi} {G : Type} (gateway : PaymentGateway G).
Abbreviation pdb := (db payment_tables (G * redis)).
Implicit Types (t : payment_tables) (s : pdb).

(** ** Reads without faults *)

Definition calm s : Prop := e_faults (d_env s) = [].

Lemma failed_query_calm {A} w (f : payment_tables → A) s :
  calm s → ∃ s', on_pool (failed_to w (query f)) s = (Ok (f (d_committed s)), s') ∧
    db_same s s' ∧ calm s'.
Proof.
  unfold calm, on_pool, failed_to, map_err, query, exec, pop_fault. simpl. intros Hs.
  rewrite Hs. eexists. split; [reflexivity|]. by split_and!.
Qed.

Lemma transaction_responses_calm txs : ∀ s, calm s →
  ∃ s', transaction_responses (G := G) txs s =
      (Ok ((λ x, TransactionRes_new x (order_by le_created_at (entries_of (lt_id x) (d_committed s))))
             <$> txs), s') ∧ db_same s s' ∧ calm s'.
Proof.
  induction txs as [|x txs IH]; intros s Hs; [by exists s|].
  destruct (failed_query_calm "Failed to list entries"
    (λ t, order_by le_created_at (entries_of (lt_id x) t)) s Hs) as (s1 & H1 & Hc1 & Hs1).
  destruct (IH s1 Hs1) as (s2 & H2 & Hc2 & Hs2). exists s2. split; [|split; [by etrans|done]].
  cbn [transaction_responses]. unfold mbind, M_bind, list_entries_by_transaction.
  rewrite H1, H2. destruct Hc1 as [-> _]. by rewrite fmap_cons.
Qed.

Lemma get_payment_status_calm oid s : calm s →
  ∃ s', get_payment_status (G := G) oid s = (Ok {|
      pr_order_id := fmt_id oid; pr_state := payment_state oid (d_committed s);
      pr_transactions := (λ x, TransactionRes_new x
          (order_by le_created_at (entries_of (lt_id x) (d_committed s)))) <$>
        order_by (λ x, - lt_created_at x) (transactions_of oid (d_committed s));
      pr_balances := AccountBalanceRes_new <$> (account_balance (d_committed s) <$>
        List.filter (λ a, bool_decide (ac_reference_id a = oid)) (pt_accounts (d_committed s))) |}, s') ∧
    db_same s s'.
Proof.
  intros Hs. unfold get_payment_status, list_transactions_by_order, get_account_balances.
  destruct (failed_query_calm "Failed to list transactions"
    (λ t, order_by (λ x, - lt_created_at x) (transactions_of oid t)) s Hs) as (s1 & H1 & Hc1 & Hs1).
  destruct (transaction_responses_calm
    (order_by (λ x, - lt_created_at x) (transactions_of oid (d_committed s))) s1 Hs1)
    as (s2 & H2 & Hc2 & Hs2).
  destruct (failed_query_calm "Failed to fetch balances" (λ t, account_balance t <$>
    List.filter (λ a, bool_decide (ac_reference_id a = oid)) (pt_accounts t)) s2 Hs2)
    as (s3 & H3 & Hc3 & Hs3).
  exists s3. split; [|by etrans; [|etrans]].
  unfold mbind, M_bind. rewrite H1, H2, H3. destruct Hc2 as [-> _], Hc1 as [-> _]. done.
Qed.

(** The authorization of an order that has one. *)
Lemma find_by_key x t :
  NoDup (lt_idempotency_key <$> pt_transactions t) → x ∈ pt_transactions t →
  List.find (has_tx_key (lt_idempotency_key x)) (pt_transactions t) = Some x.
Proof.
  unfold has_tx_key. intros Hnd Hin. destruct (List.find _ _) as [y|] eqn:Ef.
  - apply find_some in Ef as [Hy%list_elem_of_In Ey%bool_decide_eq_true]. f_equal.
    apply list_elem_of_lookup in Hin as [i Hi], Hy as [j Hj].
    assert (i = j) as ->; [|congruence].
    apply (NoDup_lookup _ i j (lt_idempotency_key x) Hnd); rewrite list_lookup_fmap, ?Hi, ?Hj; simpl; congruence.
  - apply list_elem_of_In in Hin. by apply (find_none _ _ Ef), bool_decide_eq_false in Hin.
Qed.

Lemma phase_authorization oid t st amt cur :
  frame_ok t → phase oid t st amt cur → st ≠ PsNew →
  ∃ a, List.find (has_tx_key (auth_key oid)) (pt_transactions t) = Some a ∧
    (lt_status a = TxDiscarded ↔ st = PsVoided).
Proof.
  intros (_ & _ & Hk & _) Hp Hst.
  assert (∀ a l ts, transactions_of oid t = a :: l → is_tx oid Authorization (auth_key oid) ts a →
    List.find (has_tx_key (auth_key oid)) (pt_transactions t) = Some a ∧ lt_status a = ts) as Hf.
  { intros a l ts Ht (_ & _ & Ek & Es & _). split; [|done]. rewrite <-Ek. apply find_by_key; [done|].
    eapply transactions_of_in. rewrite Ht. by left. }
  destruct Hp as [|a ? ? Ht Ha _|a c ? ? Ht Ha|a v ? ? Ht Ha]; [done|..];
    destruct (Hf _ _ _ Ht Ha) as [Hfa Hs]; exists a; (split; [done|]); by rewrite Hs.
Qed.

Lemma authorization_read_calm oid amount cur s : calm s →
  ∃ s', db_same s s' ∧
    authorization_read (G := G) oid amount cur s =
    (match List.find (has_tx_key (auth_key oid)) (pt_transactions (d_committed s)) with
     | Some x => if bool_decide (lt_status x = TxDiscarded)
                 then omap_err id (_ ← validate_authorization amount cur (payment_state oid (d_committed s)); Ok false)
                 else Ok true
     | None => omap_err id (_ ← validate_authorization amount cur (payment_state oid (d_committed s)); Ok false)
     end, s').
Proof.
  intros Hs. unfold authorization_read, get_transaction_by_idempotency_key, list_transactions_by_order.
  destruct (failed_query_calm "Failed to fetch transaction"
    (λ t, List.find (has_tx_key (auth_key oid)) (pt_transactions t)) s Hs) as (s1 & H1 & Hc1 & Hs1).
  destruct (failed_query_calm "Failed to list transactions"
    (λ t, order_by (λ x, - lt_created_at x) (transactions_of oid t)) s1 Hs1) as (s2 & H2 & Hc2 & _).
  unfold mbind at 1, M_bind at 1. rewrite H1. unfold payment_state.
  destruct (List.find _ _) as [x|]; simpl; [destruct (bool_decide _); simpl|].
  2:{ exists s1. split; [|done]. done. }
  all: exists s2; (split; [by etrans|]); unfold mbind at 1, M_bind at 1; rewrite H2;
    destruct Hc1 as [-> _]; unfold lift, mbind, M_bind, mret, M_ret;
    by destruct (validate_authorization _ _ _).
Qed.

(** ** Properties *)

(** C18: Refinement. Every operation of the service and every event it consumes, with any
    gateway, any lock and any fault of the database, is at most one step of the payment
    machine on the committed tables: a failure announced, an authorization, a capture or a
    void. *)
Theorem payment_refines op s :
  op_step (e_now (d_env s)) (d_committed s) (d_committed (run_op gateway op s)).
Proof. apply run_op_step. Qed.

(** C17: The ledger's invariant. Along any run of operations at increasing times, every
    transaction keeps one debit and one credit of the same amount between two accounts of
    its order, identifiers and idempotency keys stay unique, every order is in a legal
    phase, and the debits of the whole ledger equal its credits. *)
Theorem ledger_invariant ops now s :
  ledger_ok now (d_committed s) → increasing now ops →
  ledger_ok (last_time now ops) (d_committed (run_ops gateway ops s)) ∧
  booked_total Debit (d_committed (run_ops gateway ops s)) =
  booked_total Credit (d_committed (run_ops gateway ops s)).
Proof.
  intros Hok Hi. pose proof (run_ops_ok gateway ops now s Hok Hi) as [Hok' _].
  split; [done|]. by eapply trial_balance.
Qed.

(** The life of a payment. Along any run, the state the service derives for an order
    is that of its phase, and it only moves from new to authorized and from authorized to
    captured or voided: a captured payment is never voided, a voided one never captured,
    none is authorized twice, and the amount and currency authorized never change. *)
Theorem payment_lifecycle ops now s oid st amt cur :
  ledger_ok now (d_committed s) → increasing now ops → phase oid (d_committed s) st amt cur →
  payment_state oid (d_committed s) = st ∧
  ∃ st' amt' cur', phase oid (d_committed (run_ops gateway ops s)) st' amt' cur' ∧
    payment_state oid (d_committed (run_ops gateway ops s)) = st' ∧
    payment_reaches st amt cur st' amt' cur'.
Proof.
  intros Hok Hi Hp. split; [by eapply phase_state|].
  destruct (run_ops_ok gateway ops now s Hok Hi) as [_ Hr].
  destruct (Hr _ _ _ _ Hp) as (st' & amt' & cur' & Hp' & ?). exists st', amt', cur'.
  split_and!; [done|by eapply phase_state|done].
Qed.

(** The status endpoint. It changes nothing and reports the phase of the order and,
    for each of its accounts, the balance that follows from the phase: captures and voids
    are in the fallback currency, whatever the currency of the authorization. *)
Theorem payment_status_reported now oid st amt cur s :
  calm s → ledger_ok now (d_committed s) → phase oid (d_committed s) st amt cur →
  ∃ r s', get_payment_status (G := G) oid s = (Ok r, s') ∧
    d_committed s' = d_committed s ∧ pr_state r = st ∧
    ∀ b, b ∈ pr_balances r →
      br_balance b = reported st amt cur (br_account_type b) (br_currency b).
Proof.
  intros Hs Hok Hp. destruct (get_payment_status_calm oid s Hs) as (s' & Hr & Hc & _).
  eexists _, s'. split; [exact Hr|]. split_and!; [done|by eapply phase_state|]. simpl. intros b.
  intros (b' & -> & (a & -> & Ha)%list_elem_of_fmap)%list_elem_of_fmap. simpl.
  apply list_elem_of_In, filter_In in Ha as [Ha%list_elem_of_In Ho%bool_decide_eq_true].
  by eapply account_balance_reported.
Qed.

(** A repeated authorization. Once an order has been authorized, asking again, with
    any amount, does not reach the gateway and changes nothing; the answer is success
    while the authorization stands, and an error after it was voided. *)
Theorem repeated_authorization now oid st amt cur amount cur' s :
  calm s → ledger_ok now (d_committed s) → phase oid (d_committed s) st amt cur → st ≠ PsNew →
  ∃ o s', authorize_payment gateway oid amount cur' s = (o, s') ∧
    d_committed s' = d_committed s ∧ d_ext s' = d_ext s ∧ (is_ok o = true ↔ st ≠ PsVoided).
Proof.
  intros Hs (Hf & _) Hp Hst. destruct (phase_authorization _ _ _ _ _ Hf Hp Hst) as (a & Ha & Hd).
  destruct (authorization_read_calm oid amount cur' s Hs) as (s' & [Hc Hx] & Hr).
  rewrite Ha in Hr. unfold authorize_payment, mbind, M_bind. rewrite Hr.
  rewrite (phase_state _ _ _ _ _ Hp). destruct (decide (st = PsVoided)) as [->|Hv].
  - rewrite bool_decide_true by tauto.
    destruct (validate_authorization amount cur' PsVoided) as [[]|er|] eqn:Ev.
    + apply validate_authorization_state in Ev. by destruct Ev.
    + exists (Err er), s'. split_and!; try done.
    + exists Panic, s'. split_and!; try done.
  - rewrite bool_decide_false by tauto. exists (Ok tt), s'. split_and!; try done.
Qed.

(** The authorization rules. A request is accepted exactly when its amount is from
    0.50 to 100000 inclusive, its currency is one of the five supported codes in upper
    case, and the payment is new or failed. *)
Theorem authorization_rules_exact amount cur st :
  validate_authorization amount cur st = Ok tt ↔
  (50 * 10 ^ 26 ≤ dec_units amount ≤ 100000 * 10 ^ 28) ∧
  (cur = "USD" ∨ cur = "KRW" ∨ cur = "EUR" ∨ cur = "GBP" ∨ cur = "JPY") ∧
  (st = PsNew ∨ st = PsFailed).
Proof.
  assert (evaluate (eval_authorization
      {| ax_amount := amount; ax_currency := cur; ax_payment_state := st |}) authorization_rules = true ↔
    (50 * 10 ^ 26 ≤ dec_units amount ≤ 100000 * 10 ^ 28) ∧ cur ∈ SUPPORTED_CURRENCIES ∧
    (st = PsNew ∨ st = PsFailed)) as Hev.
  { unfold authorization_rules. cbn [evaluate all check forallb eval_authorization ax_amount ax_currency
      ax_payment_state]. rewrite !andb_true_iff, !dec_leb_le, bool_decide_eq_true.
    unfold MIN_PAYMENT_AMOUNT, MAX_PAYMENT_AMOUNT.
    rewrite !dec_new_units by (first [lia|vm_compute; congruence]).
    change (50 * 10 ^ (28 - 2)) with (50 * 10 ^ 26). change (100000 * 10 ^ (28 - 0)) with (100000 * 10 ^ 28).
    destruct st; naive_solver. }
  unfold SUPPORTED_CURRENCIES in Hev. rewrite !elem_of_cons, elem_of_nil in Hev.
  unfold validate_authorization. rewrite passed_evaluate_detailed.
  destruct (evaluate _ _); simpl; [|split; [done|]]; naive_solver.
Qed.
End theorems.
