(* ===== verification/PaymentEvents.v ===== *)
(** * Payment service: properties of the event handlers

    The tampering check on the consumer's transaction, the chain of capture retries, and
    the lock around a handler. *)

From S2P Require Import Prelude RustStr Externals Errors Rules Auth Events Db Outbox Consumer.
From S2P Require Import ConsumerProps Gateway Ledger Redis DistributedLock PaymentService PaymentBook PaymentSteps.
From S2P Require Import PaymentProps PaymentSpec PaymentAnswers.

Local Open Scope Z_scope.

Section events.
Context `{Externals, RedisApi} {G : Type} (gateway : PaymentGateway G).
Abbreviation pdb := (db payment_tables (G * redis)).
Abbreviation psess := (session payment_tables (G * redis)).
Implicit Types (t : payment_tables) (ss : psess).

(** ** The amount check on the consumer's transaction *)

(** The gateway approves, but never the amount asked for. *)
Definition tampers (amount : Decimal) : Prop := ∀ key oid cur g,
  ∃ r g', gw_authorize gateway key oid amount cur g = (Ok r, g') ∧
    dec_eqb (approved_amount r) amount = false.

Lemma authorize_tampered_ok oid amount cur ss u ss' :
  tampers amount → authorize_payment_on_tx gateway oid amount cur ss = (Ok u, ss') →
  c_tables (s_conn ss') = c_tables (s_conn ss).
Proof.
  intros Ht Hr. unfold authorize_payment_on_tx in Hr. apply bind_ok in Hr as (b & s1 & H1 & Hr).
  apply (keeps_in_service _ (keeps_authorization_read _ _ _)) in H1 as (_ & H1 & _). destruct b.
  { by apply ret_ok in Hr as [_ <-]. }
  apply catch_ok in Hr as [(r & s2 & Hg & Hr)|(e & s2 & Hg & _)];
    unfold in_service, call_gateway, zoom in Hg; simpl in Hg;
    destruct (Ht (auth_key oid) oid cur (s_ext s1).1) as (r' & g' & Er & Hne); rewrite Er in Hg;
    simplify_eq.
  rewrite Hne in Hr. simpl in Hr. apply bind_ok in Hr as (? & ? & _ & Hr).
  by apply bind_ok in Hr as (? & ? & _ & ?%fail_ok).
Qed.

Lemma dispatch_tampered e amount ss u ss' :
  em_event_type (env_metadata e) = InventoryReserved → requested_amount e = Some amount →
  tampers amount → payment_dispatch gateway e ss = (Ok u, ss') →
  c_tables (s_conn ss') = c_tables (s_conn ss).
Proof.
  intros Hty Ha Ht. unfold payment_dispatch. rewrite Hty. intros Hr%map_err_ok.
  unfold handle_inventory_reserved in Hr. apply bind_ok in Hr as (oid & s1 & [_ <-]%lift_ok & Hr).
  apply bind_ok in Hr as (a & s1 & [Ea%ok_or_ok <-]%lift_ok & Hr).
  unfold requested_amount in Ha. rewrite Ha in Ea. injection Ea as <-.
  by eapply authorize_tampered_ok.
Qed.

(** What a handled event does to the tables is what its dispatch does, between the
    acquisition and the release of the lock. *)
Lemma payment_handler_dispatch lock e ss u ss' :
  payment_handler gateway lock e ss = (Ok u, ss') →
  c_tables (s_conn ss') = c_tables (s_conn ss) ∨
  ∃ s1 s2, still_sess ss s1 ∧ payment_dispatch gateway e s1 = (Ok u, s2) ∧ still_sess s2 ss'.
Proof.
  intros Hr.
  assert (ss' = ss ∨ ∃ g s1, still_sess ss s1 ∧
    catch (payment_dispatch gateway e) (λ r, _ ← release_guard g; mret r)
      (λ err, _ ← release_guard g; fail err) s1 = (Ok u, ss')) as [->|(g & s1 & Hs & Hc)].
  { unfold payment_handler in Hr. destruct (em_event_type (env_metadata e));
      try (apply ret_ok in Hr as [_ <-]; by left); right;
      apply bind_ok in Hr as (oid & s0 & [Ho%omap_err_ok <-]%lift_ok & Hr);
      apply bind_ok in Hr as (g & s1 & Hg & Hr); apply keeps_acquire_guard in Hg; eauto. }
  { by left. }
  right. apply catch_ok in Hc as [(r & s2 & Hd & Hr')|(er & s2 & _ & Hr')].
  - apply bind_ok in Hr' as (w & s3 & Hg & Hr'). apply ret_ok in Hr' as [-> <-].
    apply keeps_release_guard in Hg. by exists s1, s2.
  - by apply bind_ok in Hr' as (? & ? & _ & ?%fail_ok).
Qed.

(** ** Capture retries *)

Lemma retry_count_read e oid n reason :
  0 ≤ n < 2 ^ 32 → env_payload e = retry_payload oid n reason →
  as_u32 (default 0 (as_u64 (jindex (env_payload e) "retry_count"))) = n ∧
  payload_uuid e "order_id" = Ok oid.
Proof.
  intros Hn He. unfold payload_uuid. rewrite He. unfold retry_payload. json_simpl.
  rewrite as_u64_jint by lia. simpl. unfold as_u32. split; [by apply Z.mod_small|done].
Qed.

Lemma in_tx_announced oid ev payload ss u ss' :
  (in_tx (write_outbox oid ev payload) : M psess AppError unit) ss = (Ok u, ss') →
  announced oid ev payload (c_tables (s_conn ss)) (c_tables (s_conn ss')).
Proof. intros (c & [_ Ha]%write_outbox_spec & ->)%zoom_ok. done. Qed.

(** A handled retry with count [n], on the tables [t]. *)
Inductive retry_result (now : Z) (oid : Uuid) (n : Z) t t' : Prop :=
| retry_captured x ref :
    n < MAX_CAPTURE_RETRIES → authorization_of oid x ref t →
    booked now oid Capture (capture_key oid) (Some ref) PlatformRevenue GatewayHolding
      (read_currency x) (read_amount x t) PaymentCaptured (λ _, order_payload oid) t t' →
    retry_result now oid n t t'
| retry_again reason :
    n < MAX_CAPTURE_RETRIES →
    announced oid PaymentCaptureRetryRequested (retry_payload oid (n + 1) reason) t t' →
    retry_result now oid n t t'
| retry_given_up reason :
    announced oid PaymentFailed (reason_payload oid reason) t t' → retry_result now oid n t t'.

Lemma capture_retry_result e oid n reason ss u ss' :
  0 ≤ n < 2 ^ 32 → env_payload e = retry_payload oid n reason →
  c_tables (s_conn ss) = s_committed ss →
  handle_capture_retry gateway e ss = (Ok u, ss') →
  retry_result (e_now (s_env ss)) oid n (c_tables (s_conn ss)) (c_tables (s_conn ss')) ∧
  (MAX_CAPTURE_RETRIES ≤ n → s_ext ss' = s_ext ss).
Proof.
  intros Hn He Hc. destruct (retry_count_read e oid n reason Hn He) as [En Eo].
  unfold handle_capture_retry. rewrite Eo, En. cbv zeta.
  intros (i & s0 & [[= <-] <-]%lift_ok & Hr)%bind_ok.
  destruct (Z.leb_spec MAX_CAPTURE_RETRIES n) as [Hm|Hm].
  { split; [by eapply retry_given_up, in_tx_announced|].
    intros _. apply zoom_ok in Hr as (c & _ & ->). done. }
  split; [|lia]. apply bind_ok in Hr as ([[[id ref] cur] amt] & s1 & H1 & Hr).
  apply in_service_ok in H1 as [Hs (d & H1)]; [|apply keeps_find_posted].
  apply find_posted_ok in H1 as [_ (x & Hx & -> & -> & ->)]; [|by left]. simpl in Hx, Hr.
  apply catch_ok in Hr as [(r & s2 & Hg & Hr)|(er & s2 & Hg & Hr)];
    apply (keeps_in_service _ (keeps_call_gateway _)) in Hg;
    assert (still_sess ss s2) as (_ & Ht & Hn2) by by etrans.
  - apply zoom_ok in Hr as (c & Hc' & ->). apply record_capture_ok in Hc'.
    unfold s_env in Hn2. rewrite Ht, Hn2 in Hc'. rewrite <-Hc in Hx, Hc'.
    by eapply retry_captured.
  - destruct (is_retryable er); apply in_tx_announced in Hr; rewrite Ht in Hr;
      [by eapply retry_again|by eapply retry_given_up].
Qed.

(** [retry_follows n n']: handling a retry with count [n] may announce one with [n']. *)
Definition retry_follows (n' n : Z) : Prop :=
  ∃ e oid reason reason' ss u ss', 0 ≤ n < 2 ^ 32 ∧ 0 ≤ n' < 2 ^ 32 ∧
    env_payload e = retry_payload oid n reason ∧ c_tables (s_conn ss) = s_committed ss ∧
    handle_capture_retry gateway e ss = (Ok u, ss') ∧
    announced oid PaymentCaptureRetryRequested (retry_payload oid n' reason')
      (c_tables (s_conn ss)) (c_tables (s_conn ss')).

Lemma announced_inj oid ev p oid' ev' p' t t' :
  announced oid ev p t t' → announced oid' ev' p' t t' → ev = ev' ∧ p = p'.
Proof.
  intros (r & (_ & _ & _ & _ & _ & m & Hp & Em & _) & ->) (r' & (_ & _ & _ & _ & _ & m' & Hp' & Em' & _) & E).
  assert (r' = r) as ->.
  { apply (f_equal pt_outbox) in E. simpl in E. by apply app_inj_tail in E as [_ ->]. }
  rewrite Hp in Hp'. apply (f_equal envelope_of_value) in Hp'. rewrite !envelope_roundtrip_eq in Hp'.
  injection Hp' as Em2 Ep. subst. unfold EventEnvelope_new in *. simpl in *. split; [congruence|done].
Qed.

Lemma retry_follows_next n n' : retry_follows n' n → n' = n + 1 ∧ n' ≤ MAX_CAPTURE_RETRIES.
Proof.
  intros (e & oid & reason & reason' & ss & u & ss' & Hn & Hn' & He & Hc & Hr & Ha).
  apply (capture_retry_result e oid n reason) in Hr as [Hr _]; [|done..].
  destruct Hr as [x ref Hm Hx Hb|reason2 Hm Ha2|reason2 Ha2].
  - destruct Hb as (l & y & d & k & r & a & Et & _). destruct Ha as (r' & _ & Et').
    rewrite Et in Et'. apply (f_equal (λ t, length (pt_transactions t))) in Et'. simpl in Et'.
    rewrite length_app in Et'. simpl in Et'. lia.
  - destruct (announced_inj _ _ _ _ _ _ _ _ Ha Ha2) as [_ Ep].
    assert (∀ k c, 0 ≤ k < 2 ^ 64 → as_u64 (jindex (retry_payload oid k c) "retry_count") = Some k) as Hk.
    { intros k c Hk. unfold retry_payload. json_simpl. by apply as_u64_jint. }
    pose proof (Hk n' reason' ltac:(lia)) as E1. rewrite Ep, (Hk (n + 1) reason2) in E1 by lia.
    injection E1 as <-. lia.
  - by destruct (announced_inj _ _ _ _ _ _ _ _ Ha Ha2) as [? _].
Qed.

(** ** Properties *)

(** Tampering on the consumer path. When the gateway approves another amount than the
    one an InventoryReserved event asks for, an attempt to handle the event leaves the
    ledger and the outbox exactly as they were: nothing is booked, and the PaymentFailed
    event the code writes is rolled back with the error, so nobody hears of it. *)
Theorem tampering_not_announced lock group e amount (s s' : pdb) o :
  em_event_type (env_metadata e) = InventoryReserved → requested_amount e = Some amount →
  tampers amount → attempt (payment_handler gateway lock) group e s = (o, s') →
  pt_accounts (d_committed s') = pt_accounts (d_committed s) ∧
  pt_transactions (d_committed s') = pt_transactions (d_committed s) ∧
  pt_entries (d_committed s') = pt_entries (d_committed s) ∧
  pt_outbox (d_committed s') = pt_outbox (d_committed s).
Proof.
  intros Hty Ha Ht Hr.
  apply (attempt_spec (payment_handler gateway lock) eq) in Hr as [(<- & _)|(_ & Hr & _)]; [done|].
  destruct Hr as (c & x & ss & now & Et & Hh & _ & Es & _).
  assert (c_tables (s_conn ss) = d_committed s) as E.
  { rewrite <-Et. apply payment_handler_dispatch in Hh as [->|(s1 & s2 & (_ & E1 & _) & Hd & (_ & E2 & _))];
      [done|]. apply (dispatch_tampered e amount) in Hd; [|done..]. simpl in E1. congruence. }
  rewrite Es, E. unfold mark_processed_row. by destruct (processed _ _ _).
Qed.

(** A capture retry on every branch. An event that carries the count n, below 2^32,
    is read back exactly; from ten on, the gateway is not called and PaymentFailed is
    announced; below ten the capture is booked, or the next retry is announced with count
    n + 1, or PaymentFailed is. *)
Theorem capture_retry_outcomes e oid n reason ss u ss' :
  0 ≤ n < 2 ^ 32 → env_payload e = retry_payload oid n reason →
  c_tables (s_conn ss) = s_committed ss → handle_capture_retry gateway e ss = (Ok u, ss') →
  (MAX_CAPTURE_RETRIES ≤ n ∧ s_ext ss' = s_ext ss ∧
   ∃ r, announced oid PaymentFailed (reason_payload oid r) (c_tables (s_conn ss)) (c_tables (s_conn ss'))) ∨
  (n < MAX_CAPTURE_RETRIES ∧
   retry_result (e_now (s_env ss)) oid n (c_tables (s_conn ss)) (c_tables (s_conn ss'))).
Proof.
  intros Hn He Hc Hr. destruct (capture_retry_result e oid n reason ss u ss' Hn He Hc Hr) as [Hres Hx].
  destruct (Z.le_gt_cases MAX_CAPTURE_RETRIES n) as [Hm|Hm]; [left|by right].
  split_and!; [done|by apply Hx|]. destruct Hres as [| |r Ha]; [lia..|by exists r].
Qed.

(** Capture retries terminate. Whatever the gateway answers, each retry of a chain
    carries the count of the previous one plus one and never more than ten, so every
    chain of retries is finite. *)
Theorem capture_retries_terminate n :
  Acc retry_follows n ∧ ∀ n', retry_follows n' n → n' = n + 1 ∧ n' ≤ MAX_CAPTURE_RETRIES.
Proof.
  split; [|by apply retry_follows_next].
  remember (Z.to_nat (MAX_CAPTURE_RETRIES - n)) as k eqn:Ek. revert n Ek.
  induction k as [k IH] using lt_wf_ind. intros n ->. constructor. intros n' Hf.
  apply retry_follows_next in Hf as [-> Hm]. eapply IH; [|done]. lia.
Qed.

(** The lock. While another holder has the lock of the order, an event of any of the
    four handled types fails as transient, to be retried, before anything is read or
    written: the transaction, the gateway and Redis are as they were. *)
Theorem held_lock_defers e oid ss :
  em_event_type (env_metadata e) ∈
    [InventoryReserved; OrderConfirmed; OrderCancelled; PaymentCaptureRetryRequested] →
  payload_uuid e "order_id" = Ok oid →
  (∀ token ttl, redis_set_nx_ex ("payment:" +:+ uuid_to_string oid) token ttl (s_ext ss).2 =
    (Ok None, (s_ext ss).2)) →
  ∃ ss', payment_handler gateway true e ss =
      (Err (Transient ("payment:" +:+ uuid_to_string oid +:+ " in-flight, will retry")), ss') ∧
    c_tables (s_conn ss') = c_tables (s_conn ss) ∧ s_committed ss' = s_committed ss ∧
    s_ext ss' = s_ext ss.
Proof.
  intros Hty Ho Hheld. unfold payment_handler.
  assert (∃ ss', (guard ← acquire_guard true oid (em_event_type (env_metadata e));
      catch (payment_dispatch gateway e) (λ r, _ ← release_guard guard; mret r)
        (λ err, _ ← release_guard guard; fail err)) ss =
      (Err (Transient ("payment:" +:+ uuid_to_string oid +:+ " in-flight, will retry")), ss') ∧
      c_tables (s_conn ss') = c_tables (s_conn ss) ∧ s_committed ss' = s_committed ss ∧
      s_ext ss' = s_ext ss) as (ss' & Hr & Hs).
  { unfold acquire_guard, acquire, in_tx, on_redis, now_v7, catch, zoom, map_err, mbind, M_bind.
    simpl. rewrite Hheld. eexists. split; [reflexivity|]. simpl. split_and!; [done|done|].
    by destruct (s_ext ss). }
  exists ss'. split; [|done]. rewrite Ho. unfold lift, omap_err.
  destruct (em_event_type (env_metadata e)); try (by set_solver); exact Hr.
Qed.
End events.
