(* ===== verification/PaymentWitness.v ===== *)
(** * Payment service: concrete runs

    The theorems on the gateway, the ledger and the handlers applied on the computable
    instance, with the mock gateway and a Redis of two maps. *)

From S2P Require Import Prelude RustStr Externals Sample Errors Rules Auth Events Db Outbox Consumer.
From S2P Require Import ConsumerProps CircuitBreaker Gateway Ledger Redis DistributedLock.
From S2P Require Import PaymentService PaymentBook PaymentSteps PaymentProps PaymentSpec.
From S2P Require Import PaymentAnswers PaymentTheorems PaymentEvents.

Local Open Scope Z_scope.

#[local] Existing Instance sample.
#[local] Instance one_redis : RedisApi := sample_redis run_release.

(** ** The gateway behind its circuit breaker *)

Definition strict : CircuitBreakerConfig := CircuitBreakerConfig_default.
Definition gateways : breaker_gateway N := breaker_gateway_new 0%N (λ n, Z.of_nat n).
Definition slow := mock_gateway always_fails_retryable.
Definition guarded_run := guarded strict (gw_capture slow "ref") gateways.

Lemma guarded_call_transparent_witness :
  is_ok guarded_run.1 = false ∧
  (check_call strict (instant_now gateways) (bg_breaker gateways) = (Err CircuitIsOpen, bg_breaker gateways) ∧
   (∃ e, guarded_run.1 = Err e ∧ ge_code e = "CIRCUIT_OPEN" ∧ is_retryable e = true) ∧
   bg_inner guarded_run.2 = bg_inner gateways ∧ bg_breaker guarded_run.2 = bg_breaker gateways ∨
   (∃ b, check_call strict (instant_now gateways) (bg_breaker gateways) = (Ok tt, b) ∧
     gw_capture slow "ref" (bg_inner gateways) = (guarded_run.1, bg_inner guarded_run.2) ∧
     match guarded_run.1 with
     | Ok _ => bg_breaker guarded_run.2 = record_success strict b
     | Err e => if is_retryable e
                then ∃ now, bg_breaker guarded_run.2 = record_retryable_failure strict now b
                else bg_breaker guarded_run.2 = b
     | Panic => bg_breaker guarded_run.2 = b
     end)).
Proof.
  split; [vm_compute; reflexivity|].
  exact (guarded_call_transparent strict (gw_capture slow "ref") gateways _ _ (surjective_pairing _)).
Defined.

Definition decliner := mock_gateway always_fails.
Definition three_refs : list string := ["r1"; "r2"; "r3"].

Lemma healthy_captures_unchanged_witness :
  let run := captures (CircuitBreakerGateway decliner strict) three_refs gateways in
  length run.1 = 3%nat ∧ run.1 = (captures decliner three_refs (bg_inner gateways)).1.
Proof.
  split; [vm_compute; reflexivity|].
  refine (proj1 (healthy_captures_unchanged decliner strict three_refs gateways _ _ _ _ _
    (surjective_pairing _) _ (surjective_pairing _))); [reflexivity|].
  repeat constructor.
Defined.

(** ** Runs of the service *)

Definition uid (s : string) : Uuid := s.
Definition oid : Uuid := uid "order-1".
Definition no_payments : payment_tables := MkPaymentTables [] [] [] [] [].
Definition pay_world (t : payment_tables) (now : Z) (fs : list fault)
    : db payment_tables (N * redis) :=
  MkDb t (MkEnv now 1 fs) (0%N, MkStore ∅ ∅).
Definition start : db payment_tables (N * redis) := pay_world no_payments 1 [].
Definition kind := mock_gateway always_succeeds.

Lemma no_payments_ok : ledger_ok 0 (d_committed start).
Proof.
  split; [|split; [constructor|]].
  - split_and!; [split_and!; constructor|constructor|constructor|].
    intros e He. by apply not_elem_of_nil in He.
  - intros x. exists PsNew, 0, "". by constructor.
Qed.

(** Authorized in euros, asked again, captured, and then a void that comes too late. *)
Definition life : list (Z * payment_op) :=
  [(10, OpAuthorize oid (dec_new 7500 2) "EUR"); (20, OpAuthorize oid (dec_new 100 0) "USD");
   (30, OpCapture oid); (40, OpVoid oid)].
Definition lived : db payment_tables (N * redis) := run_ops kind life start.
Lemma life_increasing : increasing 0 life.
Proof. unfold life. cbn [increasing]. split_and!; [lia..|exact I]. Qed.

Lemma ledger_invariant_witness :
  (transaction_type_str ∘ lt_type) <$> pt_transactions (d_committed lived) = ["authorization"; "capture"] ∧
  ledger_ok 40 (d_committed lived) ∧
  booked_total Debit (d_committed lived) = booked_total Credit (d_committed lived).
Proof.
  split; [vm_compute; reflexivity|].
  exact (ledger_invariant kind life 0 start no_payments_ok life_increasing).
Defined.

Lemma payment_lifecycle_witness :
  payment_state oid (d_committed lived) = PsCaptured ∧
  ∃ st' amt' cur', phase oid (d_committed lived) st' amt' cur' ∧
    payment_state oid (d_committed lived) = st' ∧ payment_reaches PsNew 0 "" st' amt' cur'.
Proof.
  split; [vm_compute; reflexivity|].
  refine (proj2 (payment_lifecycle kind life 0 start oid PsNew 0 "" no_payments_ok life_increasing _)).
  apply phase_new. reflexivity.
Defined.

(** The phase an order has reached in a world, from the state the service derives. *)
Lemma phase_reached (s : db payment_tables (N * redis)) st :
  ledger_ok 40 (d_committed s) → payment_state oid (d_committed s) = st →
  ∃ amt cur, phase oid (d_committed s) st amt cur.
Proof.
  intros (_ & _ & Hp) Hs. destruct (Hp oid) as (st' & amt & cur & Hp').
  rewrite (phase_state _ _ _ _ _ Hp') in Hs. subst. eauto.
Qed.
Lemma lived_ok : ledger_ok 40 (d_committed lived).
Proof. exact (proj1 (run_ops_ok kind life 0 start no_payments_ok life_increasing)). Qed.
Lemma lived_calm : calm lived.
Proof. vm_compute. reflexivity. Qed.
Lemma lived_captured : payment_state oid (d_committed lived) = PsCaptured.
Proof. vm_compute. reflexivity. Qed.

Lemma payment_status_reported_witness :
  ∃ r s', get_payment_status (G := N) oid lived = (Ok r, s') ∧ d_committed s' = d_committed lived ∧
    pr_state r = PsCaptured.
Proof.
  destruct (phase_reached lived PsCaptured lived_ok lived_captured) as (amt & cur & Hp).
  destruct (payment_status_reported (G := N) 40 oid PsCaptured amt cur lived lived_calm lived_ok Hp)
    as (r & s' & Hr & Hc & Hs & _).
  exists r, s'. auto.
Defined.

Lemma repeated_authorization_witness :
  ∃ o s', authorize_payment kind oid (dec_new 9 0) "KRW" lived = (o, s') ∧
    d_committed s' = d_committed lived ∧ is_ok o = true.
Proof.
  destruct (phase_reached lived PsCaptured lived_ok lived_captured) as (amt & cur & Hp).
  destruct (repeated_authorization kind 40 oid PsCaptured amt cur (dec_new 9 0) "KRW" lived
    lived_calm lived_ok Hp) as (o & s' & Hr & Hc & _ & Ho); [discriminate|].
  exists o, s'. split; [exact Hr|]. split; [exact Hc|]. apply Ho. discriminate.
Defined.

(** ** The answers of the gateway *)

Definition crooked := mock_gateway (tampering (dec_new 1 0)).
Definition crooked_run := authorize_payment crooked oid (dec_new 50 0) "USD" start.
Lemma authorize_payment_outcomes_witness :
  is_ok crooked_run.1 = false ∧
  oe_event_type <$> pt_outbox (d_committed crooked_run.2) = ["PaymentFailed"] ∧
  (d_committed crooked_run.2 = d_committed start ∧ d_ext crooked_run.2 = d_ext start ∨
   validate_authorization (dec_new 50 0) "USD" (payment_state oid (d_committed start)) = Ok tt).
Proof.
  split; [vm_compute; reflexivity|]. split; [vm_compute; reflexivity|].
  destruct (authorize_payment_outcomes crooked oid (dec_new 50 0) "USD" start _ _
    (surjective_pairing _)) as [Hn|(_ & Hv & _)]; [left; exact Hn|right; exact Hv].
Defined.

Definition authorized : db payment_tables (N * redis) :=
  (authorize_payment kind oid (dec_new 50 0) "USD" start).2.
Definition declined_run := capture_payment decliner oid authorized.
Lemma capture_payment_outcomes_witness :
  is_ok declined_run.1 = false ∧
  ((d_committed declined_run.2 = d_committed authorized ∧ d_ext declined_run.2 = d_ext authorized) ∧
     is_ok declined_run.1 = false ∨
   ∃ x ref, authorization_of oid x ref (d_committed authorized)).
Proof.
  split; [vm_compute; reflexivity|].
  destruct (capture_payment_outcomes decliner oid authorized _ _ (surjective_pairing _))
    as [Hn|(x & ref & _ & _ & Hx & _)]; [left; exact Hn|right; exists x, ref; exact Hx].
Defined.

Definition void_run := void_payment kind oid authorized.
Lemma void_payment_outcomes_witness :
  is_ok void_run.1 = true ∧ payment_state oid (d_committed void_run.2) = PsVoided ∧
  ∃ x ref, authorization_of oid x ref (d_committed authorized).
Proof.
  split; [vm_compute; reflexivity|]. split; [vm_compute; reflexivity|].
  destruct (void_payment_outcomes kind oid authorized _ _ (surjective_pairing _))
    as [[_ Hn]|(x & ref & _ & _ & Hx & _)]; [|exists x, ref; exact Hx].
  exfalso. assert (is_ok void_run.1 = true) as Ho by (vm_compute; reflexivity).
  unfold void_run in Ho. rewrite Hn in Ho. discriminate.
Defined.

(** ** Events *)

Definition inventory_reserved : EventEnvelope :=
  EventEnvelope_new (EventMetadata_new (uid "ev-1") 900 InventoryReserved AggInventory oid Catalog)
    (jobj [("order_id", jstr oid); ("total_amount", jstr (dec_to_string (dec_new 50 0)));
           ("currency", jstr "USD")]).
Definition tampered_run := attempt (payment_handler crooked true) "payment" inventory_reserved start.

Lemma crooked_tampers : tampers crooked (dec_new 50 0).
Proof. intros key o cur g. eexists _, _. split; [reflexivity|]. vm_compute. reflexivity. Qed.

Lemma tampering_not_announced_witness :
  is_ok tampered_run.1 = true ∧
  pt_transactions (d_committed tampered_run.2) = [] ∧ pt_outbox (d_committed tampered_run.2) = [].
Proof.
  destruct (tampering_not_announced crooked true "payment" inventory_reserved (dec_new 50 0) start
    tampered_run.2 tampered_run.1 eq_refl) as (_ & Ht & _ & Ho);
    [vm_compute; reflexivity|exact crooked_tampers|exact (surjective_pairing _)|].
  split; [vm_compute; reflexivity|]. split; [exact Ht|exact Ho].
Defined.

Definition retry_event (n : Z) : EventEnvelope :=
  EventEnvelope_new
    (EventMetadata_new (uid "ev-2") 900 PaymentCaptureRetryRequested AggPayment oid Payment)
    (retry_payload oid n "timed out").
Definition retry_session : session payment_tables (N * redis) :=
  MkSession (MkConn (d_committed authorized) TxActive (d_env authorized)) (d_committed authorized)
    (d_ext authorized).
Definition retry_run := handle_capture_retry slow (retry_event 9) retry_session.

Lemma capture_retry_outcomes_witness :
  is_ok retry_run.1 = true ∧
  retry_result (e_now (s_env retry_session)) oid 9 (d_committed authorized)
    (c_tables (s_conn retry_run.2)).
Proof.
  assert (is_ok retry_run.1 = true) as Hok by (vm_compute; reflexivity). split; [exact Hok|].
  destruct (capture_retry_outcomes slow (retry_event 9) oid 9 "timed out" retry_session tt retry_run.2)
    as [(Hm & _)|[_ Hr]];
    [lia|reflexivity|reflexivity|exact (run_ok_unit _ Hok)| |exact Hr].
  unfold MAX_CAPTURE_RETRIES in Hm. lia.
Defined.

Definition locked_session : session payment_tables (N * redis) :=
  MkSession (MkConn no_payments TxActive (MkEnv 5 1 [])) no_payments
    (0%N, MkStore {["payment:order-1" := "another"]} ∅).
Lemma held_lock_defers_witness :
  ∃ ss', payment_handler kind true (retry_event 3) locked_session =
      (Err (Transient "payment:order-1 in-flight, will retry"), ss') ∧
    c_tables (s_conn ss') = no_payments.
Proof.
  destruct (held_lock_defers kind (retry_event 3) oid locked_session) as (ss' & Hr & Hc & _).
  - vm_compute. right. right. right. left.
  - reflexivity.
  - intros token ttl. reflexivity.
  - exists ss'. split; [exact Hr|exact Hc].
Defined.
