(* ===== verification/Labels.v ===== *)
(** * Catalog service: slugs, labels and other values
    (catalog/src/common, categories, brands, products: value_objects.rs)

    A slug or label can be given, or made from a name: lower case, every run of characters that
    are not alphanumeric replaced by one separator. *)

From S2P Require Import Prelude RustStr Externals Errors NewTypes Regex.

Local Open Scope Z_scope.

Section values.
Context `{UnicodeApi}.

(** The words of a name, joined by a separator. *)
Definition word_char (sep c : Z) : Z := if is_alphanumeric c then c else sep.
Definition from_words (sep : Z) (name : string) : list Z :=
  join_on sep (nonempty (split_on sep (word_char sep <$> chars (to_lowercase (trim name))))).

(** ** Slug and HttpUrl (common/value_objects.rs) *)

Definition slug_char (c : Z) : bool := ascii_lower c || ascii_digit c.
(** [^[a-z0-9]+(-[a-z0-9]+)*$] *)
Definition SLUG_RE : regex :=
  RCat (RPlus (RChar slug_char)) (RStar (RCat (RChr 45) (RPlus (RChar slug_char)))).

Record Slug := MkSlug { slug_str : string }.
Definition Slug_new (input : string) : outcome AppError Slug :=
  let trimmed := trim input in
  if is_empty trimmed then Err (BadRequest "Slug must not be empty")
  else if (500 <? str_len trimmed)%nat then Err (BadRequest "Slug must not exceed 500 characters")
  else if negb (is_match SLUG_RE trimmed) then Err (BadRequest
    "Slug must be lowercase alphanumeric with hyphens (e.g. my-product-name)")
  else Ok (MkSlug trimmed).
Definition Slug_from_name (name : string) : outcome AppError Slug := Slug_new (of_chars (from_words 45 name)).

(** [^https?://.+], without an end: one character that is not a line feed, and then anything. *)
Definition URL_RE : regex :=
  RCat (RCat (RChr 104) (RCat (RChr 116) (RCat (RChr 116) (RCat (RChr 112) (ROpt (RChr 115))))))
    (RCat (RCat (RChr 58) (RCat (RChr 47) (RChr 47)))
      (RCat (RChar (λ c, negb (c =? 10))) (RStar (RChar (λ _, true))))).
Record HttpUrl := MkHttpUrl { url_str : string }.
Definition HttpUrl_new (input : string) : outcome AppError HttpUrl :=
  let trimmed := trim input in
  if negb (is_match URL_RE trimmed) then Err (BadRequest "URL must start with http:// or https://")
  else if (2048 <? str_len trimmed)%nat then Err (BadRequest "URL must not exceed 2048 characters")
  else Ok (MkHttpUrl trimmed).

(** ** Names *)

Definition CategoryName_new : string → outcome AppError string := validated_name "Category name" 255.
Definition BrandName_new : string → outcome AppError string := validated_name "Brand name" 255.
Definition ProductName_new : string → outcome AppError string := validated_name "Product name" 500.

(** ** LtreeLabel (categories/value_objects.rs) *)

Definition label_char (c : Z) : bool := ascii_lower c || ascii_digit c || (c =? 95).
(** [^[a-z][a-z0-9_]*$] *)
Definition LTREE_LABEL_RE : regex := RCat (RChar ascii_lower) (RStar (RChar label_char)).

Record LtreeLabel := MkLtreeLabel { label_str : string }.
Definition LtreeLabel_new (input : string) : outcome AppError LtreeLabel :=
  let trimmed := trim input in
  if is_empty trimmed then Err (BadRequest "Ltree label must not be empty")
  else if (255 <? str_len trimmed)%nat then Err (BadRequest "Ltree label must not exceed 255 characters")
  else if negb (is_match LTREE_LABEL_RE trimmed) then Err (BadRequest
    "Ltree label must be lowercase alphanumeric with underscores, starting with a letter (e.g. electronics, smart_phones)")
  else Ok (MkLtreeLabel trimmed).

(** [trim_start_matches(|c| !c.is_ascii_lowercase())] *)
Fixpoint skip_to_letter (l : list Z) : list Z :=
  match l with
  | [] => []
  | c :: l' => if ascii_lower c then l else skip_to_letter l'
  end.
Definition LtreeLabel_from_name (name : string) : outcome AppError LtreeLabel :=
  match from_words 95 name with
  | [] => Err (BadRequest "Cannot generate ltree label from empty name")
  | label => LtreeLabel_new (of_chars (skip_to_letter label))
  end.

(** ** SkuCode, StockQuantity, SearchQuery and the statuses (products/value_objects.rs) *)

Definition ascii_alnum (c : Z) : bool := ascii_letter c || ascii_digit c.
(** [^[A-Za-z0-9][A-Za-z0-9_-]{0,98}[A-Za-z0-9]$] *)
Definition SKU_CODE_RE : regex :=
  RCat (RChar ascii_alnum) (RCat (RUpTo 98 (RChar (λ c, ascii_alnum c || one_of "_-" c))) (RChar ascii_alnum)).
Record SkuCode := MkSkuCode { sku_code_str : string }.
Definition SkuCode_new (input : string) : outcome AppError SkuCode :=
  let trimmed := trim input in
  if (str_len trimmed <? 2)%nat then Err (BadRequest "SKU code must be at least 2 characters")
  else if (100 <? str_len trimmed)%nat then Err (BadRequest "SKU code must not exceed 100 characters")
  else if negb (is_match SKU_CODE_RE trimmed) then Err (BadRequest
    "SKU code must be alphanumeric (with hyphens/underscores allowed in the middle)")
  else Ok (MkSkuCode trimmed).

(** An i32. *)
Record StockQuantity := MkStockQuantity { stock_value : Z }.
Definition StockQuantity_new (value : Z) : outcome AppError StockQuantity :=
  if value <? 0 then Err (BadRequest "Stock quantity must not be negative")
  else Ok (MkStockQuantity value).

Definition SEARCH_MAX_LEN : nat := 200.
Record SearchQuery := MkSearchQuery { search_str : string }.
Definition SearchQuery_new (input : string) : outcome AppError SearchQuery :=
  let trimmed := trim input in
  if is_empty trimmed then Err (BadRequest "Search query must not be empty")
  else Ok (MkSearchQuery (of_chars (take SEARCH_MAX_LEN (chars trimmed)))).
End values.

Inductive ProductStatus : Type := PdDraft | PdActive | PdInactive | PdArchived.
#[export] Instance ProductStatus_eq_dec : EqDecision ProductStatus.
Proof. solve_decision. Defined.
Definition product_status_str (s : ProductStatus) : string :=
  match s with PdDraft => "draft" | PdActive => "active" | PdInactive => "inactive" | PdArchived => "archived" end.
Inductive SkuStatus : Type := SkActive | SkInactive | SkOutOfStock.
#[export] Instance SkuStatus_eq_dec : EqDecision SkuStatus.
Proof. solve_decision. Defined.
Definition sku_status_str (s : SkuStatus) : string :=
  match s with SkActive => "active" | SkInactive => "inactive" | SkOutOfStock => "out_of_stock" end.

(** ** What is accepted, and what is made from a name *)

Section laws.
Context `{UnicodeApi}.

Definition slug_words (l : list Z) : Prop :=
  ∃ ws, ws ≠ [] ∧ words 45 ws ∧ Forall (Forall (λ c, slug_char c = true)) ws ∧ l = join_on 45 ws.

Lemma slug_char_ascii c : slug_char c = true → 33 ≤ c < 127 ∧ c ≠ 45.
Proof.
  unfold slug_char, ascii_lower, ascii_digit. rewrite orb_true_iff, !in_range_spec. lia.
Qed.
Lemma slug_char_free w : Forall (λ c, slug_char c = true) w → 45 ∉ w.
Proof. intros Hw Hin. rewrite Forall_forall in Hw. by apply Hw, slug_char_ascii in Hin as [_ ?]. Qed.

Lemma slug_tail l : matches (RStar (RCat (RChr 45) (RPlus (RChar slug_char)))) l ↔
  ∃ ws, Forall (λ w, w ≠ [] ∧ Forall (λ c, slug_char c = true) w) ws ∧ l = ws ≫= (λ w, 45 :: w).
Proof.
  split.
  - remember (RStar _) as r eqn:Er. induction 1; try discriminate; [by exists []|].
    injection Er as ->. destruct IHmatches2 as (ws & Hws & ->); [done|].
    match goal with H : matches (RCat _ _) _ |- _ =>
      apply cat_spec in H as (l1 & w & -> & (c & -> & Hc%Z.eqb_eq)%char_spec & [Hw1 Hw2]%plus_class) end.
    subst. exists (w :: ws). split; [by constructor|done].
  - intros (ws & Hws & ->). induction Hws as [|w ws [Hw Hc] _ IH]; [constructor|].
    rewrite bind_cons. apply m_star_cons; [done| |done].
    apply (m_cat (RChar _) _ [45]); [by constructor|by apply plus_class].
Qed.

Lemma join_slug w ws : join_on 45 (w :: ws) = w ++ (ws ≫= λ v, 45 :: v).
Proof.
  revert w. induction ws as [|v ws IH]; intros w; [by rewrite app_nil_r|].
  rewrite join_on_cons, IH by done. done.
Qed.

Lemma slug_re_spec l : matches SLUG_RE l ↔ slug_words l.
Proof.
  unfold SLUG_RE, slug_words. split.
  - intros (w & l2 & -> & [Hw Hc]%plus_class & (ws & Hws & ->)%slug_tail)%cat_spec.
    exists (w :: ws). rewrite join_slug. split_and!; [done| | |done].
    + constructor; [by auto using slug_char_free|]. eapply Forall_impl; [exact Hws|]. intros v [Hv Hvc]. auto using slug_char_free.
    + constructor; [done|]. eapply Forall_impl; [exact Hws|]. by intros v [_ Hv].
  - intros ([|w ws] & Hne & Hws & Hcs & ->); [done|]. rewrite join_slug.
    apply Forall_cons in Hws as [[Hw _] Hws], Hcs as [Hc Hcs].
    apply m_cat; [by apply plus_class|]. apply slug_tail. exists ws. split; [|done].
    rewrite Forall_forall in *. intros v Hv. split; [by apply Hws|by apply Hcs].
Qed.

Lemma Slug_new_ok s x : Slug_new s = Ok x ↔
  x = MkSlug (trim s) ∧ (str_len (trim s) ≤ 500)%nat ∧ slug_words (chars (trim s)).
Proof.
  unfold Slug_new. rewrite <-slug_re_spec, <-is_match_spec. generalize (trim s). clear s. intros s.
  destruct s as [|a s]; [|simpl (is_empty _)].
  { simpl. split; [done|]. intros (_ & _ & Hm). by vm_compute in Hm. }
  destruct (Nat.ltb_spec 500 (str_len (String a s))); [naive_solver lia|].
  destruct (is_match SLUG_RE _); simpl; naive_solver lia.
Qed.

Lemma slug_words_ascii l : slug_words l → Forall (λ c, 33 ≤ c < 127) l.
Proof.
  intros (ws & _ & _ & Hc & ->). apply join_on_all; [lia|]. eapply Forall_impl; [exact Hc|].
  intros w Hw. eapply Forall_impl; [exact Hw|]. intros c. simpl. by intros [? _]%slug_char_ascii.
Qed.

(** The words of a text of ASCII letters and separators. *)
Lemma from_words_normal sep l ws :
  l = join_on sep ws → words sep ws → Forall (λ c, 33 ≤ c < 127) l →
  Forall (λ c, c = sep ∨ ascii_lower c || ascii_digit c = true) l → is_alphanumeric sep = false →
  from_words sep (of_chars l) = l.
Proof.
  intros -> Hws Hasc Hc Hsep. set (l := join_on sep ws) in *.
  assert (Forall is_ascii l) as Hl by (eapply Forall_impl; [exact Hasc|]; unfold is_ascii; simpl; lia).
  unfold from_words. rewrite trim_of_chars by done. rewrite to_lowercase_lower.
  - rewrite chars_of_chars by done. assert (word_char sep <$> l = l) as ->; [|by apply renormalize].
    rewrite <-(list_fmap_id l) at 2. apply list_fmap_ext. intros i c Hi. unfold word_char. simpl.
    rewrite Forall_lookup in Hc, Hl. destruct (Hc _ _ Hi) as [->|Hx]; [by rewrite Hsep|].
    rewrite is_alphanumeric_ascii by (by eapply Hl). unfold ascii_letter.
    destruct (ascii_lower c), (ascii_digit c); rewrite ?orb_true_r in *; done.
  - rewrite chars_of_chars by done. rewrite Forall_forall in *. intros c Hin. split; [by apply Hl|].
    specialize (Hc c Hin). specialize (Hasc c Hin). unfold ascii_upper, ascii_lower, ascii_digit in *.
    apply not_true_iff_false. rewrite in_range_spec. rewrite orb_true_iff, !in_range_spec in Hc.
    destruct Hc as [->|Hc]; [|lia]. intros Hu.
    rewrite is_alphanumeric_ascii in Hsep by lia. unfold ascii_letter, ascii_upper in Hsep.
    rewrite (proj2 (in_range_spec 65 90 sep) Hu) in Hsep. done.
Qed.

Definition label_shape (l : list Z) : Prop :=
  ∃ c k, l = c :: k ∧ ascii_lower c = true ∧ Forall (λ c, label_char c = true) k.
Lemma label_re_spec l : matches LTREE_LABEL_RE l ↔ label_shape l.
Proof.
  unfold LTREE_LABEL_RE, label_shape. rewrite cat_spec. split.
  - intros (l1 & k & -> & (c & -> & Hc)%char_spec & Hk%star_class). by exists c, k.
  - intros (c & k & -> & Hc & Hk). exists [c], k. split_and!; [done|by constructor|by apply star_class].
Qed.
Lemma LtreeLabel_new_ok s x : LtreeLabel_new s = Ok x ↔
  x = MkLtreeLabel (trim s) ∧ (str_len (trim s) ≤ 255)%nat ∧ label_shape (chars (trim s)).
Proof.
  unfold LtreeLabel_new. rewrite <-label_re_spec, <-is_match_spec. generalize (trim s). clear s. intros s.
  destruct s as [|a s]; [|simpl (is_empty _)].
  { simpl. split; [done|]. intros (_ & _ & Hm). by vm_compute in Hm. }
  destruct (Nat.ltb_spec 255 (str_len (String a s))); [naive_solver lia|].
  destruct (is_match LTREE_LABEL_RE _); simpl; naive_solver lia.
Qed.
Lemma LtreeLabel_from_name_ok name x : LtreeLabel_from_name name = Ok x →
  (str_len (label_str x) ≤ 255)%nat ∧ label_shape (chars (label_str x)) ∧ LtreeLabel_new (label_str x) = Ok x.
Proof.
  unfold LtreeLabel_from_name. destruct (from_words 95 name); [done|].
  intros (-> & Hlen & Hs)%LtreeLabel_new_ok. simpl. split_and!; [done|done|].
  apply LtreeLabel_new_ok. by rewrite trim_trim.
Qed.

(** A label is one label of a path: it has no dot. *)
Lemma label_shape_no_dot l : label_shape l → 46 ∉ l.
Proof.
  intros (c & k & -> & Hc & Hk) [<-|Hin]%elem_of_cons; [done|].
  rewrite Forall_forall in Hk. by apply Hk in Hin.
Qed.

(** Every Rust string is well formed. *)
Definition utf8 (s : string) : Prop := of_chars (chars s) = s.
Lemma slug_words_fixed s : utf8 s → slug_words (chars s) → of_chars (from_words 45 s) = s.
Proof.
  intros Hs Hw. pose proof (slug_words_ascii _ Hw) as Ha. destruct Hw as (ws & Hne & Hws & Hc & El).
  assert (from_words 45 s = chars s) as ->; [|done]. unfold utf8 in Hs; rewrite <-Hs at 1.
  apply (from_words_normal 45 _ ws); try done.
  - rewrite El. apply join_on_all; [by left|]. eapply Forall_impl; [exact Hc|].
    intros w Hw. eapply Forall_impl; [exact Hw|]. intros c Hx. by right.
  - by rewrite is_alphanumeric_ascii.
Qed.

(** C39: the identifiers of the catalog's pages. A slug is accepted exactly when it consists of
    words of lower-case letters and digits joined by single hyphens, of at most 500 characters,
    and making a slug from an accepted slug gives it back; a label of the category tree starts
    with a letter and has only lower-case letters, digits and underscores - so it is one label
    of a path - and this also holds for every label that is made from a name. *)
Theorem slugs_and_labels :
  (∀ s x, Slug_new s = Ok x ↔
     x = MkSlug (trim s) ∧ (str_len (trim s) ≤ 500)%nat ∧ slug_words (chars (trim s))) ∧
  (∀ s x, Slug_new s = Ok x → utf8 (slug_str x) → Slug_from_name (slug_str x) = Ok x) ∧
  (∀ s x, LtreeLabel_new s = Ok x ↔
     x = MkLtreeLabel (trim s) ∧ (str_len (trim s) ≤ 255)%nat ∧ label_shape (chars (trim s))) ∧
  (∀ name x, LtreeLabel_from_name name = Ok x →
     (str_len (label_str x) ≤ 255)%nat ∧ label_shape (chars (label_str x)) ∧ (46 ∉ chars (label_str x)) ∧
     LtreeLabel_new (label_str x) = Ok x).
Proof.
  split_and!.
  - intros s x. apply Slug_new_ok.
  - intros s x (-> & Hlen & Hw)%Slug_new_ok Hu. simpl in *. unfold Slug_from_name.
    rewrite slug_words_fixed by done. apply Slug_new_ok. by rewrite trim_trim.
  - intros s x. apply LtreeLabel_new_ok.
  - intros name x (Hlen & Hs & Hn)%LtreeLabel_from_name_ok. split_and!; [done|done|by apply label_shape_no_dot|done].
Qed.
End laws.

#[local] Existing Instance sample_unicode.
Lemma slugs_and_labels_witness :
  Slug_from_name " Widget Pro (2nd) " = Ok (MkSlug "widget-pro-2nd") ∧
  Slug_from_name "widget-pro-2nd" = Ok (MkSlug "widget-pro-2nd") ∧
  LtreeLabel_new "smart_phones" = Ok (MkLtreeLabel "smart_phones").
Proof.
  assert (LtreeLabel_from_name "3 Smart & Phones" = Ok (MkLtreeLabel "smart_phones")) as Hl
    by (vm_compute; reflexivity).
  assert (Slug_from_name " Widget Pro (2nd) " = Ok (MkSlug "widget-pro-2nd")) as Hs by (vm_compute; reflexivity).
  destruct slugs_and_labels as (_ & Hidem & _ & Hlabel).
  split; [exact Hs|]. split.
  - exact (Hidem _ (MkSlug "widget-pro-2nd") Hs eq_refl).
  - apply (Hlabel _ _ Hl).
Defined.
