(* ===== verification/ShopTables.v ===== *)
(** * Catalog service: the rows of categories, brands and products
    (catalog/migrations, entities.rs of catalog/src/categories, brands and products)

    The tables behind the pages of the shop; the tables of the inventory are in Inventory.v.
    The path of a category has the type [ltree] of PostgreSQL: a list of labels, written with
    dots; [<@] is the prefix order, and paths are sorted label by label. *)

From S2P Require Import Prelude RustStr Externals Errors Regex Labels Db.

Local Open Scope Z_scope.

(** ** [ltree] *)

Definition ltree : Type := list (list Z).
Definition ltree_text (p : ltree) : string := of_chars (join_on 46 p).
(** ASCII letters and digits, underscores and hyphens; other letters depend on the locale of
    the database and do not occur in the labels of the service. *)
Definition ltree_char (c : Z) : bool := ascii_letter c || ascii_digit c || one_of "_-" c.
Definition ltree_label (l : list Z) : bool :=
  match l with [] => false | _ => (length l <=? 1000)%nat && forallb ltree_char l end.
(** [text::ltree] *)
Definition ltree_in (s : string) : outcome sql_error ltree :=
  match chars s with
  | [] => Ok []
  | l => if forallb ltree_label (split_on 46 l) then Ok (split_on 46 l) else Err SyntaxError
  end.

(** [is_prefix p q]: [q <@ p]. *)
Fixpoint is_prefix (p q : ltree) : bool :=
  match p, q with
  | [], _ => true
  | l :: p, k :: q => bool_decide (l = k) && is_prefix p q
  | _, _ => false
  end.
Lemma is_prefix_spec p q : is_prefix p q = true ↔ p `prefix_of` q.
Proof.
  revert q. induction p as [|l p IH]; intros [|k q]; simpl.
  - split; [intros _; by exists []|done].
  - split; [intros _; by exists (k :: q)|done].
  - split; [done|]. by intros [r ?].
  - rewrite andb_true_iff, bool_decide_eq_true, IH. split.
    + intros [-> Hp]. by apply prefix_cons.
    + intros Hp. split; [by eapply prefix_cons_inv_1|by eapply prefix_cons_inv_2].
Qed.

(** Lexicographic order. *)
Fixpoint lex_compare {A} (cmp : A → A → comparison) (l k : list A) : comparison :=
  match l, k with
  | [], [] => Eq
  | [], _ => Lt
  | _, [] => Gt
  | x :: l, y :: k => match cmp x y with Eq => lex_compare cmp l k | c => c end
  end.
Definition path_compare : ltree → ltree → comparison := lex_compare (lex_compare Z.compare).
Definition path_le (p q : ltree) : Prop := path_compare p q ≠ Gt.
#[export] Instance path_le_dec : RelDecision path_le.
Proof. intros p q. unfold path_le. destruct (path_compare p q); (by left) || (by right; auto). Defined.

(** A comparison that is a total order. *)
Record ordering {A} (cmp : A → A → comparison) : Prop := {
  ord_eq x y : cmp x y = Eq ↔ x = y;
  ord_flip x y : cmp y x = CompOpp (cmp x y);
  ord_trans x y z : cmp x y = Lt → cmp y z = Lt → cmp x z = Lt }.
Lemma Z_ordering : ordering Z.compare.
Proof.
  split; [apply Z.compare_eq_iff|intros x y; apply Z.compare_antisym|].
  intros x y z. rewrite !Z.compare_lt_iff. lia.
Qed.
Lemma lex_ordering {A} (cmp : A → A → comparison) : ordering cmp → ordering (lex_compare cmp).
Proof.
  intros [Heq Hflip Htrans]. split.
  - induction x as [|x l IH]; intros [|y k]; simpl; [done..|].
    destruct (cmp x y) eqn:E.
    + apply Heq in E as ->. rewrite IH. naive_solver.
    + split; [done|]. intros [= -> ->]. by rewrite (proj2 (Heq y y)) in E.
    + split; [done|]. intros [= -> ->]. by rewrite (proj2 (Heq y y)) in E.
  - induction x as [|x l IH]; intros [|y k]; simpl; [done..|]. rewrite (Hflip x y).
    destruct (cmp x y); simpl; [apply IH|done|done].
  - induction x as [|x l IH]; intros [|y k] [|z m]; simpl; try done.
    destruct (cmp x y) eqn:E1, (cmp y z) eqn:E2; try done.
    + apply Heq in E1 as ->, E2 as ->. rewrite (proj2 (Heq z z)) by done. apply IH.
    + apply Heq in E1 as ->. by rewrite E2.
    + apply Heq in E2 as ->. by rewrite E1.
    + by rewrite (Htrans _ _ _ E1 E2).
Qed.
Lemma path_ordering : ordering path_compare.
Proof. apply lex_ordering, lex_ordering, Z_ordering. Qed.
#[export] Instance path_le_total : Total path_le.
Proof.
  intros p q. unfold path_le. rewrite (ord_flip _ path_ordering p q).
  destruct (path_compare p q); simpl; auto.
Qed.
#[export] Instance path_le_trans : Transitive path_le.
Proof.
  destruct path_ordering as [Heq Hflip Htrans]. intros p q r. unfold path_le.
  destruct (path_compare p q) eqn:E1; [apply Heq in E1 as ->; done| |done].
  destruct (path_compare q r) eqn:E2; [apply Heq in E2 as ->; by rewrite E1| |done].
  by rewrite (Htrans _ _ _ E1 E2).
Qed.

(** ** Rows *)

Section rows.
Context `{Externals}.

Record CategoryRow := {
  ca_id : Uuid; ca_created_at : Z; ca_updated_at : option Z; ca_name : string; ca_slug : string;
  ca_path : ltree; ca_parent_id : option Uuid; ca_depth : Z; ca_description : option string }.
(** With [path::text]. *)
Record CategoryEntity := {
  ce_id : Uuid; ce_created_at : Z; ce_updated_at : option Z; ce_name : string; ce_slug : string;
  ce_path : string; ce_parent_id : option Uuid; ce_depth : Z; ce_description : option string }.

Record BrandEntity := {
  br_id : Uuid; br_created_at : Z; br_updated_at : option Z; br_name : string; br_slug : string;
  br_description : option string; br_logo_url : option string }.
Record BrandCategoryEntity := { bc_brand_id : Uuid; bc_category_id : Uuid }.

Record ProductRow := {
  pd_id : Uuid; pd_created_at : Z; pd_updated_at : option Z; pd_deleted_at : option Z; pd_seller_id : Uuid;
  pd_name : string; pd_slug : string; pd_description : option string; pd_base_price : Decimal;
  pd_currency : string; pd_category_id : option Uuid; pd_brand_id : option Uuid; pd_status : ProductStatus }.
(** The columns of the product ([p.*]), and the joined names. *)
Record ProductEntity := {
  pe_product : ProductRow; pe_category_name : option string; pe_category_slug : option string;
  pe_brand_name : option string; pe_brand_slug : option string }.
Record ProductListEntity := {
  pl_id : Uuid; pl_created_at : Z; pl_seller_id : Uuid; pl_name : string; pl_slug : string;
  pl_base_price : Decimal; pl_currency : string; pl_category_id : option Uuid; pl_brand_id : option Uuid;
  pl_status : ProductStatus; pl_category_name : option string; pl_brand_name : option string;
  pl_image_url : option string }.
Record ProductImageEntity := {
  im_id : Uuid; im_created_at : Z; im_product_id : Uuid; im_url : string; im_alt_text : option string;
  im_sort_order : Z; im_is_primary : bool }.
(** The product and the JSON arrays of its SKUs and images. *)
Record ProductDetailRow := { dr_product : ProductEntity; dr_skus_json : Value; dr_images_json : Value }.

Record shop_tables := MkShopTables {
  st_categories : list CategoryRow;
  st_brands : list BrandEntity;
  st_brand_categories : list BrandCategoryEntity;
  st_products : list ProductRow;
  st_images : list ProductImageEntity }.
End rows.
