(* ===== verification/Inventory.v ===== *)
(** * Catalog service: inventory reservations

    catalog/src/inventory (entities, repository, service) and the catalog's event
    handler (catalog/src/consumers). A SKU has its stock and the quantity reserved by
    orders in flight; a reservation belongs to one order and one SKU. *)

From S2P Require Import Prelude RustStr Externals Errors Events Db Outbox Consumer Labels ShopTables.

Local Open Scope Z_scope.

Inductive ReservationStatus : Type := Reserved | Released | Confirmed.
#[export] Instance ReservationStatus_eq_dec : EqDecision ReservationStatus.
Proof. solve_decision. Defined.
Definition reservation_status_str (s : ReservationStatus) : string :=
  match s with Reserved => "reserved" | Released => "released" | Confirmed => "confirmed" end.

Section inventory.
Context `{Externals}.

(** A row of [skus]: [SkuEntity] of products/entities.rs. *)
Record SkuRow := MkSku {
  sku_id : Uuid; sku_created_at : Z; sku_updated_at : option Z; sku_deleted_at : option Z;
  sku_product_id : Uuid; sku_code : string; sku_price : Decimal; stock_quantity : Z;
  reserved_quantity : Z; sku_attributes : Value; sku_status : SkuStatus }.

Record InventoryReservationEntity := MkReservation {
  rs_id : Uuid; rs_created_at : Z; rs_order_id : Uuid; rs_sku_id : Uuid; rs_quantity : Z;
  rs_status : ReservationStatus; rs_released_at : option Z; rs_confirmed_at : option Z }.

Record SkuAvailabilityRow := {
  av_sku_id : Uuid; av_product_id : Uuid; av_sku_code : string; av_stock_quantity : Z;
  av_reserved_quantity : Z; av_available_quantity : Z }.

(** The tables of the catalog database; those of the pages of the shop are one field. *)
Record catalog_tables := MkCatalogTables {
  ct_skus : list SkuRow;
  ct_reservations : list InventoryReservationEntity;
  ct_outbox : list OutboxEvent;
  ct_processed : list ProcessedEvent;
  ct_shop : shop_tables }.

#[export, program] Instance catalog_outbox : OutboxTables catalog_tables := {|
  outbox_events := ct_outbox;
  set_outbox_events l t := MkCatalogTables (ct_skus t) (ct_reservations t) l (ct_processed t) (ct_shop t);
  processed_events := ct_processed;
  set_processed_events l t := MkCatalogTables (ct_skus t) (ct_reservations t) (ct_outbox t) l (ct_shop t);
|}.
Solve All Obligations with done.

Definition set_skus (l : list SkuRow) (t : catalog_tables) : catalog_tables :=
  MkCatalogTables l (ct_reservations t) (ct_outbox t) (ct_processed t) (ct_shop t).
Definition set_reservations (l : list InventoryReservationEntity) (t : catalog_tables)
    : catalog_tables := MkCatalogTables (ct_skus t) l (ct_outbox t) (ct_processed t) (ct_shop t).

Abbreviation tx := (M (conn catalog_tables)).

(** ** Statements *)

Definition has_sku (id : Uuid) (s : SkuRow) : bool := bool_decide (sku_id s = id).
(** [WHERE id = .. AND deleted_at IS NULL] *)
Definition live_sku (id : Uuid) (s : SkuRow) : bool :=
  has_sku id s && match sku_deleted_at s with None => true | Some _ => false end.

(** [UPDATE skus SET stock_quantity = stock, reserved_quantity = reserved, updated_at =
    NOW()], with the column types and the checks of the table, which are tried by name. *)
Definition set_quantities (stock reserved now : Z) (s : SkuRow) : outcome sql_error SkuRow :=
  stock ← int4 stock;
  reserved ← int4 reserved;
  _ ← check_constraint "chk_reserved_quantity" (0 <=? reserved);
  _ ← check_constraint "chk_skus_stock" (0 <=? stock);
  Ok (MkSku (sku_id s) (sku_created_at s) (Some now) (sku_deleted_at s) (sku_product_id s) (sku_code s)
        (sku_price s) stock reserved (sku_attributes s) (sku_status s)).

Definition update_skus (p : SkuRow → bool) (f : SkuRow → outcome sql_error SkuRow)
    (t : catalog_tables) : outcome sql_error (nat * catalog_tables) :=
  '(n, l) ← update_checked p f (ct_skus t);
  Ok (n, set_skus l t).

(** [INSERT INTO inventory_reservations (order_id, sku_id, quantity)] *)
Definition insert_reservation_row (order_id sku : Uuid) (quantity now : Z) (id : Uuid)
    (t : catalog_tables) : outcome sql_error (unit * catalog_tables) :=
  _ ← check_constraint "chk_reservation_quantity" (0 <? quantity);
  _ ← unique "inventory_reservations_pkey" (λ r, bool_decide (rs_id r = id)) (ct_reservations t);
  _ ← unique "uq_reservation_order_sku"
        (λ r, bool_decide (rs_order_id r = order_id) && bool_decide (rs_sku_id r = sku))
        (ct_reservations t);
  _ ← foreign_key "inventory_reservations_sku_id_fkey" (has_sku sku) (ct_skus t);
  Ok (tt, set_reservations (ct_reservations t ++
        [MkReservation id now order_id sku quantity Reserved None None]) t).

(** [status = 'reserved'] reservations of an order. *)
Definition is_reserved (r : InventoryReservationEntity) : bool := bool_decide (rs_status r = Reserved).
Definition of_order (order_id : Uuid) (r : InventoryReservationEntity) : bool :=
  bool_decide (rs_order_id r = order_id).
Definition find_reserved (order_id sku : Uuid) (t : catalog_tables)
    : option InventoryReservationEntity :=
  List.find (λ r, of_order order_id r && bool_decide (rs_sku_id r = sku) && is_reserved r)
    (ct_reservations t).

Definition close_reservation (st : ReservationStatus) (now : Z)
    (r : InventoryReservationEntity) : InventoryReservationEntity :=
  MkReservation (rs_id r) (rs_created_at r) (rs_order_id r) (rs_sku_id r) (rs_quantity r) st
    (if decide (st = Released) then Some now else rs_released_at r)
    (if decide (st = Confirmed) then Some now else rs_confirmed_at r).

(** [UPDATE inventory_reservations SET status = .. WHERE id = ..] *)
Definition update_reservation (id : Uuid) (st : ReservationStatus) (now : Z) (_ : Uuid)
    (t : catalog_tables) : outcome sql_error (unit * catalog_tables) :=
  Ok (tt, set_reservations
    (update_where (λ r, bool_decide (rs_id r = id)) (close_reservation st now)
       (ct_reservations t)) t).

(** ** Repository *)

Definition ise {A} (what : string) (m : tx sql_error A) : tx AppError A :=
  map_err (λ e, InternalServerError (what +:+ ": " +:+ sqlx_display e)) m.

Definition reserve_stmt (sku : Uuid) (quantity now : Z) (_ : Uuid) (t : catalog_tables)
    : outcome sql_error (nat * catalog_tables) :=
  update_skus
    (λ s, live_sku sku s && (quantity <=? stock_quantity s - reserved_quantity s))
    (λ s, set_quantities (stock_quantity s) (reserved_quantity s + quantity) now s) t.

Definition reserve_inventory (order_id sku : Uuid) (quantity : Z) : tx AppError unit :=
  affected ← ise "Failed to reserve inventory" (exec (reserve_stmt sku quantity));
  if (affected =? 0)%nat then
    fail (BadRequest ("Insufficient stock for SKU " +:+ uuid_to_string sku))
  else
    ise "Failed to insert reservation" (exec (insert_reservation_row order_id sku quantity)).

Definition release_stmt (sku : Uuid) (quantity now : Z) (_ : Uuid) (t : catalog_tables)
    : outcome sql_error (nat * catalog_tables) :=
  update_skus (live_sku sku)
    (λ s, set_quantities (stock_quantity s) (reserved_quantity s - quantity) now s) t.

Definition find_reservation (order_id sku : Uuid) : tx AppError InventoryReservationEntity :=
  map_err (λ e, NotFound ("Reservation not found: " +:+ sqlx_display e))
    (fetch_one (find_reserved order_id sku)).

Definition release_reservation (order_id sku : Uuid) : tx AppError unit :=
  reservation ← find_reservation order_id sku;
  _ ← ise "Failed to release reserved stock" (exec (release_stmt sku (rs_quantity reservation)));
  ise "Failed to release reservation" (exec (update_reservation (rs_id reservation) Released)).

Definition confirm_stmt (sku : Uuid) (quantity now : Z) (_ : Uuid) (t : catalog_tables)
    : outcome sql_error (nat * catalog_tables) :=
  update_skus (live_sku sku)
    (λ s, set_quantities (stock_quantity s - quantity) (reserved_quantity s - quantity) now s) t.

Definition confirm_error (sku : Uuid) (e : sql_error) : AppError :=
  if bool_decide (e = CheckViolation "chk_skus_stock") then
    BadRequest ("Cannot confirm reservation for SKU " +:+ uuid_to_string sku +:+
                ": stock was reduced below reserved quantity")
  else InternalServerError ("Failed to confirm stock: " +:+ sqlx_display e).

Definition confirm_reservation (order_id sku : Uuid) : tx AppError unit :=
  reservation ← find_reservation order_id sku;
  _ ← map_err (confirm_error sku) (exec (confirm_stmt sku (rs_quantity reservation)));
  ise "Failed to confirm reservation" (exec (update_reservation (rs_id reservation) Confirmed)).

Definition release_all_reservations (order_id : Uuid) : tx AppError unit :=
  reservations ← ise "Failed to find reservations"
    (query (λ t, List.filter (λ r, of_order order_id r && is_reserved r) (ct_reservations t)));
  for_each reservations (λ r, release_reservation order_id (rs_sku_id r)).

(** The view [sku_availability]. *)
Definition sku_availability (t : catalog_tables) : list SkuAvailabilityRow :=
  (λ s, {| av_sku_id := sku_id s; av_product_id := sku_product_id s; av_sku_code := sku_code s;
           av_stock_quantity := stock_quantity s; av_reserved_quantity := reserved_quantity s;
           av_available_quantity := stock_quantity s - reserved_quantity s |})
  <$> List.filter (λ s, match sku_deleted_at s with None => true | _ => false end) (ct_skus t).

Definition get_sku_availability (sku : Uuid) : tx AppError SkuAvailabilityRow :=
  map_err (λ e, NotFound ("SKU availability not found: " +:+ sqlx_display e))
    (fetch_one (λ t, List.find (λ a, bool_decide (av_sku_id a = sku)) (sku_availability t))).

Definition get_reservation (order_id sku : Uuid)
    : tx AppError (option InventoryReservationEntity) :=
  ise "Failed to get reservation"
    (query (λ t, List.find (λ r, of_order order_id r && bool_decide (rs_sku_id r = sku))
                   (ct_reservations t))).

(** ** Service *)

Definition ReservationItem : Type := Uuid * Z.

Definition reserved_payload (order_id buyer_id : Uuid) (total_amount currency : string)
    (items : list ReservationItem) : Value :=
  jobj [("order_id", jstr (uuid_to_string order_id));
        ("buyer_id", jstr (uuid_to_string buyer_id));
        ("total_amount", jstr total_amount);
        ("currency", jstr currency);
        ("items", jarr ((λ i : ReservationItem,
           jobj [("sku_id", jstr (uuid_to_string i.1)); ("quantity", jint i.2)]) <$> items))].

Definition do_reserve_and_write_event (order_id buyer_id : Uuid) (total_amount currency : string)
    (items : list ReservationItem) : tx AppError unit :=
  _ ← for_each items (λ i : ReservationItem, reserve_inventory order_id i.1 i.2);
  write_event "catalog.events" InventoryReserved AggInventory order_id Catalog None
    (reserved_payload order_id buyer_id total_amount currency items).

Definition failed_payload (order_id : Uuid) (reason : string) : Value :=
  jobj [("order_id", jstr (uuid_to_string order_id)); ("reason", jstr reason)].

Definition write_reservation_failed_on_pool (order_id : Uuid) (reason : string)
    : M (db catalog_tables unit) AppError unit :=
  map_err (λ e, InternalServerError ("Failed to write event: " +:+ tx_error_display e))
    (with_transaction (map_err tx_of_app
       (write_event "catalog.events" InventoryReservationFailed AggInventory order_id Catalog None
          (failed_payload order_id reason)))).

Definition reserve_for_order_on_tx (order_id buyer_id : Uuid) (total_amount currency : string)
    (items : list ReservationItem) : M (session catalog_tables unit) AppError unit :=
  catch (in_tx (do_reserve_and_write_event order_id buyer_id total_amount currency items))
    mret
    (λ e, _ ← in_service (write_reservation_failed_on_pool order_id (app_error_display e));
          fail e).

Definition reserve_for_order (order_id buyer_id : Uuid) (total_amount currency : string)
    (items : list ReservationItem) : M (db catalog_tables unit) AppError unit :=
  catch (with_transaction (map_err tx_of_app
           (do_reserve_and_write_event order_id buyer_id total_amount currency items)))
    mret
    (λ e, let reason := tx_error_display e in
          _ ← write_reservation_failed_on_pool order_id reason;
          fail (BadRequest reason)).

Definition release_for_order_on_tx (order_id : Uuid) : tx AppError unit :=
  release_all_reservations order_id.

Definition release_for_order (order_id : Uuid) : M (db catalog_tables unit) AppError unit :=
  map_err (λ e, InternalServerError ("Failed to release inventory: " +:+ tx_error_display e))
    (with_transaction (map_err tx_of_app (release_all_reservations order_id))).

Definition confirm_for_order (order_id : Uuid) (items : list ReservationItem)
    : M (db catalog_tables unit) AppError unit :=
  map_err (λ e, InternalServerError ("Failed to confirm inventory: " +:+ tx_error_display e))
    (with_transaction (for_each items (λ i : ReservationItem,
       map_err tx_of_app (confirm_reservation order_id i.1)))).

(** ** Event handler *)


Definition parse_item (item : Value) : outcome HandlerError ReservationItem :=
  sku ← ok_or (Permanent "Invalid sku_id in item")
          (s ← as_str (jindex item "sku_id"); uuid_parse s);
  quantity ← ok_or (Permanent "Missing quantity in item") (as_i64 (jindex item "quantity"));
  Ok (sku, as_i32 quantity).

Fixpoint omap_all {E A B} (f : A → outcome E B) (l : list A) : outcome E (list B) :=
  match l with
  | [] => Ok []
  | x :: l => y ← f x; ys ← omap_all f l; Ok (y :: ys)
  end.

Definition parse_items (payload : Value) : outcome HandlerError (list ReservationItem) :=
  items ← ok_or (Permanent "Missing items array in OrderCreated payload")
            (as_array (jindex payload "items"));
  omap_all parse_item items.

Definition permanent_of_app (e : AppError) : HandlerError := Permanent (app_error_display e).

Definition handle_order_created (e : EventEnvelope) : M (session catalog_tables unit) HandlerError unit :=
  order_id ← lift (omap_err permanent_of_app (payload_uuid e "order_id"));
  buyer_id ← lift (omap_err permanent_of_app (payload_uuid e "buyer_id"));
  let total_amount := default "0" (payload_str e "total_amount") in
  let currency := default "USD" (payload_str e "currency") in
  items ← lift (parse_items (env_payload e));
  map_err (λ err, Permanent ("Inventory reservation failed: " +:+ app_error_display err))
    (reserve_for_order_on_tx order_id buyer_id total_amount currency items).

(** A failure to release is only logged: there may be nothing to release. *)
Definition handle_order_cancelled (e : EventEnvelope) : tx AppError unit :=
  order_id ← lift (payload_uuid e "order_id");
  catch (release_for_order_on_tx order_id) mret (λ _, mret tt).

Definition catalog_handler : handler (T := catalog_tables) (X := unit) := λ e,
  match em_event_type (env_metadata e) with
  | OrderCreated => handle_order_created e
  | OrderCancelled => map_err handler_of_app (in_tx (handle_order_cancelled e))
  | _ => mret tt
  end.
End inventory.
