(* ===== verification/InventoryProps.v ===== *)
(** * Catalog inventory: correctness

    The reserved quantity of every live SKU is the sum of its open reservations, along
    any sequence of requests and events with any faults; reserving an order is all or
    nothing and keeps a SKU within its stock; releasing gives back exactly what was reserved. *)

From S2P Require Import Prelude RustStr Externals Sample Errors Events Db Outbox Consumer.
From S2P Require Import ConsumerProps Labels ShopTables Inventory.

Local Open Scope Z_scope.

Section facts.
Context `{Externals}.
Implicit Types (t : catalog_tables) (s : SkuRow) (r : InventoryReservationEntity).

Definition is_live s : bool := match sku_deleted_at s with None => true | Some _ => false end.

(** The open reservations of a SKU. *)
Definition open_quantity (sku : Uuid) (rs : list InventoryReservationEntity) : Z :=
  zsum (rs_quantity <$> List.filter (λ r, bool_decide (rs_sku_id r = sku) && is_reserved r) rs).

(** ** The invariant *)

Definition sku_ok (rs : list InventoryReservationEntity) s : Prop :=
  is_live s = true → reserved_quantity s = open_quantity (sku_id s) rs.
Definition reservations_ok (rs : list InventoryReservationEntity) : Prop :=
  NoDup (rs_id <$> rs) ∧ NoDup ((λ r, (rs_order_id r, rs_sku_id r)) <$> rs) ∧
  Forall (λ r, 0 < rs_quantity r) rs.
Definition inventory_ok t : Prop :=
  NoDup (sku_id <$> ct_skus t) ∧ reservations_ok (ct_reservations t) ∧
  Forall (sku_ok (ct_reservations t)) (ct_skus t).

(** The live SKU [id] has not promised more than its stock. *)
Definition within (id : Uuid) t : Prop :=
  Forall (λ s, live_sku id s = true → reserved_quantity s ≤ stock_quantity s) (ct_skus t).

(** ** The effect of one statement on a SKU *)

Definition with_quantities (stock reserved now : Z) s : SkuRow :=
  MkSku (sku_id s) (sku_created_at s) (Some now) (sku_deleted_at s) (sku_product_id s) (sku_code s)
    (sku_price s) stock reserved (sku_attributes s) (sku_status s).

Lemma set_quantities_ok stock reserved now s s' :
  set_quantities stock reserved now s = Ok s' →
  s' = with_quantities stock reserved now s ∧ 0 ≤ stock ∧ 0 ≤ reserved.
Proof.
  unfold set_quantities. intros Hr.
  apply obind_ok in Hr as (a & [-> _]%int4_ok & Hr).
  apply obind_ok in Hr as (b & [-> _]%int4_ok & Hr).
  apply obind_ok in Hr as ([] & Hc1%check_constraint_ok & Hr).
  apply obind_ok in Hr as ([] & Hc2%check_constraint_ok & Hr).
  apply Z.leb_le in Hc1, Hc2. simplify_eq. done.
Qed.

(** [moved_sku sku dstock dres]: the live row of [sku], and only it, moved by the given
    amounts. *)
Definition same_goods s s' : Prop :=
  sku_product_id s' = sku_product_id s ∧ sku_code s' = sku_code s ∧ sku_price s' = sku_price s ∧
  0 ≤ stock_quantity s'.
Definition moved_sku (sku : Uuid) (dstock dres : Z) s s' : Prop :=
  sku_id s' = sku_id s ∧ sku_deleted_at s' = sku_deleted_at s ∧
  (if live_sku sku s then
     stock_quantity s' = stock_quantity s + dstock ∧
     reserved_quantity s' = reserved_quantity s + dres ∧ same_goods s s'
   else s' = s).

Lemma update_skus_ok p f t n t' :
  update_skus p f t = Ok (n, t') →
  n = length (List.filter p (ct_skus t)) ∧
  ∃ l, t' = set_skus l t ∧
    Forall2 (λ s s', if p s then f s = Ok s' else s' = s) (ct_skus t) l.
Proof.
  unfold update_skus. intros Hr. apply obind_ok in Hr as ([n' l] & Hu & Hr). simplify_eq.
  apply update_checked_ok in Hu as [-> Hl]. eauto.
Qed.

Lemma live_sku_iff sku s : live_sku sku s = true ↔ sku_id s = sku ∧ is_live s = true.
Proof.
  unfold live_sku, has_sku, is_live. rewrite andb_true_iff, bool_decide_eq_true. done.
Qed.

Lemma moved_all sku dstock dres now t n t' (f : SkuRow → outcome sql_error SkuRow) :
  (∀ s, f s = set_quantities (stock_quantity s + dstock) (reserved_quantity s + dres) now s) →
  update_skus (live_sku sku) f t = Ok (n, t') →
  ∃ l, t' = set_skus l t ∧ Forall2 (moved_sku sku dstock dres) (ct_skus t) l.
Proof.
  intros Hf Hr. apply update_skus_ok in Hr as (_ & l & -> & Hl). exists l. split; [done|].
  eapply Forall2_impl; [exact Hl|]. intros s s' Hs. cbv beta in Hs. unfold moved_sku.
  destruct (live_sku sku s); [|by subst].
  rewrite Hf in Hs. apply set_quantities_ok in Hs as (-> & ? & _). by split_and!.
Qed.

(** With unique ids, a guarded update that hits some row hits the live row of the SKU. *)
Lemma unique_sku_guard sku (g : SkuRow → bool) l :
  NoDup (sku_id <$> l) →
  length (List.filter (λ s, live_sku sku s && g s) l) ≠ 0%nat →
  ∀ s, s ∈ l → live_sku sku s = true → g s = true.
Proof.
  intros Hnd Hlen s Hin Hs. induction l as [|x l IH]; [by apply elem_of_nil in Hin|].
  rewrite fmap_cons, NoDup_cons in Hnd. destruct Hnd as [Hx Hnd]. simpl in Hlen.
  destruct (live_sku sku x && g x) eqn:Ex.
  - apply andb_true_iff in Ex as [Hlx Hgx]. apply elem_of_cons in Hin as [->|Hin]; [done|].
    exfalso. apply Hx. apply live_sku_iff in Hlx as [Hlx _], Hs as [Hs _].
    rewrite Hlx, <-Hs. by apply list_elem_of_fmap_2.
  - apply elem_of_cons in Hin as [->|Hin]; [|by apply IH].
    exfalso. rewrite Hs in Ex. simpl in Ex.
    assert (List.filter (λ s, live_sku sku s && g s) l = []) as Hnil; [|by rewrite Hnil in Hlen].
    clear -Hx Hs. induction l as [|y l IH]; [done|]. simpl.
    rewrite fmap_cons, not_elem_of_cons in Hx. destruct Hx as [Hxy Hx].
    destruct (live_sku sku y) eqn:Ey; simpl; [|by apply IH].
    exfalso. apply Hxy. apply live_sku_iff in Ey as [-> _], Hs as [-> _]. done.
Qed.

(** ** Open reservations after an insertion and after a closure *)

Lemma open_quantity_insert sku rs r :
  is_reserved r = true →
  open_quantity sku (rs ++ [r]) =
    open_quantity sku rs + (if decide (sku = rs_sku_id r) then rs_quantity r else 0).
Proof.
  intros Hr. unfold open_quantity. rewrite List.filter_app, fmap_app, zsum_app. f_equal.
  simpl. rewrite Hr, andb_true_r. case_decide as Hd.
  - rewrite bool_decide_true by done. unfold zsum. simpl. lia.
  - rewrite bool_decide_false by congruence. done.
Qed.

Lemma open_quantity_close sku rs r st now :
  NoDup (rs_id <$> rs) → r ∈ rs → is_reserved r = true → st ≠ Reserved →
  open_quantity sku
    (update_where (λ x, bool_decide (rs_id x = rs_id r)) (close_reservation st now) rs) =
    open_quantity sku rs - (if decide (sku = rs_sku_id r) then rs_quantity r else 0).
Proof.
  intros Hnd Hin Hr Hst. unfold open_quantity. induction rs as [|x rs IH].
  { by apply elem_of_nil in Hin. }
  rewrite fmap_cons, NoDup_cons in Hnd. destruct Hnd as [Hx Hnd].
  unfold update_where in *. rewrite fmap_cons. apply elem_of_cons in Hin as [->|Hin].
  - rewrite bool_decide_true by done.
    assert ((λ y, if bool_decide (rs_id y = rs_id x) then close_reservation st now y else y) <$> rs
      = rs) as ->.
    { clear -Hx. induction rs as [|y rs IH]; [done|].
      rewrite fmap_cons, not_elem_of_cons in Hx. destruct Hx as [Hxy Hx].
      rewrite fmap_cons, IH by done. by rewrite bool_decide_false by congruence. }
    cbn [List.filter]. unfold is_reserved in *. simpl.
    rewrite (bool_decide_false (st = Reserved)) by done. rewrite Hr, andb_false_r, andb_true_r.
    case_decide as Hd.
    + rewrite bool_decide_true by done. rewrite fmap_cons, zsum_cons. lia.
    + rewrite bool_decide_false by congruence. lia.
  - specialize (IH Hnd Hin).
    rewrite (bool_decide_false (rs_id x = rs_id r)).
    2:{ intros E. apply Hx. rewrite E. by apply list_elem_of_fmap_2. }
    cbn [List.filter]. destruct (bool_decide (rs_sku_id x = sku) && is_reserved x); [|exact IH].
    rewrite !fmap_cons, !zsum_cons. rewrite IH. simpl. lia.
Qed.

(** ** The effects of the operations *)

(** Reserving: the live SKU had the quantity available; it is now reserved, with a new
    open reservation of the order. *)
Definition reserve_effect (oid sku : Uuid) (q : Z) t t' : Prop :=
  ∃ l r, t' = MkCatalogTables l (ct_reservations t ++ [r]) (ct_outbox t) (ct_processed t) (ct_shop t) ∧
    Forall2 (moved_sku sku 0 q) (ct_skus t) l ∧
    (∃ s, s ∈ ct_skus t ∧ live_sku sku s = true) ∧
    (∀ s, s ∈ ct_skus t → live_sku sku s = true → q ≤ stock_quantity s - reserved_quantity s) ∧
    is_reserved r = true ∧ rs_order_id r = oid ∧ rs_sku_id r = sku ∧ rs_quantity r = q ∧ 0 < q ∧
    (rs_id r ∉ (rs_id <$> ct_reservations t)) ∧
    (oid, sku) ∉ ((λ r, (rs_order_id r, rs_sku_id r)) <$> ct_reservations t).

(** Closing a reservation, as released or confirmed. *)
Definition close_effect (oid sku : Uuid) (st : ReservationStatus) t t' : Prop :=
  ∃ l r now, find_reserved oid sku t = Some r ∧
    t' = MkCatalogTables l
           (update_where (λ x, bool_decide (rs_id x = rs_id r)) (close_reservation st now)
              (ct_reservations t)) (ct_outbox t) (ct_processed t) (ct_shop t) ∧
    Forall2 (moved_sku sku (if decide (st = Confirmed) then - rs_quantity r else 0)
               (- rs_quantity r)) (ct_skus t) l.

Lemma find_reserved_some oid sku t r :
  find_reserved oid sku t = Some r →
  r ∈ ct_reservations t ∧ rs_order_id r = oid ∧ rs_sku_id r = sku ∧ is_reserved r = true.
Proof.
  intros [Hin Hp]%find_some. rewrite !andb_true_iff in Hp. destruct Hp as [[Ho Hs] Hr].
  apply bool_decide_eq_true in Ho, Hs. rewrite list_elem_of_In. done.
Qed.

Lemma insert_reservation_ok oid sku q now id t u t' :
  insert_reservation_row oid sku q now id t = Ok (u, t') →
  t' = set_reservations (ct_reservations t ++ [MkReservation id now oid sku q Reserved None None]) t ∧
  0 < q ∧ (id ∉ (rs_id <$> ct_reservations t)) ∧
  (oid, sku) ∉ ((λ r, (rs_order_id r, rs_sku_id r)) <$> ct_reservations t).
Proof.
  unfold insert_reservation_row. intros Hr.
  apply obind_ok in Hr as ([] & Hq%check_constraint_ok & Hr).
  apply obind_ok in Hr as ([] & Hi%unique_ok & Hr).
  apply obind_ok in Hr as ([] & Ho%unique_ok & Hr).
  apply obind_ok in Hr as ([] & _ & Hr). simplify_eq. apply Z.ltb_lt in Hq.
  split_and!; [done|done| |].
  - eapply existsb_false_fmap; [|exact Hi]. intros x Hx. exact (bool_decide_eq_true_2 _ Hx).
  - eapply existsb_false_fmap; [|exact Ho]. intros x Hx. injection Hx as Hx1 Hx2. cbv beta.
    by rewrite Hx1, Hx2, !bool_decide_true by done.
Qed.

Lemma reserve_inventory_ok oid sku q c u c' :
  NoDup (sku_id <$> ct_skus (c_tables c)) →
  reserve_inventory oid sku q c = (Ok u, c') →
  reserve_effect oid sku q (c_tables c) (c_tables c') ∧ c_status c' = TxActive.
Proof.
  unfold reserve_inventory, ise. intros Hnd Hr.
  apply bind_ok in Hr as (n & c1 & H1 & Hr). apply map_err_ok in H1.
  apply exec_ok in H1 as (_ & _ & _ & id & E). unfold reserve_stmt in E.
  apply update_skus_ok in E as (Hn & l & Et & Hl).
  destruct (Nat.eqb_spec n 0) as [|Hne]; [done|]. subst n.
  pose proof (unique_sku_guard _ _ _ Hnd Hne) as Hg.
  apply map_err_ok in Hr. apply exec_ok in Hr as (_ & Hs & _ & id' & E).
  apply insert_reservation_ok in E as (Et' & Hq & Hid & Hpair).
  rewrite Et in *. simpl in *. split; [|done].
  eexists l, _. split; [exact Et'|]. split; [|split; [|split]].
  - eapply Forall2_impl_in; [exact Hl|]. intros s s' Hin Hx. cbv beta in Hx. unfold moved_sku.
    destruct (live_sku sku s) eqn:El; simpl in Hx; [|by subst].
    rewrite (Hg s Hin El) in Hx. apply set_quantities_ok in Hx as (-> & ? & _). simpl.
    split_and!; done || lia.
  - destruct (List.filter _ _) as [|s fs] eqn:Ef; [done|]. exists s.
    assert (In s (s :: fs)) as Hin by by left. rewrite <-Ef in Hin. apply filter_In in Hin as [Hin Hp].
    apply andb_true_iff in Hp as [Hp _]. by rewrite list_elem_of_In.
  - intros s Hin El. specialize (Hg s Hin El). by apply Z.leb_le in Hg.
  - split_and!; done.
Qed.

(** ** Invariants of the effects *)

Lemma open_quantity_nonneg sku rs : Forall (λ r, 0 < rs_quantity r) rs → 0 ≤ open_quantity sku rs.
Proof.
  unfold open_quantity. induction 1 as [|r rs Hr _ IH]; simpl; [done|].
  case_match; [rewrite fmap_cons, zsum_cons; lia|done].
Qed.

Lemma moved_ids sku ds dr l l' :
  Forall2 (moved_sku sku ds dr) l l' → sku_id <$> l' = sku_id <$> l.
Proof. induction 1 as [|s s' l l' (E & _) _ IH]; [done|]. rewrite !fmap_cons, IH. by rewrite E. Qed.

(** The rows keep matching their open reservations when the live row of the SKU moves by
    as much as its open quantity does. *)
Lemma moved_skus_ok sku ds dr rs rs' l l' :
  Forall2 (moved_sku sku ds dr) l l' →
  (∀ x, open_quantity x rs' = open_quantity x rs + (if decide (x = sku) then dr else 0)) →
  Forall (sku_ok rs) l → Forall (sku_ok rs') l'.
Proof.
  intros Hl Ho Hok. eapply Forall2_Forall_r; [exact Hl|]. eapply Forall_impl; [exact Hok|].
  intros s Hs s' (Hid & Hdel & Hm). unfold sku_ok, is_live in *. rewrite Hid, Hdel, Ho. intros Hlive.
  specialize (Hs Hlive). case_decide as Hd.
  - assert (live_sku sku s = true) as El by by apply live_sku_iff.
    rewrite El in Hm. lia.
  - destruct (live_sku sku s) eqn:El; [|subst s'; lia].
    apply live_sku_iff in El as [El _]. done.
Qed.

Lemma reserve_effect_stocked oid sku q t t' :
  reserve_effect oid sku q t t' →
  (inventory_ok t → inventory_ok t') ∧ (∀ id, within id t → within id t').
Proof.
  intros (l & r & -> & Hl & _ & Hg & Hr & Ho & Hs & Hq & Hpos & Hid & Hpair). split.
  - intros (Hnd & (Hrid & Hop & Hqty) & Hok). unfold inventory_ok, reservations_ok. simpl.
    split_and!.
    + by rewrite (moved_ids _ _ _ _ _ Hl).
    + rewrite fmap_app. apply NoDup_app. split_and!; [done| |apply NoDup_singleton].
      by intros x Hx ->%list_elem_of_singleton.
    + rewrite fmap_app. apply NoDup_app. split_and!; [done| |apply NoDup_singleton].
      intros x Hx ->%list_elem_of_singleton. subst. done.
    + apply Forall_app. split; [done|]. repeat constructor. lia.
    + eapply moved_skus_ok; [exact Hl| |exact Hok]. intros x.
      rewrite open_quantity_insert by done. by rewrite Hs, Hq.
  - intros x Hno. unfold within in *. simpl. eapply Forall2_Forall_r; [exact Hl|].
    apply Forall_forall. intros s Hin s' (Hsid & Hdel & Hm). unfold live_sku at 1, has_sku. rewrite Hsid, Hdel.
    intros Hlive. rewrite Forall_forall in Hno. specialize (Hno s Hin Hlive).
    destruct (live_sku sku s) eqn:El; [|by subst]. specialize (Hg s Hin El). lia.
Qed.

Lemma close_keeps_fields st now rs id :
  let rs' := update_where (λ x, bool_decide (rs_id x = id)) (close_reservation st now) rs in
  rs_id <$> rs' = rs_id <$> rs ∧
  (λ r, (rs_order_id r, rs_sku_id r)) <$> rs' = (λ r, (rs_order_id r, rs_sku_id r)) <$> rs ∧
  rs_quantity <$> rs' = rs_quantity <$> rs.
Proof. intros rs'. unfold rs'. by rewrite !fmap_update_where. Qed.

Lemma close_effect_stocked oid sku st t t' :
  close_effect oid sku st t t' → st ≠ Reserved → inventory_ok t →
  inventory_ok t' ∧ (∀ id, within id t → within id t').
Proof.
  intros (l & r & now & Hf & -> & Hl) Hst (Hnd & (Hrid & Hop & Hqty) & Hok).
  apply find_reserved_some in Hf as (Hin & Ho & Hs & Hr).
  destruct (close_keeps_fields st now (ct_reservations t) (rs_id r)) as (E1 & E2 & E3).
  assert (0 < rs_quantity r) as Hpos by by apply (proj1 (Forall_forall _ _) Hqty).
  split.
  - unfold inventory_ok, reservations_ok. simpl. rewrite E1, E2, (moved_ids _ _ _ _ _ Hl).
    split_and!; try done.
    + assert (Forall (λ q, 0 < q) (rs_quantity <$> ct_reservations t)) as Hq by by apply Forall_fmap.
      rewrite <-E3 in Hq. exact (proj1 (Forall_fmap _ _ _) Hq).
    + eapply moved_skus_ok; [exact Hl| |exact Hok]. intros x.
      rewrite open_quantity_close by done. rewrite Hs. destruct (decide (x = sku)); lia.
  - intros x Hno. unfold within in *. simpl. eapply Forall2_Forall_r; [exact Hl|].
    eapply Forall_impl; [exact Hno|]. intros s Hns s' (Hsid & Hdel & Hm). unfold live_sku at 1, has_sku.
    rewrite Hsid, Hdel. intros Hlive. specialize (Hns Hlive).
    destruct (live_sku sku s); [|by subst]. case_decide; lia.
Qed.

(** ** Operations and invariants

    A property of the tables that the effects of reserving and closing preserve is an
    invariant of every operation of the service, whatever fails on the way. *)

Section invariant.
Context (P : catalog_tables → Prop).
Hypothesis P_ids : ∀ t, P t → NoDup (sku_id <$> ct_skus t).
Hypothesis P_reserve : ∀ oid sku q t t', reserve_effect oid sku q t t' → P t → P t'.
Hypothesis P_close : ∀ oid sku st t t',
  close_effect oid sku st t t' → st ≠ Reserved → P t → P t'.
Hypothesis P_outbox : ∀ l t, P t → P (set_outbox_events l t).
Hypothesis P_processed : ∀ l t, P t → P (set_processed_events l t).

Lemma no_rows_affected p f t t' : update_skus p f t = Ok (0%nat, t') → t' = t.
Proof.
  intros (Hn & l & -> & Hl)%update_skus_ok.
  assert (l = ct_skus t) as ->; [|by destruct t]. induction Hl as [|s s' l l' Hs _ IH]; [done|].
  simpl in Hn. destruct (p s) eqn:Ep; [done|]. f_equal; auto.
Qed.

Lemma keeps_reserve_inventory oid sku q : keeps (safe P) (reserve_inventory oid sku q).
Proof.
  intros c o c' Hr HP Ha. pose proof Hr as Hrun. unfold reserve_inventory, ise in Hr.
  apply bind_inv in Hr as [(n & c1 & H1 & Hr)|[_ (o1 & H1 & Hno)]];
    apply map_err_inv in H1 as (o1' & H1 & E1);
    apply exec_spec in H1 as [(a & id & -> & Hs & Hs1 & E)|[Hb Hs]];
    try (by destruct o1'); simplify_eq/=.
  - destruct (Nat.eqb_spec a 0) as [->|Hne].
    + injection Hr as _ <-. apply no_rows_affected in E as ->. by apply HP.
    + apply map_err_inv in Hr as (o2 & H2 & ->).
      apply exec_spec in H2 as [([] & id' & -> & _)|[Hb Hs']]; [|done].
      apply reserve_inventory_ok in Hrun as [He _]; [|by apply P_ids, HP].
      by eapply P_reserve, HP.
Qed.

Definition close_stmts (oid sku : Uuid) (st : ReservationStatus)
    (stmt : Uuid → Z → Z → Uuid → catalog_tables → outcome sql_error (nat * catalog_tables))
    (err : sql_error → AppError) : M (conn catalog_tables) AppError unit :=
  reservation ← find_reservation oid sku;
  _ ← map_err err (exec (stmt sku (rs_quantity reservation)));
  map_err (λ e, InternalServerError ((match st with Confirmed => "Failed to confirm reservation"
    | _ => "Failed to release reservation" end) +:+ ": " +:+ sqlx_display e))
    (exec (update_reservation (rs_id reservation) st)).

Lemma close_stmts_spec oid sku st stmt err c o c' :
  st ≠ Reserved →
  (∀ q now id t n t', stmt sku q now id t = Ok (n, t') → ∃ l, t' = set_skus l t ∧
     Forall2 (moved_sku sku (if decide (st = Confirmed) then - q else 0) (- q)) (ct_skus t) l) →
  close_stmts oid sku st stmt err c = (o, c') →
  (is_ok o = true ∧ c_status c = TxActive ∧ c_status c' = TxActive ∧ close_effect oid sku st (c_tables c) (c_tables c')) ∨
  (is_ok o = false ∧
    (c_status c' = TxActive → c_tables c' = c_tables c ∧ c_status c = TxActive)).
Proof.
  intros Hst Hstmt. unfold close_stmts, find_reservation.
  intros [(r & c1 & H1 & Hr)|[Ho (o1 & H1 & Hno)]]%bind_inv; apply map_err_inv in H1 as (o1' & H1 & E1);
    apply fetch_one_spec in H1 as [(a & -> & Hf & Ht & Hs & Hs1)|[Hb Hs]];
    try (by destruct o1'); simplify_eq/=; [|by right].
  apply bind_inv in Hr as [(n & c2 & H2 & Hr)|[Ho (o2 & H2 & Hno)]]; apply map_err_inv in H2 as (o2' & H2 & E2);
    apply exec_spec in H2 as [(a' & id & -> & _ & Hs2 & E)|[Hb Hs']];
    try (by destruct o2'); simplify_eq/=; [|by right].
  apply map_err_inv in Hr as (o3 & H3 & ->).
  apply exec_spec in H3 as [([] & id' & -> & _ & Hs3 & E3)|[Hb Hs']]; [left|by right; destruct o3].
  split_and!; [done..|]. apply Hstmt in E as (l & Et & Hl). unfold update_reservation in E3.
  simplify_eq. eexists l, a, _. rewrite Et, Ht in *. simpl in *. done.
Qed.

Lemma release_reservation_spec oid sku c o c' :
  release_reservation oid sku c = (o, c') →
  (is_ok o = true ∧ c_status c = TxActive ∧ c_status c' = TxActive ∧
    close_effect oid sku Released (c_tables c) (c_tables c')) ∨
  (is_ok o = false ∧
    (c_status c' = TxActive → c_tables c' = c_tables c ∧ c_status c = TxActive)).
Proof.
  apply (close_stmts_spec oid sku Released release_stmt); [done|].
  intros q now id t n t' E. eapply moved_all; [|exact E]. intros s. simpl.
  f_equal; lia.
Qed.

Lemma confirm_reservation_spec oid sku c o c' :
  confirm_reservation oid sku c = (o, c') →
  (is_ok o = true ∧ c_status c = TxActive ∧ c_status c' = TxActive ∧
    close_effect oid sku Confirmed (c_tables c) (c_tables c')) ∨
  (is_ok o = false ∧
    (c_status c' = TxActive → c_tables c' = c_tables c ∧ c_status c = TxActive)).
Proof.
  apply (close_stmts_spec oid sku Confirmed confirm_stmt); [done|].
  intros q now id t n t' E. eapply moved_all; [|exact E]. intros s. simpl.
  f_equal; lia.
Qed.

Lemma keeps_closing oid sku st (m : M (conn catalog_tables) AppError unit) :
  st ≠ Reserved →
  (∀ c o c', m c = (o, c') →
    (is_ok o = true ∧ c_status c = TxActive ∧ c_status c' = TxActive ∧
      close_effect oid sku st (c_tables c) (c_tables c')) ∨
    (is_ok o = false ∧
      (c_status c' = TxActive → c_tables c' = c_tables c ∧ c_status c = TxActive))) →
  keeps (safe P) m.
Proof.
  intros Hst Hm c o c' Hr HP Ha. apply Hm in Hr as [(_ & Hs & _ & He)|[_ Hn]].
  - by eapply P_close, HP.
  - destruct (Hn Ha) as [-> Hs]. auto.
Qed.

Lemma keeps_release_all oid : keeps (safe P) (release_all_reservations oid).
Proof.
  unfold release_all_reservations, ise.
  apply keeps_bind; [typeclasses eauto|apply keeps_map_err, keeps_query_safe|intros rs].
  apply keeps_for_each; [typeclasses eauto|]. intros r _.
  eapply (keeps_closing _ _ Released); [done|]. apply release_reservation_spec.
Qed.

Lemma keeps_do_reserve oid buyer total cur items :
  keeps (safe P) (do_reserve_and_write_event oid buyer total cur items).
Proof.
  unfold do_reserve_and_write_event.
  apply keeps_bind; [typeclasses eauto| |intros _; by apply keeps_write_event_safe; auto].
  apply keeps_for_each; [typeclasses eauto|]. intros i _. apply keeps_reserve_inventory.
Qed.

Lemma tx_invariant {A} (m : M (conn catalog_tables) AppError A) (w : db catalog_tables unit) o w' :
  keeps (safe P) m → with_transaction (map_err tx_of_app m) w = (o, w') →
  P (d_committed w) → P (d_committed w').
Proof. intros Hm. apply with_transaction_safe. by apply keeps_map_err. Qed.

(** The committed tables keep the invariant. *)
Definition inv_rel (w w' : db catalog_tables unit) : Prop := P (d_committed w) → P (d_committed w').
#[local] Instance inv_rel_preorder : PreOrder inv_rel.
Proof. unfold inv_rel. split; [by intros w|]. intros w1 w2 w3 H1 H2 HP. by apply H2, H1. Qed.

Lemma keeps_tx {A} (m : M (conn catalog_tables) AppError A) :
  keeps (safe P) m → keeps inv_rel (with_transaction (map_err tx_of_app m)).
Proof. intros Hm w o w' Hr HP. by eapply tx_invariant. Qed.

Lemma keeps_write_failed oid reason : keeps inv_rel (write_reservation_failed_on_pool oid reason).
Proof.
  apply keeps_map_err, keeps_tx, keeps_write_event_safe. intros. by apply P_outbox.
Qed.

Lemma keeps_reserve_for_order oid buyer total cur items :
  keeps inv_rel (reserve_for_order oid buyer total cur items).
Proof.
  unfold reserve_for_order. apply keeps_catch; [typeclasses eauto| |keeps_tac|].
  - apply keeps_tx, keeps_do_reserve.
  - intros e. apply keeps_bind; [typeclasses eauto|apply keeps_write_failed|keeps_tac].
Qed.

Lemma keeps_release_for_order oid : keeps inv_rel (release_for_order oid).
Proof. apply keeps_map_err, keeps_tx, keeps_release_all. Qed.

Lemma keeps_confirm_for_order oid items : keeps inv_rel (confirm_for_order oid items).
Proof.
  apply keeps_map_err. intros w o w' Hr HP. eapply with_transaction_safe; [|exact Hr|exact HP].
  apply keeps_for_each; [typeclasses eauto|]. intros i _. apply keeps_map_err.
  eapply (keeps_closing _ _ Confirmed); [done|]. apply confirm_reservation_spec.
Qed.

(** ** The handler *)

Lemma keeps_order_cancelled e : keeps (safe P) (handle_order_cancelled e).
Proof.
  unfold handle_order_cancelled, release_for_order_on_tx.
  apply keeps_bind; [typeclasses eauto|by apply keeps_lift; typeclasses eauto|intros oid].
  apply keeps_catch; [typeclasses eauto|apply keeps_release_all|keeps_tac|keeps_tac].
Qed.

Lemma order_created_ok e ss u ss' :
  handle_order_created e ss = (Ok u, ss') →
  ∃ oid buyer total cur items, payload_uuid e "order_id" = Ok oid ∧
    parse_items (env_payload e) = Ok items ∧ s_committed ss' = s_committed ss ∧
    do_reserve_and_write_event oid buyer total cur items (s_conn ss) = (Ok u, s_conn ss') ∧
    payload_uuid e "buyer_id" = Ok buyer ∧ total = default "0" (payload_str e "total_amount") ∧
    cur = default "USD" (payload_str e "currency").
Proof.
  unfold handle_order_created. intros Hr.
  apply bind_ok in Hr as (oid & s1 & H1 & Hr). apply lift_ok in H1 as [H1 <-].
  apply omap_err_ok in H1. apply bind_ok in Hr as (b & s2 & H2 & Hr). apply lift_ok in H2 as [H2%omap_err_ok <-].
  apply bind_ok in Hr as (items & s3 & H3 & Hr). apply lift_ok in H3 as [H3 <-].
  apply map_err_ok in Hr. unfold reserve_for_order_on_tx in Hr.
  apply catch_ok in Hr as [(a & s4 & H4 & Hr)|(er & s4 & _ & Hr)].
  - apply ret_ok in Hr as [-> <-]. unfold in_tx in H4. apply zoom_ok in H4 as (c' & H4 & ->).
    eauto 15.
  - by apply bind_ok in Hr as (? & ? & _ & ?%fail_ok).
Qed.

Lemma catalog_handler_safe e ss u ss' :
  catalog_handler e ss = (Ok u, ss') → safe P (s_conn ss) (s_conn ss').
Proof.
  unfold catalog_handler. intros Hr.
  destruct (em_event_type (env_metadata e)); try (apply ret_ok in Hr as [_ <-]; reflexivity).
  - apply order_created_ok in Hr as (oid & b & tot & cur & items & _ & _ & _ & Hr & _).
    by eapply keeps_do_reserve.
  - apply map_err_ok in Hr. unfold in_tx in Hr. apply zoom_ok in Hr as (c' & Hr & ->).
    by eapply keeps_order_cancelled.
Qed.
End invariant.
End facts.
