(* ===== verification/InventorySpec.v ===== *)
(** * Catalog inventory: specification and properties

    The inventory along its own operations and events, and what reserving, releasing and confirming
    an order do to it; the runs together with the requests of the shop are in ShopTheorems. *)

From S2P Require Import Prelude RustStr Externals Sample Errors Events Db Outbox Consumer.
From S2P Require Import ConsumerProps Labels ShopTables Inventory InventoryProps.

Local Open Scope Z_scope.

Section spec.
Context `{Externals}.
Implicit Types (t : catalog_tables) (items : list ReservationItem).

(** ** Only events are written outside a transaction *)

Definition failed_row (oid : Uuid) (r : OutboxEvent) : Prop :=
  ∃ reason, event_row "catalog.events" InventoryReservationFailed oid Catalog
    (failed_payload oid reason) r.

(** The side effect of a handler that fails: failure events are appended. *)
Definition appended t t' : Prop :=
  ∃ l, Forall (λ r, ∃ oid, failed_row oid r) l ∧
    t' = set_outbox_events (outbox_events t ++ l) t.
#[export] Instance appended_preorder : PreOrder appended.
Proof.
  split.
  - intros [s r o p]. exists []. cbn. by rewrite app_nil_r.
  - intros t1 t2 t3 (l1 & H1 & ->) (l2 & H2 & ->). exists (l1 ++ l2).
    split; [by apply Forall_app|]. destruct t1. cbn. by rewrite app_assoc.
Qed.

Lemma write_failed_spec oid reason (s : db catalog_tables unit) o s' :
  write_reservation_failed_on_pool oid reason s = (o, s') →
  (d_committed s' = d_committed s ∧ is_ok o = false) ∨
  ∃ r, failed_row oid r ∧
    d_committed s' = set_outbox_events (outbox_events (d_committed s) ++ [r]) (d_committed s).
Proof.
  unfold write_reservation_failed_on_pool. intros (o1 & Hr & ->)%map_err_inv.
  pose proof Hr as [_ [Hc|(e & [] & c & Hc & _ & _ & Et)]]%with_transaction_all_or_nothing.
  - destruct o1 as [[]|?|]; [|by left..]. right.
    apply with_transaction_ok in Hr as (e & c & Hw & _ & _ & _ & [[_ E]|[Hs _]]);
      apply map_err_ok, write_event_ok in Hw as (r & Ht & He & Hs' & _); simpl in *; [|congruence].
    exists r. split; [by exists reason|]. by rewrite E.
  - apply map_err_ok, write_event_ok in Hc as (r & Ht & He & _). right. simpl in *.
    exists r. split; [by exists reason|]. by rewrite Et.
Qed.

Lemma write_failed_appended oid reason (s : db catalog_tables unit) o s' :
  write_reservation_failed_on_pool oid reason s = (o, s') →
  appended (d_committed s) (d_committed s').
Proof.
  intros [[-> _]|(r & Hr & ->)]%write_failed_spec; [reflexivity|]. exists [r]. split; [|done].
  constructor; [by exists oid|done].
Qed.

Definition sideR (ss ss' : session catalog_tables unit) : Prop :=
  appended (s_committed ss) (s_committed ss').
#[local] Instance sideR_preorder : PreOrder sideR.
Proof. unfold sideR. split; [intros x; reflexivity|]. intros x y z ??. by etrans. Qed.

Lemma keeps_in_tx {A E} (m : M (conn catalog_tables) E A) : keeps sideR (in_tx m).
Proof. apply keeps_zoom. intros c o c' _ ss _. unfold sideR. reflexivity. Qed.

Lemma keeps_failed_event oid reason : keeps sideR (in_service (write_reservation_failed_on_pool oid reason)).
Proof.
  intros ss o ss'. unfold in_service. destruct (write_reservation_failed_on_pool _ _ _) as [o1 d] eqn:E.
  intros [= _ <-]. by apply write_failed_appended in E.
Qed.

Lemma keeps_order_created_side e : keeps sideR (handle_order_created e).
Proof.
  unfold handle_order_created, reserve_for_order_on_tx.
  repeat (apply keeps_bind; [typeclasses eauto|apply keeps_lift; typeclasses eauto|intros ?]).
  apply keeps_map_err, keeps_catch; [typeclasses eauto|apply keeps_in_tx|keeps_tac|].
  intros er. apply keeps_bind; [typeclasses eauto|apply keeps_failed_event|keeps_tac].
Qed.

(** What no change of the SKUs and the reservations touches. *)
Section beside.
Context {A : Type} (f : catalog_tables → A).
Context (Hskus : ∀ l t, f (set_skus l t) = f t) (Hres : ∀ l t, f (set_reservations l t) = f t).
Definition same_beside t t' : Prop := f t' = f t.
#[export] Instance same_beside_preorder : PreOrder same_beside.
Proof. unfold same_beside. split; [done|]. intros x y z ??. congruence. Qed.

Lemma keeps_beside_reserve oid sku q : keeps (tables_rel same_beside) (reserve_inventory oid sku q).
Proof.
  unfold reserve_inventory, ise. apply keeps_bind; [typeclasses eauto| |].
  - apply keeps_map_err, keeps_exec; [typeclasses eauto|]. intros now id t a t' (_ & l & -> & _)%update_skus_ok. apply Hskus.
  - intros n. case_match; [keeps_tac|]. apply keeps_map_err, keeps_exec; [typeclasses eauto|].
    intros now id t a t' (-> & _)%insert_reservation_ok. apply Hres.
Qed.

Lemma keeps_beside_release oid sku : keeps (tables_rel same_beside) (release_reservation oid sku).
Proof.
  unfold release_reservation, find_reservation, ise.
  apply keeps_bind; [typeclasses eauto|by apply keeps_map_err, keeps_fetch_one; typeclasses eauto|intros r].
  apply keeps_bind; [typeclasses eauto| |intros n];
    apply keeps_map_err, keeps_exec; try typeclasses eauto; intros now id t a t' E.
  - apply update_skus_ok in E as (_ & l & -> & _). apply Hskus.
  - unfold update_reservation in E. simplify_eq. apply Hres.
Qed.

Lemma keeps_beside_cancelled e : keeps (tables_rel same_beside) (handle_order_cancelled e).
Proof.
  unfold handle_order_cancelled, release_for_order_on_tx, release_all_reservations, ise.
  apply keeps_bind; [typeclasses eauto|by apply keeps_lift; typeclasses eauto|].
  intros oid. apply keeps_catch; [typeclasses eauto| |keeps_tac|keeps_tac].
  apply keeps_bind; [typeclasses eauto|by apply keeps_map_err, keeps_query; typeclasses eauto|].
  intros rs. apply keeps_for_each; [typeclasses eauto|]. intros r _. apply keeps_beside_release.
Qed.
End beside.

(** The catalog's handler keeps to the consumer's interface. *)
#[export] Instance catalog_handler_well_behaved : WellBehaved catalog_handler appended.
Proof.
  split.
  - intros e ss o ss' Hr. unfold catalog_handler in Hr.
    destruct (em_event_type (env_metadata e)); try (injection Hr as _ <-; reflexivity).
    + by apply keeps_order_created_side in Hr.
    + eapply (keeps_map_err sideR), Hr. apply keeps_in_tx.
  - intros e ss u ss' Hr. unfold catalog_handler in Hr.
    destruct (em_event_type (env_metadata e)); try (injection Hr as _ <-; reflexivity).
    + by apply order_created_ok in Hr as (?&?&?&?&?&_&_&?&_).
    + apply map_err_ok in Hr. unfold in_tx in Hr. by apply zoom_ok in Hr as (c & _ & ->).
  - intros e ss u ss' Hr. unfold catalog_handler in Hr.
    destruct (em_event_type (env_metadata e)); try (injection Hr as _ <-; reflexivity).
    + apply order_created_ok in Hr as (?&?&?&?&?&_&_&_&Hr&_).
      eapply (keeps_bind (tables_rel (same_beside processed_events))) in Hr; [exact Hr|..].
      * apply keeps_for_each; [typeclasses eauto|]. intros i _. by apply keeps_beside_reserve.
      * intros _. apply keeps_write_event; [typeclasses eauto|]. done.
    + apply map_err_ok in Hr. unfold in_tx in Hr. apply zoom_ok in Hr as (c & Hr & ->). simpl.
      change (same_beside processed_events (c_tables (s_conn ss)) (c_tables c)).
      by apply (keeps_beside_cancelled processed_events) in Hr.
  - intros t t' (l & _ & ->). done.
Qed.

(** ** Runs of the service *)

Inductive inventory_op : Type :=
| OpReserve (oid buyer : Uuid) (total cur : string) (items : list ReservationItem)
| OpRelease (oid : Uuid)
| OpConfirm (oid : Uuid) (items : list ReservationItem)
| OpEvent (group : string) (e : EventEnvelope)
| OpTick (ms : Z).

Definition run_op (op : inventory_op) (s : db catalog_tables unit) : db catalog_tables unit :=
  match op with
  | OpReserve oid buyer total cur items => (reserve_for_order oid buyer total cur items s).2
  | OpRelease oid => (release_for_order oid s).2
  | OpConfirm oid items => (confirm_for_order oid items s).2
  | OpEvent group e => (attempt catalog_handler group e s).2
  | OpTick ms => advance ms s
  end.
Definition run_ops (ops : list inventory_op) (s : db catalog_tables unit) : db catalog_tables unit :=
  foldl (flip run_op) s ops.

Section invariant.
Context (P : catalog_tables → Prop).
Hypothesis P_ids : ∀ t, P t → NoDup (sku_id <$> ct_skus t).
Hypothesis P_reserve : ∀ oid sku q t t', reserve_effect oid sku q t t' → P t → P t'.
Hypothesis P_close : ∀ oid sku st t t',
  close_effect oid sku st t t' → st ≠ Reserved → P t → P t'.
Hypothesis P_outbox : ∀ l t, P t → P (set_outbox_events l t).
Hypothesis P_processed : ∀ l t, P t → P (set_processed_events l t).

Lemma applied_invariant g clock e t t' : applied catalog_handler g clock e t t' → P t → P t'.
Proof.
  intros (c & x & ss & now & <- & Hh & Hs & -> & _) HP.
  apply (catalog_handler_safe P) in Hh; [|done..]. simpl in Hh.
  assert (P (c_tables (s_conn ss))) as HP' by by apply Hh.
  unfold mark_processed_row. case_match; auto.
Qed.

Lemma run_op_invariant op s : P (d_committed s) → P (d_committed (run_op op s)).
Proof.
  intros HP. destruct op as [oid buyer total cur items|oid|oid items|g e|ms]; cbn [run_op].
  - destruct (reserve_for_order _ _ _ _ _ s) as [o s'] eqn:E.
    by eapply (keeps_reserve_for_order P) in E; auto.
  - destruct (release_for_order _ s) as [o s'] eqn:E.
    by eapply (keeps_release_for_order P) in E; auto.
  - destruct (confirm_for_order _ _ s) as [o s'] eqn:E.
    by eapply (keeps_confirm_for_order P) in E; auto.
  - destruct (attempt _ _ _ s) as [o s'] eqn:E. simpl.
    apply (attempt_spec catalog_handler appended) in E as [((l & _ & ->) & _)|(_ & Ha & _)]; [by apply P_outbox|].
    by eapply applied_invariant.
  - done.
Qed.

Lemma run_ops_invariant ops s : P (d_committed s) → P (d_committed (run_ops ops s)).
Proof.
  revert s. induction ops as [|op ops IH]; intros s HP; [done|]. by apply IH, run_op_invariant.
Qed.
End invariant.

(** ** Reserving all items of an order *)

(** The quantity of a SKU the items ask for. *)
Definition ordered (sku : Uuid) items : Z :=
  zsum (snd <$> List.filter (λ i : ReservationItem, bool_decide (i.1 = sku)) items).

Definition reservation_of (oid : Uuid) (i : ReservationItem) (r : InventoryReservationEntity) : Prop :=
  rs_order_id r = oid ∧ rs_sku_id r = i.1 ∧ rs_quantity r = i.2 ∧ is_reserved r = true.

(** What reserving does to a SKU: a live one has the quantity set aside, within its
    stock; nothing else changes. *)
Definition set_aside items (s s' : SkuRow) : Prop :=
  sku_id s' = sku_id s ∧ sku_deleted_at s' = sku_deleted_at s ∧
  stock_quantity s' = stock_quantity s ∧
  (is_live s = false → s' = s) ∧
  (is_live s = true → reserved_quantity s' = reserved_quantity s + ordered (sku_id s) items ∧
     (ordered (sku_id s) items = 0 ∨ reserved_quantity s' ≤ stock_quantity s)).

(** The whole effect of reserving an order: every item of it, each SKU once. *)
Definition order_reserved (oid : Uuid) items t t' : Prop :=
  NoDup items.*1 ∧ Forall (λ i : ReservationItem, 0 < i.2) items ∧
  (∃ new, ct_reservations t' = ct_reservations t ++ new ∧ Forall2 (reservation_of oid) items new) ∧
  Forall2 (set_aside items) (ct_skus t) (ct_skus t') ∧
  (∀ i, i ∈ items → ∃ s, s ∈ ct_skus t ∧ live_sku i.1 s = true).

Fixpoint reserve_chain (oid : Uuid) items t t' : Prop :=
  match items with
  | [] => t' = t
  | i :: items => ∃ t1, reserve_effect oid i.1 i.2 t t1 ∧ reserve_chain oid items t1 t'
  end.

Lemma ordered_cons sku (i : ReservationItem) items :
  ordered sku (i :: items) = (if decide (sku = i.1) then i.2 else 0) + ordered sku items.
Proof.
  unfold ordered. cbn [List.filter]. case_decide as Hd.
  - rewrite bool_decide_true by done. by rewrite fmap_cons, zsum_cons.
  - by rewrite bool_decide_false by congruence.
Qed.
Lemma ordered_nonneg sku items : Forall (λ i : ReservationItem, 0 < i.2) items → 0 ≤ ordered sku items.
Proof.
  induction 1 as [|i items Hi _ IH]; [done|]. rewrite ordered_cons. case_decide; lia.
Qed.

Lemma set_aside_refl l : Forall2 (set_aside []) l l.
Proof.
  apply Forall_Forall2_diag, Forall_true. intros s. unfold set_aside, ordered. simpl.
  split_and!; try done. intros _. split; [unfold zsum; simpl; lia|by left].
Qed.

Lemma set_aside_step sku q items s s1 s2 :
  0 < q → Forall (λ i : ReservationItem, 0 < i.2) items →
  moved_sku sku 0 q s s1 → (live_sku sku s = true → q ≤ stock_quantity s - reserved_quantity s) →
  set_aside items s1 s2 → set_aside ((sku, q) :: items) s s2.
Proof.
  intros Hq Hpos (Hid1 & Hd1 & Hm) Hg (Hid2 & Hd2 & Hs2 & Hdead & Hlive).
  pose proof (ordered_nonneg (sku_id s) items Hpos) as Hn. unfold set_aside, is_live in *.
  rewrite Hid1, Hd1 in *. rewrite ordered_cons. simpl.
  destruct (live_sku sku s) eqn:El.
  - apply live_sku_iff in El as [Es El]. subst sku. unfold is_live in El. rewrite El in *.
    rewrite decide_True by done. specialize (Hlive eq_refl). specialize (Hg eq_refl).
    split_and!; [done|done|lia|done|]. intros _. split; [lia|]. right. lia.
  - subst s1. split_and!; [done|done|done|done|]. intros Hl. destruct (Hlive Hl) as [E1 E2].
    rewrite decide_False; [rewrite Z.add_0_l; by split|]. intros Es.
    assert (live_sku sku s = true) by (by apply live_sku_iff). congruence.
Qed.

Lemma reserve_chain_spec oid items : ∀ t t', reserve_chain oid items t t' →
  order_reserved oid items t t' ∧ ct_outbox t' = ct_outbox t ∧ ct_processed t' = ct_processed t ∧
  (∀ sku, (oid, sku) ∈ ((λ r, (rs_order_id r, rs_sku_id r)) <$> ct_reservations t) → sku ∉ items.*1).
Proof.
  unfold order_reserved.
  induction items as [|[sku q] items IH]; intros t t' Hc; simpl in Hc.
  { subst t'. split_and!; try done; [by apply NoDup_nil| |apply set_aside_refl| |].
    - exists []. by rewrite app_nil_r.
    - by intros i ?%not_elem_of_nil.
    - intros. apply not_elem_of_nil. }
  destruct Hc as (t1 & (l & r & -> & Hl & Hex & Hg & Hr & Ho & Hs & Hq & Hpos & Hid & Hpair) & Hc).
  apply IH in Hc as ((Hnd & Hq' & (new & Hnew & Hrs) & Hskus & Hlive) & Hout & Hpr & Hin). simpl in *.
  assert (∀ x, (oid, x) ∈ ((λ r, (rs_order_id r, rs_sku_id r)) <$> ct_reservations t) ∨ x = sku →
    x ∉ items.*1) as Hin'.
  { intros x Hx. apply Hin. rewrite fmap_app, elem_of_app. destruct Hx as [Hx| ->]; [by left|right].
    apply list_elem_of_singleton. by rewrite Ho, Hs. }
  split_and!; try done.
  - apply NoDup_cons. split; [by apply Hin'; right|done].
  - by constructor.
  - exists (r :: new). rewrite Hnew, <-app_assoc. split; [done|]. by constructor.
  - clear -Hl Hskus Hg Hpos Hq'. revert Hskus. generalize (ct_skus t') as l2. revert Hg.
    induction Hl as [|s s1 l1 l Hm _ IH]; intros Hg l2 H2; inversion H2; subst; constructor.
    + eapply set_aside_step; [done|done|exact Hm| |done]. intros El. apply Hg; [by left|done].
    + apply IH; [|done]. intros x Hx. apply Hg. by right.
  - intros i [->|Hi]%elem_of_cons; [exact Hex|]. destruct (Hlive i Hi) as (s' & Hs' & El').
    apply list_elem_of_lookup in Hs' as [k Hk]. destruct (Forall2_lookup_r _ _ _ _ _ Hl Hk) as (s & Hsk & (E1 & E2 & _)).
    exists s. split; [by eapply list_elem_of_lookup_2|]. apply live_sku_iff in El' as [El1 El2].
    apply live_sku_iff. unfold is_live in *. rewrite <-E1, <-E2. done.
  - intros x Hx. apply not_elem_of_cons. split; [|by apply Hin'; left]. intros ->. done.
Qed.

Lemma reserve_loop_ok oid items : ∀ c u c',
  NoDup (sku_id <$> ct_skus (c_tables c)) →
  for_each items (λ i : ReservationItem, reserve_inventory oid i.1 i.2) c = (Ok u, c') →
  reserve_chain oid items (c_tables c) (c_tables c').
Proof.
  induction items as [|i items IH]; intros c u c' Hnd Hr; cbn [for_each] in Hr.
  - apply ret_ok in Hr as [_ <-]. done.
  - apply bind_ok in Hr as ([] & c1 & H1 & Hr). apply reserve_inventory_ok in H1 as [He _]; [|done].
    exists (c_tables c1). split; [done|]. eapply IH; [|exact Hr].
    destruct He as (l & r & -> & Hl & _). simpl. by rewrite (moved_ids _ _ _ _ _ Hl).
Qed.

Definition reserved_row (oid buyer : Uuid) (total cur : string) items (r : OutboxEvent) : Prop :=
  event_row "catalog.events" InventoryReserved oid Catalog (reserved_payload oid buyer total cur items) r.

Lemma do_reserve_ok oid buyer total cur items c u c' :
  NoDup (sku_id <$> ct_skus (c_tables c)) →
  do_reserve_and_write_event oid buyer total cur items c = (Ok u, c') →
  order_reserved oid items (c_tables c) (c_tables c') ∧ c_status c' = TxActive ∧
  ct_processed (c_tables c') = ct_processed (c_tables c) ∧
  ∃ r, ct_outbox (c_tables c') = ct_outbox (c_tables c) ++ [r] ∧
    reserved_row oid buyer total cur items r.
Proof.
  intros Hnd Hr. unfold do_reserve_and_write_event in Hr.
  apply bind_ok in Hr as ([] & c1 & H1 & Hr). apply reserve_loop_ok in H1; [|done].
  apply reserve_chain_spec in H1 as (Ho & Hout & Hp & _).
  apply write_event_ok in Hr as (r & Ht & He & Hs & _). rewrite Ht.
  split_and!; [exact Ho|done|exact Hp|]. exists r. split; [|done]. cbn. by rewrite Hout.
Qed.

(** ** Closing the reservations of an order *)

Definition open_reservations t : list InventoryReservationEntity :=
  List.filter is_reserved (ct_reservations t).

Lemma filter_update {A} (p q res : A → bool) (f : A → A) l :
  (∀ x, x ∈ l → if p x then res (f x) = false ∧ (res x = true → q x = false)
               else res x = true → q x = true) →
  List.filter res (update_where p f l) = List.filter q (List.filter res l).
Proof.
  unfold update_where. induction l as [|x l IH]; intros Hx; [done|].
  assert (IH' := IH (λ y Hy, Hx y (list_elem_of_further _ _ _ Hy))).
  specialize (Hx x (list_elem_of_here _ _)). rewrite fmap_cons. cbn [List.filter].
  destruct (p x).
  - destruct Hx as [-> Hq]. destruct (res x); [|done]. cbn [List.filter]. by rewrite Hq.
  - destruct (res x); [|done]. cbn [List.filter]. rewrite Hx by done. by rewrite IH'.
Qed.

Lemma pair_unique rs r x :
  NoDup ((λ r, (rs_order_id r, rs_sku_id r)) <$> rs) → r ∈ rs → x ∈ rs →
  rs_order_id x = rs_order_id r → rs_sku_id x = rs_sku_id r → x = r.
Proof.
  intros Hnd [i Hi]%list_elem_of_lookup [j Hj]%list_elem_of_lookup Ho Hs.
  assert (j = i) as ->; [|congruence].
  apply (NoDup_lookup _ j i (rs_order_id r, rs_sku_id r) Hnd);
    rewrite list_lookup_fmap, ?Hi, ?Hj; simpl; congruence.
Qed.

Lemma close_effect_open oid sku st t t' :
  close_effect oid sku st t t' → st ≠ Reserved → reservations_ok (ct_reservations t) →
  open_reservations t' = List.filter
    (λ r, negb (of_order oid r && bool_decide (rs_sku_id r = sku))) (open_reservations t).
Proof.
  intros (l & r & now & Hf & -> & _) Hst (Hid & Hpair & _). unfold open_reservations. simpl.
  apply find_reserved_some in Hf as (Hin & Ho & Hs & Hr). apply filter_update. intros x Hx.
  case_bool_decide as Hd.
  - assert (x = r) as ->.
    { apply list_elem_of_lookup in Hx as [i Hi], Hin as [j Hj].
      assert (i = j) as ->; [|congruence]. apply (NoDup_lookup _ i j (rs_id r) Hid);
        rewrite list_lookup_fmap, ?Hi, ?Hj; simpl; congruence. }
    unfold of_order, is_reserved. simpl. rewrite (bool_decide_false (st = Reserved)) by done.
    rewrite (bool_decide_true (_ = oid)), (bool_decide_true (_ = sku)) by done. done.
  - intros _. apply negb_true_iff, andb_false_iff. unfold of_order.
    destruct (decide (rs_order_id x = oid)); [right|left; by apply bool_decide_false].
    apply bool_decide_false. intros E. apply Hd. f_equal. eapply pair_unique; [done..| |]; congruence.
Qed.

(** What closing does to a SKU: a release leaves the stock, a confirmation takes from
    the stock what it takes from the reserved quantity. *)
Definition sku_closed (st : ReservationStatus) (s s' : SkuRow) : Prop :=
  sku_id s' = sku_id s ∧ sku_deleted_at s' = sku_deleted_at s ∧
  stock_quantity s' = stock_quantity s +
    (if decide (st = Confirmed) then reserved_quantity s' - reserved_quantity s else 0) ∧
  (is_live s = false → s' = s).

#[local] Instance sku_closed_preorder st : PreOrder (sku_closed st).
Proof.
  unfold sku_closed, is_live. split.
  - intros s. split_and!; try done. case_decide; lia.
  - intros s1 s2 s3 (E1 & E2 & E3 & E4) (F1 & F2 & F3 & F4). rewrite E1, E2 in *.
    split_and!; [done|done|case_decide; lia|]. intros Hl. rewrite F4, E4; done.
Qed.

Lemma moved_closed sku st q s s' :
  moved_sku sku (if decide (st = Confirmed) then - q else 0) (- q) s s' → sku_closed st s s'.
Proof.
  intros (E1 & E2 & Hm). unfold sku_closed. destruct (live_sku sku s) eqn:El.
  - destruct Hm as (-> & -> & _). split_and!; [done|done|case_decide; lia|].
    apply live_sku_iff in El as [_ ->]. done.
  - subst s'. split_and!; try done. case_decide; lia.
Qed.

Fixpoint close_chain (oid : Uuid) (st : ReservationStatus) (skus : list Uuid) t t' : Prop :=
  match skus with
  | [] => t' = t
  | sku :: skus => ∃ t1, close_effect oid sku st t t1 ∧ close_chain oid st skus t1 t'
  end.

Lemma close_chain_spec oid st skus : ∀ t t',
  close_chain oid st skus t t' → st ≠ Reserved → inventory_ok t →
  inventory_ok t' ∧
  open_reservations t' = List.filter
    (λ r, negb (of_order oid r && bool_decide (rs_sku_id r ∈ skus))) (open_reservations t) ∧
  Forall2 (sku_closed st) (ct_skus t) (ct_skus t') ∧
  ct_outbox t' = ct_outbox t ∧ ct_processed t' = ct_processed t.
Proof.
  induction skus as [|sku skus IH]; intros t t' Hc Hst Hok; simpl in Hc.
  - subst t'. split_and!; try done. symmetry. rewrite <-(List.filter_ext (λ _, true)).
    + clear. generalize (open_reservations t). induction l as [|x l IH]; simpl; congruence.
    + intros r. rewrite bool_decide_false by apply not_elem_of_nil. by rewrite andb_false_r.
  - destruct Hc as (t1 & Hc1 & Hc). pose proof Hc1 as Hc1'.
    apply close_effect_stocked in Hc1' as [Hok1 _]; [|done..].
    apply IH in Hc as (Hok' & Ho & Hs & Hout & Hp); [|done..].
    pose proof (close_effect_open _ _ _ _ _ Hc1 Hst (proj1 (proj2 Hok))) as Ho1.
    destruct Hc1 as (l & r & now & _ & -> & Hl). split_and!; [done| | |done|done].
    + rewrite Ho, Ho1, filter_filter. apply List.filter_ext. intros x.
      destruct (of_order oid x); [|done]. simpl. rewrite <-negb_orb. f_equal.
      destruct (decide (rs_sku_id x = sku)) as [->|Hne].
      * rewrite (bool_decide_true (sku = sku)) by done.
        rewrite (bool_decide_true (sku ∈ sku :: skus)); [done|by left].
      * rewrite (bool_decide_false (_ = sku)) by done. simpl. apply bool_decide_ext.
        rewrite elem_of_cons. naive_solver.
    + etrans; [|exact Hs]. eapply Forall2_impl; [exact Hl|]. apply moved_closed.
Qed.

(** The quantity the open reservations of an order hold on a SKU, among the SKUs that
    [sel] selects. *)
Definition held (oid : Uuid) (sel : Uuid → bool) (sku : Uuid) t : Z :=
  zsum (rs_quantity <$> List.filter (λ r, bool_decide (rs_sku_id r = sku) &&
    (of_order oid r && sel (rs_sku_id r))) (open_reservations t)).

(** The selected reservations of an order, and only they, are closed, and each live SKU
    gets back exactly what they held. *)
Definition order_closed (oid : Uuid) (st : ReservationStatus) (sel : Uuid → bool) t t' : Prop :=
  open_reservations t' =
    List.filter (λ r, negb (of_order oid r && sel (rs_sku_id r))) (open_reservations t) ∧
  Forall2 (λ s s', sku_closed st s s' ∧ (is_live s = true →
    reserved_quantity s' = reserved_quantity s - held oid sel (sku_id s) t)) (ct_skus t) (ct_skus t') ∧
  ct_outbox t' = ct_outbox t ∧ ct_processed t' = ct_processed t.

Lemma open_quantity_alt sku t :
  open_quantity sku (ct_reservations t) =
  zsum (rs_quantity <$> List.filter (λ r, bool_decide (rs_sku_id r = sku)) (open_reservations t)).
Proof.
  unfold open_quantity, open_reservations. rewrite filter_filter. do 2 f_equal.
  apply List.filter_ext. intros r. apply andb_comm.
Qed.

Lemma order_closed_intro oid st sel t t' :
  inventory_ok t → inventory_ok t' →
  open_reservations t' =
    List.filter (λ r, negb (of_order oid r && sel (rs_sku_id r))) (open_reservations t) →
  Forall2 (sku_closed st) (ct_skus t) (ct_skus t') →
  ct_outbox t' = ct_outbox t → ct_processed t' = ct_processed t →
  order_closed oid st sel t t'.
Proof.
  intros (_ & _ & Hok) (_ & _ & Hok') Ho Hs Hout Hp. split_and!; [done| |done|done].
  rewrite Forall_forall in Hok, Hok'. apply Forall2_same_length_lookup_2.
  { by eapply Forall2_length. }
  intros i s s' Hi Hi'. assert (sku_closed st s s') as Hc by (by eapply Forall2_lookup_lr).
  split; [done|]. intros Hl. assert (sku_ok (ct_reservations t) s) as E
    by (apply Hok; by eapply list_elem_of_lookup_2).
  assert (sku_ok (ct_reservations t') s') as E' by (apply Hok'; by eapply list_elem_of_lookup_2).
  destruct Hc as (Hid & Hd & _). unfold sku_ok, is_live in *. rewrite Hd in E'.
  rewrite E, E' by done. rewrite Hid, !open_quantity_alt, Ho, filter_filter. unfold held.
  rewrite (zsum_split _ (λ r, bool_decide (rs_sku_id r = sku_id s))
    (λ r, of_order oid r && sel (rs_sku_id r)) (open_reservations t)).
  assert (∀ a b c : Z, b = c → b = a + c - a) as Ha by (intros; lia). apply Ha. do 2 f_equal.
  apply List.filter_ext. intros r. apply andb_comm.
Qed.

Lemma closing_loop_ok {A E} oid st (sku : A → Uuid) (m : A → M (conn catalog_tables) E unit) l :
  (∀ x c u c', m x c = (Ok u, c') →
     c_status c' = TxActive ∧ close_effect oid (sku x) st (c_tables c) (c_tables c')) →
  ∀ c u c', for_each l m c = (Ok u, c') →
  close_chain oid st (sku <$> l) (c_tables c) (c_tables c') ∧
  (c_status c = TxActive → c_status c' = TxActive).
Proof.
  intros Hm. induction l as [|x l IH]; intros c u c' Hr; cbn [for_each] in Hr.
  - by apply ret_ok in Hr as [_ <-].
  - apply bind_ok in Hr as ([] & c1 & H1 & Hr). apply Hm in H1 as [Hs He].
    apply IH in Hr as [Hc Hs']. split; [|by intros; apply Hs']. rewrite fmap_cons. by exists (c_tables c1).
Qed.

Lemma release_all_ok oid c u c' :
  release_all_reservations oid c = (Ok u, c') → inventory_ok (c_tables c) →
  order_closed oid Released (λ _, true) (c_tables c) (c_tables c') ∧
  inventory_ok (c_tables c') ∧ c_status c' = TxActive.
Proof.
  unfold release_all_reservations, ise. intros Hr Hok.
  apply bind_ok in Hr as (rs & c1 & H1 & Hr). apply map_err_ok in H1.
  pose proof H1 as (_ & Hs1 & _)%exec_ok. apply query_ok in H1 as (-> & Et & _).
  apply (closing_loop_ok oid Released rs_sku_id) in Hr as [Hc Hs].
  2:{ intros x ? v ? [(_ & _ & ? & ?)|[? _]]%release_reservation_spec; done. }
  rewrite Et in Hc. apply close_chain_spec in Hc as (Hok' & Ho & Hsk & Hout & Hp); [|done..].
  split; [|by auto]. apply order_closed_intro; try done. rewrite Ho.
  apply List.filter_ext_in. intros r Hr. f_equal. apply list_elem_of_In in Hr.
  destruct (of_order oid r) eqn:Eo; [|done]. simpl. apply bool_decide_true.
  apply list_elem_of_fmap_2, list_elem_of_In. unfold open_reservations in Hr.
  apply list_elem_of_In, filter_In in Hr as [Hin Hres]. apply filter_In. by rewrite Eo, Hres.
Qed.

Lemma confirm_all_ok oid items c u c' :
  for_each items (λ i : ReservationItem, map_err tx_of_app (confirm_reservation oid i.1)) c = (Ok u, c') →
  inventory_ok (c_tables c) →
  order_closed oid Confirmed (λ sku, bool_decide (sku ∈ items.*1)) (c_tables c) (c_tables c') ∧
  (c_status c = TxActive → c_status c' = TxActive).
Proof.
  intros Hr Hok. apply (closing_loop_ok oid Confirmed fst) in Hr as [Hc Hs]. split; [|done].
  2:{ intros x ? v ? Hx%map_err_ok.
      by apply confirm_reservation_spec in Hx as [(_ & _ & ? & ?)|[? _]]. }
  apply close_chain_spec in Hc as (Hok' & Ho & Hsk & Hout & Hp); [|done..].
  by apply order_closed_intro.
Qed.
End spec.

(** ** Properties *)

Section properties.
Context `{Externals}.
Implicit Types (s : db catalog_tables unit) (t : catalog_tables) (items : list ReservationItem).

Definition reservation_made (oid buyer : Uuid) (total cur : string) items t t' : Prop :=
  order_reserved oid items t t' ∧ ct_processed t' = ct_processed t ∧
  ∃ r, ct_outbox t' = ct_outbox t ++ [r] ∧ reserved_row oid buyer total cur items r.

(** Reserving an order is all or nothing. Whatever fails, either nothing is
    reserved, or every item is, each SKU once, within its stock, with one
    InventoryReserved event; on top of that at most one InventoryReservationFailed event
    of the order is written; and an answer of success means that everything is reserved. *)
Theorem reserve_for_order_outcome oid buyer total cur items s o s' :
  NoDup (sku_id <$> ct_skus (d_committed s)) →
  reserve_for_order oid buyer total cur items s = (o, s') →
  (is_ok o = true → reservation_made oid buyer total cur items (d_committed s) (d_committed s')) ∧
  ∃ t1, (t1 = d_committed s ∨ reservation_made oid buyer total cur items (d_committed s) t1) ∧
    (d_committed s' = t1 ∨
     ∃ r, failed_row oid r ∧ d_committed s' = set_outbox_events (outbox_events t1 ++ [r]) t1).
Proof.
  intros Hnd Hr. unfold reserve_for_order, catch in Hr.
  destruct (with_transaction _ s) as [o1 s1] eqn:Et.
  assert (d_committed s1 = d_committed s ∧ is_ok o1 = false ∨
    reservation_made oid buyer total cur items (d_committed s) (d_committed s1)) as Hs1.
  { pose proof Et as [_ [Hc|(e & [] & c & Hc%map_err_ok & _ & _ & Ec)]]%with_transaction_all_or_nothing.
    - destruct o1 as [[]|?|]; [|by left..]. right.
      apply with_transaction_ok in Et as (e & c & Hm%map_err_ok & _ & _ & _ & Hst).
      apply do_reserve_ok in Hm as (Ho & Hs & Hp & Hout); [|done].
      destruct Hst as [[_ Hst]|[Hst _]]; [|congruence]. rewrite Hst. done.
    - right. apply do_reserve_ok in Hc as (Ho & Hs & Hp & Hout); [|done]. rewrite Ec. done. }
  destruct o1 as [[]|e|].
  - injection Hr as <- <-. destruct Hs1 as [[_ ?]|Hm]; [done|]. split; [done|].
    exists (d_committed s1). auto.
  - split.
    { intros Hok. destruct o as [[]|?|]; [|done..].
      by apply bind_ok in Hr as (? & ? & _ & ?%fail_ok). }
    exists (d_committed s1). split; [destruct Hs1 as [[-> _]|?]; auto|].
    apply bind_inv in Hr as [([] & s2 & Hw & [= _ <-])|[_ (o2 & Hw & _)]];
      by apply write_failed_spec in Hw as [[-> _]|(r & ? & ->)]; eauto.
  - injection Hr as <- <-. split; [done|]. exists (d_committed s1).
    split; [destruct Hs1 as [[-> _]|?]; auto|by left].
Qed.

(** Releasing an order gives back exactly what it held: its open reservations are
    closed, all others stay as they are, each live SKU's reserved quantity drops by what
    the order held on it and its stock is untouched; and releasing again, whatever its
    outcome, changes nothing. *)
Theorem release_for_order_effect oid s u s1 :
  inventory_ok (d_committed s) → release_for_order oid s = (Ok u, s1) →
  order_closed oid Released (λ _, true) (d_committed s) (d_committed s1) ∧
  ∀ o s2, release_for_order oid s1 = (o, s2) → d_committed s2 = d_committed s1.
Proof.
  intros Hok Hr. apply map_err_ok in Hr.
  apply with_transaction_ok in Hr as (e & c & Hm%map_err_ok & _ & _ & _ & Hst).
  apply release_all_ok in Hm as (Hc & Hok1 & Hs); [|done].
  destruct Hst as [[_ Hst]|[Hst _]]; [|congruence]. simpl in Hc. rewrite Hst. split; [done|].
  intros o s2 Hr. unfold release_for_order in Hr. apply map_err_inv in Hr as (o1 & Hr & _).
  apply with_transaction_all_or_nothing in Hr as [_ [Hn|(e1 & [] & c1 & Hm & _ & _ & Ec)]].
  { by rewrite Hn, Hst. }
  rewrite Ec. apply map_err_ok in Hm. unfold release_all_reservations, ise in Hm.
  apply bind_ok in Hm as (rs & c2 & H1 & Hm). apply map_err_ok, query_ok in H1 as (-> & Et & _).
  simpl in Et, Hm. rewrite Hst in Et, Hm. rewrite filter_none in Hm.
  { apply ret_ok in Hm as [_ <-]. exact Et. }
  intros r Hr. destruct Hc as (Ho & _). destruct (is_reserved r) eqn:Er; [|by rewrite andb_false_r].
  assert (r ∈ open_reservations (c_tables c)) as Hin.
  { apply list_elem_of_In, filter_In. split; [by apply list_elem_of_In|done]. }
  rewrite Ho in Hin. apply list_elem_of_In, filter_In in Hin as [_ Hin].
  rewrite andb_true_r in *. by apply negb_true_iff in Hin.
Qed.

(** C10: A reservation that is released leaves no trace in the quantities: for an order
    without open reservations, reserving its items and releasing the order restores the
    open reservations and every SKU's stock and reserved quantity. *)
Theorem reserve_release_roundtrip oid buyer total cur items s u s1 v s2 :
  inventory_ok (d_committed s) →
  Forall (λ r, of_order oid r = false) (open_reservations (d_committed s)) →
  reserve_for_order oid buyer total cur items s = (Ok u, s1) →
  release_for_order oid s1 = (Ok v, s2) →
  open_reservations (d_committed s2) = open_reservations (d_committed s) ∧
  Forall2 (λ a b, sku_id b = sku_id a ∧ stock_quantity b = stock_quantity a ∧
      reserved_quantity b = reserved_quantity a)
    (ct_skus (d_committed s)) (ct_skus (d_committed s2)).
Proof.
  intros Hok Hno Hr1 Hr2.
  assert (inventory_ok (d_committed s1)) as Hok1.
  { eapply (keeps_reserve_for_order inventory_ok); [..|exact Hr1|exact Hok]; try done; clear.
    - by intros t (? & _).
    - intros oid sku q t t' He ?. apply reserve_effect_stocked in He as [? _]. auto. }
  destruct (reserve_for_order_outcome _ _ _ _ _ _ _ _ (proj1 Hok) Hr1) as [Hm _].
  destruct (Hm eq_refl) as ((_ & _ & (new & Hnew & Hrs) & Hsk & _) & _).
  apply map_err_ok, with_transaction_ok in Hr2 as (e & c & Hc%map_err_ok & _ & _ & _ & Hst).
  apply release_all_ok in Hc as ((Ho & Hsk2 & _) & Hok2 & Hs); [|done].
  destruct Hst as [[_ Hst]|[Hst _]]; [|congruence]. simpl in Ho, Hsk2. rewrite Hst. clear Hst.
  assert (open_reservations (c_tables c) = open_reservations (d_committed s)) as Hopen.
  { rewrite Ho. unfold open_reservations in *. rewrite Hnew, !List.filter_app.
    rewrite (filter_none _ (List.filter is_reserved new)), app_nil_r.
    - revert Hno. generalize (List.filter is_reserved (ct_reservations (d_committed s))).
      induction 1 as [|x l Hx _ IH]; simpl; [done|]. rewrite Hx. simpl. by rewrite IH.
    - intros r Hr%list_elem_of_In%filter_In. destruct Hr as [Hr _].
      apply list_elem_of_In, list_elem_of_lookup in Hr as [k Hk].
      destruct (Forall2_lookup_r _ _ _ _ _ Hrs Hk) as (i & _ & Hoid & _).
      unfold of_order. by rewrite bool_decide_true by done. }
  split; [done|]. apply Forall2_same_length_lookup_2.
  { rewrite (Forall2_length _ _ _ Hsk). by eapply Forall2_length. }
  intros i a b Ha Hb. destruct (Forall2_lookup_r _ _ _ _ _ Hsk2 Hb) as (m & Hm' & (E1 & E2 & E3 & E4) & _).
  destruct (Forall2_lookup_lr _ _ _ _ _ _ Hsk Ha Hm') as (F1 & F2 & F3 & F4 & _).
  rewrite decide_False in E3 by done. split_and!; [congruence|lia|].
  destruct (is_live a) eqn:El.
  - destruct Hok as (_ & _ & Hok), Hok2 as (_ & _ & Hok2). rewrite Forall_forall in Hok, Hok2.
    rewrite (Hok a (list_elem_of_lookup_2 _ _ _ Ha) El).
    rewrite (Hok2 b (list_elem_of_lookup_2 _ _ _ Hb)) by (unfold is_live in *; by rewrite E2, F2).
    rewrite !open_quantity_alt, Hopen. by rewrite E1, F1.
  - rewrite E4, F4; [done|done|]. unfold is_live in *. by rewrite F2.
Qed.

(** Confirming an order ships what it held on the confirmed SKUs, or has no effect:
    its reservations of these SKUs, and no others, are closed, and each live SKU loses
    the same quantity from its stock and from its reserved quantity, so that what is
    available to other orders does not change. *)
Theorem confirm_for_order_effect oid items s o s' :
  inventory_ok (d_committed s) → confirm_for_order oid items s = (o, s') →
  d_committed s' = d_committed s ∧ is_ok o = false ∨
  order_closed oid Confirmed (λ sku, bool_decide (sku ∈ items.*1))
    (d_committed s) (d_committed s') ∧
  Forall2 (λ a b, stock_quantity b - reserved_quantity b = stock_quantity a - reserved_quantity a)
    (ct_skus (d_committed s)) (ct_skus (d_committed s')).
Proof.
  intros Hok Hr. unfold confirm_for_order in Hr. apply map_err_inv in Hr as (o1 & Hr & ->).
  assert (∀ e a c, for_each items (λ i : ReservationItem, map_err tx_of_app (confirm_reservation oid i.1))
      (MkConn (d_committed s) TxActive e) = (Ok a, c) →
    c_status c = TxActive ∧ (d_committed s' = c_tables c →
    order_closed oid Confirmed (λ sku, bool_decide (sku ∈ items.*1)) (d_committed s) (d_committed s') ∧
    Forall2 (λ a b, stock_quantity b - reserved_quantity b = stock_quantity a - reserved_quantity a)
      (ct_skus (d_committed s)) (ct_skus (d_committed s')))) as Hbody.
  { intros e a c Hc. apply confirm_all_ok in Hc as [Hc Hs]; [|done]. split; [by apply Hs|].
    intros ->. split; [exact Hc|]. destruct Hc as (_ & Hsk & _). eapply Forall2_impl; [exact Hsk|].
    intros x y [(_ & _ & E & _) _]. rewrite decide_True in E by done. lia. }
  pose proof Hr as [_ [Hc|(e & [] & c & Hm & _ & Hs & Ec)]]%with_transaction_all_or_nothing.
  - destruct o1 as [[]|?|]; [|by left..]. right.
    apply with_transaction_ok in Hr as (e & c & Hm & _ & _ & _ & Hst).
    apply Hbody in Hm as [Hs Hm]. destruct Hst as [[_ Hst]|[Hst _]]; [auto|congruence].
  - right. apply Hbody in Hm as [_ Hm]. auto.
Qed.

(** Every other event announces nothing. *)
Lemma other_applied_silent g now e t t' :
  em_event_type (env_metadata e) ≠ OrderCreated → applied catalog_handler g now e t t' →
  ct_outbox t' = ct_outbox t.
Proof.
  intros Hty (c & x & ss & at_ & <- & Hh & _ & -> & _).
  transitivity (ct_outbox (c_tables (s_conn ss))); [unfold mark_processed_row; by case_match|].
  unfold catalog_handler in Hh.
  destruct (em_event_type (env_metadata e)); try (by injection Hh as <-); try done.
  apply map_err_ok in Hh. unfold in_tx in Hh. apply zoom_ok in Hh as (c' & Hr & ->).
  by apply (keeps_beside_cancelled ct_outbox) in Hr.
Qed.

(** What the consumer commits for an OrderCreated event. *)
Lemma order_created_applied g now e t t' :
  em_event_type (env_metadata e) = OrderCreated → NoDup (sku_id <$> ct_skus t) →
  applied catalog_handler g now e t t' →
  ∃ oid buyer items t1, payload_uuid e "order_id" = Ok oid ∧ payload_uuid e "buyer_id" = Ok buyer ∧
    parse_items (env_payload e) = Ok items ∧
    reservation_made oid buyer (default "0" (payload_str e "total_amount"))
      (default "USD" (payload_str e "currency")) items t t1 ∧
    ct_skus t' = ct_skus t1 ∧ ct_reservations t' = ct_reservations t1 ∧ ct_outbox t' = ct_outbox t1.
Proof.
  intros Hty Hnd (c & x & ss & at_ & Et & Hh & _ & Es & _). unfold catalog_handler in Hh. rewrite Hty in Hh.
  apply order_created_ok in Hh as (oid & b & tot & cur & items & Ho & Hi & _ & Hh & Hb & -> & ->).
  simpl in Hh. rewrite <-Et in *. apply do_reserve_ok in Hh as (Hres & _ & Hpr & Hout); [|done].
  exists oid, b, items, (c_tables (s_conn ss)).
  split_and!; try done; rewrite Es; unfold mark_processed_row; by case_match.
Qed.

(** C9: The catalog consumes an order exactly once and completely. A delivery of an
    OrderCreated event, with any faults, either reserves every item of the event's
    payload, writes the InventoryReserved event and marks the event as processed, all in
    one step; or leaves the stock and the reservations alone and writes nothing but
    InventoryReservationFailed events. In particular an order that lists a SKU twice is
    never reserved. *)
Theorem order_created_consumed g e s o s' :
  em_event_type (env_metadata e) = OrderCreated →
  NoDup (sku_id <$> ct_skus (d_committed s)) →
  attempt catalog_handler g e s = (o, s') →
  (appended (d_committed s) (d_committed s') ∧ o ≠ Ok Committed) ∨
  (∃ oid buyer items t1,
     payload_uuid e "order_id" = Ok oid ∧ payload_uuid e "buyer_id" = Ok buyer ∧
     parse_items (env_payload e) = Ok items ∧ NoDup items.*1 ∧
     reservation_made oid buyer (default "0" (payload_str e "total_amount"))
       (default "USD" (payload_str e "currency")) items (d_committed s) t1 ∧
     ct_skus (d_committed s') = ct_skus t1 ∧ ct_reservations (d_committed s') = ct_reservations t1 ∧
     ct_outbox (d_committed s') = ct_outbox t1 ∧
     processed (d_committed s) (event_id e) g = false ∧
     processed (d_committed s') (event_id e) g = true).
Proof.
  intros Hty Hnd Hr.
  apply (attempt_spec catalog_handler appended) in Hr as [(Ha & Hn & _)|(Hp & Ha & _)]; [by left|right].
  destruct (applied_marks catalog_handler appended _ _ _ _ _ Ha) as [Hp' _].
  apply order_created_applied in Ha as (oid & b & items & t1 & Ho & Hb & Hi & Hres & E1 & E2 & E3); [|done..].
  exists oid, b, items, t1. split_and!; try done. by destruct Hres as [(? & _) _].
Qed.
End properties.
