(* ===== verification/InventoryWitness.v ===== *)
(** * Catalog inventory: concrete runs

    The theorems of InventorySpec applied on the computable instance: an order is
    reserved by its event, a second one does not fit, both are released or confirmed. *)

From S2P Require Import Prelude RustStr Externals Sample Errors Events Db Outbox Consumer.
From S2P Require Import ConsumerProps Labels ShopTables Inventory InventoryProps InventorySpec.

#[local] Existing Instance sample.
Local Open Scope Z_scope.

Definition uid (s : string) : Uuid := s.
Definition sku_row (id : string) (stock : Z) : SkuRow :=
  MkSku (uid id) 900 None None (uid "product") id (dec_new 500 2) stock 0 (jobj []) SkActive.
Definition stock_tables : catalog_tables :=
  MkCatalogTables [sku_row "mug" 10; sku_row "cup" 3] [] [] []
    (MkShopTables [] [] [] [] []).
Definition stock_world (fs : list fault) : db catalog_tables unit :=
  MkDb stock_tables (MkEnv 1000 1 fs) tt.

Lemma stock_ids fs : NoDup (sku_id <$> ct_skus (d_committed (stock_world fs))).
Proof. apply (bool_decide_unpack _). vm_compute. exact I. Qed.

Lemma inventory_start fs : inventory_ok (d_committed (stock_world fs)).
Proof.
  split_and!.
  - apply stock_ids.
  - split_and!; [apply NoDup_nil; exact I|apply NoDup_nil; exact I|constructor].
  - repeat constructor.
Qed.

Definition oid1 : Uuid := uid "order-1".
Definition mugs : list ReservationItem := [(uid "mug", 4); (uid "cup", 1)].

Definition created_event (id : string) (order : Uuid) (items : list ReservationItem) : EventEnvelope :=
  EventEnvelope_new (EventMetadata_new (uid id) 900 OrderCreated AggOrder order Order)
    (reserved_payload order (uid "buyer") "30" "USD" items).

(** The answer of the commit is lost: everything is reserved, and the failure event is
    written as well. *)
Definition lost_commit : list fault := [FNone; FNone; FNone; FNone; FNone; FNone; FAfter].
Definition reserve_run := reserve_for_order oid1 (uid "buyer") "30" "USD" mugs (stock_world lost_commit).
Lemma reserve_for_order_outcome_witness :
  is_ok reserve_run.1 = false ∧
  oe_event_type <$> ct_outbox (d_committed reserve_run.2)
    = ["InventoryReserved"; "InventoryReservationFailed"] ∧
  ∃ t1, (t1 = d_committed (stock_world lost_commit) ∨
      reservation_made oid1 (uid "buyer") "30" "USD" mugs (d_committed (stock_world lost_commit)) t1) ∧
    (d_committed reserve_run.2 = t1 ∨
     ∃ r, failed_row oid1 r ∧
       d_committed reserve_run.2 = set_outbox_events (outbox_events t1 ++ [r]) t1).
Proof.
  split; [vm_compute; reflexivity|]. split; [vm_compute; reflexivity|].
  exact (proj2 (reserve_for_order_outcome oid1 (uid "buyer") "30" "USD" mugs
    (stock_world lost_commit) reserve_run.1 reserve_run.2 (stock_ids lost_commit)
    (surjective_pairing _))).
Defined.

Definition reserved_run := reserve_for_order oid1 (uid "buyer") "30" "USD" mugs (stock_world []).
Definition released_run := release_for_order oid1 reserved_run.2.

Lemma reserved_ok : reserve_for_order oid1 (uid "buyer") "30" "USD" mugs (stock_world []) =
  (Ok tt, reserved_run.2).
Proof. apply run_ok_unit. vm_compute. reflexivity. Qed.
Lemma released_ok : release_for_order oid1 reserved_run.2 = (Ok tt, released_run.2).
Proof. apply run_ok_unit. vm_compute. reflexivity. Qed.
Lemma reserved_inventory : inventory_ok (d_committed reserved_run.2).
Proof.
  eapply (keeps_reserve_for_order inventory_ok); [..|exact reserved_ok|exact (inventory_start [])];
    try done.
  - by intros t (? & _).
  - intros oid sku q t t' He ?. apply reserve_effect_stocked in He as [? _]. auto.
Qed.

Lemma release_for_order_effect_witness :
  reserved_quantity <$> ct_skus (d_committed reserved_run.2) = [4; 1] ∧
  reserved_quantity <$> ct_skus (d_committed released_run.2) = [0; 0] ∧
  order_closed oid1 Released (λ _, true) (d_committed reserved_run.2) (d_committed released_run.2).
Proof.
  split; [vm_compute; reflexivity|]. split; [vm_compute; reflexivity|].
  exact (proj1 (release_for_order_effect oid1 reserved_run.2 tt released_run.2 reserved_inventory
    released_ok)).
Defined.

Lemma reserve_release_roundtrip_witness :
  open_reservations (d_committed released_run.2) = open_reservations (d_committed (stock_world [])).
Proof.
  exact (proj1 (reserve_release_roundtrip oid1 (uid "buyer") "30" "USD" mugs (stock_world []) tt
    reserved_run.2 tt released_run.2 (inventory_start []) (List.Forall_nil _)
    reserved_ok released_ok)).
Defined.

Definition confirm_run := confirm_for_order oid1 mugs reserved_run.2.
Lemma confirm_for_order_effect_witness :
  stock_quantity <$> ct_skus (d_committed confirm_run.2) = [6; 2] ∧
  (d_committed confirm_run.2 = d_committed reserved_run.2 ∧ is_ok confirm_run.1 = false ∨
   order_closed oid1 Confirmed (λ sku, bool_decide (sku ∈ mugs.*1))
     (d_committed reserved_run.2) (d_committed confirm_run.2) ∧
   Forall2 (λ a b, stock_quantity b - reserved_quantity b = stock_quantity a - reserved_quantity a)
     (ct_skus (d_committed reserved_run.2)) (ct_skus (d_committed confirm_run.2))).
Proof.
  split; [vm_compute; reflexivity|].
  exact (confirm_for_order_effect oid1 mugs reserved_run.2 confirm_run.1 confirm_run.2
    reserved_inventory (surjective_pairing _)).
Defined.

(** An order that lists a SKU twice is not reserved. *)
Definition twice_event : EventEnvelope := created_event "e3" oid1 [(uid "mug", 1); (uid "mug", 2)].
Definition once_run := attempt catalog_handler "catalog" (created_event "e1" oid1 mugs) (stock_world []).
Definition twice_run := attempt catalog_handler "catalog" twice_event (stock_world []).
Lemma order_created_consumed_witness :
  reserved_quantity <$> ct_skus (d_committed once_run.2) = [4; 1] ∧
  oe_event_type <$> ct_outbox (d_committed twice_run.2) = ["InventoryReservationFailed"] ∧
  (appended (d_committed (stock_world [])) (d_committed twice_run.2) ∨
   ∃ items, parse_items (env_payload twice_event) = Ok items ∧ NoDup items.*1).
Proof.
  split; [vm_compute; reflexivity|]. split; [vm_compute; reflexivity|].
  destruct (order_created_consumed "catalog" twice_event (stock_world []) twice_run.1 twice_run.2
    eq_refl (stock_ids []) (surjective_pairing _)) as [[Ha _]|(_ & _ & items & _ & _ & _ & Hi & Hn & _)].
  - left. exact Ha.
  - right. exists items. exact (conj Hi Hn).
Defined.
