(* ===== verification/ShopTypes.v ===== *)
(** * Catalog service: requests, responses and domain types
    (dtos.rs and domain.rs of catalog/src/categories, brands and products) *)

From S2P Require Import Prelude RustStr Externals Errors NewTypes Regex Auth Db Pagination Labels ShopTables Inventory.

Local Open Scope Z_scope.

Section types.
Context `{Externals, !UnicodeApi}.

(** [o.map(f).transpose()] *)
Definition transpose_map {A B} (f : A → outcome AppError B) (o : option A) : outcome AppError (option B) :=
  match o with
  | Some a => b ← f a; Ok (Some b)
  | None => Ok None
  end.
(** A slug that is given, or else made from the name. *)
Definition slug_or_name (slug : option string) (name : string) : outcome AppError Slug :=
  match slug with Some s => Slug_new s | None => Slug_from_name name end.

(** ** Categories *)

Record Category := {
  cat_id : Uuid; cat_name : string; cat_slug : Slug; cat_path : LtreeLabel; cat_parent_id : option Uuid;
  cat_depth : Z; cat_description : option string }.
Definition Category_try_from (v : CategoryEntity) : outcome AppError Category :=
  name ← CategoryName_new (ce_name v);
  slug ← Slug_new (ce_slug v);
  path ← LtreeLabel_from_name (ce_path v);
  Ok {| cat_id := ce_id v; cat_name := name; cat_slug := slug; cat_path := path;
        cat_parent_id := ce_parent_id v; cat_depth := ce_depth v; cat_description := ce_description v |}.

Record CreateCategoryReq := {
  cc_name : string; cc_slug : option string; cc_parent_id : option Uuid; cc_description : option string }.
Record UpdateCategoryReq := { uc_name : option string; uc_description : option string }.
Record CategoryRes := {
  cr_id : string; cr_created_at : string; cr_updated_at : option string; cr_name : string; cr_slug : string;
  cr_path : string; cr_parent_id : option string; cr_depth : Z; cr_description : option string }.
Definition CategoryRes_new (e : CategoryEntity) : CategoryRes := {|
  cr_id := fmt_id (ce_id e); cr_created_at := fmt_datetime (ce_created_at e);
  cr_updated_at := fmt_datetime_opt (ce_updated_at e); cr_name := ce_name e; cr_slug := ce_slug e;
  cr_path := ce_path e; cr_parent_id := fmt_id <$> ce_parent_id e; cr_depth := ce_depth e;
  cr_description := ce_description e |}.

Record ValidCreateCategoryReq := {
  vcc_name : string; vcc_slug : Slug; vcc_label : LtreeLabel; vcc_parent_id : option Uuid;
  vcc_description : option string }.
Definition ValidCreateCategoryReq_try_from (req : CreateCategoryReq) : outcome AppError ValidCreateCategoryReq :=
  name ← CategoryName_new (cc_name req);
  slug ← slug_or_name (cc_slug req) name;
  label ← LtreeLabel_from_name name;
  Ok {| vcc_name := name; vcc_slug := slug; vcc_label := label; vcc_parent_id := cc_parent_id req;
        vcc_description := cc_description req |}.
Record ValidUpdateCategoryReq := { vuc_name : option string; vuc_description : option string }.
Definition ValidUpdateCategoryReq_try_from (req : UpdateCategoryReq) : outcome AppError ValidUpdateCategoryReq :=
  name ← transpose_map CategoryName_new (uc_name req);
  Ok {| vuc_name := name; vuc_description := uc_description req |}.

(** ** Brands *)

Record Brand := {
  bra_id : Uuid; bra_name : string; bra_slug : Slug; bra_description : option string;
  bra_logo_url : option HttpUrl }.
Definition Brand_try_from (v : BrandEntity) : outcome AppError Brand :=
  name ← BrandName_new (br_name v);
  slug ← Slug_new (br_slug v);
  logo_url ← transpose_map HttpUrl_new (br_logo_url v);
  Ok {| bra_id := br_id v; bra_name := name; bra_slug := slug; bra_description := br_description v;
        bra_logo_url := logo_url |}.

Record CreateBrandReq := {
  cb_name : string; cb_slug : option string; cb_description : option string; cb_logo_url : option string }.
Record UpdateBrandReq := {
  ub_name : option string; ub_description : option string; ub_logo_url : option string }.
Record AssociateCategoryReq := { ac_category_id : Uuid }.
Record BrandRes := {
  bs_id : string; bs_created_at : string; bs_updated_at : option string; bs_name : string; bs_slug : string;
  bs_description : option string; bs_logo_url : option string }.
Definition BrandRes_new (e : BrandEntity) : BrandRes := {|
  bs_id := fmt_id (br_id e); bs_created_at := fmt_datetime (br_created_at e);
  bs_updated_at := fmt_datetime_opt (br_updated_at e); bs_name := br_name e; bs_slug := br_slug e;
  bs_description := br_description e; bs_logo_url := br_logo_url e |}.

Record ValidCreateBrandReq := {
  vcb_name : string; vcb_slug : Slug; vcb_description : option string; vcb_logo_url : option HttpUrl }.
Definition ValidCreateBrandReq_try_from (req : CreateBrandReq) : outcome AppError ValidCreateBrandReq :=
  name ← BrandName_new (cb_name req);
  slug ← slug_or_name (cb_slug req) name;
  logo_url ← transpose_map HttpUrl_new (cb_logo_url req);
  Ok {| vcb_name := name; vcb_slug := slug; vcb_description := cb_description req; vcb_logo_url := logo_url |}.
Record ValidUpdateBrandReq := {
  vub_name : option string; vub_description : option string; vub_logo_url : option HttpUrl }.
Definition ValidUpdateBrandReq_try_from (req : UpdateBrandReq) : outcome AppError ValidUpdateBrandReq :=
  name ← transpose_map BrandName_new (ub_name req);
  logo_url ← transpose_map HttpUrl_new (ub_logo_url req);
  Ok {| vub_name := name; vub_description := ub_description req; vub_logo_url := logo_url |}.

(** ** Products: filters *)

Record ProductFilterQuery := {
  pf_limit : option nat; pf_cursor : option Uuid; pf_direction : option PaginationDirection;
  pf_category_id : option Uuid; pf_brand_id : option Uuid; pf_min_price : option Decimal;
  pf_max_price : option Decimal; pf_search : option string; pf_status : option ProductStatus }.
Record ProductFilter := {
  fl_category_id : option Uuid; fl_brand_id : option Uuid; fl_min_price : option Decimal;
  fl_max_price : option Decimal; fl_search : option SearchQuery; fl_status : option ProductStatus }.
Definition product_query_parts (q : ProductFilterQuery) : PaginationParams * ProductFilter :=
  (into_params {| pq_limit := pf_limit q; pq_cursor := pf_cursor q; pq_direction := pf_direction q |},
   {| fl_category_id := pf_category_id q; fl_brand_id := pf_brand_id q; fl_min_price := pf_min_price q;
      fl_max_price := pf_max_price q;
      fl_search := s ← pf_search q; match SearchQuery_new s with Ok x => Some x | _ => None end;
      fl_status := pf_status q |}).

(** ** Products: requests *)

Record CreateProductReq := {
  cp_name : string; cp_slug : option string; cp_description : option string; cp_base_price : Decimal;
  cp_currency : option string; cp_category_id : option Uuid; cp_brand_id : option Uuid }.
Record UpdateProductReq := {
  up_name : option string; up_slug : option string; up_description : option string;
  up_base_price : option Decimal; up_currency : option string; up_category_id : option Uuid;
  up_brand_id : option Uuid; up_status : option ProductStatus }.
(** Stock quantities, deltas and sort orders are i32. *)
Record CreateSkuReq := {
  cs_sku_code : string; cs_price : Decimal; cs_stock_quantity : Z; cs_attributes : option Value }.
Record UpdateSkuReq := {
  usk_price : option Decimal; usk_stock_quantity : option Z; usk_attributes : option Value;
  usk_status : option SkuStatus }.
Record AddProductImageReq := {
  ai_url : string; ai_alt_text : option string; ai_sort_order : option Z; ai_is_primary : option bool }.
Record AdjustStockReq := { as_delta : Z }.

Record ValidCreateProductReq := {
  vcp_name : string; vcp_slug : Slug; vcp_description : option string; vcp_base_price : Price;
  vcp_currency : Currency; vcp_category_id : option Uuid; vcp_brand_id : option Uuid }.
Definition ValidCreateProductReq_new (req : CreateProductReq) : outcome AppError ValidCreateProductReq :=
  name ← ProductName_new (cp_name req);
  slug ← slug_or_name (cp_slug req) name;
  base_price ← Price_new (cp_base_price req);
  currency ← match cp_currency req with Some c => Currency_new c | None => Ok Currency_default end;
  Ok {| vcp_name := name; vcp_slug := slug; vcp_description := cp_description req;
        vcp_base_price := base_price; vcp_currency := currency; vcp_category_id := cp_category_id req;
        vcp_brand_id := cp_brand_id req |}.

Record ValidUpdateProductReq := {
  vup_name : option string; vup_slug : option Slug; vup_description : option string;
  vup_base_price : option Price; vup_currency : option Currency; vup_category_id : option Uuid;
  vup_brand_id : option Uuid; vup_status : option ProductStatus }.
(** [a.or(b)] *)
Definition or_else {A} (a b : option A) : option A := match a with Some _ => a | None => b end.
Definition ValidUpdateProductReq_new (req : UpdateProductReq) (existing : ProductRow)
    : outcome AppError ValidUpdateProductReq :=
  name ← transpose_map ProductName_new (up_name req);
  slug ← transpose_map Slug_new (up_slug req);
  base_price ← transpose_map Price_new (up_base_price req);
  currency ← transpose_map Currency_new (up_currency req);
  Ok {| vup_name := name; vup_slug := slug; vup_description := up_description req;
        vup_base_price := base_price; vup_currency := currency;
        vup_category_id := or_else (up_category_id req) (pd_category_id existing);
        vup_brand_id := or_else (up_brand_id req) (pd_brand_id existing); vup_status := up_status req |}.

Record ValidCreateSkuReq := {
  vcs_sku_code : SkuCode; vcs_price : Price; vcs_stock_quantity : StockQuantity; vcs_attributes : Value }.
Definition ValidCreateSkuReq_try_from (req : CreateSkuReq) : outcome AppError ValidCreateSkuReq :=
  sku_code ← SkuCode_new (cs_sku_code req);
  price ← Price_new (cs_price req);
  stock_quantity ← StockQuantity_new (cs_stock_quantity req);
  Ok {| vcs_sku_code := sku_code; vcs_price := price; vcs_stock_quantity := stock_quantity;
        vcs_attributes := default (jobj []) (cs_attributes req) |}.
Record ValidUpdateSkuReq := {
  vus_price : option Price; vus_stock_quantity : option StockQuantity; vus_attributes : option Value;
  vus_status : option SkuStatus }.
Definition ValidUpdateSkuReq_try_from (req : UpdateSkuReq) : outcome AppError ValidUpdateSkuReq :=
  price ← transpose_map Price_new (usk_price req);
  stock_quantity ← transpose_map StockQuantity_new (usk_stock_quantity req);
  Ok {| vus_price := price; vus_stock_quantity := stock_quantity; vus_attributes := usk_attributes req;
        vus_status := usk_status req |}.
Record ValidAddProductImageReq := {
  vai_url : HttpUrl; vai_alt_text : option string; vai_sort_order : Z; vai_is_primary : bool }.
Definition ValidAddProductImageReq_try_from (req : AddProductImageReq) : outcome AppError ValidAddProductImageReq :=
  url ← HttpUrl_new (ai_url req);
  Ok {| vai_url := url; vai_alt_text := ai_alt_text req; vai_sort_order := default 0 (ai_sort_order req);
        vai_is_primary := default false (ai_is_primary req) |}.

(** ** Products: responses *)

Record ProductRes := {
  pr_id : string; pr_created_at : string; pr_updated_at : option string; pr_seller_id : string;
  pr_name : string; pr_slug : string; pr_description : option string; pr_base_price : Decimal;
  pr_currency : string; pr_category_id : option string; pr_brand_id : option string;
  pr_status : ProductStatus; pr_category_name : option string; pr_category_slug : option string;
  pr_brand_name : option string; pr_brand_slug : option string }.
Definition ProductRes_new (e : ProductEntity) : ProductRes := let p := pe_product e in {|
  pr_id := fmt_id (pd_id p); pr_created_at := fmt_datetime (pd_created_at p);
  pr_updated_at := fmt_datetime_opt (pd_updated_at p); pr_seller_id := fmt_id (pd_seller_id p);
  pr_name := pd_name p; pr_slug := pd_slug p; pr_description := pd_description p;
  pr_base_price := pd_base_price p; pr_currency := pd_currency p;
  pr_category_id := fmt_id <$> pd_category_id p; pr_brand_id := fmt_id <$> pd_brand_id p;
  pr_status := pd_status p; pr_category_name := pe_category_name e;
  pr_category_slug := pe_category_slug e; pr_brand_name := pe_brand_name e;
  pr_brand_slug := pe_brand_slug e |}.

Record ProductListRes := {
  lp_id : string; lp_created_at : string; lp_seller_id : string; lp_name : string; lp_slug : string;
  lp_base_price : Decimal; lp_currency : string; lp_category_id : option string;
  lp_brand_id : option string; lp_status : ProductStatus; lp_category_name : option string;
  lp_brand_name : option string; lp_image_url : option string }.
Definition ProductListRes_new (e : ProductListEntity) : ProductListRes := {|
  lp_id := fmt_id (pl_id e); lp_created_at := fmt_datetime (pl_created_at e);
  lp_seller_id := fmt_id (pl_seller_id e); lp_name := pl_name e; lp_slug := pl_slug e;
  lp_base_price := pl_base_price e; lp_currency := pl_currency e;
  lp_category_id := fmt_id <$> pl_category_id e; lp_brand_id := fmt_id <$> pl_brand_id e;
  lp_status := pl_status e; lp_category_name := pl_category_name e; lp_brand_name := pl_brand_name e;
  lp_image_url := pl_image_url e |}.

Record SkuRes := {
  sk_id : string; sk_created_at : string; sk_updated_at : option string; sk_product_id : string;
  sk_sku_code : string; sk_price : Decimal; sk_stock_quantity : Z; sk_attributes : Value;
  sk_status : SkuStatus }.
Definition SkuRes_new (e : SkuRow) : SkuRes := {|
  sk_id := fmt_id (sku_id e); sk_created_at := fmt_datetime (sku_created_at e);
  sk_updated_at := fmt_datetime_opt (sku_updated_at e); sk_product_id := fmt_id (sku_product_id e);
  sk_sku_code := sku_code e; sk_price := sku_price e; sk_stock_quantity := stock_quantity e;
  sk_attributes := sku_attributes e; sk_status := sku_status e |}.

Record ProductImageRes := {
  ir_id : string; ir_created_at : string; ir_product_id : string; ir_url : string;
  ir_alt_text : option string; ir_sort_order : Z; ir_is_primary : bool }.
Definition ProductImageRes_new (e : ProductImageEntity) : ProductImageRes := {|
  ir_id := fmt_id (im_id e); ir_created_at := fmt_datetime (im_created_at e);
  ir_product_id := fmt_id (im_product_id e); ir_url := im_url e; ir_alt_text := im_alt_text e;
  ir_sort_order := im_sort_order e; ir_is_primary := im_is_primary e |}.

Record ProductDetailRes := {
  dt_product : ProductRes; dt_skus : list SkuRes; dt_images : list ProductImageRes }.

(** ** Products: domain types *)

Record Product := {
  prd_id : Uuid; prd_name : string; prd_slug : Slug; prd_description : option string; prd_base_price : Price;
  prd_currency : Currency; prd_category_id : option Uuid; prd_brand_id : option Uuid;
  prd_status : ProductStatus }.
Definition Product_try_from (v : ProductRow) : outcome AppError Product :=
  name ← ProductName_new (pd_name v);
  slug ← Slug_new (pd_slug v);
  base_price ← Price_new (pd_base_price v);
  currency ← Currency_new (pd_currency v);
  Ok {| prd_id := pd_id v; prd_name := name; prd_slug := slug; prd_description := pd_description v;
        prd_base_price := base_price; prd_currency := currency; prd_category_id := pd_category_id v;
        prd_brand_id := pd_brand_id v; prd_status := pd_status v |}.
Record Sku := {
  skd_id : Uuid; skd_product_id : Uuid; skd_sku_code : SkuCode; skd_price : Price;
  skd_stock_quantity : StockQuantity; skd_attributes : Value }.
Definition Sku_try_from (product_id : Uuid) (entity : SkuRow) : outcome AppError Sku :=
  sku_code ← SkuCode_new (sku_code entity);
  price ← Price_new (sku_price entity);
  stock_quantity ← StockQuantity_new (stock_quantity entity);
  Ok {| skd_id := sku_id entity; skd_product_id := product_id; skd_sku_code := sku_code;
        skd_price := price; skd_stock_quantity := stock_quantity; skd_attributes := sku_attributes entity |}.
End types.

(** ** JSON

    The derived forms of the cached responses; [json_agg(row_to_json(..))] of the database and
    [serde_json::from_value] of the entities, with its error text. *)
Class ShopCodec `{Externals} := {
  product_to_json : ProductRes → option string;
  product_of_json : string → option ProductRes;
  detail_to_json : ProductDetailRes → option string;
  detail_of_json : string → option ProductDetailRes;
  agg_skus : list SkuRow → Value;
  agg_images : list ProductImageEntity → Value;
  skus_from_value : Value → list SkuRow + string;
  images_from_value : Value → list ProductImageEntity + string;
  product_of_to_json r d : product_to_json r = Some d → product_of_json d = Some r;
  detail_of_to_json r d : detail_to_json r = Some d → detail_of_json d = Some r }.

Definition ProductDetailRes_from_row `{ShopCodec} (row : ProductDetailRow) : outcome AppError ProductDetailRes :=
  skus ← match skus_from_value (dr_skus_json row) with
         | inl l => Ok l
         | inr e => Err (InternalServerError ("Failed to parse SKUs: " +:+ e))
         end;
  images ← match images_from_value (dr_images_json row) with
           | inl l => Ok l
           | inr e => Err (InternalServerError ("Failed to parse images: " +:+ e))
           end;
  Ok {| dt_product := ProductRes_new (dr_product row); dt_skus := SkuRes_new <$> skus;
        dt_images := ProductImageRes_new <$> images |}.
