(* ===== verification/CategoryRepo.v ===== *)
(** * Catalog service: the statements on categories and brands
    (repository.rs of catalog/src/categories and catalog/src/brands)

    [debug_assert!] is not part of a release build and is left out here; what it says about a
    new category is part of the theorem on the category tree. *)

From S2P Require Import Prelude RustStr Externals Errors NewTypes Regex Auth Db Requests Pagination.
From S2P Require Import Labels ShopTables Inventory ShopTypes.

Local Open Scope Z_scope.

(** The order PostgreSQL chooses for rows with equal sort keys. *)
Class ShopOrders `{Externals} := {
  #[global] so_categories :: ScanOrder CategoryRow;
  #[global] so_skus :: ScanOrder SkuRow;
  #[global] so_images :: ScanOrder ProductImageEntity }.

Section repository.
Context `{Externals, !UuidOrder, !ShopOrders}.
Implicit Types t : catalog_tables.

Abbreviation tx := (M (conn catalog_tables)).

Definition set_shop (f : shop_tables → shop_tables) t : catalog_tables :=
  MkCatalogTables (ct_skus t) (ct_reservations t) (ct_outbox t) (ct_processed t) (f (ct_shop t)).
Definition categories t : list CategoryRow := st_categories (ct_shop t).
Definition brands t : list BrandEntity := st_brands (ct_shop t).
Definition brand_categories t : list BrandCategoryEntity := st_brand_categories (ct_shop t).
Definition products t : list ProductRow := st_products (ct_shop t).
Definition images t : list ProductImageEntity := st_images (ct_shop t).
Definition set_categories (l : list CategoryRow) : catalog_tables → catalog_tables :=
  set_shop (λ s, MkShopTables l (st_brands s) (st_brand_categories s) (st_products s) (st_images s)).
Definition set_brands (l : list BrandEntity) : catalog_tables → catalog_tables :=
  set_shop (λ s, MkShopTables (st_categories s) l (st_brand_categories s) (st_products s) (st_images s)).
Definition set_brand_categories (l : list BrandCategoryEntity) : catalog_tables → catalog_tables :=
  set_shop (λ s, MkShopTables (st_categories s) (st_brands s) l (st_products s) (st_images s)).
Definition set_products (l : list ProductRow) : catalog_tables → catalog_tables :=
  set_shop (λ s, MkShopTables (st_categories s) (st_brands s) (st_brand_categories s) l (st_images s)).
Definition set_images (l : list ProductImageEntity) : catalog_tables → catalog_tables :=
  set_shop (λ s, MkShopTables (st_categories s) (st_brands s) (st_brand_categories s) (st_products s) l).

(** [SELECT .. WHERE ..] with the clauses of [keyset_paginate]. *)
Definition select_page {A} (id : A → Uuid) (msg : string) (rows : catalog_tables → list A)
    (params : PaginationParams) : tx AppError (list A) :=
  map_err (internal msg) (exec (λ _ _ t, l ← push_keyset id InWhere params (rows t); Ok (l, t))).
(** [SELECT EXISTS(..)] *)
Definition select_exists (msg : string) (p : catalog_tables → bool) : tx AppError bool :=
  map_err (internal msg) (query p).
(** A row that is deleted must not be referenced. *)
Definition restrict {A} (name : string) (p : A → bool) (rows : list A) : outcome sql_error unit :=
  if existsb p rows then Err (ForeignKeyViolation name) else Ok tt.
(** A reference that may be NULL. *)
Definition reference {A} (name : string) (p : Uuid → A → bool) (id : option Uuid) (rows : list A)
    : outcome sql_error unit :=
  match id with Some id => foreign_key name (p id) rows | None => Ok tt end.
(** [SET column = value], when there is a value. *)
Definition set_column {A} (f : A → outcome sql_error A) (new : option A) (old : A) : outcome sql_error A :=
  match new with Some a => f a | None => Ok old end.

(** ** Categories *)

Definition is_category (id : Uuid) (c : CategoryRow) : bool := bool_decide (ca_id c = id).
Definition category_entity (c : CategoryRow) : CategoryEntity := {|
  ce_id := ca_id c; ce_created_at := ca_created_at c; ce_updated_at := ca_updated_at c;
  ce_name := ca_name c; ce_slug := ca_slug c; ce_path := ltree_text (ca_path c);
  ce_parent_id := ca_parent_id c; ce_depth := ca_depth c; ce_description := ca_description c |}.
Definition find_category (p : CategoryRow → bool) t : option CategoryEntity :=
  category_entity <$> List.find p (categories t).

Definition get_category_by_id (id : Uuid) : tx AppError CategoryEntity :=
  map_err (not_found "Category not found: ") (fetch_one (find_category (is_category id))).
Definition get_category_by_slug (slug : string) : tx AppError CategoryEntity :=
  map_err (not_found "Category not found: ")
    (fetch_one (find_category (λ c, bool_decide (ca_slug c = slug)))).

Definition list_root_categories (params : PaginationParams) : tx AppError (list CategoryEntity) :=
  select_page ce_id "Failed to list root categories: "
    (λ t, category_entity <$> List.filter (λ c, bool_decide (ca_parent_id c = None)) (categories t)) params.
Definition get_children (parent_id : Uuid) (params : PaginationParams) : tx AppError (list CategoryEntity) :=
  select_page ce_id "Failed to list children: "
    (λ t, category_entity <$> List.filter (λ c, bool_decide (ca_parent_id c = Some parent_id)) (categories t))
    params.

(** [path <@ p], [ORDER BY path ASC LIMIT 200] *)
Definition by_path (c d : CategoryRow) : Prop := path_le (ca_path c) (ca_path d).
#[export] Instance by_path_dec : RelDecision by_path.
Proof. intros c d. unfold by_path. apply _. Defined.
Definition subtree_rows (p : ltree) t : list CategoryRow :=
  take 200 (merge_sort by_path (List.filter (λ c, is_prefix p (ca_path c)) (categories t))).
Definition get_subtree (path : string) : tx AppError (list CategoryEntity) :=
  map_err (internal "Failed to get subtree: ")
    (exec (λ _ _ t, p ← ltree_in path; Ok (category_entity <$> subtree_rows p t, t))).
(** [path @> p], [ORDER BY depth ASC LIMIT 50] *)
Definition ancestor_rows (p : ltree) t : list CategoryRow :=
  take 50 (order_by ca_depth (sort_scan (List.filter (λ c, is_prefix (ca_path c) p) (categories t)))).
Definition get_ancestors (path : string) : tx AppError (list CategoryEntity) :=
  map_err (internal "Failed to get ancestors: ")
    (exec (λ _ _ t, p ← ltree_in path; Ok (category_entity <$> ancestor_rows p t, t))).

Definition insert_category (req : ValidCreateCategoryReq) (path : string) (depth now : Z) (id : Uuid) t
    : outcome sql_error (Uuid * catalog_tables) :=
  name ← varchar "name" 255 (vcc_name req);
  slug ← varchar "slug" 255 (slug_str (vcc_slug req));
  path ← ltree_in path;
  depth ← int4 depth;
  _ ← unique "categories_pkey" (is_category id) (categories t);
  _ ← unique "categories_slug_key" (λ c, bool_decide (ca_slug c = slug)) (categories t);
  _ ← unique "categories_path_key" (λ c, bool_decide (ca_path c = path)) (categories t);
  _ ← reference "categories_parent_id_fkey" is_category (vcc_parent_id req) (categories t);
  Ok (id, set_categories (categories t ++ [{|
    ca_id := id; ca_created_at := now; ca_updated_at := None; ca_name := name; ca_slug := slug;
    ca_path := path; ca_parent_id := vcc_parent_id req; ca_depth := depth;
    ca_description := vcc_description req |}]) t).
Definition create_category (req : ValidCreateCategoryReq) (path : string) (depth : Z) : tx AppError Uuid :=
  map_err (internal "Failed to create category: ") (exec (insert_category req path depth)).

Definition with_category (req : ValidUpdateCategoryReq) (now : Z) (c : CategoryRow)
    : outcome sql_error CategoryRow :=
  name ← set_column (varchar "name" 255) (vuc_name req) (ca_name c);
  Ok {| ca_id := ca_id c; ca_created_at := ca_created_at c; ca_updated_at := Some now; ca_name := name;
        ca_slug := ca_slug c; ca_path := ca_path c; ca_parent_id := ca_parent_id c; ca_depth := ca_depth c;
        ca_description := or_else (vuc_description req) (ca_description c) |}.
Definition update_category_stmt (id : Uuid) (req : ValidUpdateCategoryReq) (now : Z) (_ : Uuid) t
    : outcome sql_error (nat * catalog_tables) :=
  '(n, l) ← update_checked (is_category id) (with_category req now) (categories t);
  Ok (n, set_categories l t).
(** Nothing to set: no statement. *)
Definition update_category (id : Uuid) (req : ValidUpdateCategoryReq) : tx AppError unit :=
  match vuc_name req, vuc_description req with
  | None, None => mret tt
  | _, _ =>
      n ← map_err (internal "Failed to update category: ") (exec (update_category_stmt id req));
      exactly_one (NotFound "Category not found") n
  end.

(** The associations of the category go with it; products, also deleted ones, and children
    keep it. *)
Definition delete_category_stmt (id : Uuid) (_ : Z) (_ : Uuid) t : outcome sql_error (nat * catalog_tables) :=
  if existsb (is_category id) (categories t) then
    _ ← restrict "categories_parent_id_fkey" (λ c, bool_decide (ca_parent_id c = Some id)) (categories t);
    _ ← restrict "products_category_id_fkey" (λ p, bool_decide (pd_category_id p = Some id)) (products t);
    Ok (rows_affected (is_category id) (categories t),
        set_brand_categories (List.filter (λ b, negb (bool_decide (bc_category_id b = id))) (brand_categories t))
          (set_categories (List.filter (λ c, negb (is_category id c)) (categories t)) t))
  else Ok (0%nat, t).
Definition delete_category (id : Uuid) : tx AppError unit :=
  n ← map_err (internal "Failed to delete category: ") (exec (delete_category_stmt id));
  exactly_one (NotFound "Category not found") n.

Definition has_children (id : Uuid) : tx AppError bool :=
  select_exists "Failed to check children: "
    (λ t, existsb (λ c, bool_decide (ca_parent_id c = Some id)) (categories t)).
Definition live_product (p : ProductRow) : bool := bool_decide (pd_deleted_at p = None).
Definition category_has_products (id : Uuid) : tx AppError bool :=
  select_exists "Failed to check products: "
    (λ t, existsb (λ p, bool_decide (pd_category_id p = Some id) && live_product p) (products t)).

(** ** Brands *)

Definition is_brand (id : Uuid) (b : BrandEntity) : bool := bool_decide (br_id b = id).
Definition get_brand_by_id (id : Uuid) : tx AppError BrandEntity :=
  map_err (not_found "Brand not found: ") (fetch_one (λ t, List.find (is_brand id) (brands t))).
Definition get_brand_by_slug (slug : string) : tx AppError BrandEntity :=
  map_err (not_found "Brand not found: ")
    (fetch_one (λ t, List.find (λ b, bool_decide (br_slug b = slug)) (brands t))).
Definition list_brands (params : PaginationParams) : tx AppError (list BrandEntity) :=
  select_page br_id "Failed to list brands: " brands params.

Definition insert_brand (req : ValidCreateBrandReq) (now : Z) (id : Uuid) t
    : outcome sql_error (Uuid * catalog_tables) :=
  name ← varchar "name" 255 (vcb_name req);
  slug ← varchar "slug" 255 (slug_str (vcb_slug req));
  _ ← unique "brands_pkey" (is_brand id) (brands t);
  _ ← unique "brands_name_key" (λ b, bool_decide (br_name b = name)) (brands t);
  _ ← unique "brands_slug_key" (λ b, bool_decide (br_slug b = slug)) (brands t);
  Ok (id, set_brands (brands t ++ [{|
    br_id := id; br_created_at := now; br_updated_at := None; br_name := name; br_slug := slug;
    br_description := vcb_description req; br_logo_url := url_str <$> vcb_logo_url req |}]) t).
Definition create_brand (req : ValidCreateBrandReq) : tx AppError Uuid :=
  map_err (internal "Failed to create brand: ") (exec (insert_brand req)).

(** A new name that no other brand has. *)
Definition brand_name (id : Uuid) (t : catalog_tables) (name : string) : outcome sql_error string :=
  name ← varchar "name" 255 name;
  _ ← unique "brands_name_key" (λ b, bool_decide (br_name b = name) && negb (is_brand id b)) (brands t);
  Ok name.
Definition with_brand (req : ValidUpdateBrandReq) (now : Z) (t : catalog_tables) (b : BrandEntity)
    : outcome sql_error BrandEntity :=
  name ← set_column (brand_name (br_id b) t) (vub_name req) (br_name b);
  Ok {| br_id := br_id b; br_created_at := br_created_at b; br_updated_at := Some now; br_name := name;
        br_slug := br_slug b; br_description := or_else (vub_description req) (br_description b);
        br_logo_url := or_else (url_str <$> vub_logo_url req) (br_logo_url b) |}.
Definition update_brand_stmt (id : Uuid) (req : ValidUpdateBrandReq) (now : Z) (_ : Uuid) t
    : outcome sql_error (nat * catalog_tables) :=
  '(n, l) ← update_checked (is_brand id) (with_brand req now t) (brands t);
  Ok (n, set_brands l t).
Definition update_brand (id : Uuid) (req : ValidUpdateBrandReq) : tx AppError unit :=
  match vub_name req, vub_description req, vub_logo_url req with
  | None, None, None => mret tt
  | _, _, _ =>
      n ← map_err (internal "Failed to update brand: ") (exec (update_brand_stmt id req));
      exactly_one (NotFound "Brand not found") n
  end.

Definition delete_brand_stmt (id : Uuid) (_ : Z) (_ : Uuid) t : outcome sql_error (nat * catalog_tables) :=
  if existsb (is_brand id) (brands t) then
    _ ← restrict "products_brand_id_fkey" (λ p, bool_decide (pd_brand_id p = Some id)) (products t);
    Ok (rows_affected (is_brand id) (brands t),
        set_brand_categories (List.filter (λ b, negb (bool_decide (bc_brand_id b = id))) (brand_categories t))
          (set_brands (List.filter (λ b, negb (is_brand id b)) (brands t)) t))
  else Ok (0%nat, t).
Definition delete_brand (id : Uuid) : tx AppError unit :=
  n ← map_err (internal "Failed to delete brand: ") (exec (delete_brand_stmt id));
  exactly_one (NotFound "Brand not found") n.
Definition brand_has_products (id : Uuid) : tx AppError bool :=
  select_exists "Failed to check products: "
    (λ t, existsb (λ p, bool_decide (pd_brand_id p = Some id) && live_product p) (products t)).

(** ** The categories of a brand *)

Definition is_association (brand_id category_id : Uuid) (b : BrandCategoryEntity) : bool :=
  bool_decide (bc_brand_id b = brand_id) && bool_decide (bc_category_id b = category_id).
(** [INSERT .. ON CONFLICT DO NOTHING] *)
Definition insert_association (brand_id category_id : Uuid) (_ : Z) (_ : Uuid) t
    : outcome sql_error (nat * catalog_tables) :=
  if existsb (is_association brand_id category_id) (brand_categories t) then Ok (0%nat, t)
  else
    _ ← foreign_key "brand_categories_brand_id_fkey" (is_brand brand_id) (brands t);
    _ ← foreign_key "brand_categories_category_id_fkey" (is_category category_id) (categories t);
    Ok (1%nat, set_brand_categories (brand_categories t ++
          [{| bc_brand_id := brand_id; bc_category_id := category_id |}]) t).
Definition associate_category (brand_id category_id : Uuid) : tx AppError unit :=
  _ ← map_err (internal "Failed to associate category: ") (exec (insert_association brand_id category_id));
  mret tt.
Definition delete_association (brand_id category_id : Uuid) (_ : Z) (_ : Uuid) t
    : outcome sql_error (nat * catalog_tables) :=
  Ok (rows_affected (is_association brand_id category_id) (brand_categories t),
      set_brand_categories (List.filter (λ b, negb (is_association brand_id category_id b))
        (brand_categories t)) t).
Definition disassociate_category (brand_id category_id : Uuid) : tx AppError unit :=
  n ← map_err (internal "Failed to disassociate category: ") (exec (delete_association brand_id category_id));
  if bool_decide (n = 0%nat) then fail (NotFound "Brand-category association not found") else mret tt.

(** [categories c INNER JOIN brand_categories bc ON bc.category_id = c.id] *)
Definition categories_of_brand (brand_id : Uuid) t : list CategoryEntity :=
  flat_map (λ c, (λ _, category_entity c) <$>
    List.filter (is_association brand_id (ca_id c)) (brand_categories t)) (categories t).
Definition list_categories_for_brand (brand_id : Uuid) (params : PaginationParams)
    : tx AppError (list CategoryEntity) :=
  select_page ce_id "Failed to list categories for brand: " (categories_of_brand brand_id) params.
End repository.
