(* ===== verification/ProductRepo.v ===== *)
(** * Catalog service: the statements on products, SKUs and images
    (catalog/src/products/repository.rs) *)

From S2P Require Import Prelude RustStr Externals Errors NewTypes Regex Auth Db Requests Pagination.
From S2P Require Import Labels ShopTables Inventory ShopTypes CategoryRepo.

Local Open Scope Z_scope.

(** [text ILIKE pattern], in the collation of the database. *)
Class PgText := { ilike : string → string → bool }.

Section repository.
Context `{ShopCodec, !UuidOrder, !ShopOrders, !PgText}.
Implicit Types t : catalog_tables.

Abbreviation tx := (M (conn catalog_tables)).

(** ** Product queries *)

Definition is_product (id : Uuid) (p : ProductRow) : bool := bool_decide (pd_id p = id).
(** The LEFT JOINs of a product with its category and its brand. *)
Definition category_of t (p : ProductRow) : option CategoryRow :=
  id ← pd_category_id p; List.find (is_category id) (categories t).
Definition brand_of t (p : ProductRow) : option BrandEntity :=
  id ← pd_brand_id p; List.find (is_brand id) (brands t).
Definition product_entity t (p : ProductRow) : ProductEntity := {|
  pe_product := p; pe_category_name := ca_name <$> category_of t p;
  pe_category_slug := ca_slug <$> category_of t p; pe_brand_name := br_name <$> brand_of t p;
  pe_brand_slug := br_slug <$> brand_of t p |}.
Definition find_product (p : ProductRow → bool) t : option ProductEntity :=
  product_entity t <$> List.find (λ r, p r && live_product r) (products t).

Definition get_product_by_id (id : Uuid) : tx AppError ProductEntity :=
  map_err (not_found "Product not found: ") (fetch_one (find_product (is_product id))).
Definition get_product_by_slug (slug : string) : tx AppError ProductEntity :=
  map_err (not_found "Product not found: ")
    (fetch_one (find_product (λ p, bool_decide (pd_slug p = slug)))).

(** [skus WHERE product_id = .. AND deleted_at IS NULL ORDER BY created_at ASC LIMIT 100], and
    [product_images WHERE product_id = .. ORDER BY sort_order ASC LIMIT 50] *)
Definition skus_of (product_id : Uuid) t : list SkuRow :=
  take 100 (order_by sku_created_at (sort_scan (List.filter (λ s,
    bool_decide (sku_product_id s = product_id) && bool_decide (sku_deleted_at s = None)) (ct_skus t)))).
Definition of_product (product_id : Uuid) (i : ProductImageEntity) : bool :=
  bool_decide (im_product_id i = product_id).
Definition images_of (product_id : Uuid) t : list ProductImageEntity :=
  take 50 (order_by im_sort_order (sort_scan (List.filter (of_product product_id) (images t)))).

Definition get_product_detail (id : Uuid) : tx AppError ProductDetailRow :=
  map_err (not_found "Product not found: ")
    (fetch_one (λ t, (λ e, {| dr_product := e; dr_skus_json := agg_skus (skus_of id t);
       dr_images_json := agg_images (images_of id t) |}) <$> find_product (is_product id) t)).

(** ** Lists of products *)

(** The first image; [sort_order] may have ties. *)
Definition first_image (product_id : Uuid) t : option ProductImageEntity :=
  head (order_by im_sort_order (sort_scan (List.filter (of_product product_id) (images t)))).
Definition list_entity t (p : ProductRow) : ProductListEntity := {|
  pl_id := pd_id p; pl_created_at := pd_created_at p; pl_seller_id := pd_seller_id p; pl_name := pd_name p;
  pl_slug := pd_slug p; pl_base_price := pd_base_price p; pl_currency := pd_currency p;
  pl_category_id := pd_category_id p; pl_brand_id := pd_brand_id p; pl_status := pd_status p;
  pl_category_name := ca_name <$> category_of t p; pl_brand_name := br_name <$> brand_of t p;
  pl_image_url := im_url <$> first_image (pd_id p) t |}.

(** A condition that is only added when its value is given. *)
Definition given {A} (o : option A) (p : A → bool) : bool := match o with Some a => p a | None => true end.
Definition apply_product_filters (filter : ProductFilter) (p : ProductRow) : bool :=
  given (fl_category_id filter) (λ id, bool_decide (pd_category_id p = Some id)) &&
  given (fl_brand_id filter) (λ id, bool_decide (pd_brand_id p = Some id)) &&
  given (fl_min_price filter) (λ m, dec_leb m (pd_base_price p)) &&
  given (fl_max_price filter) (λ m, dec_leb (pd_base_price p) m) &&
  given (fl_search filter) (λ q, ilike (pd_name p) ("%" +:+ search_str q +:+ "%")) &&
  given (fl_status filter) (λ s, bool_decide (pd_status p = s)).
Definition product_rows (p : ProductRow → bool) (filter : ProductFilter) t : list ProductListEntity :=
  list_entity t <$> List.filter (λ r, p r && live_product r && apply_product_filters filter r) (products t).
Definition list_products_by_seller (seller_id : Uuid) (params : PaginationParams) (filter : ProductFilter)
    : tx AppError (list ProductListEntity) :=
  select_page pl_id "Failed to list products: "
    (product_rows (λ p, bool_decide (pd_seller_id p = seller_id)) filter) params.
Definition list_active_products (params : PaginationParams) (filter : ProductFilter)
    : tx AppError (list ProductListEntity) :=
  select_page pl_id "Failed to list products: "
    (product_rows (λ p, bool_decide (pd_status p = PdActive)) filter) params.

(** ** The references of a product *)

Definition category_exists (id : Uuid) : tx AppError bool :=
  select_exists "Failed to check category: " (λ t, existsb (is_category id) (categories t)).
Definition brand_exists (id : Uuid) : tx AppError bool :=
  select_exists "Failed to check brand: " (λ t, existsb (is_brand id) (brands t)).
Definition is_brand_in_category (brand_id category_id : Uuid) : tx AppError bool :=
  select_exists "Failed to check brand-category association: "
    (λ t, existsb (is_association brand_id category_id) (brand_categories t)).

(** Three statements on the pool. *)
Definition require {X} (check : tx AppError bool) (msg : string) : M (db catalog_tables X) AppError unit :=
  b ← on_pool check;
  if (b : bool) then mret tt else fail (BadRequest msg).
Definition validate_fk_references {X} (category_id brand_id : option Uuid)
    : M (db catalog_tables X) AppError unit :=
  _ ← match category_id with
      | Some cat_id => require (category_exists cat_id) "Category does not exist"
      | None => mret tt
      end;
  _ ← match brand_id with
      | Some br_id => require (brand_exists br_id) "Brand does not exist"
      | None => mret tt
      end;
  match category_id, brand_id with
  | Some cat_id, Some br_id =>
      require (is_brand_in_category br_id cat_id) "Brand is not associated with the specified category"
  | _, _ => mret tt
  end.

(** ** Product mutations *)

(** A [NUMERIC(19, 4)] column that is not negative. *)
Definition price_column (name : string) (d : Decimal) : outcome sql_error Decimal :=
  d ← numeric d;
  _ ← check_constraint name (dec_leb dec_zero d);
  Ok d.

Definition insert_product (seller_id : Uuid) (req : ValidCreateProductReq) (now : Z) (id : Uuid) t
    : outcome sql_error (Uuid * catalog_tables) :=
  name ← varchar "name" 500 (vcp_name req);
  slug ← varchar "slug" 500 (slug_str (vcp_slug req));
  currency ← varchar "currency" 3 (currency_str (vcp_currency req));
  price ← price_column "chk_products_base_price" (price_value (vcp_base_price req));
  _ ← unique "products_pkey" (is_product id) (products t);
  _ ← unique "products_slug_key" (λ p, bool_decide (pd_slug p = slug)) (products t);
  _ ← reference "products_category_id_fkey" is_category (vcp_category_id req) (categories t);
  _ ← reference "products_brand_id_fkey" is_brand (vcp_brand_id req) (brands t);
  Ok (id, set_products (products t ++ [{|
    pd_id := id; pd_created_at := now; pd_updated_at := None; pd_deleted_at := None; pd_seller_id := seller_id;
    pd_name := name; pd_slug := slug; pd_description := vcp_description req; pd_base_price := price;
    pd_currency := currency; pd_category_id := vcp_category_id req; pd_brand_id := vcp_brand_id req;
    pd_status := PdDraft |}]) t).
Definition create_product (seller_id : Uuid) (req : ValidCreateProductReq) : tx AppError Uuid :=
  map_err (internal "Failed to create product: ") (exec (insert_product seller_id req)).

Definition live_product_id (id : Uuid) (p : ProductRow) : bool := is_product id p && live_product p.
(** A new slug that no other product has, deleted ones included. *)
Definition product_slug (id : Uuid) t (slug : string) : outcome sql_error string :=
  slug ← varchar "slug" 500 slug;
  _ ← unique "products_slug_key" (λ p, bool_decide (pd_slug p = slug) && negb (is_product id p)) (products t);
  Ok slug.
Definition with_product (req : ValidUpdateProductReq) (now : Z) t (p : ProductRow) : outcome sql_error ProductRow :=
  name ← set_column (varchar "name" 500) (vup_name req) (pd_name p);
  slug ← set_column (product_slug (pd_id p) t) (slug_str <$> vup_slug req) (pd_slug p);
  price ← set_column (price_column "chk_products_base_price") (price_value <$> vup_base_price req) (pd_base_price p);
  currency ← set_column (varchar "currency" 3) (currency_str <$> vup_currency req) (pd_currency p);
  _ ← reference "products_category_id_fkey" is_category (vup_category_id req) (categories t);
  _ ← reference "products_brand_id_fkey" is_brand (vup_brand_id req) (brands t);
  Ok {| pd_id := pd_id p; pd_created_at := pd_created_at p; pd_updated_at := Some now;
        pd_deleted_at := pd_deleted_at p; pd_seller_id := pd_seller_id p; pd_name := name; pd_slug := slug;
        pd_description := or_else (vup_description req) (pd_description p); pd_base_price := price;
        pd_currency := currency; pd_category_id := or_else (vup_category_id req) (pd_category_id p);
        pd_brand_id := or_else (vup_brand_id req) (pd_brand_id p);
        pd_status := default (pd_status p) (vup_status req) |}.
Definition update_product_stmt (id : Uuid) (req : ValidUpdateProductReq) (now : Z) (_ : Uuid) t
    : outcome sql_error (nat * catalog_tables) :=
  '(n, l) ← update_checked (live_product_id id) (with_product req now t) (products t);
  Ok (n, set_products l t).
Definition nothing_to_set (req : ValidUpdateProductReq) : bool :=
  match req with
  | Build_ValidUpdateProductReq None None None None None None None None => true
  | _ => false
  end.
Definition update_product (id : Uuid) (req : ValidUpdateProductReq) : tx AppError unit :=
  if nothing_to_set req then mret tt
  else
    n ← map_err (internal "Failed to update product: ") (exec (update_product_stmt id req));
    exactly_one (NotFound "Product not found") n.

Definition product_deleted (now : Z) (p : ProductRow) : ProductRow := {|
  pd_id := pd_id p; pd_created_at := pd_created_at p; pd_updated_at := pd_updated_at p;
  pd_deleted_at := Some now; pd_seller_id := pd_seller_id p; pd_name := pd_name p; pd_slug := pd_slug p;
  pd_description := pd_description p; pd_base_price := pd_base_price p; pd_currency := pd_currency p;
  pd_category_id := pd_category_id p; pd_brand_id := pd_brand_id p; pd_status := pd_status p |}.
Definition delete_product_stmt (id : Uuid) (now : Z) (_ : Uuid) t : outcome sql_error (nat * catalog_tables) :=
  Ok (rows_affected (live_product_id id) (products t),
      set_products (update_where (live_product_id id) (product_deleted now) (products t)) t).
Definition delete_product (id : Uuid) : tx AppError unit :=
  n ← map_err (internal "Failed to delete product: ") (exec (delete_product_stmt id));
  exactly_one (NotFound "Product not found") n.

(** ** SKUs *)

Definition find_sku (id : Uuid) t : option SkuRow := List.find (live_sku id) (ct_skus t).
Definition get_sku_by_id (id : Uuid) : tx AppError SkuRow :=
  map_err (not_found "SKU not found: ") (fetch_one (find_sku id)).
Definition list_skus_by_product (product_id : Uuid) : tx AppError (list SkuRow) :=
  map_err (internal "Failed to list SKUs: ") (query (skus_of product_id)).

(** An [INTEGER] that is not negative. *)
Definition stock_column (z : Z) : outcome sql_error Z :=
  z ← int4 z;
  _ ← check_constraint "chk_skus_stock" (0 <=? z);
  Ok z.
Definition insert_sku (product_id : Uuid) (req : ValidCreateSkuReq) (now : Z) (id : Uuid) t
    : outcome sql_error (Uuid * catalog_tables) :=
  code ← varchar "sku_code" 100 (sku_code_str (vcs_sku_code req));
  price ← price_column "chk_skus_price" (price_value (vcs_price req));
  stock ← stock_column (stock_value (vcs_stock_quantity req));
  _ ← unique "skus_pkey" (has_sku id) (ct_skus t);
  _ ← unique "skus_sku_code_key" (λ s, bool_decide (sku_code s = code)) (ct_skus t);
  _ ← foreign_key "skus_product_id_fkey" (is_product product_id) (products t);
  Ok (id, set_skus (ct_skus t ++
    [MkSku id now None None product_id code price stock 0 (vcs_attributes req) SkActive]) t).
Definition create_sku (product_id : Uuid) (req : ValidCreateSkuReq) : tx AppError Uuid :=
  map_err (internal "Failed to create SKU: ") (exec (insert_sku product_id req)).

Definition with_sku (req : ValidUpdateSkuReq) (now : Z) (s : SkuRow) : outcome sql_error SkuRow :=
  price ← set_column (price_column "chk_skus_price") (price_value <$> vus_price req) (sku_price s);
  stock ← set_column stock_column (stock_value <$> vus_stock_quantity req) (stock_quantity s);
  Ok (MkSku (sku_id s) (sku_created_at s) (Some now) (sku_deleted_at s) (sku_product_id s) (sku_code s)
        price stock (reserved_quantity s) (default (sku_attributes s) (vus_attributes req))
        (default (sku_status s) (vus_status req))).
Definition update_sku (id : Uuid) (req : ValidUpdateSkuReq) : tx AppError unit :=
  match req with
  | Build_ValidUpdateSkuReq None None None None => mret tt
  | _ =>
      n ← map_err (internal "Failed to update SKU: ")
        (exec (λ now _, update_skus (live_sku id) (with_sku req now)));
      exactly_one (NotFound "SKU not found") n
  end.

Definition sku_deleted (now : Z) (s : SkuRow) : SkuRow :=
  MkSku (sku_id s) (sku_created_at s) (sku_updated_at s) (Some now) (sku_product_id s) (sku_code s)
    (sku_price s) (stock_quantity s) (reserved_quantity s) (sku_attributes s) (sku_status s).
Definition delete_sku (id : Uuid) : tx AppError unit :=
  n ← map_err (internal "Failed to delete SKU: ")
    (exec (λ now _, update_skus (live_sku id) (λ s, Ok (sku_deleted now s))));
  exactly_one (NotFound "SKU not found") n.

Definition adjust_stmt (id : Uuid) (delta now : Z) (_ : Uuid) t : outcome sql_error (nat * catalog_tables) :=
  update_skus (λ s, live_sku id s && (0 <=? stock_quantity s + delta))
    (λ s, set_quantities (stock_quantity s + delta) (reserved_quantity s) now s) t.
Definition adjust_stock (sku_id : Uuid) (delta : Z) : tx AppError unit :=
  n ← map_err (internal "Failed to adjust stock: ") (exec (adjust_stmt sku_id delta));
  exactly_one (BadRequest "SKU not found or insufficient stock") n.

(** ** Images *)

Definition is_image (id : Uuid) (i : ProductImageEntity) : bool := bool_decide (im_id i = id).
Definition get_image_by_id (id : Uuid) : tx AppError ProductImageEntity :=
  map_err (not_found "Image not found: ") (fetch_one (λ t, List.find (is_image id) (images t))).
Definition list_images_by_product (product_id : Uuid) : tx AppError (list ProductImageEntity) :=
  map_err (internal "Failed to list images: ") (query (images_of product_id)).

Definition not_primary (i : ProductImageEntity) : ProductImageEntity := {|
  im_id := im_id i; im_created_at := im_created_at i; im_product_id := im_product_id i; im_url := im_url i;
  im_alt_text := im_alt_text i; im_sort_order := im_sort_order i; im_is_primary := false |}.
Definition unset_primary (product_id : Uuid) (_ : Z) (_ : Uuid) t : outcome sql_error (unit * catalog_tables) :=
  Ok (tt, set_images (update_where (λ i, of_product product_id i && im_is_primary i) not_primary (images t)) t).
Definition insert_image (product_id : Uuid) (req : ValidAddProductImageReq) (now : Z) (id : Uuid) t
    : outcome sql_error (Uuid * catalog_tables) :=
  alt_text ← match vai_alt_text req with
             | Some s => s ← varchar "alt_text" 500 s; Ok (Some s)
             | None => Ok None
             end;
  sort_order ← int4 (vai_sort_order req);
  _ ← unique "product_images_pkey" (is_image id) (images t);
  _ ← foreign_key "product_images_product_id_fkey" (is_product product_id) (products t);
  Ok (id, set_images (images t ++ [{|
    im_id := id; im_created_at := now; im_product_id := product_id; im_url := url_str (vai_url req);
    im_alt_text := alt_text; im_sort_order := sort_order; im_is_primary := vai_is_primary req |}]) t).
Definition add_product_image (product_id : Uuid) (req : ValidAddProductImageReq) : tx AppError Uuid :=
  _ ← (if vai_is_primary req then
         map_err (internal "Failed to unset primary image: ") (exec (unset_primary product_id))
       else mret tt);
  map_err (internal "Failed to add image: ") (exec (insert_image product_id req)).

Definition delete_image_stmt (id : Uuid) (_ : Z) (_ : Uuid) t : outcome sql_error (nat * catalog_tables) :=
  Ok (rows_affected (is_image id) (images t), set_images (List.filter (λ i, negb (is_image id i)) (images t)) t).
Definition delete_product_image (id : Uuid) : tx AppError unit :=
  n ← map_err (internal "Failed to delete image: ") (exec (delete_image_stmt id));
  if bool_decide (n = 0%nat) then fail (NotFound "Image not found") else mret tt.
End repository.
