(* ===== verification/CategoryService.v ===== *)
(** * Catalog service: the operations on categories and brands
    (service.rs and routes.rs of catalog/src/categories and catalog/src/brands) *)

From S2P Require Import Prelude RustStr Externals Errors NewTypes Regex Auth Db Requests Pagination.
From S2P Require Import Labels ShopTables Inventory ShopTypes CategoryRepo.

Local Open Scope Z_scope.

Section service.
Context `{Externals, !UnicodeApi, !UuidOrder, !ShopOrders} {X : Type}.

Abbreviation svc := (M (db catalog_tables X)).

(** A page of rows, as the response. *)
Definition respond {A B} (id : A → Uuid) (f : A → B) (params : PaginationParams) (rows : list A)
    : PaginationRes B :=
  let '(rows, cursors) := get_cursors id params rows in PaginationRes_new (f <$> rows) cursors.

(** ** Categories *)

Definition MAX_CATEGORY_DEPTH : Z := 10.
(** The path and depth of a new category; the parent is read on the pool. *)
Definition place_of (validated : ValidCreateCategoryReq) : svc AppError (string * Z) :=
  match vcc_parent_id validated with
  | Some parent_id =>
      parent ← on_pool (get_category_by_id parent_id);
      let depth := as_i32 (ce_depth parent + 1) in
      if MAX_CATEGORY_DEPTH <? depth then
        fail (BadRequest ("Category depth must not exceed " +:+ pretty MAX_CATEGORY_DEPTH))
      else mret (ce_path parent +:+ "." +:+ label_str (vcc_label validated), depth)
  | None => mret (label_str (vcc_label validated), 0)
  end.
Definition create_category_svc (current_user : CurrentUser) (req : CreateCategoryReq) : svc AppError CategoryRes :=
  _ ← lift (require_admin current_user);
  validated ← lift (ValidCreateCategoryReq_try_from req);
  place ← place_of validated;
  category_id ← in_transaction "Failed to create category: "
    (other (create_category validated place.1 place.2));
  category ← on_pool (get_category_by_id category_id);
  mret (CategoryRes_new category).

Definition get_category (id : Uuid) : svc AppError CategoryRes :=
  category ← on_pool (get_category_by_id id);
  mret (CategoryRes_new category).
Definition get_category_by_slug_svc (slug : string) : svc AppError CategoryRes :=
  category ← on_pool (get_category_by_slug slug);
  mret (CategoryRes_new category).
Definition list_root_categories_svc (params : PaginationParams) : svc AppError (PaginationRes CategoryRes) :=
  rows ← on_pool (list_root_categories params);
  mret (respond ce_id CategoryRes_new params rows).
Definition get_children_svc (id : Uuid) (params : PaginationParams) : svc AppError (PaginationRes CategoryRes) :=
  _ ← on_pool (get_category_by_id id);
  rows ← on_pool (get_children id params);
  mret (respond ce_id CategoryRes_new params rows).
Definition get_subtree_svc (id : Uuid) : svc AppError (list CategoryRes) :=
  category ← on_pool (get_category_by_id id);
  subtree ← on_pool (get_subtree (ce_path category));
  mret (CategoryRes_new <$> subtree).
Definition get_ancestors_svc (id : Uuid) : svc AppError (list CategoryRes) :=
  category ← on_pool (get_category_by_id id);
  ancestors ← on_pool (get_ancestors (ce_path category));
  mret (CategoryRes_new <$> ancestors).

Definition update_category_svc (current_user : CurrentUser) (id : Uuid) (req : UpdateCategoryReq)
    : svc AppError unit :=
  _ ← lift (require_admin current_user);
  _ ← on_pool (get_category_by_id id);
  validated ← lift (ValidUpdateCategoryReq_try_from req);
  in_transaction "Failed to update category: " (other (update_category id validated)).
Definition delete_category_svc (current_user : CurrentUser) (id : Uuid) : svc AppError unit :=
  _ ← lift (require_admin current_user);
  _ ← on_pool (get_category_by_id id);
  parent ← on_pool (has_children id);
  if (parent : bool) then
    fail (BadRequest "Cannot delete category with child categories. Delete children first.")
  else
    used ← on_pool (category_has_products id);
    if (used : bool) then
      fail (BadRequest "Cannot delete category with associated products. Reassign products first.")
    else in_transaction "Failed to delete category: " (other (delete_category id)).

(** ** Brands *)

Definition create_brand_svc (current_user : CurrentUser) (req : CreateBrandReq) : svc AppError BrandRes :=
  _ ← lift (require_admin current_user);
  validated ← lift (ValidCreateBrandReq_try_from req);
  brand_id ← in_transaction "Failed to create brand: " (other (create_brand validated));
  brand ← on_pool (get_brand_by_id brand_id);
  mret (BrandRes_new brand).
Definition get_brand (id : Uuid) : svc AppError BrandRes :=
  brand ← on_pool (get_brand_by_id id);
  mret (BrandRes_new brand).
Definition get_brand_by_slug_svc (slug : string) : svc AppError BrandRes :=
  brand ← on_pool (get_brand_by_slug slug);
  mret (BrandRes_new brand).
Definition list_brands_svc (params : PaginationParams) : svc AppError (PaginationRes BrandRes) :=
  rows ← on_pool (list_brands params);
  mret (respond br_id BrandRes_new params rows).
Definition update_brand_svc (current_user : CurrentUser) (id : Uuid) (req : UpdateBrandReq) : svc AppError unit :=
  _ ← lift (require_admin current_user);
  _ ← on_pool (get_brand_by_id id);
  validated ← lift (ValidUpdateBrandReq_try_from req);
  in_transaction "Failed to update brand: " (other (update_brand id validated)).
Definition delete_brand_svc (current_user : CurrentUser) (id : Uuid) : svc AppError unit :=
  _ ← lift (require_admin current_user);
  _ ← on_pool (get_brand_by_id id);
  used ← on_pool (brand_has_products id);
  if (used : bool) then
    fail (BadRequest "Cannot delete brand with associated products. Reassign products first.")
  else in_transaction "Failed to delete brand: " (other (delete_brand id)).

Definition associate_category_svc (current_user : CurrentUser) (brand_id category_id : Uuid) : svc AppError unit :=
  _ ← lift (require_admin current_user);
  _ ← on_pool (get_brand_by_id brand_id);
  _ ← on_pool (get_category_by_id category_id);
  in_transaction "Failed to associate category: " (other (associate_category brand_id category_id)).
Definition disassociate_category_svc (current_user : CurrentUser) (brand_id category_id : Uuid)
    : svc AppError unit :=
  _ ← lift (require_admin current_user);
  in_transaction "Failed to disassociate category: " (other (disassociate_category brand_id category_id)).
Definition list_categories_for_brand_svc (brand_id : Uuid) (params : PaginationParams)
    : svc AppError (PaginationRes CategoryRes) :=
  _ ← on_pool (get_brand_by_id brand_id);
  rows ← on_pool (list_categories_for_brand brand_id params);
  mret (respond ce_id CategoryRes_new params rows).
End service.
