(* ===== verification/ProductService.v ===== *)
(** * Catalog service: the operations on products, SKUs and images
    (catalog/src/products/service.rs, routes.rs, catalog/src/lib.rs) *)

From S2P Require Import Prelude RustStr Externals Errors NewTypes Regex Auth Db Requests Pagination Redis.
From S2P Require Import Labels ShopTables Inventory ShopTypes CategoryRepo ProductRepo CategoryService.

Local Open Scope Z_scope.

Section service.
Context `{ShopCodec, !UnicodeApi, !UuidOrder, !ShopOrders, !PgText, !RedisApi}.

(** [AppState]: the cache; pool and Redis are the world. *)
Record AppState := { ap_cache : RedisCache }.
Definition PRODUCT_CACHE_TTL : Z := 300.
Definition AppState_new (redis_conn : bool) : AppState := {| ap_cache := RedisCache_new redis_conn PRODUCT_CACHE_TTL |}.

Abbreviation svc := (M (db catalog_tables redis)).

Definition on_cache {E A} (m : M redis E A) : svc E A :=
  zoom d_ext (λ r s, MkDb (d_committed s) (d_env s) r) m.

Definition product_detail_key (id : Uuid) : string := "product:" +:+ uuid_to_string id.
Definition product_slug_key (slug : string) : string := "product:slug:" +:+ slug.
Definition evict_product_caches (state : AppState) (id : Uuid) (slug : string) : svc AppError unit :=
  _ ← on_cache (evict (ap_cache state) (product_detail_key id));
  on_cache (evict (ap_cache state) (product_slug_key slug)).
Definition evict_detail (state : AppState) (id : Uuid) : svc AppError unit :=
  on_cache (evict (ap_cache state) (product_detail_key id)).

(** ** Products *)

Definition create_product_svc (current_user : CurrentUser) (req : CreateProductReq) : svc AppError ProductRes :=
  validated ← lift (ValidCreateProductReq_new req);
  _ ← validate_fk_references (vcp_category_id validated) (vcp_brand_id validated);
  product_id ← in_transaction "Failed to create product: "
    (other (create_product (cu_id current_user) validated));
  product ← on_pool (get_product_by_id product_id);
  mret (ProductRes_new product).

Definition get_product (id : Uuid) : svc AppError ProductRes :=
  product ← on_pool (get_product_by_id id);
  mret (ProductRes_new product).
Definition get_product_by_slug_svc (state : AppState) (slug : string) : svc AppError ProductRes :=
  cached ← on_cache (cache_get product_of_json (ap_cache state) (product_slug_key slug));
  match cached with
  | Some res => mret res
  | None =>
      product ← on_pool (get_product_by_slug slug);
      let res := ProductRes_new product in
      _ ← on_cache (cache_set product_to_json (ap_cache state) (product_slug_key slug) res);
      mret res
  end.
Definition get_product_detail_svc (state : AppState) (id : Uuid) : svc AppError ProductDetailRes :=
  cached ← on_cache (cache_get detail_of_json (ap_cache state) (product_detail_key id));
  match cached with
  | Some detail => mret detail
  | None =>
      row ← on_pool (get_product_detail id);
      detail ← lift (ProductDetailRes_from_row row);
      _ ← on_cache (cache_set detail_to_json (ap_cache state) (product_detail_key id) detail);
      mret detail
  end.

Definition list_products_by_seller_svc (seller_id : Uuid) (params : PaginationParams) (filter : ProductFilter)
    : svc AppError (PaginationRes ProductListRes) :=
  rows ← on_pool (list_products_by_seller seller_id params filter);
  mret (respond pl_id ProductListRes_new params rows).
Definition list_active_products_svc (params : PaginationParams) (filter : ProductFilter)
    : svc AppError (PaginationRes ProductListRes) :=
  rows ← on_pool (list_active_products params filter);
  mret (respond pl_id ProductListRes_new params rows).
(** The handlers of the two lists. *)
Definition route_list_active_products (query : ProductFilterQuery) : svc AppError (PaginatedResponse ProductListRes) :=
  let '(params, filter) := product_query_parts query in
  result ← list_active_products_svc params {|
    fl_category_id := fl_category_id filter; fl_brand_id := fl_brand_id filter;
    fl_min_price := fl_min_price filter; fl_max_price := fl_max_price filter;
    fl_search := fl_search filter; fl_status := None |};
  mret (PaginatedResponse_new result).
Definition route_list_my_products (current_user : CurrentUser) (query : ProductFilterQuery)
    : svc AppError (PaginatedResponse ProductListRes) :=
  let '(params, filter) := product_query_parts query in
  result ← list_products_by_seller_svc (cu_id current_user) params filter;
  mret (PaginatedResponse_new result).

(** The live product, when the user is its seller or an administrator. *)
Definition owned_product (current_user : CurrentUser) (product_id : Uuid) : svc AppError ProductRow :=
  product ← on_pool (get_product_by_id product_id);
  _ ← lift (require_access current_user (pd_seller_id (pe_product product)));
  mret (pe_product product).

Definition update_product_svc (state : AppState) (current_user : CurrentUser) (product_id : Uuid)
    (req : UpdateProductReq) : svc AppError unit :=
  product ← owned_product current_user product_id;
  validated ← lift (ValidUpdateProductReq_new req product);
  _ ← validate_fk_references (vup_category_id validated) (vup_brand_id validated);
  _ ← in_transaction "Failed to update product: " (other (update_product product_id validated));
  evict_product_caches state product_id (pd_slug product).
Definition delete_product_svc (state : AppState) (current_user : CurrentUser) (product_id : Uuid)
    : svc AppError unit :=
  product ← owned_product current_user product_id;
  _ ← in_transaction "Failed to delete product: " (other (delete_product product_id));
  evict_product_caches state product_id (pd_slug product).

(** ** SKUs *)

Definition create_sku_svc (state : AppState) (current_user : CurrentUser) (product_id : Uuid)
    (req : CreateSkuReq) : svc AppError SkuRes :=
  _ ← owned_product current_user product_id;
  validated ← lift (ValidCreateSkuReq_try_from req);
  sku_id ← in_transaction "Failed to create SKU: " (other (create_sku product_id validated));
  _ ← evict_detail state product_id;
  sku ← on_pool (get_sku_by_id sku_id);
  mret (SkuRes_new sku).
Definition list_skus (product_id : Uuid) : svc AppError (list SkuRes) :=
  skus ← on_pool (list_skus_by_product product_id);
  mret (SkuRes_new <$> skus).

(** The SKU, when the user may change its product, which has to be live. *)
Definition owned_sku (current_user : CurrentUser) (sku_id : Uuid) : svc AppError SkuRow :=
  sku ← on_pool (get_sku_by_id sku_id);
  _ ← owned_product current_user (sku_product_id sku);
  mret sku.
Definition update_sku_svc (state : AppState) (current_user : CurrentUser) (sku_id : Uuid) (req : UpdateSkuReq)
    : svc AppError unit :=
  sku ← owned_sku current_user sku_id;
  validated ← lift (ValidUpdateSkuReq_try_from req);
  _ ← in_transaction "Failed to update SKU: " (other (update_sku sku_id validated));
  evict_detail state (sku_product_id sku).
Definition delete_sku_svc (state : AppState) (current_user : CurrentUser) (sku_id : Uuid) : svc AppError unit :=
  sku ← owned_sku current_user sku_id;
  _ ← in_transaction "Failed to delete SKU: " (other (delete_sku sku_id));
  evict_detail state (sku_product_id sku).
Definition adjust_stock_svc (state : AppState) (current_user : CurrentUser) (sku_id : Uuid) (delta : Z)
    : svc AppError unit :=
  sku ← owned_sku current_user sku_id;
  _ ← in_transaction "Failed to adjust stock: " (other (adjust_stock sku_id delta));
  evict_detail state (sku_product_id sku).

(** [i32::abs] of the release build wraps. *)
Definition i32_abs (z : Z) : Z := as_i32 (Z.abs z).
Definition route_adjust_stock (state : AppState) (current_user : CurrentUser) (sku_id : Uuid)
    (req : AdjustStockReq) : svc AppError unit :=
  if as_delta req =? 0 then fail (BadRequest "Stock delta must not be zero")
  else if 10000 <? i32_abs (as_delta req) then
    fail (BadRequest "Stock delta must be between -10000 and 10000")
  else adjust_stock_svc state current_user sku_id (as_delta req).

(** ** Images *)

Definition list_images (product_id : Uuid) : svc AppError (list ProductImageRes) :=
  images ← on_pool (list_images_by_product product_id);
  mret (ProductImageRes_new <$> images).
Definition add_image (state : AppState) (current_user : CurrentUser) (product_id : Uuid)
    (req : AddProductImageReq) : svc AppError ProductImageRes :=
  _ ← owned_product current_user product_id;
  validated ← lift (ValidAddProductImageReq_try_from req);
  image_id ← in_transaction "Failed to add image: " (other (add_product_image product_id validated));
  _ ← evict_detail state product_id;
  image ← on_pool (get_image_by_id image_id);
  mret (ProductImageRes_new image).
Definition delete_image (state : AppState) (current_user : CurrentUser) (product_id image_id : Uuid)
    : svc AppError unit :=
  _ ← owned_product current_user product_id;
  _ ← in_transaction "Failed to delete image: " (other (delete_product_image image_id));
  evict_detail state product_id.
End service.
