(* ===== verification/ShopProps.v ===== *)
(** * Catalog service: what a request does to the tables

    Every request on the pages of the shop is at most one step of a machine on the tables
    ([effect]), whatever statement is lost. *)

From S2P Require Import Prelude RustStr Externals Errors NewTypes Regex Auth Db Requests Pagination Redis.
From S2P Require Import Labels ShopTables Inventory ShopTypes CategoryRepo ProductRepo CategoryService ProductService.

Local Open Scope Z_scope.

Section effects.
Context `{ShopCodec, !UnicodeApi, !UuidOrder, !ShopOrders, !PgText, !RedisApi}.
Implicit Types (s : db catalog_tables redis) (t : catalog_tables) (user : CurrentUser).

(** ** Requests *)

Inductive catalog_read : Type :=
| GetCategory (id : Uuid) | GetCategoryBySlug (slug : string)
| ListRootCategories (params : PaginationParams) | GetChildren (id : Uuid) (params : PaginationParams)
| GetSubtree (id : Uuid) | GetAncestors (id : Uuid)
| GetBrand (id : Uuid) | GetBrandBySlug (slug : string) | ListBrands (params : PaginationParams)
| ListCategoriesForBrand (id : Uuid) (params : PaginationParams)
| GetProduct (id : Uuid) | GetProductBySlug (slug : string) | GetProductDetail (id : Uuid)
| ListActiveProducts (query : ProductFilterQuery)
| ListMyProducts (user : CurrentUser) (query : ProductFilterQuery)
| ListSkus (product_id : Uuid) | ListImages (product_id : Uuid).
Inductive catalog_request : Type :=
| CreateCategory (user : CurrentUser) (req : CreateCategoryReq)
| UpdateCategory (user : CurrentUser) (id : Uuid) (req : UpdateCategoryReq)
| DeleteCategory (user : CurrentUser) (id : Uuid)
| CreateBrand (user : CurrentUser) (req : CreateBrandReq)
| UpdateBrand (user : CurrentUser) (id : Uuid) (req : UpdateBrandReq)
| DeleteBrand (user : CurrentUser) (id : Uuid)
| AssociateCategory (user : CurrentUser) (brand_id category_id : Uuid)
| DisassociateCategory (user : CurrentUser) (brand_id category_id : Uuid)
| CreateProduct (user : CurrentUser) (req : CreateProductReq)
| UpdateProduct (user : CurrentUser) (id : Uuid) (req : UpdateProductReq)
| DeleteProduct (user : CurrentUser) (id : Uuid)
| CreateSku (user : CurrentUser) (product_id : Uuid) (req : CreateSkuReq)
| UpdateSku (user : CurrentUser) (id : Uuid) (req : UpdateSkuReq)
| DeleteSku (user : CurrentUser) (id : Uuid)
| AdjustStock (user : CurrentUser) (id : Uuid) (req : AdjustStockReq)
| AddImage (user : CurrentUser) (product_id : Uuid) (req : AddProductImageReq)
| DeleteImage (user : CurrentUser) (product_id image_id : Uuid)
| Read (r : catalog_read).

Definition done_with {A} (m : M (db catalog_tables redis) AppError A) : M (db catalog_tables redis) AppError unit :=
  _ ← m; mret tt.
Definition answer (state : AppState) (r : catalog_read) : M (db catalog_tables redis) AppError unit :=
  match r with
  | GetCategory id => done_with (get_category id)
  | GetCategoryBySlug slug => done_with (get_category_by_slug_svc slug)
  | ListRootCategories params => done_with (list_root_categories_svc params)
  | GetChildren id params => done_with (get_children_svc id params)
  | GetSubtree id => done_with (get_subtree_svc id)
  | GetAncestors id => done_with (get_ancestors_svc id)
  | GetBrand id => done_with (get_brand id)
  | GetBrandBySlug slug => done_with (get_brand_by_slug_svc slug)
  | ListBrands params => done_with (list_brands_svc params)
  | ListCategoriesForBrand id params => done_with (list_categories_for_brand_svc id params)
  | GetProduct id => done_with (get_product id)
  | GetProductBySlug slug => done_with (get_product_by_slug_svc state slug)
  | GetProductDetail id => done_with (get_product_detail_svc state id)
  | ListActiveProducts query => done_with (route_list_active_products query)
  | ListMyProducts user query => done_with (route_list_my_products user query)
  | ListSkus product_id => done_with (list_skus product_id)
  | ListImages product_id => done_with (list_images product_id)
  end.
Definition handle (state : AppState) (rq : catalog_request) : M (db catalog_tables redis) AppError unit :=
  match rq with
  | CreateCategory user req => done_with (create_category_svc user req)
  | UpdateCategory user id req => update_category_svc user id req
  | DeleteCategory user id => delete_category_svc user id
  | CreateBrand user req => done_with (create_brand_svc user req)
  | UpdateBrand user id req => update_brand_svc user id req
  | DeleteBrand user id => delete_brand_svc user id
  | AssociateCategory user b c => associate_category_svc user b c
  | DisassociateCategory user b c => disassociate_category_svc user b c
  | CreateProduct user req => done_with (create_product_svc user req)
  | UpdateProduct user id req => update_product_svc state user id req
  | DeleteProduct user id => delete_product_svc state user id
  | CreateSku user product_id req => done_with (create_sku_svc state user product_id req)
  | UpdateSku user id req => update_sku_svc state user id req
  | DeleteSku user id => delete_sku_svc state user id
  | AdjustStock user id req => route_adjust_stock state user id req
  | AddImage user product_id req => done_with (add_image state user product_id req)
  | DeleteImage user product_id image_id => delete_image state user product_id image_id
  | Read r => answer state r
  end.

(** The user who asks for a change. *)
Definition requester (rq : catalog_request) : option CurrentUser :=
  match rq with
  | CreateCategory u _ | UpdateCategory u _ _ | DeleteCategory u _ | CreateBrand u _ | UpdateBrand u _ _
  | DeleteBrand u _ | AssociateCategory u _ _ | DisassociateCategory u _ _ | CreateProduct u _
  | UpdateProduct u _ _ | DeleteProduct u _ | CreateSku u _ _ | UpdateSku u _ _ | DeleteSku u _
  | AdjustStock u _ _ | AddImage u _ _ | DeleteImage u _ _ => Some u
  | Read _ => None
  end.

(** ** The machine *)

(** Where a new category goes. *)
Definition placed (v : ValidCreateCategoryReq) t (path : string) (depth : Z) : Prop :=
  match vcc_parent_id v with
  | Some parent_id => ∃ parent, List.find (is_category parent_id) (categories t) = Some parent ∧
      depth = as_i32 (ca_depth parent + 1) ∧ depth ≤ MAX_CATEGORY_DEPTH ∧
      path = ltree_text (ca_path parent) +:+ "." +:+ label_str (vcc_label v)
  | None => path = label_str (vcc_label v) ∧ depth = 0
  end.
(** What [validate_fk_references] has seen. *)
Definition references_ok (category_id brand_id : option Uuid) t : Prop :=
  (∀ c, category_id = Some c → existsb (is_category c) (categories t) = true) ∧
  (∀ b, brand_id = Some b → existsb (is_brand b) (brands t) = true) ∧
  (∀ c b, category_id = Some c → brand_id = Some b → existsb (is_association b c) (brand_categories t) = true).
Definition is_admin user : Prop := cu_role user = Admin.
(** The user may change the live product. *)
Definition owns user (product_id : Uuid) t (p : ProductRow) : Prop :=
  List.find (live_product_id product_id) (products t) = Some p ∧ (cu_id user = pd_seller_id p ∨ is_admin user).
Definition owns_sku user (id : Uuid) t : Prop :=
  ∃ sku p, find_sku id t = Some sku ∧ owns user (sku_product_id sku) t p.

Definition effect (now : Z) (rq : catalog_request) t t' : Prop :=
  match rq with
  | CreateCategory user req => ∃ v path depth id, is_admin user ∧
      ValidCreateCategoryReq_try_from req = Ok v ∧ placed v t path depth ∧
      insert_category v path depth now id t = Ok (id, t')
  | UpdateCategory user id req => ∃ v id', is_admin user ∧ ValidUpdateCategoryReq_try_from req = Ok v ∧
      update_category_stmt id v now id' t = Ok (1%nat, t')
  | DeleteCategory user id => ∃ id', is_admin user ∧
      existsb (λ c, bool_decide (ca_parent_id c = Some id)) (categories t) = false ∧
      existsb (λ p, bool_decide (pd_category_id p = Some id) && live_product p) (products t) = false ∧
      delete_category_stmt id now id' t = Ok (1%nat, t')
  | CreateBrand user req => ∃ v id, is_admin user ∧ ValidCreateBrandReq_try_from req = Ok v ∧
      insert_brand v now id t = Ok (id, t')
  | UpdateBrand user id req => ∃ v id', is_admin user ∧ ValidUpdateBrandReq_try_from req = Ok v ∧
      update_brand_stmt id v now id' t = Ok (1%nat, t')
  | DeleteBrand user id => ∃ id', is_admin user ∧
      existsb (λ p, bool_decide (pd_brand_id p = Some id) && live_product p) (products t) = false ∧
      delete_brand_stmt id now id' t = Ok (1%nat, t')
  | AssociateCategory user b c => ∃ n id', is_admin user ∧ insert_association b c now id' t = Ok (n, t')
  | DisassociateCategory user b c => ∃ n id', is_admin user ∧ n ≠ 0%nat ∧
      delete_association b c now id' t = Ok (n, t')
  | CreateProduct user req => ∃ v id, ValidCreateProductReq_new req = Ok v ∧
      references_ok (vcp_category_id v) (vcp_brand_id v) t ∧ insert_product (cu_id user) v now id t = Ok (id, t')
  | UpdateProduct user id req => ∃ p v id', owns user id t p ∧ ValidUpdateProductReq_new req p = Ok v ∧
      references_ok (vup_category_id v) (vup_brand_id v) t ∧ update_product_stmt id v now id' t = Ok (1%nat, t')
  | DeleteProduct user id => ∃ p id', owns user id t p ∧ delete_product_stmt id now id' t = Ok (1%nat, t')
  | CreateSku user product_id req => ∃ p v id, owns user product_id t p ∧
      ValidCreateSkuReq_try_from req = Ok v ∧ insert_sku product_id v now id t = Ok (id, t')
  | UpdateSku user id req => ∃ v, owns_sku user id t ∧ ValidUpdateSkuReq_try_from req = Ok v ∧
      update_skus (live_sku id) (with_sku v now) t = Ok (1%nat, t')
  | DeleteSku user id => owns_sku user id t ∧
      update_skus (live_sku id) (λ row, Ok (sku_deleted now row)) t = Ok (1%nat, t')
  | AdjustStock user id req => ∃ id', owns_sku user id t ∧ as_delta req ≠ 0 ∧
      i32_abs (as_delta req) ≤ 10000 ∧ adjust_stmt id (as_delta req) now id' t = Ok (1%nat, t')
  | AddImage user product_id req => ∃ p v t1 id id', owns user product_id t p ∧
      ValidAddProductImageReq_try_from req = Ok v ∧
      (if vai_is_primary v then unset_primary product_id now id' t = Ok (tt, t1) else t1 = t) ∧
      insert_image product_id v now id t1 = Ok (id, t')
  | DeleteImage user product_id image_id => ∃ p n id', owns user product_id t p ∧ n ≠ 0%nat ∧
      delete_image_stmt image_id now id' t = Ok (n, t')
  | Read _ => False
  end.
(** Requests that may succeed without a step: reads, and updates of nothing. *)
Definition silent (rq : catalog_request) : bool :=
  match rq with
  | Read _ => true
  | UpdateCategory _ _ (Build_UpdateCategoryReq None None) => true
  | UpdateBrand _ _ (Build_UpdateBrandReq None None None) => true
  | UpdateProduct _ _ (Build_UpdateProductReq None None None None None None None None) => true
  | UpdateSku _ _ (Build_UpdateSkuReq None None None None) => true
  | _ => false
  end.
Abbreviation request_stepped rq := (stepped (λ now, effect now rq) (silent rq)).

(** ** The parts that leave the tables alone *)

Lemma quiet_shop_cache {E A} (m : M redis E A) : keeps quiet (on_cache m).
Proof. apply (quiet_zoom id (λ r _, r)). Qed.
Lemma quiet_select_page {A} (id : A → Uuid) msg rows params :
  keeps quiet (on_pool (X := redis) (select_page id msg rows params)).
Proof.
  intros s o s'. unfold on_pool, select_page, map_err, exec, pop_fault, quiet, push_keyset. simpl.
  destruct (e_faults (d_env s)) as [|[] fs]; simpl; intros [= <- <-]; done.
Qed.
Lemma quiet_paths msg (path : string) (rows : ltree → catalog_tables → list CategoryRow) :
  keeps quiet (on_pool (X := redis)
    (map_err (internal msg) (exec (λ _ _ t, p ← ltree_in path; Ok (category_entity <$> rows p t, t))))).
Proof.
  intros s o s'. unfold on_pool, map_err, exec, pop_fault, quiet. simpl.
  destruct (e_faults (d_env s)) as [|[] fs]; simpl; destruct (ltree_in path); simpl; intros [= <- <-]; done.
Qed.
Lemma quiet_subtree path : keeps quiet (on_pool (X := redis) (get_subtree path)).
Proof. apply quiet_paths. Qed.
Lemma quiet_ancestors path : keeps quiet (on_pool (X := redis) (get_ancestors path)).
Proof. apply quiet_paths. Qed.
#[local] Hint Resolve quiet_shop_cache quiet_select_page quiet_subtree quiet_ancestors : quiet.

Lemma quiet_exists msg p : keeps quiet (on_pool (X := redis) (select_exists msg p)).
Proof. apply quiet_query. Qed.
#[local] Hint Resolve quiet_exists : quiet.
Lemma quiet_require text p msg : keeps quiet (require (X := redis) (select_exists text p) msg).
Proof. unfold require. quiet_tac. Qed.
#[local] Hint Extern 5 (keeps quiet (require _ _)) => apply quiet_require : quiet.
Lemma quiet_references c b : keeps quiet (validate_fk_references (X := redis) c b).
Proof.
  unfold validate_fk_references. quiet_tac.
Qed.
Lemma quiet_place v : keeps quiet (place_of (X := redis) v).
Proof. unfold place_of. quiet_tac. Qed.
Lemma quiet_owned_product user id : keeps quiet (owned_product user id).
Proof. unfold owned_product. quiet_tac. Qed.
#[local] Hint Resolve quiet_references quiet_place quiet_owned_product : quiet.
Lemma quiet_owned_sku user id : keeps quiet (owned_sku user id).
Proof. unfold owned_sku. quiet_tac. Qed.
Lemma quiet_evict_detail state id : keeps quiet (evict_detail state id).
Proof. apply quiet_shop_cache. Qed.
Lemma quiet_evict_product state id slug : keeps quiet (evict_product_caches state id slug).
Proof. unfold evict_product_caches. quiet_tac. Qed.
#[local] Hint Resolve quiet_owned_sku quiet_evict_detail quiet_evict_product : quiet.

(** ** What they have seen *)

Lemma require_admin_ok user x : require_admin user = Ok x → is_admin user.
Proof. unfold require_admin. by case_bool_decide. Qed.

Lemma find_product_live p t e : find_product p t = Some e →
  List.find (λ r, p r && live_product r) (products t) = Some (pe_product e).
Proof. unfold find_product. destruct (List.find _ _); simpl; [by intros [= <-]|done]. Qed.

Lemma owned_product_ok s s1 user id p s2 :
  quiet s s1 → owned_product user id s1 = (Ok p, s2) → owns user id (d_committed s) p.
Proof.
  intros Hq (e & s3 & He & ([] & s4 & [Ha ->]%lift_ok & [<- _]%ret_ok)%bind_ok)%bind_ok.
  apply (pool_read_at _ _ s s1 _ _ Hq), find_product_live in He.
  split; [exact He|]. by apply require_access_ok in Ha.
Qed.
Lemma owned_sku_ok s s1 user id sku s2 :
  quiet s s1 → owned_sku user id s1 = (Ok sku, s2) → owns_sku user id (d_committed s).
Proof.
  intros Hq (e & s3 & He & (p & s4 & Hp & [<- _]%ret_ok)%bind_ok)%bind_ok.
  pose proof He as Hq1. apply quiet_pool in Hq1. apply (pool_read_at _ _ s s1 _ _ Hq) in He.
  apply (owned_product_ok s) in Hp; [|by etrans]. exists e, p. done.
Qed.
Lemma place_of_ok s s1 v place s2 :
  quiet s s1 → place_of v s1 = (Ok place, s2) → placed v (d_committed s) place.1 place.2.
Proof.
  intros Hq. unfold place_of, placed. destruct (vcc_parent_id v) as [id|]; [|by intros [<- _]%ret_ok].
  intros (e & s3 & He & Hr)%bind_ok. apply (pool_read_at _ _ s s1 _ _ Hq) in He.
  unfold find_category in He. destruct (List.find _ _) as [c|]; [|done]. injection He as <-.
  case_match eqn:Ed; [done|]. apply ret_ok in Hr as [<- _]. apply Z.ltb_ge in Ed.
  exists c. done.
Qed.
Lemma require_ok s s1 msg p error u s2 :
  quiet s s1 → require (X := redis) (select_exists msg p) error s1 = (Ok u, s2) →
  p (d_committed s) = true ∧ quiet s s2.
Proof.
  intros Hq (b & s3 & Hb & Hr)%bind_ok. pose proof Hb as Hq1. apply quiet_exists in Hq1.
  apply (pool_query_at _ _ s s1 _ _ Hq) in Hb as ->.
  case_match; [|done]. apply ret_ok in Hr as [_ <-]. split; [done|by etrans].
Qed.
Lemma references_seen s s1 c b u s2 :
  quiet s s1 → validate_fk_references c b s1 = (Ok u, s2) → references_ok c b (d_committed s).
Proof.
  intros Hq (u1 & s3 & Hr1 & (u2 & s4 & Hr2 & Hr3)%bind_ok)%bind_ok. unfold references_ok.
  assert ((∀ id, c = Some id → existsb (is_category id) (categories (d_committed s)) = true) ∧ quiet s s3)
    as [Hc Hq1].
  { destruct c as [id|]; [|apply ret_ok in Hr1 as [_ <-]; by split].
    apply (require_ok s) in Hr1 as [Hx ?]; [|done]. split; [by intros ? [= <-]|done]. }
  assert ((∀ id, b = Some id → existsb (is_brand id) (brands (d_committed s)) = true) ∧ quiet s s4)
    as [Hb Hq2].
  { destruct b as [id|]; [|apply ret_ok in Hr2 as [_ <-]; by split].
    apply (require_ok s) in Hr2 as [Hx ?]; [|done]. split; [by intros ? [= <-]|done]. }
  split_and!; [done|done|]. intros c' b' -> ->. by apply (require_ok s) in Hr3 as [Hx _].
Qed.

(** ** Every request is at most one step *)

Lemma answer_quiet state r : keeps quiet (answer state r).
Proof.
  unfold answer, done_with. destruct r; unfold get_category, get_category_by_slug_svc, list_root_categories_svc,
    get_children_svc, get_subtree_svc, get_ancestors_svc, get_brand, get_brand_by_slug_svc, list_brands_svc,
    list_categories_for_brand_svc, get_product, get_product_by_slug_svc, get_product_detail_svc,
    route_list_active_products, list_active_products_svc, route_list_my_products, list_products_by_seller_svc,
    list_skus, list_images; quiet_tac.
Qed.

(** The guard of an administrator, and a validated request. *)
Ltac admin_part Hq H := let x := fresh "x" in let Hx := fresh "Hadmin" in
  quiet_part Hq H x Hx; apply lift_ok in Hx as [Hx%require_admin_ok _].
Ltac valid_part Hq H v Hv := quiet_part Hq H v Hv; apply lift_ok in Hv as [Hv _].
(** The end of a transaction of one statement. *)
Ltac by_statement Hr :=
  first [eapply stepped_statement in Hr | eapply stepped_one_row in Hr]; [exact Hr|done| |intros; quiet_tac].
Ltac by_last Hr := rewrite <-bind_ret_same in Hr; by_statement Hr.

Lemma quiet_self s : quiet s s.
Proof. done. Qed.

Lemma create_category_stepped state user req s o s' :
  handle state (CreateCategory user req) s = (o, s') → request_stepped (CreateCategory user req) s o s'.
Proof.
  apply stepped_drop. clear o s'. intros o s' Hr. unfold create_category_svc in Hr.
  pose proof (quiet_self s) as Hq. admin_part Hq Hr. valid_part Hq0 Hr v Hv.
  quiet_part Hq1 Hr place Hp. apply (place_of_ok s) in Hp; [|done]. by_statement Hr.
  intros id a t' E. assert (a = id) as -> by (unfold insert_category in E; inv_ok E; by simplify_eq).
  by exists v, place.1, place.2, id.
Qed.

(** An update without a column is no statement. *)
Lemma transpose_map_none {A B} (f : A → outcome AppError B) o : transpose_map f o = Ok None → o = None.
Proof. destruct o as [a|]; [|done]. simpl. by intros (b & _ & Hr)%obind_ok. Qed.

Lemma update_category_stepped state user id req s o s' :
  handle state (UpdateCategory user id req) s = (o, s') → request_stepped (UpdateCategory user id req) s o s'.
Proof.
  intros Hr. unfold handle, update_category_svc in Hr. pose proof (quiet_self s) as Hq. admin_part Hq Hr.
  quiet_part Hq0 Hr c Hc. valid_part Hq1 Hr v Hv. unfold update_category in Hr.
  destruct (vuc_name v) as [n|] eqn:En, (vuc_description v) as [d|] eqn:Ed;
    try (by_last Hr; intros id' t' E; by exists v, id').
  apply quiet_empty_transaction in Hr. apply stepped_quiet; [by etrans|right].
  unfold ValidUpdateCategoryReq_try_from in Hv. inv_ok Hv. simplify_eq/=.
  apply transpose_map_none in Hout. destruct req. by simplify_eq/=.
Qed.

Lemma delete_category_stepped state user id s o s' :
  handle state (DeleteCategory user id) s = (o, s') → request_stepped (DeleteCategory user id) s o s'.
Proof.
  intros Hr. unfold handle, delete_category_svc in Hr. pose proof (quiet_self s) as Hq. admin_part Hq Hr.
  quiet_part Hq0 Hr c Hc. quiet_part Hq1 Hr b Hb. apply (pool_query_at _ _ s) in Hb as ->; [|done].
  destruct (existsb _ _) eqn:Ec; [injection Hr as <- <-; by apply stepped_quiet; auto|].
  quiet_part Hq2 Hr b Hb. apply (pool_query_at _ _ s) in Hb as ->; [|done].
  destruct (existsb (λ p : ProductRow, _) _) eqn:Ep; [injection Hr as <- <-; by apply stepped_quiet; auto|].
  by_last Hr. intros id' t' E. by exists id'.
Qed.

Lemma create_brand_stepped state user req s o s' :
  handle state (CreateBrand user req) s = (o, s') → request_stepped (CreateBrand user req) s o s'.
Proof.
  apply stepped_drop. clear o s'. intros o s' Hr. unfold create_brand_svc in Hr.
  pose proof (quiet_self s) as Hq. admin_part Hq Hr. valid_part Hq0 Hr v Hv. by_statement Hr.
  intros id a t' E. assert (a = id) as -> by (unfold insert_brand in E; inv_ok E; by simplify_eq).
  by exists v, id.
Qed.

Lemma update_brand_stepped state user id req s o s' :
  handle state (UpdateBrand user id req) s = (o, s') → request_stepped (UpdateBrand user id req) s o s'.
Proof.
  intros Hr. unfold handle, update_brand_svc in Hr. pose proof (quiet_self s) as Hq. admin_part Hq Hr.
  quiet_part Hq0 Hr c Hc. valid_part Hq1 Hr v Hv. unfold update_brand in Hr.
  destruct (vub_name v) as [n|] eqn:En, (vub_description v) as [d|] eqn:Ed, (vub_logo_url v) as [u|] eqn:Eu;
    try (by_last Hr; intros id' t' E; by exists v, id').
  apply quiet_empty_transaction in Hr. apply stepped_quiet; [by etrans|right].
  unfold ValidUpdateBrandReq_try_from in Hv. inv_ok Hv. simplify_eq/=.
  apply transpose_map_none in Hout, Hout1. destruct req. by simplify_eq/=.
Qed.

Lemma delete_brand_stepped state user id s o s' :
  handle state (DeleteBrand user id) s = (o, s') → request_stepped (DeleteBrand user id) s o s'.
Proof.
  intros Hr. unfold handle, delete_brand_svc in Hr. pose proof (quiet_self s) as Hq. admin_part Hq Hr.
  quiet_part Hq0 Hr c Hc. quiet_part Hq1 Hr b Hb. apply (pool_query_at _ _ s) in Hb as ->; [|done].
  destruct (existsb _ _) eqn:Ep; [injection Hr as <- <-; by apply stepped_quiet; auto|].
  by_last Hr. intros id' t' E. by exists id'.
Qed.

Lemma associate_stepped state user b c s o s' :
  handle state (AssociateCategory user b c) s = (o, s') → request_stepped (AssociateCategory user b c) s o s'.
Proof.
  intros Hr. unfold handle, associate_category_svc in Hr. pose proof (quiet_self s) as Hq. admin_part Hq Hr.
  quiet_part Hq0 Hr e1 He1. quiet_part Hq1 Hr e2 He2. rewrite <-bind_ret_same in Hr.
  eapply stepped_transaction in Hr; [exact Hr|done| |intros; quiet_tac].
  intros e u k He Hk. apply map_err_ok, statement_ok in Hk as (id & n & c1 & E & Hs & _ & [_ <-]%ret_ok).
  split; [done|]. simpl in E. rewrite He in E. by exists n, id.
Qed.

Lemma disassociate_stepped state user b c s o s' :
  handle state (DisassociateCategory user b c) s = (o, s') →
  request_stepped (DisassociateCategory user b c) s o s'.
Proof.
  intros Hr. unfold handle, disassociate_category_svc in Hr. pose proof (quiet_self s) as Hq. admin_part Hq Hr.
  rewrite <-bind_ret_same in Hr.
  eapply stepped_transaction in Hr; [exact Hr|done| |intros; quiet_tac].
  intros e u k He Hk. apply map_err_ok, statement_ok in Hk as (id & n & c1 & E & Hs & _ & Hn).
  case_bool_decide as Hz; [done|]. apply ret_ok in Hn as [_ <-].
  split; [done|]. simpl in E. rewrite He in E. by exists n, id.
Qed.

Lemma create_product_stepped state user req s o s' :
  handle state (CreateProduct user req) s = (o, s') → request_stepped (CreateProduct user req) s o s'.
Proof.
  apply stepped_drop. clear o s'. intros o s' Hr. unfold create_product_svc in Hr.
  pose proof (quiet_self s) as Hq. valid_part Hq Hr v Hv. quiet_part Hq0 Hr u Hu.
  apply (references_seen s) in Hu; [|done]. by_statement Hr.
  intros id a t' E. assert (a = id) as -> by (unfold insert_product in E; inv_ok E; by simplify_eq).
  by exists v, id.
Qed.

Lemma nothing_requested user id req p v :
  ValidUpdateProductReq_new req p = Ok v → nothing_to_set v = true → silent (UpdateProduct user id req) = true.
Proof.
  unfold ValidUpdateProductReq_new. intros Hv Hn. inv_ok Hv. simplify_eq. unfold nothing_to_set in Hn.
  repeat case_match; simplify_eq.
  repeat match goal with H : transpose_map _ _ = Ok None |- _ => apply transpose_map_none in H end.
  destruct req as [? ? ? ? ? c b ?], c, b; by simplify_eq/=.
Qed.
Lemma update_product_stepped state user id req s o s' :
  handle state (UpdateProduct user id req) s = (o, s') → request_stepped (UpdateProduct user id req) s o s'.
Proof.
  intros Hr. unfold handle, update_product_svc in Hr. pose proof (quiet_self s) as Hq.
  quiet_part Hq Hr p Hp. apply (owned_product_ok s) in Hp; [|done]. valid_part Hq0 Hr v Hv.
  quiet_part Hq1 Hr u Hu. apply (references_seen s) in Hu; [|done]. unfold update_product in Hr.
  destruct (nothing_to_set v) eqn:En.
  - quiet_part Hq2 Hr x Hx. apply (quiet_evict_product state id) in Hr.
    apply stepped_quiet; [by etrans|right]. by eapply nothing_requested.
  - by_statement Hr. intros id' t' E. by exists p, v, id'.
Qed.

Lemma delete_product_stepped state user id s o s' :
  handle state (DeleteProduct user id) s = (o, s') → request_stepped (DeleteProduct user id) s o s'.
Proof.
  intros Hr. unfold handle, delete_product_svc in Hr. pose proof (quiet_self s) as Hq.
  quiet_part Hq Hr p Hp. apply (owned_product_ok s) in Hp; [|done]. by_statement Hr.
  intros id' t' E. by exists p, id'.
Qed.

Lemma create_sku_stepped state user pid req s o s' :
  handle state (CreateSku user pid req) s = (o, s') → request_stepped (CreateSku user pid req) s o s'.
Proof.
  apply stepped_drop. clear o s'. intros o s' Hr. unfold create_sku_svc in Hr.
  pose proof (quiet_self s) as Hq. quiet_part Hq Hr p Hp. apply (owned_product_ok s) in Hp; [|done].
  valid_part Hq0 Hr v Hv. by_statement Hr.
  intros id a t' E. assert (a = id) as -> by (unfold insert_sku in E; inv_ok E; by simplify_eq).
  by exists p, v, id.
Qed.

Lemma update_sku_stepped state user id req s o s' :
  handle state (UpdateSku user id req) s = (o, s') → request_stepped (UpdateSku user id req) s o s'.
Proof.
  intros Hr. unfold handle, update_sku_svc in Hr. pose proof (quiet_self s) as Hq.
  quiet_part Hq Hr sku Hs. apply (owned_sku_ok s) in Hs; [|done]. valid_part Hq0 Hr v Hv.
  unfold update_sku in Hr. destruct v as [pr st at' ss] eqn:Ev.
  destruct pr, st, at', ss; try (by_statement Hr; intros id' t' E; by eexists).
  quiet_part Hq1 Hr x Hx. apply quiet_evict_detail in Hr. apply stepped_quiet; [by etrans|right].
  unfold ValidUpdateSkuReq_try_from in Hv. inv_ok Hv. simplify_eq/=.
  apply transpose_map_none in Hout, Hout1. destruct req. by simplify_eq/=.
Qed.

Lemma delete_sku_stepped state user id s o s' :
  handle state (DeleteSku user id) s = (o, s') → request_stepped (DeleteSku user id) s o s'.
Proof.
  intros Hr. unfold handle, delete_sku_svc in Hr. pose proof (quiet_self s) as Hq.
  quiet_part Hq Hr sku Hs. apply (owned_sku_ok s) in Hs; [|done]. by_statement Hr. by intros id' t' E.
Qed.

Lemma adjust_stock_stepped state user id req s o s' :
  handle state (AdjustStock user id req) s = (o, s') → request_stepped (AdjustStock user id req) s o s'.
Proof.
  intros Hr. unfold handle, route_adjust_stock, adjust_stock_svc in Hr. pose proof (quiet_self s) as Hq.
  destruct (Z.eqb_spec (as_delta req) 0) as [_|Hz]; [injection Hr as <- <-; by apply stepped_quiet; auto|].
  destruct (Z.ltb_spec 10000 (i32_abs (as_delta req))) as [_|Hb];
    [injection Hr as <- <-; by apply stepped_quiet; auto|].
  quiet_part Hq Hr sku Hs. apply (owned_sku_ok s) in Hs; [|done]. by_statement Hr.
  intros id' t' E. by exists id'.
Qed.

(** The transaction of an image: two statements when it is the primary one. *)
Lemma add_product_image_ok pid v c a c' :
  add_product_image pid v c = (Ok a, c') → c_status c' = TxActive ∧ ∃ t1 id',
    (if vai_is_primary v then unset_primary pid (e_now (c_env c)) id' (c_tables c) = Ok (tt, t1) else t1 = c_tables c) ∧
    insert_image pid v (e_now (c_env c)) a t1 = Ok (a, c_tables c').
Proof.
  unfold add_product_image. intros (u & c1 & Hu & (_ & Hs & _ & id & E)%map_err_ok%exec_ok)%bind_ok.
  split; [done|]. assert (a = id) as -> by (unfold insert_image in E; inv_ok E; by simplify_eq).
  destruct (vai_is_primary v).
  - apply map_err_ok, exec_ok in Hu as (_ & _ & Hn & id1 & E1). destruct u. exists (c_tables c1), id1.
    by rewrite Hn in E.
  - apply ret_ok in Hu as [_ <-]. by exists (c_tables c), id.
Qed.
Lemma add_image_stepped state user pid req s o s' :
  handle state (AddImage user pid req) s = (o, s') → request_stepped (AddImage user pid req) s o s'.
Proof.
  apply stepped_drop. clear o s'. intros o s' Hr. unfold add_image in Hr.
  pose proof (quiet_self s) as Hq. quiet_part Hq Hr p Hp. apply (owned_product_ok s) in Hp; [|done].
  valid_part Hq0 Hr v Hv. eapply stepped_transaction in Hr; [exact Hr|done| |intros; quiet_tac].
  intros e a c He (Hs & t1 & id' & Hu & Hi)%map_err_ok%add_product_image_ok. simpl in *. rewrite He in *.
  split; [done|]. by exists p, v, t1, a, id'.
Qed.

Lemma delete_image_stepped state user pid iid s o s' :
  handle state (DeleteImage user pid iid) s = (o, s') → request_stepped (DeleteImage user pid iid) s o s'.
Proof.
  intros Hr. unfold handle, delete_image in Hr. pose proof (quiet_self s) as Hq.
  quiet_part Hq Hr p Hp. apply (owned_product_ok s) in Hp; [|done].
  eapply stepped_transaction in Hr; [exact Hr|done| |intros; quiet_tac].
  intros e u k He Hk. apply map_err_ok, statement_ok in Hk as (id & n & c1 & E & Hs & _ & Hn).
  case_bool_decide as Hz; [done|]. apply ret_ok in Hn as [_ <-].
  split; [done|]. simpl in E. rewrite He in E. by exists p, n, id.
Qed.

Lemma catalog_request_stepped state rq s o s' : handle state rq s = (o, s') → request_stepped rq s o s'.
Proof.
  destruct rq; intros Hr;
    [by eapply create_category_stepped|by eapply update_category_stepped|by eapply delete_category_stepped
    |by eapply create_brand_stepped|by eapply update_brand_stepped|by eapply delete_brand_stepped
    |by eapply associate_stepped|by eapply disassociate_stepped|by eapply create_product_stepped
    |by eapply update_product_stepped|by eapply delete_product_stepped|by eapply create_sku_stepped
    |by eapply update_sku_stepped|by eapply delete_sku_stepped|by eapply adjust_stock_stepped
    |by eapply add_image_stepped|by eapply delete_image_stepped|].
  apply answer_quiet in Hr. apply stepped_quiet; auto.
Qed.
End effects.
