(* ===== verification/ShopRoutes.v ===== *)
(** * Catalog service: the routes
    (catalog/src/categories/routes.rs, brands/routes.rs, products/routes.rs, [app] of catalog/src/lib.rs)

    Every handler with the answer it makes, and the three routers with the middleware in front of
    their protected routes. A request on a route is a request of ShopProps whose user is the one
    that a valid token names. *)

From S2P Require Import Prelude RustStr Externals Errors NewTypes Regex Auth Db Requests Pagination Redis.
From S2P Require Import Labels ShopTables Inventory ShopTypes CategoryRepo ProductRepo CategoryService ProductService ShopProps.

Local Open Scope Z_scope.

Section routes.
Context `{ShopCodec, !UnicodeApi, !UuidOrder, !ShopOrders, !PgText, !RedisApi, !JwtApi}.
Abbreviation svc := (M (db catalog_tables redis) AppError).
Implicit Types (user : CurrentUser).

(** ** The handlers *)

Definition route_list_root_categories (query : PaginationQuery) : svc (PaginatedResponse CategoryRes) :=
  result ← list_root_categories_svc (into_params query);
  mret (PaginatedResponse_new result).
Definition route_get_category (id : Uuid) : svc CategoryRes := get_category id.
Definition route_get_category_by_slug (slug : string) : svc CategoryRes := get_category_by_slug_svc slug.
Definition route_get_children (id : Uuid) (query : PaginationQuery) : svc (PaginatedResponse CategoryRes) :=
  result ← get_children_svc id (into_params query);
  mret (PaginatedResponse_new result).
Definition route_get_subtree (id : Uuid) : svc (list CategoryRes) := get_subtree_svc id.
Definition route_get_ancestors (id : Uuid) : svc (list CategoryRes) := get_ancestors_svc id.
Definition route_create_category user (req : CreateCategoryReq) : svc (ApiResponse CategoryRes) :=
  data ← create_category_svc user req;
  mret (ok_response data).
Definition route_update_category user (id : Uuid) (req : UpdateCategoryReq) : svc (Z * MessageResponse) :=
  _ ← update_category_svc user id req;
  mret (success 200 "Category updated successfully").
Definition route_delete_category user (id : Uuid) : svc (Z * MessageResponse) :=
  _ ← delete_category_svc user id;
  mret (success 200 "Category deleted successfully").

Definition route_list_brands (query : PaginationQuery) : svc (PaginatedResponse BrandRes) :=
  result ← list_brands_svc (into_params query);
  mret (PaginatedResponse_new result).
Definition route_get_brand (id : Uuid) : svc BrandRes := get_brand id.
Definition route_get_brand_by_slug (slug : string) : svc BrandRes := get_brand_by_slug_svc slug.
Definition route_list_categories_for_brand (id : Uuid) (query : PaginationQuery) : svc (PaginatedResponse CategoryRes) :=
  result ← list_categories_for_brand_svc id (into_params query);
  mret (PaginatedResponse_new result).
Definition route_create_brand user (req : CreateBrandReq) : svc (ApiResponse BrandRes) :=
  data ← create_brand_svc user req;
  mret (ok_response data).
Definition route_update_brand user (id : Uuid) (req : UpdateBrandReq) : svc (Z * MessageResponse) :=
  _ ← update_brand_svc user id req;
  mret (success 200 "Brand updated successfully").
Definition route_delete_brand user (id : Uuid) : svc (Z * MessageResponse) :=
  _ ← delete_brand_svc user id;
  mret (success 200 "Brand deleted successfully").
Definition route_associate_category user (id : Uuid) (req : AssociateCategoryReq) : svc (Z * MessageResponse) :=
  _ ← associate_category_svc user id (ac_category_id req);
  mret (success 200 "Category associated with brand").
Definition route_disassociate_category user (brand_id category_id : Uuid) : svc (Z * MessageResponse) :=
  _ ← disassociate_category_svc user brand_id category_id;
  mret (success 200 "Category disassociated from brand").

Definition route_get_product_detail (state : AppState) (id : Uuid) : svc ProductDetailRes := get_product_detail_svc state id.
Definition route_get_product_by_slug (state : AppState) (slug : string) : svc ProductRes := get_product_by_slug_svc state slug.
Definition route_create_product user (req : CreateProductReq) : svc (ApiResponse ProductRes) :=
  data ← create_product_svc user req;
  mret (ok_response data).
Definition route_update_product (state : AppState) user (id : Uuid) (req : UpdateProductReq) : svc (Z * MessageResponse) :=
  _ ← update_product_svc state user id req;
  mret (success 200 "Product updated successfully").
Definition route_delete_product (state : AppState) user (id : Uuid) : svc (Z * MessageResponse) :=
  _ ← delete_product_svc state user id;
  mret (success 200 "Product deleted successfully").
Definition route_list_skus (product_id : Uuid) : svc (list SkuRes) := list_skus product_id.
Definition route_create_sku (state : AppState) user (product_id : Uuid) (req : CreateSkuReq) : svc (ApiResponse SkuRes) :=
  data ← create_sku_svc state user product_id req;
  mret (ok_response data).
Definition route_update_sku (state : AppState) user (sku_id : Uuid) (req : UpdateSkuReq) : svc (Z * MessageResponse) :=
  _ ← update_sku_svc state user sku_id req;
  mret (success 200 "SKU updated successfully").
Definition route_delete_sku (state : AppState) user (sku_id : Uuid) : svc (Z * MessageResponse) :=
  _ ← delete_sku_svc state user sku_id;
  mret (success 200 "SKU deleted successfully").
Definition route_adjust_sku_stock (state : AppState) user (sku_id : Uuid) (req : AdjustStockReq) : svc (Z * MessageResponse) :=
  _ ← route_adjust_stock state user sku_id req;
  mret (success 200 "Stock adjusted successfully").
Definition route_list_images (product_id : Uuid) : svc (list ProductImageRes) := list_images product_id.
Definition route_add_image (state : AppState) user (product_id : Uuid) (req : AddProductImageReq) : svc (ApiResponse ProductImageRes) :=
  data ← add_image state user product_id req;
  mret (ok_response data).
Definition route_delete_image (state : AppState) user (product_id image_id : Uuid) : svc (Z * MessageResponse) :=
  _ ← delete_image state user product_id image_id;
  mret (success 200 "Image deleted successfully").

(** ** The routers *)

(** The request a route takes apart: the path, the query and the body. *)
Inductive category_call : Type :=
| RqListRootCategories (query : PaginationQuery)
| RqGetCategory (id : Uuid)
| RqGetCategoryBySlug (slug : string)
| RqGetChildren (id : Uuid) (query : PaginationQuery)
| RqGetSubtree (id : Uuid)
| RqGetAncestors (id : Uuid)
| RqCreateCategory (req : CreateCategoryReq)
| RqUpdateCategory (id : Uuid) (req : UpdateCategoryReq)
| RqDeleteCategory (id : Uuid).
Inductive brand_call : Type :=
| RqListBrands (query : PaginationQuery)
| RqGetBrand (id : Uuid)
| RqGetBrandBySlug (slug : string)
| RqListCategoriesForBrand (id : Uuid) (query : PaginationQuery)
| RqCreateBrand (req : CreateBrandReq)
| RqUpdateBrand (id : Uuid) (req : UpdateBrandReq)
| RqDeleteBrand (id : Uuid)
| RqAssociateCategory (id : Uuid) (req : AssociateCategoryReq)
| RqDisassociateCategory (brand_id category_id : Uuid).
Inductive product_call : Type :=
| RqListActiveProducts (query : ProductFilterQuery)
| RqGetProductDetail (id : Uuid)
| RqGetProductBySlug (slug : string)
| RqCreateProduct (req : CreateProductReq)
| RqListMyProducts (query : ProductFilterQuery)
| RqUpdateProduct (id : Uuid) (req : UpdateProductReq)
| RqDeleteProduct (id : Uuid)
| RqListSkus (product_id : Uuid)
| RqCreateSku (product_id : Uuid) (req : CreateSkuReq)
| RqUpdateSku (sku_id : Uuid) (req : UpdateSkuReq)
| RqDeleteSku (sku_id : Uuid)
| RqAdjustStock (sku_id : Uuid) (req : AdjustStockReq)
| RqListImages (product_id : Uuid)
| RqAddImage (product_id : Uuid) (req : AddProductImageReq)
| RqDeleteImage (product_id image_id : Uuid).

(** The bodies of the answers. *)
Inductive catalog_response : Type :=
| AnMessage (r : Z * MessageResponse)
| AnCategory (r : CategoryRes) | AnNewCategory (r : ApiResponse CategoryRes)
| AnCategories (r : list CategoryRes) | AnCategoryPage (r : PaginatedResponse CategoryRes)
| AnBrand (r : BrandRes) | AnNewBrand (r : ApiResponse BrandRes) | AnBrandPage (r : PaginatedResponse BrandRes)
| AnProduct (r : ProductRes) | AnNewProduct (r : ApiResponse ProductRes) | AnDetail (r : ProductDetailRes)
| AnProductPage (r : PaginatedResponse ProductListRes)
| AnSkus (r : list SkuRes) | AnNewSku (r : ApiResponse SkuRes)
| AnImages (r : list ProductImageRes) | AnNewImage (r : ApiResponse ProductImageRes).
Abbreviation routed := (routed (db catalog_tables redis) AppError catalog_response).

Definition category_router (rq : category_call) : routed :=
  match rq with
  | RqListRootCategories query => PublicRoute (answered AnCategoryPage (route_list_root_categories query))
  | RqGetCategory id => PublicRoute (answered AnCategory (route_get_category id))
  | RqGetCategoryBySlug slug => PublicRoute (answered AnCategory (route_get_category_by_slug slug))
  | RqGetChildren id query => PublicRoute (answered AnCategoryPage (route_get_children id query))
  | RqGetSubtree id => PublicRoute (answered AnCategories (route_get_subtree id))
  | RqGetAncestors id => PublicRoute (answered AnCategories (route_get_ancestors id))
  | RqCreateCategory req => ProtectedRoute (λ user, answered AnNewCategory (route_create_category user req))
  | RqUpdateCategory id req => ProtectedRoute (λ user, answered AnMessage (route_update_category user id req))
  | RqDeleteCategory id => ProtectedRoute (λ user, answered AnMessage (route_delete_category user id))
  end.
Definition brand_router (rq : brand_call) : routed :=
  match rq with
  | RqListBrands query => PublicRoute (answered AnBrandPage (route_list_brands query))
  | RqGetBrand id => PublicRoute (answered AnBrand (route_get_brand id))
  | RqGetBrandBySlug slug => PublicRoute (answered AnBrand (route_get_brand_by_slug slug))
  | RqListCategoriesForBrand id query => PublicRoute (answered AnCategoryPage (route_list_categories_for_brand id query))
  | RqCreateBrand req => ProtectedRoute (λ user, answered AnNewBrand (route_create_brand user req))
  | RqUpdateBrand id req => ProtectedRoute (λ user, answered AnMessage (route_update_brand user id req))
  | RqDeleteBrand id => ProtectedRoute (λ user, answered AnMessage (route_delete_brand user id))
  | RqAssociateCategory id req => ProtectedRoute (λ user, answered AnMessage (route_associate_category user id req))
  | RqDisassociateCategory brand_id category_id =>
      ProtectedRoute (λ user, answered AnMessage (route_disassociate_category user brand_id category_id))
  end.
Definition product_router (state : AppState) (rq : product_call) : routed :=
  match rq with
  | RqListActiveProducts query => PublicRoute (answered AnProductPage (route_list_active_products query))
  | RqGetProductDetail id => PublicRoute (answered AnDetail (route_get_product_detail state id))
  | RqGetProductBySlug slug => PublicRoute (answered AnProduct (route_get_product_by_slug state slug))
  | RqCreateProduct req => ProtectedRoute (λ user, answered AnNewProduct (route_create_product user req))
  | RqListMyProducts query => ProtectedRoute (λ user, answered AnProductPage (route_list_my_products user query))
  | RqUpdateProduct id req => ProtectedRoute (λ user, answered AnMessage (route_update_product state user id req))
  | RqDeleteProduct id => ProtectedRoute (λ user, answered AnMessage (route_delete_product state user id))
  | RqListSkus product_id => ProtectedRoute (λ _, answered AnSkus (route_list_skus product_id))
  | RqCreateSku product_id req => ProtectedRoute (λ user, answered AnNewSku (route_create_sku state user product_id req))
  | RqUpdateSku sku_id req => ProtectedRoute (λ user, answered AnMessage (route_update_sku state user sku_id req))
  | RqDeleteSku sku_id => ProtectedRoute (λ user, answered AnMessage (route_delete_sku state user sku_id))
  | RqAdjustStock sku_id req => ProtectedRoute (λ user, answered AnMessage (route_adjust_sku_stock state user sku_id req))
  | RqListImages product_id => ProtectedRoute (λ _, answered AnImages (route_list_images product_id))
  | RqAddImage product_id req => ProtectedRoute (λ user, answered AnNewImage (route_add_image state user product_id req))
  | RqDeleteImage product_id image_id =>
      ProtectedRoute (λ user, answered AnMessage (route_delete_image state user product_id image_id))
  end.

(** [app]: the routers side by side, each with its own layer over the protected routes. *)
Inductive catalog_call : Type :=
| OnCategories (rq : category_call) | OnBrands (rq : brand_call) | OnProducts (rq : product_call).
Definition catalog_app (state : AppState) (config : AuthConfig) (now : Z) (header : option (option string))
    (rq : catalog_call) : M (db catalog_tables redis) (AuthMiddlewareError + AppError) catalog_response :=
  run_route config None now header
    match rq with
    | OnCategories rq => category_router rq
    | OnBrands rq => brand_router rq
    | OnProducts rq => product_router state rq
    end.

(** ** What a route asks of the service *)

(** What came of the state is what one request of the service made of it, for such a user. *)
Definition asked (state : AppState) (who : CurrentUser → Prop) s (ok : bool) s' : Prop :=
  ∃ rq o, handle state rq s = (o, s') ∧ is_ok o = ok ∧ ∀ user, requester rq = Some user → who user.
Definition router_asks (state : AppState) (r : routed) : Prop :=
  match r with
  | PublicRoute m => ∀ who s o s', m s = (o, s') → asked state who s (is_ok o) s'
  | ProtectedRoute m => ∀ (who : CurrentUser → Prop) user s o s', who user → m user s = (o, s') → asked state who s (is_ok o) s'
  end.

Lemma then_run {A B} (f : A → B) (m : svc A) s o s' :
  (r ← m; mret (f r)) s = (o, s') → ∃ o1, m s = (o1, s') ∧ is_ok o1 = is_ok o.
Proof. unfold mbind, M_bind. destruct (m s) as [[a|e|] s1]; intros [= <- <-]; eauto. Qed.
Lemma done_run {A} (m : svc A) s o s' : m s = (o, s') → ∃ o1, done_with m s = (o1, s') ∧ is_ok o1 = is_ok o.
Proof. intros Hm. unfold done_with, mbind, M_bind. rewrite Hm. destruct o; eauto. Qed.

Definition runs_as {A} (state : AppState) (rq : catalog_request) (m : svc A) : Prop :=
  ∀ s o s', m s = (o, s') → ∃ o1, handle state rq s = (o1, s') ∧ is_ok o1 = is_ok o.
Lemma runs_then {A B} state rq (f : A → B) (m : svc A) : runs_as state rq m → runs_as state rq (r ← m; mret (f r)).
Proof. intros Hm s o s' (o1 & Hr & E)%then_run. apply Hm in Hr as (o2 & Hr & E2). exists o2. split; [done|congruence]. Qed.
Lemma runs_self state rq : runs_as state rq (handle state rq).
Proof. intros s o s'. eauto. Qed.
Lemma runs_asked {A} state (who : CurrentUser → Prop) rq (f : A → catalog_response) (m : svc A) s o s' :
  runs_as state rq m → (∀ user, requester rq = Some user → who user) → answered f m s = (o, s') → asked state who s (is_ok o) s'.
Proof.
  intros Hm Hu (o1 & Hr & E1)%answered_run. apply Hm in Hr as (o2 & Hr & E2).
  exists rq, o2. split_and!; [done|congruence|done].
Qed.

Ltac runs_tac rq := first [exact (λ s o s', done_run _ s o s') | exact (runs_self _ rq) | apply runs_then; runs_tac rq].
Ltac asks_for rq :=
  intros; eapply (runs_asked _ _ rq); [|intros ? E; simplify_eq/=; eassumption|eassumption]; runs_tac rq.

Lemma category_router_asks state rq : router_asks state (category_router rq).
Proof.
  destruct rq; simpl; try intros who user s o s'.
  - asks_for (Read (ListRootCategories (into_params query))).
  - asks_for (Read (GetCategory id)).
  - asks_for (Read (GetCategoryBySlug slug)).
  - asks_for (Read (GetChildren id (into_params query))).
  - asks_for (Read (GetSubtree id)).
  - asks_for (Read (GetAncestors id)).
  - asks_for (CreateCategory user req).
  - asks_for (UpdateCategory user id req).
  - asks_for (DeleteCategory user id).
Qed.
Lemma brand_router_asks state rq : router_asks state (brand_router rq).
Proof.
  destruct rq; simpl; try intros who user s o s'.
  - asks_for (Read (ListBrands (into_params query))).
  - asks_for (Read (GetBrand id)).
  - asks_for (Read (GetBrandBySlug slug)).
  - asks_for (Read (ListCategoriesForBrand id (into_params query))).
  - asks_for (CreateBrand user req).
  - asks_for (UpdateBrand user id req).
  - asks_for (DeleteBrand user id).
  - asks_for (AssociateCategory user id (ac_category_id req)).
  - asks_for (DisassociateCategory user brand_id category_id).
Qed.
Lemma product_router_asks state rq : router_asks state (product_router state rq).
Proof.
  destruct rq; simpl; try intros who user s o s'.
  - asks_for (Read (ListActiveProducts query)).
  - asks_for (Read (GetProductDetail id)).
  - asks_for (Read (GetProductBySlug slug)).
  - asks_for (CreateProduct user req).
  - asks_for (Read (ListMyProducts user query)).
  - asks_for (UpdateProduct user id req).
  - asks_for (DeleteProduct user id).
  - asks_for (Read (ListSkus product_id)).
  - asks_for (CreateSku user product_id req).
  - asks_for (UpdateSku user sku_id req).
  - asks_for (DeleteSku user sku_id).
  - asks_for (AdjustStock user sku_id req).
  - asks_for (Read (ListImages product_id)).
  - asks_for (AddImage user product_id req).
  - asks_for (DeleteImage user product_id image_id).
Qed.

(** Every request that comes in does nothing, or is one request of the service, for the user its
    token names. *)
Lemma catalog_app_handled state config now header rq s o s' :
  catalog_app state config now header rq s = (o, s') →
  (is_ok o = false ∧ s' = s) ∨ asked state (bearer config now header) s (is_ok o) s'.
Proof.
  intros [[Ho Hr]|(s1 & Hs1 & rq' & o' & Hr & E & Hu)]%(run_route_inv _ _ _ _ _ (asked state)).
  - left. split; [done|]. by destruct Hr as [?|(g & id & o1 & ? & _)].
  - assert (s1 = s) as ->. { destruct Hs1 as [?|(user & Ha)]; [done|]. by apply admitted_bearer in Ha as [_ ?]. }
    right. exists rq', o'. split_and!; [done..|]. intros user Hq. by apply (admitted_bearer config now header s user s), Hu.
  - destruct rq; [apply category_router_asks|apply brand_router_asks|apply product_router_asks].
Qed.
End routes.
