(* ===== verification/CategoryTree.v ===== *)
(** * Catalog service: the category tree

    The rows of [categories] form a forest: the path of a category is the path of its parent
    with one more label, so that the prefix order of the paths is the relation of ancestors.
    Also the round trip of paths as text. *)

From Stdlib Require Import Ascii.
From S2P Require Import Prelude RustStr Externals Errors NewTypes Regex Auth Db Requests Pagination.
From S2P Require Import Redis Labels ShopTables Inventory ShopTypes CategoryRepo ProductRepo CategoryService ProductService ShopProps.

Local Open Scope Z_scope.

(** ** Paths as text *)

Lemma bytes_append a b : bytes (a +:+ b) = bytes a ++ bytes b.
Proof.
  unfold bytes. rewrite <-fmap_app. f_equal. induction a as [|c a IH]; [done|].
  change (String.list_ascii_of_string (String c (a +:+ b)) = c :: String.list_ascii_of_string a ++ String.list_ascii_of_string b).
  simpl. f_equal. exact IH.
Qed.
Lemma decode_utf8_app_ascii l k : Forall (λ a, a < 128)%nat l → decode_utf8 (l ++ k) = (Z.of_nat <$> l) ++ decode_utf8 k.
Proof.
  induction 1 as [|a l Ha _ IH]; [done|]. rewrite <-app_comm_cons. cbn [decode_utf8].
  rewrite (proj2 (Nat.ltb_lt a 128) Ha), IH. done.
Qed.
Lemma chars_append l s : Forall is_ascii l → chars (of_chars l +:+ s) = l ++ chars s.
Proof.
  intros Hl. unfold chars. rewrite bytes_append, bytes_of_chars by done.
  rewrite decode_utf8_app_ascii by (apply Forall_fmap; eapply Forall_impl; [exact Hl|]; unfold is_ascii; simpl; lia).
  f_equal. rewrite <-list_fmap_compose. rewrite <-(list_fmap_id l) at 2. apply list_fmap_ext.
  intros i c Hi. apply (Forall_lookup_1 _ _ _ _ Hl) in Hi. unfold is_ascii in Hi. simpl. lia.
Qed.
Lemma decode_utf8_length n l : (length l ≤ n)%nat → (length (decode_utf8 l) ≤ length l)%nat.
Proof.
  revert l. induction n as [|n IH]; intros [|a [|b [|c [|d l]]]] Hn; cbn [decode_utf8 length] in *;
    repeat case_match; cbn [decode_utf8 length] in *; try lia;
    repeat match goal with |- context [length (decode_utf8 ?k)] =>
      let Hk := fresh in pose proof (IH k) as Hk; cbn [decode_utf8 length] in Hk; revert Hk; generalize (length (decode_utf8 k)); intros end;
    lia.
Qed.

(** A label of the service. *)
Definition good_label (l : list Z) : Prop := label_shape l ∧ (length l ≤ 255)%nat.

Lemma label_char_ascii c : label_char c = true → 33 ≤ c < 127.
Proof. unfold label_char, ascii_lower, ascii_digit. rewrite !orb_true_iff, !in_range_spec, Z.eqb_eq. lia. Qed.
Lemma good_label_chars l : good_label l → Forall (λ c, label_char c = true) l ∧ l ≠ [] ∧ 46 ∉ l.
Proof.
  intros [Hs _]. split_and!; [|by destruct Hs as (? & ? & -> & _)|by apply label_shape_no_dot].
  destruct Hs as (c & k & -> & Hc & Hk). constructor; [|done]. unfold label_char. by rewrite Hc.
Qed.
Lemma good_label_ascii l : good_label l → Forall is_ascii l.
Proof.
  intros [Hc _]%good_label_chars. eapply Forall_impl; [exact Hc|]. intros c Hx%label_char_ascii.
  unfold is_ascii. lia.
Qed.
Lemma label_char_ltree c : label_char c = true → ltree_char c = true.
Proof.
  unfold label_char, ltree_char, ascii_letter. intros [[->| ->]%orb_true_iff| ->%Z.eqb_eq]%orb_true_iff;
    rewrite ?orb_true_r; done.
Qed.
Lemma good_label_ltree l : good_label l → ltree_label l = true.
Proof.
  intros Hl. pose proof (good_label_chars l Hl) as (Hc & Hne & _). destruct Hl as [_ Hlen].
  destruct l as [|c l]; [done|]. unfold ltree_label. apply andb_true_iff. split; [apply Nat.leb_le; lia|].
  apply forallb_forall. intros x Hx%list_elem_of_In. rewrite Forall_forall in Hc. by apply label_char_ltree, Hc.
Qed.

Definition good_path (p : ltree) : Prop := p ≠ [] ∧ Forall good_label p.
Lemma good_path_words p : good_path p → words 46 p.
Proof.
  intros [_ Hp]. eapply Forall_impl; [exact Hp|]. intros l (_ & ? & ?)%good_label_chars. done.
Qed.
Lemma good_path_ascii p : good_path p → Forall is_ascii (join_on 46 p).
Proof.
  intros [_ Hp]. apply join_on_all; [by unfold is_ascii|]. eapply Forall_impl; [exact Hp|]. apply good_label_ascii.
Qed.
Lemma path_chars p : good_path p → chars (ltree_text p) = join_on 46 p.
Proof. intros Hp. by apply chars_of_chars, good_path_ascii. Qed.

(** The text of a path is read as the path. *)
Lemma ltree_in_path s p : chars s = join_on 46 p → good_path p → ltree_in s = Ok p.
Proof.
  intros Es Hp. unfold ltree_in. pose proof (good_path_words _ Hp) as Hw. rewrite Es.
  destruct (join_on 46 p) as [|x0 l0] eqn:Ej; [apply join_on_nil in Ej; [by destruct Hp|done]|].
  rewrite <-Ej, split_join by (done || apply Hp).
  assert (forallb ltree_label p = true) as ->; [|done]. apply forallb_forall. intros l Hl%list_elem_of_In.
  destruct Hp as [_ Hp]. rewrite Forall_forall in Hp. by apply good_label_ltree, Hp.
Qed.
Lemma ltree_in_text p : good_path p → ltree_in (ltree_text p) = Ok p.
Proof. intros Hp. apply ltree_in_path; [by apply path_chars|done]. Qed.

Lemma join_on_snoc p l : p ≠ [] → join_on 46 (p ++ [l]) = join_on 46 p ++ 46 :: l.
Proof.
  induction p as [|k p IH]; [done|]. intros _. destruct p as [|k' p]; [done|].
  change ((k :: k' :: p) ++ [l]) with (k :: (k' :: p) ++ [l]). rewrite !join_on_cons, IH by done.
  by rewrite <-app_assoc.
Qed.
(** [format!("{}.{}", parent.path, label)] *)
Lemma child_path_chars p s : good_path p → chars (ltree_text p +:+ "." +:+ s) = join_on 46 (p ++ [chars s]).
Proof.
  intros Hp. unfold ltree_text. rewrite chars_append by by apply good_path_ascii.
  rewrite join_on_snoc by apply Hp. by f_equal.
Qed.
Lemma good_path_snoc p l : good_path p → good_label l → good_path (p ++ [l]).
Proof. intros [_ Hp] Hl. split; [by destruct p|]. apply Forall_app. split; [done|by constructor]. Qed.
Lemma good_path_one l : good_label l → good_path [l].
Proof. intros Hl. split; [done|by constructor]. Qed.

(** [path.matches('.').count()] *)
Definition dots (l : list Z) : nat := length (List.filter (Z.eqb 46) l).
Lemma dots_app l k : dots (l ++ k) = (dots l + dots k)%nat.
Proof. unfold dots. by rewrite List.filter_app, length_app. Qed.
Lemma dots_free l : 46 ∉ l → dots l = 0%nat.
Proof.
  unfold dots. intros Hl. rewrite filter_none; [done|]. intros c Hc. apply Z.eqb_neq. by intros <-.
Qed.
Lemma dots_path p : good_path p → Z.of_nat (dots (join_on 46 p)) = Z.of_nat (length p) - 1.
Proof.
  intros [Hne Hp]. induction Hp as [|l p Hl Hp IH]; [done|]. apply good_label_chars in Hl as (_ & _ & Hl).
  destruct p as [|k p]; simpl; [rewrite dots_free by done; lia|].
  rewrite dots_app, dots_free by done. unfold dots in *. simpl. specialize (IH ltac:(done)). simpl in IH. lia.
Qed.

(** ** The forest *)

Section tree.
Context `{Externals}.
Implicit Types (cs : list CategoryRow) (c d q : CategoryRow).

(** [q] is the parent of [c], and its path is the path of [c] without the last label. *)
Definition parent_of c q : Prop :=
  ca_parent_id c = Some (ca_id q) ∧ ∃ l, ca_path c = ca_path q ++ [l].
Record tree_ok cs : Prop := {
  tr_ids : NoDup (ca_id <$> cs);
  tr_slugs : NoDup (ca_slug <$> cs);
  tr_paths : NoDup (ca_path <$> cs);
  tr_path c : c ∈ cs → good_path (ca_path c);
  tr_depth c : c ∈ cs → ca_depth c = Z.of_nat (length (ca_path c)) - 1 ∧ ca_depth c ≤ MAX_CATEGORY_DEPTH;
  tr_root c : c ∈ cs → ca_parent_id c = None → length (ca_path c) = 1%nat;
  tr_parent c p : c ∈ cs → ca_parent_id c = Some p → ∃ q, q ∈ cs ∧ ca_id q = p ∧ parent_of c q }.

(** [ancestor cs a c]: the chain of parents of [c] leads to [a], which may be [c] itself. *)
Inductive ancestor cs : CategoryRow → CategoryRow → Prop :=
| ancestor_self c : ancestor cs c c
| ancestor_parent a q c : q ∈ cs → ca_parent_id c = Some (ca_id q) → ancestor cs a q → ancestor cs a c.

Lemma tree_path_inj cs c d : tree_ok cs → c ∈ cs → d ∈ cs → ca_path c = ca_path d → c = d.
Proof. intros Hok. eapply NoDup_fmap_inj_in, tr_paths, Hok. Qed.
Lemma tree_id_inj cs c d : tree_ok cs → c ∈ cs → d ∈ cs → ca_id c = ca_id d → c = d.
Proof. intros Hok. eapply NoDup_fmap_inj_in, tr_ids, Hok. Qed.

Lemma snoc_prefix {A} (p q : list A) l : p `prefix_of` q ++ [l] → p = q ++ [l] ∨ p `prefix_of` q.
Proof.
  intros [k Hk]. destruct k as [|x k _] using rev_ind; [left; by rewrite app_nil_r in Hk|right].
  rewrite app_assoc in Hk. apply app_inj_tail in Hk as [-> _]. by apply prefix_app_r.
Qed.

(** The prefix order of the paths is the relation of ancestors. *)
Lemma prefix_ancestor cs a c : tree_ok cs → a ∈ cs → c ∈ cs →
  ca_path a `prefix_of` ca_path c ↔ ancestor cs a c.
Proof.
  intros Hok Ha Hc. split.
  - remember (length (ca_path c)) as n eqn:En. revert c Hc En. induction n as [|n IH]; intros c Hc En Hp.
    { destruct (tr_path _ Hok c Hc) as [Hne _]. by destruct (ca_path c). }
    destruct (ca_parent_id c) as [p|] eqn:Ep.
    + destruct (tr_parent _ Hok c p Hc Ep) as (q & Hq & <- & Hpar & l & El). rewrite El in Hp, En.
      rewrite length_app in En. simpl in En. apply snoc_prefix in Hp as [Hp|Hp].
      * assert (a = c) as ->; [|constructor]. by eapply tree_path_inj; [..|rewrite El].
      * apply (ancestor_parent _ _ q); [done|done|]. apply IH; [done|lia|done].
    + pose proof (tr_root _ Hok c Hc Ep) as Hone. pose proof (tr_path _ Hok a Ha) as [Hne _].
      assert (a = c) as ->; [|constructor]. eapply tree_path_inj; [done..|].
      apply prefix_length_eq; [done|]. apply prefix_length in Hp. destruct (ca_path a); [done|simpl in *; lia].
  - induction 1 as [c|a q c Hq Hpar _ IH]; [done|].
    destruct (tr_parent _ Hok c _ Hc Hpar) as (q' & Hq' & Eq & _ & l & ->).
    assert (q' = q) as -> by by eapply tree_id_inj. apply prefix_app_r. auto.
Qed.

(** The ancestors of a category, by depth: one at each depth from the root to the category. *)
Lemma ancestor_prefixes cs c n : tree_ok cs → c ∈ cs → (0 < n ≤ length (ca_path c))%nat →
  ∃ a, a ∈ cs ∧ ca_path a = take n (ca_path c).
Proof.
  intros Hok Hc Hn. remember (length (ca_path c) - n)%nat as k eqn:Ek. revert c Hc Hn Ek.
  induction k as [|k IH]; intros c Hc Hn Ek.
  { exists c. split; [done|]. rewrite take_ge; [done|lia]. }
  destruct (ca_parent_id c) as [p|] eqn:Ep; [|pose proof (tr_root _ Hok c Hc Ep); lia].
  destruct (tr_parent _ Hok c p Hc Ep) as (q & Hq & <- & Hpar & l & El). rewrite El in *.
  rewrite length_app in *. simpl in *. destruct (IH q) as (a & Ha & Ea); [done|lia|lia|].
  exists a. split; [done|]. rewrite Ea, take_app_le; [done|lia].
Qed.

Lemma seqZ_sorted (n : nat) m : StronglySorted Z.le (seqZ m (Z.of_nat n)).
Proof.
  revert m. induction n as [|n IH]; intros m; [constructor|]. rewrite seqZ_cons by lia.
  constructor; [rewrite <-Nat2Z.inj_pred by lia; apply IH|].
  apply Forall_forall. intros x Hx%elem_of_seqZ. lia.
Qed.

Lemma ancestors_by_depth cs c (rows : list CategoryRow) :
  tree_ok cs → c ∈ cs → rows ≡ₚ List.filter (λ a, is_prefix (ca_path a) (ca_path c)) cs →
  (∀ a, a ∈ order_by ca_depth rows ↔ a ∈ cs ∧ ancestor cs a c) ∧
  ca_depth <$> order_by ca_depth rows = seqZ 0 (ca_depth c + 1).
Proof.
  intros Hok Hc Hrows.
  assert (∀ a, a ∈ rows ↔ a ∈ cs ∧ ca_path a `prefix_of` ca_path c) as Hin.
  { intros a. rewrite Hrows, list_elem_of_In, filter_In, is_prefix_spec, <-list_elem_of_In. done. }
  split.
  { intros a. rewrite elem_of_order_by, Hin. split; intros [Ha Hp]; (split; [done|]); by apply (prefix_ancestor cs). }
  destruct (tr_depth _ Hok c Hc) as [Hd _].
  assert (ca_depth c + 1 = Z.of_nat (length (ca_path c))) as Ed by lia.
  apply (StronglySorted_unique Z.le).
  - pose proof (order_by_sorted ca_depth rows) as Hs. induction Hs as [|x l Hl IH Hx]; [constructor|].
    rewrite fmap_cons. constructor; [done|]. by apply Forall_fmap.
  - rewrite Ed. apply seqZ_sorted.
  - rewrite order_by_perm. apply NoDup_Permutation.
    + apply NoDup_fmap_2_strong.
      * intros x y [Hx Hxp]%Hin [Hy Hyp]%Hin E. destruct (tr_depth _ Hok x Hx) as [Ex _], (tr_depth _ Hok y Hy) as [Ey _].
        eapply tree_path_inj; [done..|]. destruct (prefix_weak_total _ _ _ Hxp Hyp) as [Hp|Hp];
          [|symmetry]; apply prefix_length_eq; done || lia.
      * rewrite Hrows. apply NoDup_ListNoDup, List.NoDup_filter, NoDup_ListNoDup, (NoDup_fmap_1 ca_id), tr_ids, Hok.
    + apply NoDup_seqZ.
    + intros z. rewrite list_elem_of_fmap, elem_of_seqZ. split.
      * intros (a & -> & [Ha Hp]%Hin). destruct (tr_depth _ Hok a Ha) as [-> _].
        pose proof (prefix_length _ _ Hp). destruct (tr_path _ Hok a Ha) as [Hne _].
        assert (0 < length (ca_path a))%nat by (destruct (ca_path a); [done|simpl; lia]). lia.
      * intros Hz. destruct (ancestor_prefixes cs c (Z.to_nat (z + 1))) as (a & Ha & Ep); [done|done|lia|].
        exists a. split.
        { destruct (tr_depth _ Hok a Ha) as [-> _]. rewrite Ep, length_take. lia. }
        apply Hin. split; [done|]. rewrite Ep. by apply prefix_take.
Qed.

(** ** Changes of the forest *)

Lemma tree_ok_snoc cs c : tree_ok cs →
  (ca_id c ∉ (ca_id <$> cs)) → (ca_slug c ∉ (ca_slug <$> cs)) → (ca_path c ∉ (ca_path <$> cs)) →
  good_path (ca_path c) → ca_depth c = Z.of_nat (length (ca_path c)) - 1 → ca_depth c ≤ MAX_CATEGORY_DEPTH →
  (ca_parent_id c = None → length (ca_path c) = 1%nat) →
  (∀ p, ca_parent_id c = Some p → ∃ q, q ∈ cs ∧ ca_id q = p ∧ parent_of c q) → tree_ok (cs ++ [c]).
Proof.
  intros Hok Hid Hslug Hpath Hgood Hd Hmax Hroot Hpar.
  split; try (apply NoDup_fmap_snoc; [apply Hok|done]);
    intros d; [| |intros [Hd'| ->%list_elem_of_singleton]%elem_of_app..|
      intros p [Hd'| ->%list_elem_of_singleton]%elem_of_app Hp].
  - intros [?| ->%list_elem_of_singleton]%elem_of_app; [by eapply tr_path|done].
  - intros [?| ->%list_elem_of_singleton]%elem_of_app; [by eapply tr_depth|done].
  - by eapply tr_root.
  - done.
  - destruct (tr_parent _ Hok d p Hd' Hp) as (q & Hq & ?). exists q. rewrite elem_of_app. auto.
  - destruct (Hpar p Hp) as (q & Hq & ?). exists q. rewrite elem_of_app. auto.
Qed.

Definition place c : Uuid * string * ltree * option Uuid * Z :=
  (ca_id c, ca_slug c, ca_path c, ca_parent_id c, ca_depth c).
Lemma same_place cs cs' d : place <$> cs' = place <$> cs → d ∈ cs' → ∃ c, c ∈ cs ∧ place c = place d.
Proof.
  intros E Hd. apply (list_elem_of_fmap_2 place) in Hd. rewrite E in Hd.
  apply list_elem_of_fmap in Hd as (c & Ec & Hc). by exists c.
Qed.
Lemma tree_ok_place cs cs' : place <$> cs' = place <$> cs → tree_ok cs → tree_ok cs'.
Proof.
  intros E Hok.
  assert (∀ A (f : Uuid * string * ltree * option Uuid * Z → A), (f ∘ place) <$> cs' = (f ∘ place) <$> cs) as Ef
    by (intros A f; by rewrite !list_fmap_compose, E).
  pose proof (Ef _ (λ x, x.1.1.1.1) : ca_id <$> cs' = ca_id <$> cs) as E1.
  pose proof (Ef _ (λ x, x.1.1.1.2) : ca_slug <$> cs' = ca_slug <$> cs) as E2.
  pose proof (Ef _ (λ x, x.1.1.2) : ca_path <$> cs' = ca_path <$> cs) as E3.
  split; rewrite ?E1, ?E2, ?E3;
    try apply Hok; intros d;
    [intros (c & Hc & [= Ei Es Ep Epar Ed])%(same_place cs)..
    |intros p (c & Hc & [= Ei Es Ep Epar Ed])%(same_place cs)]; try done; rewrite <-?Ed, <-?Ep, <-?Epar;
    [by apply tr_path with cs|by apply tr_depth with cs|by apply tr_root with cs|].
  intros Hp. destruct (tr_parent _ Hok c p Hc Hp) as (q & Hq & <- & Hpq & l & El).
  destruct (same_place cs' cs q) as (q' & Hq' & [= Ei' _ Ep' _ _]); [done..|].
  exists q'. split_and!; [done|done|]. split; [congruence|]. exists l. congruence.
Qed.

Lemma tree_ok_delete cs id : tree_ok cs → (∀ c, c ∈ cs → ca_parent_id c ≠ Some id) →
  tree_ok (List.filter (λ c, negb (is_category id c)) cs).
Proof.
  intros Hok Hleaf. pose proof (filter_sublist (λ c, negb (is_category id c)) cs) as Hs.
  assert (∀ c, c ∈ List.filter (λ c, negb (is_category id c)) cs ↔ c ∈ cs ∧ ca_id c ≠ id) as Hin.
  { intros c. rewrite list_elem_of_In, filter_In, <-list_elem_of_In. unfold is_category.
    by rewrite negb_true_iff, bool_decide_eq_false. }
  split; try (eapply sublist_NoDup; [|apply (fmap_sublist _ _ _ Hs)]; apply Hok); intros c;
    [intros [Hc _]%Hin..|intros p [Hc _]%Hin Hp].
  - by eapply tr_path.
  - by eapply tr_depth.
  - by eapply tr_root.
  - destruct (tr_parent _ Hok c p Hc Hp) as (q & Hq & Eq & Hpq). exists q. split_and!; [|done|done].
    apply Hin. split; [done|]. intros <-. subst. exact (Hleaf c Hc Hp).
Qed.
End tree.

(** ** Statements on categories *)

Section statements.
Context `{Externals, !UnicodeApi}.
Implicit Types (t : catalog_tables) (v : ValidCreateCategoryReq).

(** The path that [create_category] hands to the database: that of the parent and the label. *)
Lemma placed_path v t path depth :
  tree_ok (categories t) → good_label (chars (label_str (vcc_label v))) → placed v t path depth →
  ∃ p, chars path = join_on 46 p ∧ good_path p ∧ depth = Z.of_nat (length p) - 1 ∧ depth ≤ MAX_CATEGORY_DEPTH ∧
    match vcc_parent_id v with
    | Some id => ∃ q, List.find (is_category id) (categories t) = Some q ∧ p = ca_path q ++ [chars (label_str (vcc_label v))]
    | None => length p = 1%nat
    end.
Proof.
  intros Hok Hl. unfold placed. destruct (vcc_parent_id v) as [id|].
  - intros (q & Hf & -> & Hd & ->). pose proof Hf as [Hq _]%find_some. apply list_elem_of_In in Hq.
    pose proof (tr_path _ Hok q Hq) as Hp. destruct (tr_depth _ Hok q Hq) as [Ed Hm].
    assert (as_i32 (ca_depth q + 1) = ca_depth q + 1) as Ei.
    { unfold as_i32, MAX_CATEGORY_DEPTH in *. rewrite Z.mod_small; lia. }
    rewrite Ei in *. exists (ca_path q ++ [chars (label_str (vcc_label v))]). split_and!.
    + by apply child_path_chars.
    + by apply good_path_snoc.
    + rewrite length_app. simpl. lia.
    + done.
    + by exists q.
  - intros [-> ->]. exists [chars (label_str (vcc_label v))]. split_and!; try done. by apply good_path_one.
Qed.

Lemma valid_label req v : ValidCreateCategoryReq_try_from req = Ok v → good_label (chars (label_str (vcc_label v))).
Proof.
  unfold ValidCreateCategoryReq_try_from. intros Hv. inv_ok Hv. simplify_eq/=.
  match goal with H : LtreeLabel_from_name _ = Ok _ |- _ => apply LtreeLabel_from_name_ok in H as (Hlen & Hs & _) end.
  split; [done|]. etrans; [by apply (decode_utf8_length (length (bytes (label_str a1))))|].
  unfold bytes. rewrite length_fmap. unfold str_len in Hlen.
  assert (∀ s, length (String.list_ascii_of_string s) = String.length s) as ->; [|done].
  clear. induction s as [|c s IH]; [done|]. simpl. by rewrite IH.
Qed.

(** A new category: its path is that of its parent with its label, and its depth the number of
    dots of the path - what the code asserts in a debug build. *)
Lemma insert_category_tree v path depth now id t t' :
  tree_ok (categories t) → good_label (chars (label_str (vcc_label v))) → placed v t path depth →
  insert_category v path depth now id t = Ok (id, t') →
  tree_ok (categories t') ∧ depth = Z.of_nat (dots (chars path)).
Proof.
  intros Hok Hl (p & Ep & Hp & Hd & Hm & Hpar)%placed_path Hi; [|done..]. split.
  2:{ by rewrite Ep, dots_path. }
  apply obind_ok in Hi as (name & _ & (slug & _ & (p' & Hin & (d & [-> _]%int4_ok & Hi)%obind_ok)%obind_ok)%obind_ok).
  rewrite (ltree_in_path _ p) in Hin by done. injection Hin as <-.
  apply obind_ok in Hi as (u1 & H1%unique_ok & (u2 & H2%unique_ok & (u3 & H3%unique_ok & Hi)%obind_ok)%obind_ok).
  apply obind_ok in Hi as (u4 & _ & Hi). simplify_eq/=.
  apply tree_ok_snoc; simpl; try done.
  - eapply existsb_false_fmap; [|exact H1]. intros x Hx. by apply bool_decide_true.
  - eapply existsb_false_fmap; [|exact H2]. intros x Hx. by apply bool_decide_true.
  - eapply existsb_false_fmap; [|exact H3]. intros x Hx. by apply bool_decide_true.
  - intros E. by rewrite E in Hpar.
  - intros q0 E. rewrite E in Hpar. destruct Hpar as (q & [Hq Eq%bool_decide_eq_true]%find_some & ->).
    apply list_elem_of_In in Hq. exists q. split_and!; [done|done|]. split; [by rewrite Eq|]. by eexists.
Qed.
End statements.

(** ** The two queries on the hierarchy *)

Section queries.
Context `{Externals, !UnicodeApi, !UuidOrder, !ShopOrders} {X : Type}.
Implicit Types (s : db catalog_tables X) (t : catalog_tables).

#[export] Instance by_path_total : Total by_path.
Proof. intros c d. apply path_le_total. Qed.
#[export] Instance by_path_trans : Transitive by_path.
Proof. intros c d e. apply path_le_trans. Qed.

(** A read of the category and a query on its path, when no statement is lost. *)
Lemma path_query_calm (rows : ltree → catalog_tables → list CategoryRow) msg id c s :
  tree_ok (categories (d_committed s)) → e_faults (d_env s) = [] →
  List.find (is_category id) (categories (d_committed s)) = Some c →
  ∃ s', (category ← on_pool (get_category_by_id id);
         l ← on_pool (map_err (internal msg)
           (exec (λ _ _ t, p ← ltree_in (ce_path category); Ok (category_entity <$> rows p t, t))));
         mret (CategoryRes_new <$> l)) s =
    (Ok ((λ d, CategoryRes_new (category_entity d)) <$> rows (ca_path c) (d_committed s)), s').
Proof.
  intros Hok Hf Hc. pose proof Hc as [Hin _]%find_some. apply list_elem_of_In in Hin.
  destruct (pool_read_calm (find_category (is_category id)) (not_found "Category not found: ") s Hf)
    as (s1 & E1 & Hs1 & _ & _ & Hf1).
  unfold mbind, M_bind, get_category_by_id in *. rewrite E1. unfold find_category. rewrite Hc. simpl.
  rewrite on_pool_calm by done. rewrite ltree_in_text by by apply (tr_path _ Hok). simpl.
  eexists. unfold mret, M_ret. rewrite <-list_fmap_compose, Hs1. reflexivity.
Qed.

(** C14: The pages of the category tree are exact. In a well-formed table, and when no statement
    is lost, the ancestors of a category are the chain of its parents from the root to the
    category itself, one at each depth - the limit of 50 rows cuts nothing off; and the subtree
    is, in the order of the paths, exactly the categories whose chain of parents leads to it,
    the first 200 of them. *)
Theorem category_hierarchy id c s :
  tree_ok (categories (d_committed s)) → e_faults (d_env s) = [] →
  List.find (is_category id) (categories (d_committed s)) = Some c →
  (∃ rows s', get_ancestors_svc id s = (Ok ((λ d, CategoryRes_new (category_entity d)) <$> rows), s') ∧
     (∀ a, a ∈ rows ↔ a ∈ categories (d_committed s) ∧ ancestor (categories (d_committed s)) a c) ∧
     ca_depth <$> rows = seqZ 0 (ca_depth c + 1)) ∧
  (∃ rows s', get_subtree_svc id s = (Ok ((λ d, CategoryRes_new (category_entity d)) <$> take 200 rows), s') ∧
     NoDup rows ∧ StronglySorted by_path rows ∧
     (∀ d, d ∈ rows ↔ d ∈ categories (d_committed s) ∧ ancestor (categories (d_committed s)) c d)).
Proof.
  intros Hok Hf Hc. pose proof Hc as [Hin _]%find_some. apply list_elem_of_In in Hin. split.
  - destruct (ancestors_by_depth _ c (sort_scan (List.filter (λ a, is_prefix (ca_path a) (ca_path c))
      (categories (d_committed s)))) Hok Hin (sort_scan_perm _)) as [Ha Hd].
    destruct (path_query_calm ancestor_rows "Failed to get ancestors: " id c s) as [s' E]; [done..|].
    eexists _, s'. split; [exact E|]. unfold ancestor_rows. rewrite take_ge; [done|].
    apply (f_equal length) in Hd. rewrite length_fmap, length_seqZ in Hd. rewrite Hd.
    destruct (tr_depth _ Hok c Hin) as [_ Hm]. unfold MAX_CATEGORY_DEPTH in Hm. lia.
  - destruct (path_query_calm subtree_rows "Failed to get subtree: " id c s) as [s' E]; [done..|].
    eexists _, s'. split; [exact E|]. split_and!.
    + rewrite merge_sort_Permutation.
      apply NoDup_ListNoDup, List.NoDup_filter, NoDup_ListNoDup, (NoDup_fmap_1 ca_id), tr_ids, Hok.
    + apply StronglySorted_merge_sort; apply _.
    + intros d. rewrite merge_sort_Permutation, list_elem_of_In, filter_In, is_prefix_spec, <-list_elem_of_In.
      split; intros [Hd Hp]; (split; [done|]); by apply (prefix_ancestor (categories (d_committed s))).
Qed.
End queries.
