(* ===== verification/ShopSteps.v ===== *)
(** * Catalog service: well-formed tables, and every step keeps them so

    [catalog_ok] is the invariant of the tables of the catalog; every effect of a request
    preserves it. *)

From S2P Require Import Prelude RustStr Regex Externals Errors NewTypes Auth Db Requests Pagination Redis Labels ShopTables Inventory.
From S2P Require Import InventoryProps ShopTypes CategoryRepo ProductRepo CategoryService ProductService ShopProps CategoryTree.

Local Open Scope Z_scope.

(** ** An update of one row *)

Section row_update.
Context `{UuidApi} {A : Type} (id : A → Uuid) (p : A → bool) (R : A → A → Prop).
Definition rows_updated (l l' : list A) : Prop := Forall2 (λ x x', if p x then R x x' else x' = x) l l'.

Lemma rows_updated_fmap {B} (f : A → B) l l' :
  (∀ x x', p x = true → R x x' → f x' = f x) → rows_updated l l' → f <$> l' = f <$> l.
Proof.
  intros Hf. induction 1 as [|x x' l l' Hx _ IH]; [done|]. rewrite !fmap_cons, IH. f_equal.
  destruct (p x) eqn:E; [by apply Hf|by subst].
Qed.
Lemma rows_updated_Forall (P : A → Prop) l l' :
  (∀ x x', x ∈ l → p x = true → R x x' → P x → P x') → rows_updated l l' → Forall P l → Forall P l'.
Proof.
  intros HR Hl. induction Hl as [|x x' l l' Hx _ IH]; [done|]. intros [HP HPl]%Forall_cons. constructor.
  - destruct (p x) eqn:E; [|by subst]. by apply (HR x); [left|..].
  - apply IH; [|done]. intros y y' Hy. apply HR. by right.
Qed.
(** A key stays unique when the new key is that of no other row. *)
Lemma rows_updated_key {B} (key : A → B) x0 l l' :
  NoDup (id <$> l) → NoDup (key <$> l) → (∀ x, p x = true → id x = x0) →
  (∀ x x', p x = true → R x x' → key x' = key x ∨ ∀ y, y ∈ l → key y = key x' → id y = x0) →
  rows_updated l l' → NoDup (key <$> l').
Proof.
  intros Hid Hkey Hp HR Hl. apply NoDup_alt. intros i j k Hi Hj. rewrite list_lookup_fmap in Hi, Hj.
  destruct (l' !! i) as [x'|] eqn:Ei, (l' !! j) as [y'|] eqn:Ej; simplify_eq/=.
  destruct (Forall2_lookup_r _ _ _ _ _ Hl Ei) as (x & Ex & Hx), (Forall2_lookup_r _ _ _ _ _ Hl Ej) as (y & Ey & Hy).
  cbv beta in Hx, Hy.
  assert (∀ B' (f : A → B'), NoDup (f <$> l) → f x = f y → i = j) as Hinj.
  { intros B' f Hf E. apply (NoDup_lookup _ i j (f x) Hf); rewrite list_lookup_fmap, ?Ex, ?Ey; simpl; congruence. }
  destruct (p x) eqn:Px, (p y) eqn:Py.
  - apply (Hinj _ id Hid). by rewrite (Hp x), (Hp y).
  - subst y'. destruct (HR _ _ Px Hx) as [E|E]; [apply (Hinj _ key Hkey); congruence|].
    apply (Hinj _ id Hid). rewrite (Hp x) by done. symmetry. apply E; [by eapply list_elem_of_lookup_2|done].
  - subst x'. destruct (HR _ _ Py Hy) as [E|E]; [apply (Hinj _ key Hkey); congruence|].
    apply (Hinj _ id Hid). rewrite (Hp y) by done. apply E; [by eapply list_elem_of_lookup_2|congruence].
  - apply (Hinj _ key Hkey). congruence.
Qed.

(** The rows that go and the rows that come. *)
Lemma rows_updated_out l l' x : rows_updated l l' → x ∈ l → x ∉ l' → p x = true.
Proof.
  intros Hl [i Hi]%list_elem_of_lookup Hn. destruct (Forall2_lookup_l _ _ _ _ _ Hl Hi) as (x' & Hi' & Hx).
  destruct (p x); [done|]. subst. by apply list_elem_of_lookup_2 in Hi'.
Qed.
Lemma rows_updated_in l l' y : rows_updated l l' → y ∈ l' → y ∉ l → ∃ x, x ∈ l ∧ p x = true ∧ R x y.
Proof.
  intros Hl [i Hi]%list_elem_of_lookup Hn. destruct (Forall2_lookup_r _ _ _ _ _ Hl Hi) as (x & Hi' & Hx).
  apply list_elem_of_lookup_2 in Hi'. destruct (p x) eqn:E; [by exists x|by subst].
Qed.
End row_update.
Lemma update_where_rows {A} (p : A → bool) f l : rows_updated p (λ x x', x' = f x) l (update_where p f l).
Proof.
  unfold update_where, rows_updated. induction l as [|x l IH]; [constructor|]. rewrite fmap_cons.
  constructor; [by destruct (p x)|done].
Qed.
Lemma update_checked_rows {A} (p : A → bool) (f : A → outcome sql_error A) l n l' :
  update_checked p f l = Ok (n, l') → rows_updated p (λ x x', f x = Ok x') l l'.
Proof. intros [_ ?]%update_checked_ok. done. Qed.

(** ** The invariant *)

Section spec.
Context `{Externals}.
Implicit Types (t : catalog_tables) (ids : list Uuid).

Definition refers ids (o : option Uuid) : Prop := ∀ x, o = Some x → x ∈ ids.
Record brands_ok (bs : list BrandEntity) : Prop := {
  bo_ids : NoDup (br_id <$> bs); bo_names : NoDup (br_name <$> bs); bo_slugs : NoDup (br_slug <$> bs) }.
Definition assoc_ok (brand_ids category_ids : list Uuid) (l : list BrandCategoryEntity) : Prop :=
  NoDup l ∧ Forall (λ a, bc_brand_id a ∈ brand_ids ∧ bc_category_id a ∈ category_ids) l.
Definition product_ok (category_ids brand_ids : list Uuid) (p : ProductRow) : Prop :=
  0 ≤ dec_units (pd_base_price p) ∧ refers category_ids (pd_category_id p) ∧ refers brand_ids (pd_brand_id p).
Record products_ok (category_ids brand_ids : list Uuid) (ps : list ProductRow) : Prop := {
  po_ids : NoDup (pd_id <$> ps); po_slugs : NoDup (pd_slug <$> ps);
  po_rows : Forall (product_ok category_ids brand_ids) ps }.
Definition sku_row_ok ids (s : SkuRow) : Prop :=
  sku_product_id s ∈ ids ∧ 0 ≤ dec_units (sku_price s) ∧ 0 ≤ stock_quantity s.
Definition skus_ok ids (ss : list SkuRow) : Prop := NoDup (sku_code <$> ss) ∧ Forall (sku_row_ok ids) ss.
(** At most one image of a product is its primary image. *)
Definition one_primary (l : list ProductImageEntity) : Prop :=
  ∀ i j, i ∈ l → j ∈ l → im_is_primary i = true → im_is_primary j = true →
    im_product_id i = im_product_id j → i = j.
Definition images_ok ids (l : list ProductImageEntity) : Prop :=
  NoDup (im_id <$> l) ∧ Forall (λ i, im_product_id i ∈ ids) l ∧ one_primary l.

Record catalog_ok t : Prop := {
  co_tree : tree_ok (categories t);
  co_brands : brands_ok (brands t);
  co_assoc : assoc_ok (br_id <$> brands t) (ca_id <$> categories t) (brand_categories t);
  co_products : products_ok (ca_id <$> categories t) (br_id <$> brands t) (products t);
  co_skus : skus_ok (pd_id <$> products t) (ct_skus t);
  co_images : images_ok (pd_id <$> products t) (images t);
  co_reserved : Forall (λ r, rs_sku_id r ∈ (sku_id <$> ct_skus t)) (ct_reservations t);
  co_inventory : inventory_ok t }.

(** ** The parts of the invariant under growing identifiers *)

Lemma refers_mono ids ids' o : ids ⊆ ids' → refers ids o → refers ids' o.
Proof. unfold refers. set_solver. Qed.
Lemma assoc_ok_mono bids bids' cids cids' l : bids ⊆ bids' → cids ⊆ cids' → assoc_ok bids cids l → assoc_ok bids' cids' l.
Proof. intros Hb Hc [Hn Hl]. split; [done|]. eapply Forall_impl; [exact Hl|]. set_solver. Qed.
Lemma products_ok_mono cids cids' bids bids' ps :
  cids ⊆ cids' → bids ⊆ bids' → products_ok cids bids ps → products_ok cids' bids' ps.
Proof.
  intros Hc Hb [? ? Hl]. split; [done..|]. eapply Forall_impl; [exact Hl|]. intros p (? & ? & ?).
  split_and!; [done|by eapply refers_mono..].
Qed.
Lemma skus_ok_mono ids ids' ss : ids ⊆ ids' → skus_ok ids ss → skus_ok ids' ss.
Proof. intros Hi [? Hl]. split; [done|]. eapply Forall_impl; [exact Hl|]. intros s (? & ?). split; set_solver. Qed.
Lemma images_ok_mono ids ids' l : ids ⊆ ids' → images_ok ids l → images_ok ids' l.
Proof. intros Hi (? & Hl & ?). split_and!; [done| |done]. eapply Forall_impl; [exact Hl|]. set_solver. Qed.

Lemma inventory_ok_shop f t : inventory_ok (set_shop f t) ↔ inventory_ok t.
Proof. done. Qed.

(** One table replaced. *)
Lemma catalog_ok_categories t l : catalog_ok t → tree_ok l → (ca_id <$> categories t) ⊆ (ca_id <$> l) →
  catalog_ok (set_categories l t).
Proof.
  intros [] Hl Hi. split; try done; unfold brands, brand_categories, products; simpl.
  - by eapply assoc_ok_mono.
  - by eapply products_ok_mono.
Qed.
Lemma catalog_ok_brands t l : catalog_ok t → brands_ok l → (br_id <$> brands t) ⊆ (br_id <$> l) →
  catalog_ok (set_brands l t).
Proof.
  intros [] Hl Hi. split; try done; unfold categories, brand_categories, products; simpl.
  - by eapply assoc_ok_mono.
  - by eapply products_ok_mono.
Qed.
Lemma catalog_ok_assoc t l : catalog_ok t → assoc_ok (br_id <$> brands t) (ca_id <$> categories t) l →
  catalog_ok (set_brand_categories l t).
Proof. by intros [] Hl. Qed.
Lemma catalog_ok_products t l : catalog_ok t →
  products_ok (ca_id <$> categories t) (br_id <$> brands t) l → (pd_id <$> products t) ⊆ (pd_id <$> l) →
  catalog_ok (set_products l t).
Proof.
  intros [] Hl Hi. split; try done; unfold images; simpl; [by eapply skus_ok_mono|by eapply images_ok_mono].
Qed.
Lemma catalog_ok_images t l : catalog_ok t → images_ok (pd_id <$> products t) l → catalog_ok (set_images l t).
Proof. by intros [] Hl. Qed.
Lemma catalog_ok_skus t l : catalog_ok t → skus_ok (pd_id <$> products t) l →
  (sku_id <$> ct_skus t) ⊆ (sku_id <$> l) → NoDup (sku_id <$> l) → Forall (sku_ok (ct_reservations t)) l →
  catalog_ok (set_skus l t).
Proof.
  intros [? ? ? ? ? ? Hr (_ & Hrs & _)] Hl Hi Hnd Hok. split; try done.
  eapply Forall_impl; [exact Hr|]. set_solver.
Qed.
End spec.

Section categories.
Context `{Externals, !UnicodeApi}.
Implicit Types (t : catalog_tables).

Lemma ids_grow {A} (f : A → Uuid) (l : list A) x : f <$> l ⊆ (f <$> (l ++ [x])).
Proof. rewrite fmap_app. set_solver. Qed.
Lemma fresh_key {A B} `{EqDecision B} (f : A → B) b (l : list A) u :
  unique u (λ x, bool_decide (f x = b)) l = Ok tt → b ∉ (f <$> l).
Proof.
  intros Hu%unique_ok. eapply existsb_false_fmap; [|exact Hu]. intros x Hx. by apply bool_decide_true.
Qed.
Lemma existsb_false {A} (p : A → bool) l x : existsb p l = false → x ∈ l → p x = false.
Proof.
  intros He Hx. apply not_true_iff_false. intros Hp. apply list_elem_of_In in Hx.
  assert (existsb p l = true) as E by (apply existsb_exists; eauto). congruence.
Qed.
Lemma foreign_key_in {A} (f : A → Uuid) name x (l : list A) u :
  foreign_key name (λ r, bool_decide (f r = x)) l = Ok u → x ∈ (f <$> l).
Proof.
  intros (r & Hr & <-%bool_decide_eq_true)%foreign_key_ok%existsb_exists.
  apply list_elem_of_fmap_2. by apply list_elem_of_In.
Qed.
Lemma reference_refers {A} (f : A → Uuid) name o (l : list A) u :
  reference name (λ x r, bool_decide (f r = x)) o l = Ok u → refers (f <$> l) o.
Proof.
  intros Hr x ->. simpl in Hr. by eapply foreign_key_in.
Qed.
Lemma restrict_ok {A} name (p : A → bool) l u : restrict name p l = Ok u ↔ existsb p l = false.
Proof. unfold restrict. destruct u. case_match; naive_solver. Qed.
Lemma set_column_ok {A} (f : A → outcome sql_error A) o old new :
  set_column f o old = Ok new → new = old ∨ ∃ a, o = Some a ∧ f a = Ok new.
Proof. destruct o as [a|]; simpl; [eauto|]. intros [= ->]. auto. Qed.

(** ** Categories *)

Lemma create_category_ok v path depth now id t t' :
  catalog_ok t → good_label (chars (label_str (vcc_label v))) → placed v t path depth →
  insert_category v path depth now id t = Ok (id, t') → catalog_ok t'.
Proof.
  intros Hok Hl Hp Hi. pose proof (insert_category_tree _ _ _ _ _ _ _ (co_tree _ Hok) Hl Hp Hi) as [Ht _].
  unfold insert_category in Hi. inv_ok Hi. simplify_eq. apply catalog_ok_categories; [done|exact Ht|apply ids_grow].
Qed.
Lemma update_category_ok id v now id' n t t' :
  catalog_ok t → update_category_stmt id v now id' t = Ok (n, t') → catalog_ok t'.
Proof.
  intros Hok ([m l] & Hu & [= _ <-])%obind_ok. apply update_checked_rows in Hu.
  assert (place <$> l = place <$> categories t) as Hp.
  { eapply rows_updated_fmap; [|exact Hu]. intros c c' _ Hc. unfold with_category in Hc. inv_ok Hc. by simplify_eq. }
  apply catalog_ok_categories; [done|by eapply tree_ok_place, co_tree|].
  apply (f_equal (fmap (λ x, x.1.1.1.1))) in Hp. rewrite <-!list_fmap_compose in Hp.
  change (ca_id <$> l = ca_id <$> categories t) in Hp. by rewrite Hp.
Qed.
Lemma delete_category_ok id now id' n t t' :
  catalog_ok t → delete_category_stmt id now id' t = Ok (n, t') → catalog_ok t'.
Proof.
  intros [Ht Hb [Hn Ha] [? ? Hp] ? ? ? ?] Hd. unfold delete_category_stmt in Hd. case_match; [|by simplify_eq].
  apply obind_ok in Hd as (u1 & Hc%restrict_ok & (u2 & Hr%restrict_ok & [= _ <-])%obind_ok).
  assert (∀ x, x ∈ (ca_id <$> categories t) → x ≠ id →
    x ∈ (ca_id <$> List.filter (λ c, negb (is_category id c)) (categories t))) as Hkept.
  { intros x (c & -> & Hin)%list_elem_of_fmap Hne. apply list_elem_of_fmap_2, list_elem_of_In, filter_In.
    rewrite <-list_elem_of_In. split; [done|]. unfold is_category. by rewrite bool_decide_false. }
  split; try done; unfold categories, brands, brand_categories, products in *; simpl.
  - apply tree_ok_delete; [done|]. intros c Hin. apply (existsb_false _ _ c) in Hc; [|done].
    by apply bool_decide_eq_false in Hc.
  - split; [apply NoDup_ListNoDup, List.NoDup_filter, NoDup_ListNoDup, Hn|].
    apply Forall_forall. intros a [Hin Hne]%list_elem_of_In%filter_In. apply list_elem_of_In in Hin.
    rewrite Forall_forall in Ha. destruct (Ha a Hin) as [Ha1 Ha2]. split; [done|]. apply Hkept; [done|].
    by apply negb_true_iff, bool_decide_eq_false in Hne.
  - split; [done..|]. rewrite Forall_forall in *. intros p Hin. destruct (Hp p Hin) as (? & Hcat & ?).
    split_and!; [done| |done]. intros x Ex. apply Hkept; [by apply Hcat|]. intros ->.
    apply (existsb_false _ _ p) in Hr; [|done]. by apply bool_decide_eq_false in Hr.
Qed.

(** ** Brands *)

Lemma create_brand_ok v now id t t' : catalog_ok t → insert_brand v now id t = Ok (id, t') → catalog_ok t'.
Proof.
  intros Hok Hi. unfold insert_brand in Hi.
  apply obind_ok in Hi as (name & _ & (slug & _ & ([] & H1%fresh_key & Hi)%obind_ok)%obind_ok).
  apply obind_ok in Hi as ([] & H2%fresh_key & ([] & H3%fresh_key & [= <-])%obind_ok).
  apply catalog_ok_brands; [done| |apply ids_grow]. destruct (co_brands _ Hok).
  split; by apply NoDup_fmap_snoc.
Qed.
Lemma update_brand_ok id v now id' n t t' :
  catalog_ok t → update_brand_stmt id v now id' t = Ok (n, t') → catalog_ok t'.
Proof.
  intros Hok ([m l] & Hu & [= _ <-])%obind_ok. apply update_checked_rows in Hu.
  pose proof (co_brands _ Hok) as [Hid Hname Hslug].
  assert (br_id <$> l = br_id <$> brands t) as Hids.
  { eapply rows_updated_fmap; [|exact Hu]. intros b b' _ Hc. unfold with_brand in Hc. inv_ok Hc. by simplify_eq. }
  assert (br_slug <$> l = br_slug <$> brands t) as Hslugs.
  { eapply rows_updated_fmap; [|exact Hu]. intros b b' _ Hc. unfold with_brand in Hc. inv_ok Hc. by simplify_eq. }
  apply catalog_ok_brands; [done| |by rewrite Hids].
  split; [by rewrite Hids| |by rewrite Hslugs].
  eapply (rows_updated_key br_id _ _ br_name id); [done..| | |exact Hu].
  - intros b. apply bool_decide_eq_true.
  - intros b b' Eb%bool_decide_eq_true (name & Hs & [= <-])%obind_ok. simpl.
    apply set_column_ok in Hs as [->|(a & _ & (x & _ & ([] & Hq%unique_ok & [= <-])%obind_ok)%obind_ok)]; [by left|right].
    intros y Hy Ey. apply (existsb_false _ _ y) in Hq; [|done]. cbv beta in Hq. rewrite Ey, bool_decide_true in Hq by done.
    simpl in Hq. apply negb_false_iff, bool_decide_eq_true in Hq. congruence.
Qed.
Lemma delete_brand_ok id now id' n t t' :
  catalog_ok t → delete_brand_stmt id now id' t = Ok (n, t') → catalog_ok t'.
Proof.
  intros [Ht [? ? ?] [Hn Ha] [? ? Hp] ? ? ? ?] Hd. unfold delete_brand_stmt in Hd. case_match; [|by simplify_eq].
  apply obind_ok in Hd as (u1 & Hr%restrict_ok & [= _ <-]).
  assert (∀ x, x ∈ (br_id <$> brands t) → x ≠ id →
    x ∈ (br_id <$> List.filter (λ c, negb (is_brand id c)) (brands t))) as Hkept.
  { intros x (c & -> & Hin)%list_elem_of_fmap Hne. apply list_elem_of_fmap_2, list_elem_of_In, filter_In.
    rewrite <-list_elem_of_In. split; [done|]. unfold is_brand. by rewrite bool_decide_false. }
  pose proof (filter_sublist (λ c, negb (is_brand id c)) (brands t)) as Hs.
  split; try done; unfold categories, brands, brand_categories, products in *; simpl.
  - split; (eapply sublist_NoDup; [|apply (fmap_sublist _ _ _ Hs)]; done).
  - split; [apply NoDup_ListNoDup, List.NoDup_filter, NoDup_ListNoDup, Hn|].
    apply Forall_forall. intros a [Hin Hne]%list_elem_of_In%filter_In. apply list_elem_of_In in Hin.
    rewrite Forall_forall in Ha. destruct (Ha a Hin) as [Ha1 Ha2]. split; [|done]. apply Hkept; [done|].
    by apply negb_true_iff, bool_decide_eq_false in Hne.
  - split; [done..|]. rewrite Forall_forall in *. intros p Hin. destruct (Hp p Hin) as (? & ? & Hbr).
    split_and!; [done|done|]. intros x Ex. apply Hkept; [by apply Hbr|]. intros ->.
    apply (existsb_false _ _ p) in Hr; [|done]. by apply bool_decide_eq_false in Hr.
Qed.

Lemma associate_ok b c now id n t t' : catalog_ok t → insert_association b c now id t = Ok (n, t') → catalog_ok t'.
Proof.
  intros Hok Hi. unfold insert_association in Hi. destruct (existsb _ _) eqn:Ee; [by simplify_eq|].
  apply obind_ok in Hi as (u1 & Hb%foreign_key_in & (u2 & Hc%foreign_key_in & [= _ <-])%obind_ok).
  apply catalog_ok_assoc; [done|]. destruct (co_assoc _ Hok) as [Hn Ha]. split; [|by apply Forall_app; repeat constructor].
  apply NoDup_app. split_and!; [done| |apply NoDup_singleton]. intros x Hx ->%list_elem_of_singleton.
  apply (existsb_false _ _ _ Ee) in Hx. unfold is_association in Hx. simpl in Hx. by rewrite !bool_decide_true in Hx.
Qed.
Lemma disassociate_ok b c now id n t t' : catalog_ok t → delete_association b c now id t = Ok (n, t') → catalog_ok t'.
Proof.
  intros Hok [= _ <-]. apply catalog_ok_assoc; [done|]. destruct (co_assoc _ Hok) as [Hn Ha].
  pose proof (filter_sublist (λ x, negb (is_association b c x)) (brand_categories t)) as Hs.
  split; [by eapply sublist_NoDup|]. rewrite Forall_forall in *. intros x Hx.
  apply list_elem_of_In, filter_In in Hx as [Hx _]. by apply Ha, list_elem_of_In.
Qed.
End categories.

Section products.
Context `{Externals}.
Implicit Types (t : catalog_tables).

(** ** Products *)

Lemma price_column_ok name d x : price_column name d = Ok x → 0 ≤ dec_units x.
Proof.
  intros (y & _ & ([] & Hc%check_constraint_ok & [= <-])%obind_ok)%obind_ok.
  rewrite dec_leb_units, dec_zero_units in Hc. by apply Z.leb_le.
Qed.

Lemma create_product_ok seller v now id t t' :
  catalog_ok t → insert_product seller v now id t = Ok (id, t') → catalog_ok t'.
Proof.
  intros Hok Hi. unfold insert_product in Hi.
  apply obind_ok in Hi as (name & _ & (slug & _ & (cur & _ & (price & Hpr%price_column_ok & Hi)%obind_ok)%obind_ok)%obind_ok).
  apply obind_ok in Hi as ([] & H1%fresh_key & ([] & H2%fresh_key & ([] & H3%reference_refers & Hi)%obind_ok)%obind_ok).
  apply obind_ok in Hi as ([] & H4%reference_refers & [= <-]).
  apply catalog_ok_products; [done| |apply ids_grow]. destruct (co_products _ Hok).
  split; [by apply NoDup_fmap_snoc..|]. apply Forall_app. split; [done|]. by repeat constructor.
Qed.

Lemma update_product_ok id v now id' n t t' :
  catalog_ok t → update_product_stmt id v now id' t = Ok (n, t') → catalog_ok t'.
Proof.
  intros Hok ([m l] & Hu & [= _ <-])%obind_ok. apply update_checked_rows in Hu.
  pose proof (co_products _ Hok) as [Hid Hslug Hrows].
  assert (pd_id <$> l = pd_id <$> products t) as Hids.
  { eapply rows_updated_fmap; [|exact Hu]. intros p p' _ Hc. unfold with_product in Hc. inv_ok Hc. by simplify_eq. }
  apply catalog_ok_products; [done| |by rewrite Hids]. split; [by rewrite Hids| |].
  - eapply (rows_updated_key pd_id _ _ pd_slug id); [done..| | |exact Hu].
    + intros p. unfold live_product_id, is_product. rewrite andb_true_iff, bool_decide_eq_true. by intros [].
    + intros p p' Hp Hc. unfold live_product_id, is_product in Hp.
      rewrite andb_true_iff, bool_decide_eq_true in Hp. destruct Hp as [<- _]. unfold with_product in Hc.
      apply obind_ok in Hc as (name & _ & (slug & Hs & Hc)%obind_ok). inv_ok Hc. simplify_eq/=.
      apply set_column_ok in Hs as [->|(sl & _ & (x & _ & ([] & Hq%unique_ok & [= <-])%obind_ok)%obind_ok)];
        [by left|right].
      intros y Hy Ey. apply (existsb_false _ _ y) in Hq; [|done]. cbv beta in Hq.
      rewrite Ey, bool_decide_true in Hq by done. simpl in Hq. by apply negb_false_iff, bool_decide_eq_true in Hq.
  - eapply rows_updated_Forall; [|exact Hu|exact Hrows]. intros p p' _ _ Hc (Hp & Hcat & Hbr).
    unfold with_product in Hc.
    apply obind_ok in Hc as (name & _ & (slug & _ & (price & Hpr & (cur & _ & Hc)%obind_ok)%obind_ok)%obind_ok).
    apply obind_ok in Hc as ([] & H1%reference_refers & ([] & H2%reference_refers & [= <-])%obind_ok).
    split_and!; simpl.
    + apply set_column_ok in Hpr as [->|(a & _ & Ha%price_column_ok)]; done.
    + by destruct (vup_category_id v).
    + by destruct (vup_brand_id v).
Qed.

Lemma delete_product_ok id now id' n t t' :
  catalog_ok t → delete_product_stmt id now id' t = Ok (n, t') → catalog_ok t'.
Proof.
  intros Hok [= _ <-]. pose proof (update_where_rows (live_product_id id) (product_deleted now) (products t)) as Hu.
  pose proof (co_products _ Hok) as [Hid Hslug Hrows].
  assert (pd_id <$> update_where (live_product_id id) (product_deleted now) (products t) = pd_id <$> products t) as Hids
    by by apply fmap_update_where.
  apply catalog_ok_products; [done| |by rewrite Hids]. split; [by rewrite Hids|by rewrite fmap_update_where|].
  eapply rows_updated_Forall; [|exact Hu|exact Hrows]. by intros p p' _ _ -> Hp.
Qed.

(** ** SKUs *)

Lemma create_sku_ok pid v now id t t' : catalog_ok t → insert_sku pid v now id t = Ok (id, t') → catalog_ok t'.
Proof.
  intros Hok Hi. unfold insert_sku in Hi.
  apply obind_ok in Hi as (code & _ & (price & Hpr%price_column_ok & (stock & Hst & Hi)%obind_ok)%obind_ok).
  apply obind_ok in Hi as ([] & H1%fresh_key & ([] & H2%fresh_key & ([] & H3%foreign_key_in & [= <-])%obind_ok)%obind_ok).
  apply obind_ok in Hst as (z & _ & ([] & Hz%check_constraint_ok & [= <-])%obind_ok). apply Z.leb_le in Hz.
  destruct (co_skus _ Hok) as [Hc Hrows], (co_inventory _ Hok) as (Hid & Hres & Hsk).
  apply catalog_ok_skus; [done| |apply ids_grow|by apply NoDup_fmap_snoc|].
  - split; [by apply NoDup_fmap_snoc|]. apply Forall_app. split; [done|]. by repeat constructor.
  - apply Forall_app. split; [done|]. repeat constructor. intros _. simpl.
    unfold open_quantity. rewrite filter_none; [done|]. intros r Hr. apply andb_false_iff. left.
    apply bool_decide_false. intros E. apply H1. pose proof (co_reserved _ Hok) as Hx.
    rewrite Forall_forall in Hx. rewrite <-E. by apply Hx.
Qed.

(** An update of SKUs that keeps what identifies them and what is reserved. *)
Lemma update_skus_kept p f n t t' :
  catalog_ok t → update_skus p f t = Ok (n, t') →
  (∀ s s', s ∈ ct_skus t → f s = Ok s' → sku_id s' = sku_id s ∧ sku_code s' = sku_code s ∧
     sku_product_id s' = sku_product_id s ∧ reserved_quantity s' = reserved_quantity s ∧
     (is_live s' = true → is_live s = true) ∧ 0 ≤ dec_units (sku_price s') ∧ 0 ≤ stock_quantity s') →
  catalog_ok t'.
Proof.
  intros Hok Hu Hf. unfold update_skus in Hu. apply obind_ok in Hu as ([m l] & Hu & [= _ <-]).
  apply update_checked_rows in Hu. destruct (co_skus _ Hok) as [Hc Hrows], (co_inventory _ Hok) as (Hid & Hres & Hsk).
  assert (rows_updated p (λ s s', sku_id s' = sku_id s ∧ sku_code s' = sku_code s ∧
     sku_product_id s' = sku_product_id s ∧ reserved_quantity s' = reserved_quantity s ∧
     (is_live s' = true → is_live s = true) ∧ 0 ≤ dec_units (sku_price s') ∧ 0 ≤ stock_quantity s') (ct_skus t) l) as Hr.
  { eapply Forall2_impl_in; [exact Hu|]. intros s s' Hs. simpl. destruct (p s); [by apply Hf|done]. }
  assert (sku_id <$> l = sku_id <$> ct_skus t) as Hids by (eapply rows_updated_fmap; [|exact Hr]; naive_solver).
  assert (sku_code <$> l = sku_code <$> ct_skus t) as Hcs by (eapply rows_updated_fmap; [|exact Hr]; naive_solver).
  apply catalog_ok_skus; [done| |by rewrite Hids|by rewrite Hids|].
  - split; [by rewrite Hcs|]. eapply rows_updated_Forall; [|exact Hr|exact Hrows].
    intros s s' _ _ (_ & _ & Ep & _ & _ & ? & ?) (? & _). split_and!; [by rewrite Ep|done|done].
  - eapply rows_updated_Forall; [|exact Hr|exact Hsk].
    intros s s' _ _ (Ei & _ & _ & Er & El & _) Hs Hl. rewrite Ei, Er. by apply Hs, El.
Qed.

Lemma update_sku_ok id v now n t t' : catalog_ok t → update_skus (live_sku id) (with_sku v now) t = Ok (n, t') → catalog_ok t'.
Proof.
  intros Hok Hu. eapply update_skus_kept; [done|exact Hu|]. intros s s' Hs Hc.
  destruct (co_skus _ Hok) as [_ Hrows]. rewrite Forall_forall in Hrows. destruct (Hrows s Hs) as (_ & Hp & Hst).
  unfold with_sku in Hc. apply obind_ok in Hc as (price & Hpr & (stock & Hsk & [= <-])%obind_ok).
  split_and!; try done; simpl.
  - apply set_column_ok in Hpr as [->|(a & _ & Ha%price_column_ok)]; done.
  - apply set_column_ok in Hsk as [->|(a & _ & (z & _ & ([] & Hz%check_constraint_ok & [= <-])%obind_ok)%obind_ok)];
      [done|by apply Z.leb_le].
Qed.
Lemma delete_sku_ok id now n t t' :
  catalog_ok t → update_skus (live_sku id) (λ s, Ok (sku_deleted now s)) t = Ok (n, t') → catalog_ok t'.
Proof.
  intros Hok Hu. eapply update_skus_kept; [done|exact Hu|]. intros s s' Hs [= <-].
  destruct (co_skus _ Hok) as [_ Hrows]. rewrite Forall_forall in Hrows. by destruct (Hrows s Hs) as (_ & Hp & Hst).
Qed.
Lemma adjust_stock_ok id delta now id' n t t' : catalog_ok t → adjust_stmt id delta now id' t = Ok (n, t') → catalog_ok t'.
Proof.
  intros Hok Hu. eapply update_skus_kept; [done|exact Hu|]. intros s s' Hs (-> & Hst & _)%set_quantities_ok.
  destruct (co_skus _ Hok) as [_ Hrows]. rewrite Forall_forall in Hrows. by destruct (Hrows s Hs) as (_ & Hp & _).
Qed.

(** ** Images *)

Lemma add_image_ok pid v now id id' t t1 t' :
  catalog_ok t → (if vai_is_primary v then unset_primary pid now id' t = Ok (tt, t1) else t1 = t) →
  insert_image pid v now id t1 = Ok (id, t') → catalog_ok t'.
Proof.
  intros Hok Hu Hi.
  assert (catalog_ok t1 ∧ (vai_is_primary v = true → ∀ i, i ∈ images t1 → im_is_primary i = true →
    im_product_id i ≠ pid)) as [Hok1 Hno].
  { destruct (vai_is_primary v); [|by subst]. injection Hu as <-. destruct (co_images _ Hok) as (Hn & Ha & Hone). split.
    - apply catalog_ok_images; [done|].
      split_and!; [by rewrite fmap_update_where| |].
      + eapply rows_updated_Forall; [|apply update_where_rows|exact Ha]. by intros i i' _ _ ->.
      + intros i j (i0 & Hi0 & ->)%elem_of_update_where (j0 & Hj0 & ->)%elem_of_update_where.
        repeat case_match; try done. by apply Hone.
    - intros _ i (i0 & Hi0 & ->)%elem_of_update_where. unfold of_product. case_match eqn:Eb; [done|].
      intros Hpr Ep. rewrite Hpr, Ep, bool_decide_true in Eb; done. }
  unfold insert_image in Hi. apply obind_ok in Hi as (alt & _ & (ord & _ & ([] & H1%fresh_key & Hi)%obind_ok)%obind_ok).
  apply obind_ok in Hi as ([] & H2%foreign_key_in & [= <-]). apply catalog_ok_images; [done|].
  destruct (co_images _ Hok1) as (Hn & Ha & Hone). split_and!.
  - by apply NoDup_fmap_snoc.
  - apply Forall_app. split; [done|]. by repeat constructor.
  - intros i j [Hx| ->%list_elem_of_singleton]%elem_of_app [Hy| ->%list_elem_of_singleton]%elem_of_app; simpl; try done.
    + by apply Hone.
    + intros Hpi Hpv E. by destruct (Hno Hpv i Hx Hpi).
    + intros Hpv Hpj E. by destruct (Hno Hpv j Hy Hpj).
Qed.
Lemma delete_image_ok id now id' n t t' : catalog_ok t → delete_image_stmt id now id' t = Ok (n, t') → catalog_ok t'.
Proof.
  intros Hok [= _ <-]. apply catalog_ok_images; [done|]. destruct (co_images _ Hok) as (Hn & Ha & Hone).
  pose proof (filter_sublist (λ i, negb (is_image id i)) (images t)) as Hs.
  assert (∀ i, i ∈ List.filter (λ i, negb (is_image id i)) (images t) → i ∈ images t) as Hin.
  { intros i Hi. apply list_elem_of_In, filter_In in Hi as [Hi _]. by apply list_elem_of_In. }
  split_and!.
  - eapply sublist_NoDup; [exact Hn|]. by apply fmap_sublist.
  - rewrite Forall_forall in *. intros i Hi. by apply Ha, Hin.
  - intros i j Hi Hj. apply Hone; auto.
Qed.
End products.

Lemma effect_catalog_ok `{ShopCodec, !UnicodeApi} now rq t t' : effect now rq t t' → catalog_ok t → catalog_ok t'.
Proof.
  destruct rq; simpl; intros He Hok; destruct_and?; repeat match goal with H : ∃ _, _ |- _ => destruct H end; destruct_and?.
  - eapply create_category_ok; [done| |done|done]. by eapply valid_label.
  - by eapply update_category_ok.
  - by eapply delete_category_ok.
  - by eapply create_brand_ok.
  - by eapply update_brand_ok.
  - by eapply delete_brand_ok.
  - by eapply associate_ok.
  - by eapply disassociate_ok.
  - by eapply create_product_ok.
  - by eapply update_product_ok.
  - by eapply delete_product_ok.
  - by eapply create_sku_ok.
  - by eapply update_sku_ok.
  - by eapply delete_sku_ok.
  - by eapply adjust_stock_ok.
  - by eapply add_image_ok.
  - by eapply delete_image_ok.
  - done.
Qed.
