(* ===== verification/ShopTheorems.v ===== *)
(** * Catalog service: the theorems

    Requests are steps of the machine; the invariant of the tables along runs in which the
    requests of the shop and the operations of the inventory alternate, and who oversells in them;
    who may change what. *)

From S2P Require Import Prelude RustStr Externals Errors NewTypes Regex Auth Events Db Requests Outbox Consumer ConsumerProps Pagination.
From S2P Require Import Redis Labels ShopTables Inventory InventoryProps InventorySpec ShopTypes CategoryRepo ProductRepo CategoryService ProductService ShopProps ShopRoutes CategoryTree ShopSteps.

Local Open Scope Z_scope.

(** ** Runs of the catalog service *)

Section runs.
Context `{ShopCodec, !UnicodeApi, !UuidOrder, !ShopOrders, !PgText, !RedisApi}.
Implicit Types (s : db catalog_tables redis) (t : catalog_tables).

Inductive catalog_op : Type :=
| ShopOp (state : AppState) (rq : catalog_request)
| InventoryOp (op : inventory_op).

(** The inventory does not use the cache. *)
Definition run_inventory (op : inventory_op) s : db catalog_tables redis :=
  let s' := run_op op (MkDb (d_committed s) (d_env s) tt) in MkDb (d_committed s') (d_env s') (d_ext s).
Definition catalog_step (op : catalog_op) s : db catalog_tables redis :=
  match op with
  | ShopOp state rq => (handle state rq s).2
  | InventoryOp op => run_inventory op s
  end.
Definition catalog_run (ops : list catalog_op) s : db catalog_tables redis := foldl (flip catalog_step) s ops.

Lemma moved_goods sku ds dr ids l l' :
  Forall2 (moved_sku sku ds dr) l l' → skus_ok ids l → skus_ok ids l'.
Proof.
  intros Hl [Hc Hrows]. split.
  - assert (sku_code <$> l' = sku_code <$> l) as ->; [|done]. clear Hc Hrows.
    induction Hl as [|k k' l l' (_ & _ & Hk) _ IH]; [done|]. rewrite !fmap_cons, IH. f_equal.
    destruct (live_sku sku k); [by destruct Hk as (_ & _ & _ & -> & _)|by subst].
  - eapply Forall2_Forall_r; [exact Hl|]. eapply Forall_impl; [exact Hrows|].
    intros k (Hp & Hpr & Hst) k' (_ & _ & Hk).
    destruct (live_sku sku k); [|by subst]. destruct Hk as (_ & _ & Ep & _ & Epr & ?).
    split_and!; [by rewrite Ep|by rewrite Epr|done].
Qed.

(** The inventory keeps the invariant of the whole catalog. *)
Lemma reserve_catalog_ok oid sku q t t' : reserve_effect oid sku q t t' → catalog_ok t → catalog_ok t'.
Proof.
  intros He [? ? ? ? Hs ? Hr Hi]. pose proof (proj1 (reserve_effect_stocked _ _ _ _ _ He) Hi) as Hi'.
  destruct He as (l & r & -> & Hl & (k & Hk & Ek) & _ & _ & _ & Er & _).
  split; try done; simpl in *; [by eapply moved_goods|].
  rewrite (moved_ids _ _ _ _ _ Hl). apply Forall_app. split; [done|]. repeat constructor.
  rewrite Er. apply live_sku_iff in Ek as [<- _]. by apply list_elem_of_fmap_2.
Qed.
Lemma close_catalog_ok oid sku st t t' : close_effect oid sku st t t' → st ≠ Reserved → catalog_ok t → catalog_ok t'.
Proof.
  intros He Hst [? ? ? ? Hs ? Hr Hi]. pose proof (proj1 (close_effect_stocked _ _ _ _ _ He Hst Hi)) as Hi'.
  destruct He as (l & r & now & _ & -> & Hl). split; try done; simpl in *; [by eapply moved_goods|].
  rewrite (moved_ids _ _ _ _ _ Hl). apply Forall_forall. intros x (y & Hy & ->)%elem_of_update_where.
  rewrite Forall_forall in Hr. destruct (bool_decide _); exact (Hr y Hy).
Qed.

Lemma catalog_step_ok op s : catalog_ok (d_committed s) → catalog_ok (d_committed (catalog_step op s)).
Proof.
  intros Hok. destruct op as [state rq|op]; simpl.
  - destruct (handle state rq s) as [o s'] eqn:E. simpl. apply catalog_request_stepped in E as [[->|He] _]; [done|].
    by eapply effect_catalog_ok.
  - apply (run_op_invariant catalog_ok); simpl; try done.
    + intros t [? ? ? ? ? ? ? (Hn & _)]. done.
    + apply reserve_catalog_ok.
    + apply close_catalog_ok.
    + by intros l t [].
    + by intros l t [].
Qed.
Lemma catalog_run_ok ops s : catalog_ok (d_committed s) → catalog_ok (d_committed (catalog_run ops s)).
Proof. revert s. induction ops as [|op ops IH]; intros s Hok; [done|]. by apply IH, catalog_step_ok. Qed.
End runs.

(** ** Who may change what *)

Section authority.
Context `{ShopCodec, !UnicodeApi}.
Implicit Types (t : catalog_tables) (user : CurrentUser).

Definition may_change user (p : ProductRow) : Prop := cu_id user = pd_seller_id p ∨ is_admin user.
(** The seller of the live product, or an administrator. *)
Definition owner_of user t (product_id : Uuid) : Prop :=
  ∃ p, p ∈ products t ∧ pd_id p = product_id ∧ live_product p = true ∧ may_change user p.
Definition by_user (sender P : CurrentUser → Prop) : Prop := ∃ user, sender user ∧ P user.

Record authorized (sender : CurrentUser → Prop) t t' : Prop := {
  au_shelves : categories t' ≠ categories t ∨ brands t' ≠ brands t ∨ brand_categories t' ≠ brand_categories t →
    by_user sender is_admin;
  au_products p : p ∈ products t → p ∉ products t' → by_user sender (λ user, live_product p = true ∧ may_change user p);
  au_new_products p : p ∈ products t' → p ∉ products t → by_user sender (λ user, may_change user p);
  au_skus k : k ∈ ct_skus t → k ∉ ct_skus t' → by_user sender (λ user, owner_of user t (sku_product_id k));
  au_new_skus k : k ∈ ct_skus t' → k ∉ ct_skus t → by_user sender (λ user, owner_of user t (sku_product_id k));
  au_new_images i : i ∈ images t' → i ∉ images t → by_user sender (λ user, owner_of user t (im_product_id i));
  au_changed_images i : i ∈ images t → i ∉ images t' → im_id i ∈ (im_id <$> images t') →
    by_user sender (λ user, owner_of user t (im_product_id i));
  (* the product in the path of the request, which need not be the image's *)
  au_deleted_images i : i ∈ images t → im_id i ∉ (im_id <$> images t') →
    by_user sender (λ user, ∃ product_id, owner_of user t product_id);
  au_rest : ct_reservations t' = ct_reservations t ∧ ct_outbox t' = ct_outbox t ∧ ct_processed t' = ct_processed t }.

Lemma authorized_refl sender t : authorized sender t t.
Proof.
  split; try done; [naive_solver|].
  intros i Hi Hn. destruct Hn. by apply list_elem_of_fmap_2.
Qed.
(** The images are still there. *)
Lemma images_stay sender t t' : images t' = images t → ∀ i, i ∈ images t → im_id i ∉ (im_id <$> images t') →
  by_user sender (λ user, ∃ product_id, owner_of user t product_id).
Proof. intros -> i Hi Hn. destruct Hn. by apply list_elem_of_fmap_2. Qed.
(** Changes of one table. *)
Lemma authorized_shelves sender t f : by_user sender is_admin →
  (∀ s, st_products (f s) = st_products s ∧ st_images (f s) = st_images s) → authorized sender t (set_shop f t).
Proof.
  intros Hu Hf. destruct (Hf (ct_shop t)) as [E1 E2].
  split; unfold products, images; simpl; rewrite ?E1, ?E2; try done.
  by apply (images_stay sender t t).
Qed.
Lemma authorized_two sender t f l : by_user sender is_admin →
  (∀ s, st_products (f s) = st_products s ∧ st_images (f s) = st_images s) →
  authorized sender t (set_brand_categories l (set_shop f t)).
Proof.
  intros Hu Hf. apply (authorized_shelves sender t (λ s, MkShopTables (st_categories (f s)) (st_brands (f s)) l
    (st_products (f s)) (st_images (f s)))); [done|]. intros s. apply Hf.
Qed.
Lemma authorized_products sender t l :
  (∀ p, p ∈ products t → p ∉ l → by_user sender (λ user, live_product p = true ∧ may_change user p)) →
  (∀ p, p ∈ l → p ∉ products t → by_user sender (λ user, may_change user p)) → authorized sender t (set_products l t).
Proof. intros Ho Hn. split; try done; [naive_solver|by apply images_stay]. Qed.
Lemma authorized_skus sender t l :
  (∀ k, k ∈ ct_skus t → k ∉ l → by_user sender (λ user, owner_of user t (sku_product_id k))) →
  (∀ k, k ∈ l → k ∉ ct_skus t → by_user sender (λ user, owner_of user t (sku_product_id k))) →
  authorized sender t (set_skus l t).
Proof. intros Ho Hn. split; try done; [naive_solver|by apply images_stay]. Qed.
Lemma authorized_images sender t l :
  (∀ i, i ∈ l → i ∉ images t → by_user sender (λ user, owner_of user t (im_product_id i))) →
  (∀ i, i ∈ images t → i ∉ l → im_id i ∈ (im_id <$> l) → by_user sender (λ user, owner_of user t (im_product_id i))) →
  (∀ i, i ∈ images t → im_id i ∉ (im_id <$> l) → by_user sender (λ user, ∃ product_id, owner_of user t product_id)) →
  authorized sender t (set_images l t).
Proof. intros Hn Hc Hd. split; try done. naive_solver. Qed.

Lemma owns_product user id t p : owns user id t p →
  p ∈ products t ∧ pd_id p = id ∧ live_product p = true ∧ may_change user p.
Proof.
  intros [[Hin Hp]%find_some Ho]. unfold live_product_id, is_product in Hp.
  rewrite andb_true_iff, bool_decide_eq_true in Hp. apply list_elem_of_In in Hin. naive_solver.
Qed.
Lemma owns_owner user id t p : owns user id t p → owner_of user t id.
Proof. intros Ho%owns_product. by exists p. Qed.
(** The live product that the statement selects is the one that was checked. *)
Lemma owns_only user id t p q : catalog_ok t → owns user id t p → q ∈ products t → live_product_id id q = true → q = p.
Proof.
  intros Hok (Hp & E & _)%owns_product Hq Hl. eapply NoDup_fmap_inj_in; [apply (po_ids _ _ _ (co_products _ Hok))|done..|].
  unfold live_product_id, is_product in Hl. rewrite andb_true_iff, bool_decide_eq_true in Hl. naive_solver.
Qed.
Lemma owned_sku_only user id t k : catalog_ok t → owns_sku user id t → k ∈ ct_skus t → live_sku id k = true →
  owner_of user t (sku_product_id k).
Proof.
  intros Hok (k0 & p & [Hk0 E0]%find_some & Ho) Hk E. apply list_elem_of_In in Hk0.
  apply live_sku_iff in E as [E _], E0 as [E0 _].
  assert (k = k0) as ->; [|by eapply owns_owner].
  eapply NoDup_fmap_inj_in; [apply (co_inventory _ Hok)|done..|congruence].
Qed.
Lemma authorized_update_skus sender user id p f t n t' :
  catalog_ok t → sender user → owns_sku user id t → (∀ k, p k = true → live_sku id k = true) →
  (∀ k k', p k = true → f k = Ok k' → sku_product_id k' = sku_product_id k) →
  update_skus p f t = Ok (n, t') → authorized sender t t'.
Proof.
  intros Hok Hr Ho Hp Hf ([m l] & Hu%update_checked_rows & [= _ <-])%obind_ok. apply authorized_skus.
  - intros k Hk Hn. exists user. split; [done|]. eapply owned_sku_only; [done..|]. eapply Hp, rows_updated_out; done.
  - intros k Hk Hn. destruct (rows_updated_in _ _ _ _ _ Hu Hk Hn) as (k0 & Hk0 & Ep & Ef). exists user. split; [done|].
    rewrite (Hf k0 k) by done. eapply owned_sku_only; [done..|]. by apply Hp.
Qed.

Lemma with_product_seller v now t p p' : with_product v now t p = Ok p' → pd_seller_id p' = pd_seller_id p.
Proof. unfold with_product. intros Hc. inv_ok Hc. by simplify_eq. Qed.

Lemma not_in_snoc {A} (x y : A) l : x ∈ l ++ [y] → x ∉ l → x = y.
Proof. intros [?|Hx%list_elem_of_singleton]%elem_of_app ?; done. Qed.

Lemma effect_authorized now rq t t' : catalog_ok t → effect now rq t t' → authorized (λ user, requester rq = Some user) t t'.
Proof.
  intros Hok He. destruct rq; simpl in He.
  - destruct He as (v & path & depth & id & Ha & _ & _ & Hi). unfold insert_category in Hi. inv_ok Hi. simplify_eq.
    apply authorized_shelves; [by eexists|done].
  - destruct He as (v & id' & Ha & _ & ([m l] & _ & [= _ <-])%obind_ok). apply authorized_shelves; [by eexists|done].
  - destruct He as (id' & Ha & _ & _ & Hi). unfold delete_category_stmt in Hi. case_match; [|done]. inv_ok Hi. simplify_eq.
    apply authorized_two; [by eexists|done].
  - destruct He as (v & id & Ha & _ & Hi). unfold insert_brand in Hi. inv_ok Hi. simplify_eq.
    apply authorized_shelves; [by eexists|done].
  - destruct He as (v & id' & Ha & _ & ([m l] & _ & [= _ <-])%obind_ok). apply authorized_shelves; [by eexists|done].
  - destruct He as (id' & Ha & _ & Hi). unfold delete_brand_stmt in Hi. case_match; [|done]. inv_ok Hi. simplify_eq.
    apply authorized_two; [by eexists|done].
  - destruct He as (n & id' & Ha & Hi). unfold insert_association in Hi.
    destruct (existsb _ _); [injection Hi as _ <-; apply authorized_refl|]. inv_ok Hi. simplify_eq.
    apply authorized_shelves; [by eexists|done].
  - destruct He as (n & id' & Ha & _ & [= _ <-]). apply authorized_shelves; [by eexists|done].
  - destruct He as (v & id & _ & _ & Hi). unfold insert_product in Hi. inv_ok Hi. simplify_eq.
    apply authorized_products; [intros p Hp Hn; destruct Hn; by apply elem_of_app; left|].
    intros p Hp Hn. rewrite (not_in_snoc _ _ _ Hp Hn). eexists. split; [done|]. by left.
  - destruct He as (p & v & id' & Ho & _ & _ & ([m l] & Hu%update_checked_rows & [= _ <-])%obind_ok).
    pose proof (owns_product _ _ _ _ Ho) as (Hp & Eid & Hlive & Hmay). apply authorized_products.
    + intros q Hq Hn. pose proof (rows_updated_out _ _ _ _ _ Hu Hq Hn) as El.
      rewrite (owns_only _ _ _ _ _ Hok Ho Hq El). by eexists.
    + intros q Hq Hn. destruct (rows_updated_in _ _ _ _ _ Hu Hq Hn) as (q0 & Hq0 & El & Ew).
      rewrite (owns_only _ _ _ _ _ Hok Ho Hq0 El) in Ew. eexists. split; [done|].
      unfold may_change. by rewrite (with_product_seller _ _ _ _ _ Ew).
  - destruct He as (p & id' & Ho & [= _ <-]).
    pose proof (update_where_rows (live_product_id id) (product_deleted now) (products t)) as Hu.
    pose proof (owns_product _ _ _ _ Ho) as (Hp & Eid & Hlive & Hmay). apply authorized_products.
    + intros q Hq Hn. pose proof (rows_updated_out _ _ _ _ _ Hu Hq Hn) as El.
      rewrite (owns_only _ _ _ _ _ Hok Ho Hq El). by eexists.
    + intros q Hq Hn. destruct (rows_updated_in _ _ _ _ _ Hu Hq Hn) as (q0 & Hq0 & El & ->).
      rewrite (owns_only _ _ _ _ _ Hok Ho Hq0 El). by eexists.
  - destruct He as (p & v & id & Ho & _ & Hi). unfold insert_sku in Hi. inv_ok Hi. simplify_eq.
    apply authorized_skus; [intros k Hk Hn; destruct Hn; by apply elem_of_app; left|].
    intros k Hk Hn. rewrite (not_in_snoc _ _ _ Hk Hn). eexists. split; [done|]. by eapply owns_owner.
  - destruct He as (v & Ho & _ & Hu). eapply authorized_update_skus; [done|done|done|done| |exact Hu].
    intros k k' _ Hc. unfold with_sku in Hc. inv_ok Hc. by simplify_eq.
  - destruct He as (Ho & Hu). eapply authorized_update_skus; [done|done|done|done| |exact Hu].
    by intros k k' _ [= <-].
  - destruct He as (id' & Ho & _ & _ & Hu). eapply authorized_update_skus; [done|done|done| | |exact Hu].
    + by intros k [? _]%andb_true_iff.
    + by intros k k' _ (-> & _)%set_quantities_ok.
  - destruct He as (p & v & t1 & id & id' & Ho & _ & Hu & Hi). unfold insert_image in Hi.
    apply obind_ok in Hi as (alt & _ & (ord & _ & (u1 & _ & (u2 & _ & [= <-])%obind_ok)%obind_ok)%obind_ok).
    assert (∃ l, t1 = set_images l t ∧ (∀ i, i ∈ l → i ∉ images t → im_product_id i = product_id) ∧
      (∀ i, i ∈ images t → i ∉ l → im_product_id i = product_id) ∧ im_id <$> l = im_id <$> images t)
      as (l & -> & Hl & Hout & Eids).
    { destruct (vai_is_primary v).
      - injection Hu as <-. eexists. split; [done|]. split_and!.
        + intros i Hi Hn. destruct (rows_updated_in _ _ _ _ _ (update_where_rows _ _ _) Hi Hn) as (j & _ & Hj & ->).
          apply andb_true_iff in Hj as [Hj _]. by apply bool_decide_eq_true in Hj.
        + intros i Hi Hn. pose proof (rows_updated_out _ _ _ _ _ (update_where_rows _ _ _) Hi Hn) as Hj.
          apply andb_true_iff in Hj as [Hj _]. by apply bool_decide_eq_true in Hj.
        + by apply fmap_update_where.
      - subst. exists (images t). split; [|done]. destruct t as [? ? ? ? []]. done. }
    match goal with |- authorized ?sender _ (set_images (_ ++ [?x]) _) =>
      change (authorized sender t (set_images (l ++ [x]) t)) end. apply authorized_images.
    + intros i [Hx| ->%list_elem_of_singleton]%elem_of_app Hn;
        eexists; (split; [done|]); [rewrite (Hl i) by done|]; by eapply owns_owner.
    + intros i Hi [Hn _]%not_elem_of_app _. eexists. split; [done|]. rewrite (Hout i) by done. by eapply owns_owner.
    + intros i Hi Hn. destruct Hn. rewrite fmap_app, Eids. apply elem_of_app. left. by apply list_elem_of_fmap_2.
  - destruct He as (p & n & id' & Ho & _ & [= _ <-]). apply authorized_images.
    + intros i [Hi _]%list_elem_of_In%filter_In Hn. destruct Hn. by apply list_elem_of_In.
    + intros i Hi Hn (j & E & [Hj Ej]%list_elem_of_In%filter_In)%list_elem_of_fmap. destruct Hn.
      apply list_elem_of_In, filter_In. split; [by apply list_elem_of_In|].
      revert Ej. unfold is_image. by rewrite E.
    + intros i Hi Hn. eexists. split; [done|]. exists product_id. by eapply owns_owner.
  - done.
Qed.
(** Who may do more. *)
Lemma authorized_impl (sender sender' : CurrentUser → Prop) t t' :
  (∀ user, sender user → sender' user) → authorized sender t t' → authorized sender' t t'.
Proof.
  intros Hs []. assert (∀ P, by_user sender P → by_user sender' P) as Hb.
  { intros P (user & Hu & HP). exists user. auto. }
  split; try done; intros; apply Hb; eauto.
Qed.
End authority.

(** ** Who takes stock from under its reservations *)

Section oversold.
Context `{ShopCodec, !UnicodeApi, !UuidOrder, !ShopOrders, !PgText, !RedisApi}.
Implicit Types (s : db catalog_tables redis) (t : catalog_tables).

(** The request of its owner or an administrator that takes the stock of a SKU below what is reserved of it. *)
Definition took_stock (id : Uuid) (rq : catalog_request) t t' : Prop :=
  ∃ user k k', ((∃ req, rq = AdjustStock user id req) ∨ ∃ req, rq = UpdateSku user id req) ∧
    owns_sku user id t ∧ k ∈ ct_skus t ∧ live_sku id k = true ∧ k' ∈ ct_skus t' ∧ live_sku id k' = true ∧
    reserved_quantity k' = reserved_quantity k ∧
    reserved_quantity k ≤ stock_quantity k ∧ stock_quantity k' < reserved_quantity k'.

#[export] Instance within_dec id t : Decision (within id t).
Proof. unfold within. apply _. Defined.

Lemma within_same id t t' : ct_skus t' = ct_skus t → within id t → within id t'.
Proof. unfold within. by intros ->. Qed.

(** An update of one SKU that keeps what is reserved. *)
Lemma update_within x id p f n t t' :
  update_skus p f t = Ok (n, t') → (∀ k, p k = true → live_sku id k = true) →
  (∀ k k', f k = Ok k' → sku_id k' = sku_id k ∧ reserved_quantity k' = reserved_quantity k ∧
     (is_live k' = true → sku_deleted_at k' = sku_deleted_at k)) →
  within x t → within x t' ∨ x = id ∧ ∃ k k', k ∈ ct_skus t ∧ live_sku id k = true ∧
    k' ∈ ct_skus t' ∧ live_sku id k' = true ∧ reserved_quantity k' = reserved_quantity k ∧
    reserved_quantity k ≤ stock_quantity k ∧ stock_quantity k' < reserved_quantity k' ∧ f k = Ok k'.
Proof.
  intros ([m l] & Hu%update_checked_rows & [= _ <-])%obind_ok Hp Hf Hw. destruct (decide (within x (set_skus l t))) as [|Hn]; [by left|].
  right. unfold within in Hn, Hw. simpl in *. apply not_Forall_Exists in Hn; [|apply _].
  apply Exists_exists in Hn as (k' & Hk' & Hn). rewrite Forall_forall in Hw.
  destruct (live_sku x k') eqn:El'; [|exfalso; apply Hn; rewrite El'; by intros]. assert (stock_quantity k' < reserved_quantity k') as Hlt.
  { apply Z.nle_gt. intros Hle. by apply Hn. }
  apply list_elem_of_lookup in Hk' as [i Hi]. destruct (Forall2_lookup_r _ _ _ _ _ Hu Hi) as (k & Hk & Hr).
  apply list_elem_of_lookup_2 in Hk, Hi. cbv beta in Hr. destruct (p k) eqn:Ep.
  - pose proof (Hp _ Ep) as El. destruct (Hf _ _ Hr) as (Hid & Hres & _).
    assert (x = id) as -> by (apply live_sku_iff in El as [<- _], El' as [<- _]; done).
    split; [done|]. exists k, k'. split_and!; try done. by apply Hw.
  - subst k'. specialize (Hw _ Hk El'). lia.
Qed.

(** A request keeps a SKU within its stock, or is the owner's who takes the stock away. *)
Lemma effect_within x now rq t t' :
  effect now rq t t' → within x t → within x t' ∨ took_stock x rq t t'.
Proof.
  intros He Hw.
  assert (ct_skus t' = ct_skus t → within x t' ∨ took_stock x rq t t') as Hsame.
  { intros E. left. by eapply within_same. }
  destruct rq; simpl in He.
  - destruct He as (v & path & depth & id & _ & _ & _ & Hi). apply Hsame. unfold insert_category in Hi. inv_ok Hi. by simplify_eq.
  - destruct He as (v & id' & _ & _ & ([m l] & _ & [= _ <-])%obind_ok). by apply Hsame.
  - destruct He as (id' & _ & _ & _ & Hi). apply Hsame. unfold delete_category_stmt in Hi. case_match; [|done]. inv_ok Hi. by simplify_eq.
  - destruct He as (v & id & _ & _ & Hi). apply Hsame. unfold insert_brand in Hi. inv_ok Hi. by simplify_eq.
  - destruct He as (v & id' & _ & _ & ([m l] & _ & [= _ <-])%obind_ok). by apply Hsame.
  - destruct He as (id' & _ & _ & Hi). apply Hsame. unfold delete_brand_stmt in Hi. case_match; [|done]. inv_ok Hi. by simplify_eq.
  - destruct He as (n & id' & _ & Hi). apply Hsame. unfold insert_association in Hi.
    destruct (existsb _ _); [by simplify_eq|]. inv_ok Hi. by simplify_eq.
  - destruct He as (n & id' & _ & _ & [= _ <-]). by apply Hsame.
  - destruct He as (v & id & _ & _ & Hi). apply Hsame. unfold insert_product in Hi. inv_ok Hi. by simplify_eq.
  - destruct He as (p & v & id' & _ & _ & _ & ([m l] & _ & [= _ <-])%obind_ok). by apply Hsame.
  - destruct He as (p & id' & _ & [= _ <-]). by apply Hsame.
  - destruct He as (p & v & id & _ & _ & Hi). left. unfold insert_sku in Hi.
    apply obind_ok in Hi as (code & _ & (price & _ & (stock & Hst & Hi)%obind_ok)%obind_ok).
    apply obind_ok in Hst as (z & _ & ([] & Hz%check_constraint_ok & [= <-])%obind_ok). apply Z.leb_le in Hz.
    inv_ok Hi. simplify_eq. apply Forall_app. split; [done|]. by repeat constructor.
  - destruct He as (v & Ho & _ & Hu). eapply (update_within x) in Hu as [?|(-> & k & k' & ?)]; [by left| |done| |done].
    + right. exists user, k, k'. split; [right; by eexists|]. naive_solver.
    + intros k k' Hc. unfold with_sku in Hc. inv_ok Hc. by simplify_eq.
  - destruct He as (Ho & Hu). eapply (update_within x) in Hu as [?|(-> & k & k' & Hk)]; [by left| |done| |done].
    + destruct Hk as (_ & _ & _ & El & _ & _ & _ & [= <-]). by apply live_sku_iff in El as [_ El].
    + intros k k' [= <-]. split_and!; [done..|]. unfold is_live. by simpl.
  - destruct He as (id' & Ho & _ & _ & Hu). eapply (update_within x) in Hu as [?|(-> & k & k' & ?)]; [by left| | | |done].
    + right. exists user, k, k'. split; [left; by eexists|]. naive_solver.
    + by intros k [? _]%andb_true_iff.
    + by intros k k' (-> & _)%set_quantities_ok.
  - destruct He as (p & v & t1 & id & id' & _ & _ & Hu & Hi). apply Hsame. unfold insert_image in Hi.
    apply obind_ok in Hi as (alt & _ & (ord & _ & (u1 & _ & (u2 & _ & [= <-])%obind_ok)%obind_ok)%obind_ok).
    destruct (vai_is_primary v); [by injection Hu as <-|by subst].
  - destruct He as (p & n & id' & _ & _ & [= _ <-]). by apply Hsame.
  - done.
Qed.

(** The inventory itself reserves only what is there, and what it confirms it had reserved. *)
Lemma inventory_step_within x op s :
  catalog_ok (d_committed s) → within x (d_committed s) → within x (d_committed (run_inventory op s)).
Proof.
  intros Hok Hw. apply (run_op_invariant (λ t, inventory_ok t ∧ within x t)); simpl; try done.
  - by intros t [(? & _) _].
  - intros oid sku q t t' He [? ?]. apply reserve_effect_stocked in He as [? ?]. auto.
  - intros oid sku st t t' He Hst [? ?]. apply close_effect_stocked in He as [? ?]; auto.
  - split; [apply (co_inventory _ Hok)|done].
Qed.
Lemma catalog_step_within x op s :
  catalog_ok (d_committed s) → within x (d_committed s) →
  within x (d_committed (catalog_step op s)) ∨
  ∃ state rq, op = ShopOp state rq ∧ took_stock x rq (d_committed s) (d_committed (catalog_step op s)).
Proof.
  intros Hok Hw. destruct op as [state rq|op]; [|left; by apply inventory_step_within]. simpl.
  destruct (handle state rq s) as [o s'] eqn:E. simpl. apply catalog_request_stepped in E as [[->|He] _]; [by left|].
  destruct (effect_within x _ _ _ _ He Hw) as [?|?]; [by left|right; by exists state, rq].
Qed.
Lemma catalog_run_within x ops s :
  catalog_ok (d_committed s) → within x (d_committed s) →
  within x (d_committed (catalog_run ops s)) ∨
  ∃ past state rq later, ops = past ++ ShopOp state rq :: later ∧
    took_stock x rq (d_committed (catalog_run past s)) (d_committed (catalog_run (past ++ [ShopOp state rq]) s)).
Proof.
  revert s. induction ops as [|op ops IH]; intros s Hok Hw; [by left|].
  destruct (catalog_step_within x op s Hok Hw) as [Hw'|(state & rq & -> & Ht)]; [|right; by exists [], state, rq, ops].
  destruct (IH (catalog_step op s) (catalog_step_ok _ _ Hok) Hw') as [?|(past & state & rq & later & -> & Ht)]; [by left|].
  right. by exists (op :: past), state, rq, later.
Qed.
End oversold.

(** ** Properties *)

Section properties.
Context `{ShopCodec, !UnicodeApi, !UuidOrder, !ShopOrders, !PgText, !RedisApi, !JwtApi}.
Implicit Types (s : db catalog_tables redis) (t : catalog_tables).

(** C12: Whatever statement, commit or answer is lost, every request on the pages of the catalog
    is at most one step of the machine of the tables: the change is the one statement (or the two
    of a primary image) of a request that passed every check - the administrator, the owner of a
    live product, the validated values, the existing category, brand and association. A request
    that reports a success took its step, unless it is a read or an update of nothing. *)
Theorem catalog_refines state rq s o s' :
  handle state rq s = (o, s') →
  (d_committed s' = d_committed s ∨ effect (e_now (d_env s)) rq (d_committed s) (d_committed s')) ∧
  (is_ok o = true → effect (e_now (d_env s)) rq (d_committed s) (d_committed s') ∨
    (silent rq = true ∧ d_committed s' = d_committed s)).
Proof. apply catalog_request_stepped. Qed.

(** C11: The catalog stays well formed. Along any run in which requests of the shop and
    operations and events of the inventory alternate, whatever is lost, the categories form a
    forest whose paths are those of the parents with one more label and whose depth is at most
    ten, keys and slugs are unique, every reference of an association, product, SKU, image and
    reservation names a row, prices and stocks are not negative, a product has at most one
    primary image, and the reserved quantity of every live SKU is the sum of its open
    reservations. *)
Theorem catalog_invariant ops s :
  catalog_ok (d_committed s) → catalog_ok (d_committed (catalog_run ops s)).
Proof. apply catalog_run_ok. Qed.

(** C8: The inventory adds up, and who oversells is known. Along any run in which requests of the
    shop and operations and events of the inventory alternate, with any statements, commits and
    acknowledgements lost, the reserved quantity of every live SKU is the sum of its open
    reservations, and no order reserves a SKU twice. The availability that is reported is the stock
    less the open reservations, and is between 0 and the stock for a SKU within its stock. A SKU
    that was within its stock still is, or a request of its owner or an administrator in the run set
    its stock below what was reserved: no reservation, release, confirmation or event ever promises more than there
    is. *)
Theorem inventory_invariant ops s :
  catalog_ok (d_committed s) → let t := d_committed (catalog_run ops s) in
  inventory_ok t ∧
  (∀ a, a ∈ sku_availability t →
     av_available_quantity a = av_stock_quantity a - open_quantity (av_sku_id a) (ct_reservations t) ∧
     (within (av_sku_id a) t → 0 ≤ av_available_quantity a ≤ av_stock_quantity a)) ∧
  (∀ id, within id (d_committed s) →
     within id t ∨
     ∃ past state rq later, ops = past ++ ShopOp state rq :: later ∧
       took_stock id rq (d_committed (catalog_run past s)) (d_committed (catalog_run (past ++ [ShopOp state rq]) s))).
Proof.
  intros Hok t. assert (inventory_ok t) as Hi by apply co_inventory, catalog_run_ok, Hok. split_and!; [done| |].
  - pose proof Hi as (_ & (_ & _ & Hq) & Hsk). rewrite Forall_forall in Hsk.
    intros a (k & -> & [Hin%list_elem_of_In Hl]%list_elem_of_In%filter_In)%list_elem_of_fmap. simpl.
    rewrite <-(Hsk k Hin Hl). split; [done|]. unfold within. rewrite Forall_forall. intros Hw.
    assert (reserved_quantity k ≤ stock_quantity k) by (apply Hw; [done|by apply live_sku_iff]).
    pose proof (open_quantity_nonneg (sku_id k) _ Hq) as Hn. rewrite <-(Hsk k Hin Hl) in Hn. lia.
  - intros id Hw. by apply catalog_run_within.
Qed.

(** C13: Nobody changes the catalog of others. In well-formed tables, whatever is lost, whatever
    a request on the routes of the catalog leaves behind: categories, brands and associations
    change only if the request carries a token, valid now, of an administrator; a product that is
    changed or deleted was live and belongs to the user of such a token, unless it is an
    administrator's, and a new product belongs to that user; every SKU that changes or appears,
    and every image that appears or stops being the primary one, belongs to such a product; an
    image disappears only if the user of the token owns a live product or is an administrator -
    it need not be the product of the image, which the code does not compare; and reservations
    and events are never touched. *)
Theorem catalog_authorized state config now header rq s o s' :
  catalog_ok (d_committed s) → catalog_app state config now header rq s = (o, s') →
  authorized (bearer config now header) (d_committed s) (d_committed s').
Proof.
  intros Hok [[_ ->]|(rq' & o' & Hr & _ & Hu)]%catalog_app_handled; [apply authorized_refl|].
  eapply authorized_impl; [exact Hu|]. apply catalog_request_stepped in Hr as [[->|He] _]; [apply authorized_refl|].
  by eapply effect_authorized.
Qed.
End properties.
