(* ===== verification/ShopAnswers.v ===== *)
(** * Catalog service: the public list, and sellers who take stock that is reserved

    A client that follows the cursors of [GET /api/v1/products] sees every active product that
    matches its filters once. The inventory itself keeps what is reserved within the stock; the requests
    of a seller on a SKU do not look at what is reserved: what then happens when the order is
    confirmed. *)

From S2P Require Import Prelude RustStr Regex Externals Errors NewTypes Auth Events Db Requests Outbox Consumer Pagination Redis.
From S2P Require Import Labels ShopTables Inventory InventoryProps ShopTypes CategoryRepo ProductRepo CategoryService ProductService ShopProps CategoryTree ShopSteps.

Local Open Scope Z_scope.

Section pages.
Context `{ShopCodec, !UnicodeApi, !UuidOrder, !ShopOrders, !PgText, !RedisApi}.
Implicit Types (s : db catalog_tables redis) (t : catalog_tables) (q : ProductFilterQuery).

(** The request for one page. *)
Definition page_query q (limit : nat) (cursor : option Uuid) : ProductFilterQuery := {|
  pf_limit := Some limit; pf_cursor := cursor; pf_direction := Some Forward;
  pf_category_id := pf_category_id q; pf_brand_id := pf_brand_id q; pf_min_price := pf_min_price q;
  pf_max_price := pf_max_price q; pf_search := pf_search q; pf_status := pf_status q |}.
(** A client that reads the pages one after the other, for at most [fuel] pages. *)
Fixpoint browse (fuel limit : nat) (cursor : option Uuid) q
    : M (db catalog_tables redis) AppError (list (list ProductListRes)) :=
  match fuel with
  | O => panic
  | S fuel =>
      response ← route_list_active_products (page_query q limit cursor);
      let items : list ProductListRes := ps_items _ response in
      match ps_next_cursor _ response ≫= uuid_parse with
      | Some c => pages ← browse fuel limit (Some c) q; mret (items :: pages)
      | None => mret [items]
      end
  end.

(** The filter of the query without the status. *)
Definition shown_filter q : ProductFilter := {|
  fl_category_id := pf_category_id q; fl_brand_id := pf_brand_id q; fl_min_price := pf_min_price q;
  fl_max_price := pf_max_price q; fl_search := fl_search (product_query_parts q).2; fl_status := None |}.
Definition shown q (p : ProductRow) : bool :=
  bool_decide (pd_status p = PdActive) && live_product p && apply_product_filters (shown_filter q) p.
Definition shown_rows q t : list ProductListEntity := list_entity t <$> List.filter (shown q) (products t).

Lemma list_calm q limit cursor s :
  e_faults (d_env s) = [] → (limit ≤ 100)%nat →
  ∃ s', route_list_active_products (page_query q limit cursor) s =
      (Ok {| ps_items := ProductListRes_new <$> (forward_page pl_id limit cursor (shown_rows q (d_committed s))).1;
             ps_next_cursor := uuid_to_string <$> next_cursor (forward_page pl_id limit cursor (shown_rows q (d_committed s))).2;
             ps_prev_cursor := uuid_to_string <$> prev_cursor (forward_page pl_id limit cursor (shown_rows q (d_committed s))).2 |}, s') ∧
    d_committed s' = d_committed s ∧ e_faults (d_env s') = [].
Proof.
  intros Hf Hl. unfold route_list_active_products, product_query_parts, page_query, into_params. simpl.
  rewrite Nat.min_l by done. unfold list_active_products_svc, mbind, M_bind, list_active_products, select_page.
  rewrite on_pool_calm by done. unfold push_keyset. simpl.
  unfold respond, forward_page, page. unfold shown_rows, shown, shown_filter, product_rows. simpl.
  eexists. split; [reflexivity|done].
Qed.

Lemma browse_walk q fuel limit : ∀ cursor pages s,
  e_faults (d_env s) = [] → (limit ≤ 100)%nat →
  walk pl_id fuel limit cursor (shown_rows q (d_committed s)) = Some pages →
  ∃ s', browse fuel limit cursor q s = (Ok (List.map (List.map ProductListRes_new) pages), s').
Proof.
  induction fuel as [|fuel IH]; intros cursor pages s Hf Hl Hw; [done|]. cbn [walk browse] in *.
  destruct (list_calm q limit cursor s Hf Hl) as (s1 & E & Hs1 & Hf1).
  destruct (forward_page pl_id limit cursor (shown_rows q (d_committed s))) as [items cursors] eqn:Ep. simpl in *.
  unfold mbind at 1, M_bind. rewrite E. simpl.
  destruct (next_cursor cursors) as [c|]; simpl.
  - rewrite uuid_parse_to_string. destruct (walk _ fuel limit (Some c) _) as [rest|] eqn:Er; [|done].
    injection Hw as <-. rewrite <-Hs1 in Er. destruct (IH _ _ _ Hf1 Hl Er) as (s2 & E2).
    unfold mbind, M_bind. rewrite E2. by eexists.
  - injection Hw as <-. by eexists.
Qed.

(** ** What the list promises *)

(** The products a query asks for: the conditions that are given, on the product itself. *)
Record wanted q (p : ProductRow) : Prop := {
  wa_active : pd_status p = PdActive;
  wa_live : pd_deleted_at p = None;
  wa_category c : pf_category_id q = Some c → pd_category_id p = Some c;
  wa_brand b : pf_brand_id q = Some b → pd_brand_id p = Some b;
  wa_min m : pf_min_price q = Some m → dec_units m ≤ dec_units (pd_base_price p);
  wa_max m : pf_max_price q = Some m → dec_units (pd_base_price p) ≤ dec_units m;
  wa_search x : pf_search q = Some x → trim x ≠ "" →
    ilike (pd_name p) ("%" +:+ of_chars (take 200 (chars (trim x))) +:+ "%") = true }.

(** What is shown of a product: its own columns, the names of the category and of the brand it
    refers to, and one of its images that come first. *)
Record listed t (p : ProductRow) (r : ProductListRes) : Prop := {
  li_own : lp_id r = uuid_to_string (pd_id p) ∧ lp_created_at r = ts_to_string (pd_created_at p) ∧
    lp_seller_id r = uuid_to_string (pd_seller_id p) ∧ lp_name r = pd_name p ∧ lp_slug r = pd_slug p ∧
    lp_base_price r = pd_base_price p ∧ lp_currency r = pd_currency p ∧ lp_status r = pd_status p;
  li_category : match pd_category_id p with
    | Some id => lp_category_id r = Some (uuid_to_string id) ∧
        ∃ c, c ∈ categories t ∧ ca_id c = id ∧ lp_category_name r = Some (ca_name c)
    | None => lp_category_id r = None ∧ lp_category_name r = None
    end;
  li_brand : match pd_brand_id p with
    | Some id => lp_brand_id r = Some (uuid_to_string id) ∧
        ∃ b, b ∈ brands t ∧ br_id b = id ∧ lp_brand_name r = Some (br_name b)
    | None => lp_brand_id r = None ∧ lp_brand_name r = None
    end;
  li_image : match lp_image_url r with
    | Some url => ∃ i, i ∈ images t ∧ im_product_id i = pd_id p ∧ im_url i = url ∧
        ∀ j, j ∈ images t → im_product_id j = pd_id p → im_sort_order i ≤ im_sort_order j
    | None => ∀ i, i ∈ images t → im_product_id i ≠ pd_id p
    end }.

Lemma given_ok {A} (o : option A) p : given o p = true ↔ ∀ a, o = Some a → p a = true.
Proof. destruct o; simpl; naive_solver. Qed.
Lemma shown_wanted q p : shown q p = true ↔ wanted q p.
Proof.
  unfold shown, live_product, apply_product_filters, shown_filter. simpl.
  rewrite !andb_true_iff, !bool_decide_eq_true, !given_ok.
  assert ((∀ a, (s ← pf_search q; match SearchQuery_new s with Ok x => Some x | _ => None end) = Some a →
      ilike (pd_name p) ("%" +:+ search_str a +:+ "%") = true) ↔
    ∀ x, pf_search q = Some x → trim x ≠ "" →
      ilike (pd_name p) ("%" +:+ of_chars (take 200 (chars (trim x))) +:+ "%") = true) as ->.
  { unfold SearchQuery_new, SEARCH_MAX_LEN. destruct (pf_search q) as [x|]; simpl; [|naive_solver].
    destruct (trim x) as [|c k] eqn:E; simpl; split; intros Hs.
    - intros y [= <-] Hy. by destruct Hy.
    - done.
    - intros y [= <-] _. rewrite E. by apply (Hs (MkSearchQuery _)).
    - intros y [= <-]. specialize (Hs x eq_refl). rewrite E in Hs. by apply Hs. }
  split.
  - intros [[Hst Hl] [[[[[Hc Hb] Hmin] Hmax] Hs] _]]. split; try done; intros ? E;
      [apply Hc in E|apply Hb in E|apply Hmin in E|apply Hmax in E];
      by rewrite ?bool_decide_eq_true, ?dec_leb_le in E.
  - intros [Hst Hl Hc Hb Hmin Hmax Hs]. split_and!; try done; intros ? E;
      rewrite ?bool_decide_eq_true, ?dec_leb_le; auto.
Qed.
Lemma listed_entity t p : catalog_ok t → p ∈ products t → listed t p (ProductListRes_new (list_entity t p)).
Proof.
  intros Hok Hp. pose proof (po_rows _ _ _ (co_products _ Hok)) as Hrows. rewrite Forall_forall in Hrows.
  destruct (Hrows p Hp) as (_ & Hc & Hb). split.
  - done.
  - simpl. unfold category_of. destruct (pd_category_id p) as [id|]; [|done]. simpl. split; [done|].
    specialize (Hc id eq_refl). apply list_elem_of_fmap in Hc as (c & -> & Hc).
    destruct (List.find (is_category (ca_id c)) (categories t)) as [c'|] eqn:E.
    + apply find_some in E as [Hin E%bool_decide_eq_true]. exists c'. rewrite list_elem_of_In. by split_and!.
    + eapply find_none in E; [|by apply list_elem_of_In]. by apply bool_decide_eq_false in E.
  - simpl. unfold brand_of. destruct (pd_brand_id p) as [id|]; [|done]. simpl. split; [done|].
    specialize (Hb id eq_refl). apply list_elem_of_fmap in Hb as (b & -> & Hb).
    destruct (List.find (is_brand (br_id b)) (brands t)) as [b'|] eqn:E.
    + apply find_some in E as [Hin E%bool_decide_eq_true]. exists b'. rewrite list_elem_of_In. by split_and!.
    + eapply find_none in E; [|by apply list_elem_of_In]. by apply bool_decide_eq_false in E.
  - simpl. unfold first_image. set (l := sort_scan _).
    assert (∀ i, i ∈ l ↔ i ∈ images t ∧ im_product_id i = pd_id p) as Hl.
    { intros i. unfold l. rewrite sort_scan_perm, list_elem_of_In, filter_In, <-list_elem_of_In.
      unfold of_product. by rewrite bool_decide_eq_true. }
    pose proof (order_by_head im_sort_order l) as Hh. destruct (head _) as [i|]; simpl.
    + destruct Hh as [[Hi Hpi]%Hl Hmin]. exists i. split_and!; try done. intros j Hj Hpj. apply Hmin, Hl. done.
    + intros i Hi Hpi. apply (not_elem_of_nil i). rewrite <-Hh. by apply Hl.
Qed.

(** C15: The public list is complete. When no statement is lost, a client that asks for pages of
    one to a hundred products and sends the cursor it was given ends after at most one page
    more than there are products to see, and has then seen, once each and in the order of the
    identifiers, exactly the live active products of the category, of the brand, within the prices
    and with the name that are asked for - the status that is asked for does not matter, and a
    blank search is none - with the names of their category and brand and their first image. *)
Theorem active_products_browsed q limit s :
  catalog_ok (d_committed s) → e_faults (d_env s) = [] → (0 < limit ≤ 100)%nat →
  ∃ ps pages s', browse (S (length ps)) limit None q s = (Ok pages, s') ∧
    (∀ p, p ∈ ps ↔ p ∈ products (d_committed s) ∧ wanted q p) ∧ ascending pd_id ps ∧
    Forall2 (listed (d_committed s)) ps (concat pages) ∧
    Forall (λ page, length page ≤ limit)%nat pages.
Proof.
  intros Hok Hf [Hl0 Hl]. set (t := d_committed s) in *. set (ps := order_by (key pd_id) (List.filter (shown q) (products t))).
  assert (NoDup (pl_id <$> shown_rows q t)) as Hid.
  { unfold shown_rows. rewrite <-list_fmap_compose. eapply sublist_NoDup; [apply (po_ids _ _ _ (co_products _ Hok))|].
    apply (fmap_sublist pd_id), filter_sublist. }
  assert (length ps = length (shown_rows q t)) as Hlen.
  { unfold ps, shown_rows. by rewrite order_by_perm, length_fmap. }
  destruct (walk_spec pl_id limit (shown_rows q t) (S (length ps)) None Hid Hl0) as (pages & Hw & Hc & Hle & _).
  { rewrite after_none. unfold ordered. rewrite order_by_perm, Hlen. lia. }
  destruct (browse_walk _ _ _ _ _ _ Hf Hl Hw) as (s' & E). exists ps, (List.map (List.map ProductListRes_new) pages), s'.
  assert (∀ p, p ∈ ps ↔ p ∈ products t ∧ shown q p = true) as Hps by apply elem_of_selected.
  split_and!; [done| | | |].
  - intros p. by rewrite Hps, shown_wanted.
  - apply ascending_filter, (po_ids _ _ _ (co_products _ Hok)).
  - assert (concat (List.map (List.map ProductListRes_new) pages) = ProductListRes_new ∘ list_entity t <$> ps) as ->.
    { rewrite <-concat_map, Hc, after_none. unfold ordered, shown_rows.
      rewrite (order_by_fmap (list_entity t) (key pd_id) (key pl_id)) by done. by rewrite list_fmap_compose. }
    apply Forall2_fmap_r, Forall_Forall2_diag, Forall_forall. intros p [Hp _]%Hps. by apply listed_entity.
  - apply (Forall_fmap (List.map ProductListRes_new)). eapply Forall_impl; [exact Hle|]. intros p Hp. simpl.
    by rewrite length_map.
Qed.
End pages.

Section updates.
Context `{Externals}.

(** An update of the one row with an identifier. *)
Lemma update_only_row {A} (id : A → Uuid) (p : A → bool) (f : A → outcome sql_error A) l x x' :
  NoDup (id <$> l) → x ∈ l → (∀ y, p y = true → id y = id x) → p x = true → f x = Ok x' →
  update_checked p f l = Ok (1%nat, (λ y, if bool_decide (id y = id x) then x' else y) <$> l).
Proof.
  intros Hid Hx Hp Hpx Hf. induction l as [|y l IH]; [by apply elem_of_nil in Hx|].
  rewrite fmap_cons in Hid. apply NoDup_cons in Hid as [Hy Hid]. cbn [update_checked]. rewrite fmap_cons.
  apply elem_of_cons in Hx as [->|Hx].
  - rewrite Hpx, Hf. simpl. rewrite bool_decide_true by done.
    assert (∀ k, (id y ∉ (id <$> k)) → update_checked p f k = Ok (0%nat, k) ∧
      (λ z, if bool_decide (id z = id y) then x' else z) <$> k = k) as Hno.
    { induction k as [|z k IHk]; [done|]. rewrite fmap_cons. intros [Hz Hk]%not_elem_of_cons.
      destruct (IHk Hk) as [E1 E2]. cbn [update_checked]. rewrite fmap_cons, E2, E1.
      rewrite bool_decide_false by congruence. destruct (p z) eqn:Ez; [apply Hp in Ez; congruence|done]. }
    destruct (Hno l Hy) as [-> ->]. done.
  - destruct (p y) eqn:Ey.
    { apply Hp in Ey. destruct Hy. rewrite Ey. by apply list_elem_of_fmap_2. }
    rewrite IH by done. simpl. rewrite bool_decide_false; [done|].
    intros E. destruct Hy. rewrite E. by apply list_elem_of_fmap_2.
Qed.
Lemma update_row_fails {A} (p : A → bool) (f : A → outcome sql_error A) l x e :
  (∀ y, y ∈ l → p y = true → f y = Err e) → x ∈ l → p x = true → update_checked p f l = Err e.
Proof.
  intros Hf Hx Hp. induction l as [|y l IH]; [by apply elem_of_nil in Hx|]. cbn [update_checked].
  destruct (p y) eqn:Ey; [by rewrite Hf by (by left || done)|].
  apply elem_of_cons in Hx as [->|Hx]; [congruence|]. rewrite IH; [done| |done]. intros z Hz. apply Hf. by right.
Qed.
End updates.

Section stock.
Context `{ShopCodec, !UnicodeApi, !UuidOrder, !ShopOrders, !PgText} `{RedisStringLaws}.
Implicit Types (s : db catalog_tables redis) (t : catalog_tables) (k : SkuRow).

Lemma evict_calm {E} state id s :
  ∃ s', on_cache (E := E) (evict state id) s = (Ok tt, s') ∧ d_committed s' = d_committed s ∧ d_env s' = d_env s.
Proof.
  unfold on_cache, zoom. destruct (evict state id (d_ext s)) as [o r] eqn:Ee.
  apply evict_spec in Ee as (-> & _). by eexists.
Qed.

(** The owner of a SKU is let through. *)
Lemma owned_sku_calm user id k p s :
  e_faults (d_env s) = [] → find_sku id (d_committed s) = Some k → owns user (sku_product_id k) (d_committed s) p →
  ∃ s', owned_sku user id s = (Ok k, s') ∧ d_committed s' = d_committed s ∧ e_faults (d_env s') = [] ∧
    e_now (d_env s') = e_now (d_env s).
Proof.
  intros Hf Hk [Hp Hm]. unfold owned_sku, owned_product.
  destruct (pool_read_calm (find_sku id) (not_found "SKU not found: ") s Hf) as (s1 & E1 & Hs1 & _ & Hn1 & Hf1).
  unfold mbind at 1, M_bind at 1. unfold get_sku_by_id. rewrite E1, Hk.
  destruct (pool_read_calm (find_product (is_product (sku_product_id k))) (not_found "Product not found: ") s1 Hf1)
    as (s2 & E2 & Hs2 & _ & Hn2 & Hf2).
  unfold mbind, M_bind, get_product_by_id. rewrite E2, Hs1. unfold find_product.
  unfold live_product_id in Hp. rewrite Hp. simpl. unfold lift.
  rewrite (proj2 (require_access_ok user (pd_seller_id p) tt) Hm). eexists. split; [reflexivity|].
  split_and!; congruence.
Qed.

Definition with_stock k (stock now : Z) : SkuRow := with_quantities stock (reserved_quantity k) now k.
Lemma set_quantities_calm stock reserved now k :
  0 ≤ stock < 2 ^ 31 → 0 ≤ reserved < 2 ^ 31 →
  set_quantities stock reserved now k = Ok (with_quantities stock reserved now k).
Proof.
  intros Hs Hr. unfold set_quantities, int4, check_constraint.
  rewrite !(proj2 (Z.leb_le (- 2 ^ 31) _)), !(proj2 (Z.ltb_lt _ (2 ^ 31))) by lia. simpl.
  rewrite !(proj2 (Z.leb_le 0 _)) by lia. done.
Qed.

(** The request of the seller takes the stock down, whatever is reserved. *)
Lemma adjust_stock_calm state user id delta k p s :
  catalog_ok (d_committed s) → e_faults (d_env s) = [] →
  find_sku id (d_committed s) = Some k → owns user (sku_product_id k) (d_committed s) p →
  delta ≠ 0 → - 10000 ≤ delta ≤ 10000 → 0 ≤ stock_quantity k + delta < 2 ^ 31 → 0 ≤ reserved_quantity k < 2 ^ 31 →
  ∃ s', handle state (AdjustStock user id {| as_delta := delta |}) s = (Ok tt, s') ∧
    e_faults (d_env s') = [] ∧
    d_committed s' = set_skus ((λ y, if bool_decide (sku_id y = sku_id k)
      then with_stock k (stock_quantity k + delta) (e_now (d_env s)) else y) <$> ct_skus (d_committed s)) (d_committed s).
Proof.
  intros Hok Hf Hk Ho Hz Hd Hst Hres. simpl. unfold route_adjust_stock, adjust_stock_svc. simpl.
  destruct (Z.eqb_spec delta 0) as [|_]; [done|].
  assert (i32_abs delta = Z.abs delta) as ->.
  { unfold i32_abs, as_i32. rewrite Z.mod_small; lia. }
  destruct (Z.ltb_spec 10000 (Z.abs delta)); [lia|].
  destruct (owned_sku_calm user id k p s Hf Hk Ho) as (s1 & E1 & Hs1 & Hf1 & Hn1).
  unfold mbind at 1, M_bind at 1. rewrite E1.
  pose proof Hk as [Hin Hlive]%find_some. apply list_elem_of_In in Hin.
  pose proof Hlive as [Eid _]%live_sku_iff.
  assert (∀ id', adjust_stmt id delta (e_now (d_env s1)) id' (d_committed s1) = Ok (1%nat,
    set_skus ((λ y, if bool_decide (sku_id y = sku_id k) then with_stock k (stock_quantity k + delta) (e_now (d_env s))
      else y) <$> ct_skus (d_committed s)) (d_committed s))) as Hx.
  { intros id'. unfold adjust_stmt, update_skus. rewrite Hs1, Hn1.
    rewrite (update_only_row sku_id _ _ _ k (with_stock k (stock_quantity k + delta) (e_now (d_env s)))); [done|..].
    - apply (co_inventory _ Hok).
    - done.
    - intros y [[Ey _]%live_sku_iff _]%andb_true_iff. congruence.
    - rewrite Hlive. simpl. apply Z.leb_le. lia.
    - by apply set_quantities_calm. }
  destruct (one_row_calm "Failed to adjust stock: " _ (internal "Failed to adjust stock: ")
    (BadRequest "SKU not found or insufficient stock") s1 _ Hf1 Hx) as (s2 & E2 & Hs2 & _ & Hf2 & Hn2).
  unfold mbind, M_bind in *. unfold adjust_stock. unfold mbind, M_bind. rewrite E2.
  destruct (evict_calm (E := AppError) (ap_cache state) (product_detail_key (sku_product_id k)) s2) as (s3 & E3 & Hs3 & He3).
  exists s3. unfold evict_detail. rewrite E3. split_and!; [done|by rewrite He3|by rewrite Hs3].
Qed.

(** Confirming a reservation of more than the stock. *)
Lemma confirm_refused oid sku q r k (s : db catalog_tables unit) :
  e_faults (d_env s) = [] → NoDup (sku_id <$> ct_skus (d_committed s)) →
  find_reserved oid sku (d_committed s) = Some r → k ∈ ct_skus (d_committed s) → live_sku sku k = true →
  0 ≤ stock_quantity k < rs_quantity r → rs_quantity r ≤ reserved_quantity k < 2 ^ 31 → rs_quantity r < 2 ^ 31 →
  ∃ s' : db catalog_tables unit, confirm_for_order oid [(sku, q)] s =
    (Err (InternalServerError ("Failed to confirm inventory: " +:+
       app_error_display (confirm_error sku (CheckViolation "chk_skus_stock")))), s') ∧
    d_committed s' = d_committed s.
Proof.
  intros Hf Hid Hr Hk Hlive Hst Hres Hq.
  assert (∀ now id, confirm_stmt sku (rs_quantity r) now id (d_committed s) = Err (CheckViolation "chk_skus_stock")) as Hx.
  { intros now id. unfold confirm_stmt, update_skus. rewrite (update_row_fails _ _ _ k (CheckViolation "chk_skus_stock"));
      [done| |done|done]. intros y Hy El. apply live_sku_iff in El as [Ey _]. pose proof Hlive as [Ek _]%live_sku_iff.
    assert (y = k) as -> by (eapply NoDup_fmap_inj_in; [exact Hid|done|done|congruence]).
    unfold set_quantities, int4, check_constraint.
    rewrite !(proj2 (Z.leb_le (- 2 ^ 31) _)), !(proj2 (Z.ltb_lt _ (2 ^ 31))) by lia. simpl.
    rewrite (proj2 (Z.leb_le 0 (reserved_quantity k - rs_quantity r))) by lia. simpl.
    rewrite (proj2 (Z.leb_gt 0 (stock_quantity k - rs_quantity r))) by lia. done. }
  unfold confirm_for_order, with_transaction, begin_tx, pop_fault, map_err at 1. rewrite Hf.
  cbn [for_each]. unfold mbind at 1, M_bind at 1. unfold confirm_reservation, find_reservation, fetch_one, query.
  unfold map_err at 1, mbind, M_bind, map_err. rewrite exec_calm by done. simpl. rewrite Hr. simpl.
  rewrite exec_calm by done. simpl. rewrite Hx. by eexists.
Qed.

(** A reservation that is open is no more than what is reserved. *)
Lemma reservation_within oid sku r k t : inventory_ok t →
  find_reserved oid sku t = Some r → k ∈ ct_skus t → live_sku sku k = true → rs_quantity r ≤ reserved_quantity k.
Proof.
  intros (_ & (_ & _ & Hq) & Hk) Hr Hin [<- Hlive]%live_sku_iff.
  rewrite Forall_forall in Hk. rewrite (Hk k Hin Hlive). clear Hk Hin Hlive.
  unfold find_reserved in Hr. induction (ct_reservations t) as [|x l IH]; [done|].
  apply Forall_cons in Hq as [Hx Hq]. pose proof (open_quantity_nonneg (sku_id k) l Hq).
  unfold open_quantity in *. cbn [List.find List.filter] in *.
  destruct (of_order oid x); simpl in Hr.
  - destruct (bool_decide (rs_sku_id x = sku_id k) && is_reserved x).
    + simplify_eq. rewrite fmap_cons, zsum_cons. lia.
    + by apply IH.
  - destruct (bool_decide (rs_sku_id x = sku_id k) && is_reserved x).
    + rewrite fmap_cons, zsum_cons. specialize (IH Hq Hr). lia.
    + by apply IH.
Qed.

(** The row of the SKU after its stock was set. *)
Lemma find_restocked id k stock now t :
  NoDup (sku_id <$> ct_skus t) → find_sku id t = Some k →
  find_sku id (set_skus ((λ y, if bool_decide (sku_id y = sku_id k) then with_stock k stock now else y) <$> ct_skus t) t) =
    Some (with_stock k stock now).
Proof.
  unfold find_sku. simpl. induction (ct_skus t) as [|y l IH]; [done|]. rewrite !fmap_cons.
  intros [Hy Hn]%NoDup_cons. cbn [List.find]. destruct (live_sku id y) eqn:Ey.
  - intros [= ->]. rewrite bool_decide_true by done.
    apply live_sku_iff in Ey as [Ei El]. rewrite (proj2 (live_sku_iff id _)); [done|]. by split.
  - intros Hk. destruct (bool_decide_reflect (sku_id y = sku_id k)) as [E|_]; [|rewrite Ey; by apply IH].
    destruct Hy. rewrite E. apply find_some in Hk as [Hk _]. by apply list_elem_of_fmap_2, list_elem_of_In.
Qed.

(** C16: The stock of a SKU can be taken from under its reservations. In well-formed tables,
    without faults, the owner of a SKU takes its stock below what an order has reserved: the
    request succeeds, the reserved quantity stays what it was and the tables stay well formed;
    the confirmation of the paid order then fails with the error made for this case and leaves
    everything as it is. *)
Theorem stock_reduced_confirm_refused state user id delta k p r q oid s o s1 :
  catalog_ok (d_committed s) → e_faults (d_env s) = [] →
  find_sku id (d_committed s) = Some k → owns user (sku_product_id k) (d_committed s) p →
  find_reserved oid id (d_committed s) = Some r →
  delta ≠ 0 → - 10000 ≤ delta ≤ 10000 → 0 ≤ stock_quantity k + delta < rs_quantity r → reserved_quantity k < 2 ^ 31 →
  handle state (AdjustStock user id {| as_delta := delta |}) s = (o, s1) →
  o = Ok tt ∧ catalog_ok (d_committed s1) ∧
  (∃ k', find_sku id (d_committed s1) = Some k' ∧ stock_quantity k' = stock_quantity k + delta ∧
    reserved_quantity k' = reserved_quantity k) ∧
  ∃ s2 : db catalog_tables unit, confirm_for_order oid [(id, q)] (MkDb (d_committed s1) (d_env s1) tt) =
    (Err (InternalServerError ("Failed to confirm inventory: " +:+
       app_error_display (confirm_error id (CheckViolation "chk_skus_stock")))), s2) ∧
    d_committed s2 = d_committed s1.
Proof.
  intros Hok Hf Hk Ho Hr Hz Hd Hst Hres Hrun. pose proof Hk as [Hin%list_elem_of_In Hlive]%find_some.
  pose proof (reservation_within oid id r k _ (co_inventory _ Hok) Hr Hin Hlive).
  destruct (adjust_stock_calm state user id delta k p s Hok Hf Hk Ho Hz Hd) as (s1' & E & Hf1 & Hs1); [lia..|].
  rewrite Hrun in E. injection E as -> <-.
  assert (catalog_ok (d_committed s1)) as Hok1.
  { apply catalog_request_stepped in Hrun as [[->|He] _]; [done|by eapply effect_catalog_ok]. }
  pose proof (find_restocked id k (stock_quantity k + delta) (e_now (d_env s)) _ (proj1 (co_inventory _ Hok)) Hk) as Hk1.
  rewrite <-Hs1 in Hk1. split_and!; [done|done|by eexists|].
  pose proof Hk1 as [Hin1%list_elem_of_In Hlive1]%find_some.
  apply (confirm_refused oid id q r (with_stock k (stock_quantity k + delta) (e_now (d_env s)))
    (MkDb (d_committed s1) (d_env s1) tt)); simpl; [done|by apply (co_inventory _ Hok1)| |done|done|lia|lia|lia].
  by rewrite Hs1.
Qed.
End stock.
