(* ===== verification/ShopWitness.v ===== *)
(** * Catalog service: concrete runs

    The theorems of the catalog service applied to runs on computable third-party components: an
    administrator builds the shelves, a seller lists a mug, an order reserves it. *)

From S2P Require Import Prelude RustStr Externals Sample Errors NewTypes Regex Auth Events Db Requests Outbox Consumer Pagination.
From S2P Require Import Redis Labels ShopTables Inventory InventoryProps InventorySpec ShopTypes CategoryRepo ProductRepo CategoryService ProductService.
From S2P Require Import ShopProps ShopRoutes CategoryTree ShopSteps ShopTheorems ShopAnswers.

Local Open Scope Z_scope.

#[local] Existing Instance sample.
#[local] Existing Instance sample_unicode.
#[local] Existing Instance sample_order.
#[local] Existing Instance sample_jwt.

(** ** The components *)

(** A serializer that always fails: no page is cached, every read goes to the tables. *)
#[local] Instance sample_shop_codec : ShopCodec.
Proof.
  refine {| product_to_json _ := None; product_of_json _ := None; detail_to_json _ := None; detail_of_json _ := None;
            agg_skus _ := jnull; agg_images _ := jnull; skus_from_value _ := inl []; images_from_value _ := inl [] |};
  done.
Defined.
#[local] Instance sample_shop_orders : ShopOrders := {|
  so_categories := table_order CategoryRow; so_skus := table_order SkuRow;
  so_images := table_order ProductImageEntity |}.
#[local] Instance sample_pg_text : PgText := {| ilike s p := bool_decide (p = "%" +:+ s +:+ "%") |}.
#[local] Instance shop_redis : RedisApi := sample_redis (λ _ _ _ m, (0, m)).
#[local] Instance shop_redis_view : RedisView := sample_redis_view (λ _ _ _ m, (0, m)).
#[local] Instance shop_redis_laws : RedisStringLaws := sample_redis_string_laws (λ _ _ _ m, (0, m)).

(** ** The shelves *)

Abbreviation world := (db catalog_tables redis).
Definition empty_catalog : catalog_tables := MkCatalogTables [] [] [] [] (MkShopTables [] [] [] [] []).
Definition empty_shop : world := MkDb empty_catalog (MkEnv 1000 1 []) (MkStore ∅ ∅ : redis).
Definition app : AppState := AppState_new true.
Definition admin : CurrentUser := {| cu_id := ("admin" : string); cu_role := Admin |}.
Definition seller : CurrentUser := {| cu_id := ("seller" : string); cu_role := Seller |}.
Definition rival : CurrentUser := {| cu_id := ("rival" : string); cu_role := Seller |}.
Definition ask (rqs : list catalog_request) : list catalog_op := ShopOp app <$> rqs.

Definition new_category (name : string) (parent : option Uuid) : CreateCategoryReq := {|
  cc_name := name; cc_slug := None; cc_parent_id := parent; cc_description := None |}.
Definition first_id {A} (f : A → Uuid) (l : list A) : Uuid := default ("" : string) (f <$> head l).

Definition kitchen_ops : list catalog_op := ask [CreateCategory admin (new_category "Kitchen & Dining" None)].
Definition kitchen_world : world := catalog_run kitchen_ops empty_shop.
Definition kitchen : Uuid := first_id ca_id (categories (d_committed kitchen_world)).
Definition shelf_ops : list catalog_op := ask
  [CreateCategory admin (new_category "Mugs" (Some kitchen));
   CreateCategory seller (new_category "Mine" None);
   CreateCategory admin (new_category "mugs" None);
   CreateBrand admin {| cb_name := "Acme"; cb_slug := None; cb_description := None; cb_logo_url := None |}].
Definition shelves : world := catalog_run shelf_ops kitchen_world.
Definition mug_category : Uuid := first_id ca_id (tail (categories (d_committed shelves))).
Definition acme : Uuid := first_id br_id (brands (d_committed shelves)).

Definition mug_req (slug : option string) : CreateProductReq := {|
  cp_name := "Blue Mug"; cp_slug := slug; cp_description := None; cp_base_price := dec_new 700 2;
  cp_currency := None; cp_category_id := Some mug_category; cp_brand_id := Some acme |}.
(** The association comes first: until then the product is refused. *)
Definition stall_ops : list catalog_op := ask
  [CreateProduct seller (mug_req None); AssociateCategory admin acme mug_category;
   CreateProduct seller (mug_req None); CreateProduct rival (mug_req (Some "red-mug"))].
Definition stall : world := catalog_run stall_ops shelves.
Definition mug : Uuid := first_id pd_id (products (d_committed stall)).
Definition mug_sku : CreateSkuReq := {|
  cs_sku_code := "MUG-1"; cs_price := dec_new 700 2; cs_stock_quantity := 10; cs_attributes := None |}.
Definition picture (primary : bool) : AddProductImageReq := {|
  ai_url := "https://img.example.com/mug.png"; ai_alt_text := None; ai_sort_order := None;
  ai_is_primary := Some primary |}.
Definition no_update : UpdateProductReq := {|
  up_name := None; up_slug := None; up_description := None; up_base_price := None; up_currency := None;
  up_category_id := None; up_brand_id := None; up_status := Some PdActive |}.
Definition open_ops : list catalog_op := ask
  [UpdateProduct seller mug no_update; CreateSku seller mug mug_sku; CreateSku rival mug mug_sku;
   AddImage seller mug (picture true); AddImage seller mug (picture true); DeleteCategory admin kitchen].
Definition open_shop : world := catalog_run open_ops stall.
Definition mug_row : Uuid := first_id sku_id (ct_skus (d_committed open_shop)).
Definition order_ops : list catalog_op :=
  [InventoryOp (OpReserve ("order-1" : string) ("buyer" : string) "42" "USD" [(mug_row, 6)])].
Definition ordered : world := catalog_run order_ops open_shop.

Lemma empty_catalog_ok : catalog_ok empty_catalog.
Proof.
  split; [split|split|split|split|split|split_and!| |split; [|split; [split_and!|]]]; simpl; unfold one_primary;
    try (apply NoDup_nil; exact I); try apply Forall_nil; try exact I; intros;
    by match goal with Hin : ?x ∈ _ |- _ => exfalso; exact (not_elem_of_nil x Hin) end.
Qed.
Lemma kitchen_world_ok : catalog_ok (d_committed kitchen_world).
Proof. apply catalog_run_ok, empty_catalog_ok. Qed.
Lemma shelves_ok : catalog_ok (d_committed shelves).
Proof. apply catalog_run_ok, kitchen_world_ok. Qed.
Lemma stall_ok : catalog_ok (d_committed stall).
Proof. apply catalog_run_ok, shelves_ok. Qed.
Lemma open_shop_ok : catalog_ok (d_committed open_shop).
Proof. apply catalog_run_ok, stall_ok. Qed.
Lemma ordered_ok : catalog_ok (d_committed ordered).
Proof. apply catalog_run_ok, open_shop_ok. Qed.

(** ** What the runs made *)

Lemma catalog_invariant_witness :
  ca_slug <$> categories (d_committed ordered) = ["kitchen-dining"; "mugs"] ∧
  (λ c, ltree_text (ca_path c)) <$> categories (d_committed ordered) = ["kitchen_dining"; "kitchen_dining.mugs"] ∧
  pd_slug <$> products (d_committed ordered) = ["blue-mug"; "red-mug"] ∧
  im_is_primary <$> images (d_committed ordered) = [false; true] ∧
  (stock_quantity <$> ct_skus (d_committed ordered)) = [10] ∧
  (reserved_quantity <$> ct_skus (d_committed ordered)) = [6] ∧
  catalog_ok (d_committed (catalog_run (kitchen_ops ++ shelf_ops ++ stall_ops ++ open_ops ++ order_ops) empty_shop)).
Proof.
  split; [vm_compute; reflexivity|]. split; [vm_compute; reflexivity|]. split; [vm_compute; reflexivity|].
  split; [vm_compute; reflexivity|]. split; [vm_compute; reflexivity|]. split; [vm_compute; reflexivity|].
  exact (catalog_invariant (kitchen_ops ++ shelf_ops ++ stall_ops ++ open_ops ++ order_ops) empty_shop empty_catalog_ok).
Defined.


Definition blank_category : CategoryRow := {|
  ca_id := ("" : string); ca_created_at := 0; ca_updated_at := None; ca_name := ""; ca_slug := ""; ca_path := [];
  ca_parent_id := None; ca_depth := 0; ca_description := None |}.
Definition mugs_row : CategoryRow :=
  default blank_category (List.find (is_category mug_category) (categories (d_committed ordered))).
Lemma mugs_found : List.find (is_category mug_category) (categories (d_committed ordered)) = Some mugs_row.
Proof. apply some_default. vm_compute. reflexivity. Qed.
Lemma ordered_quiet : e_faults (d_env ordered) = [].
Proof. vm_compute. reflexivity. Qed.

Lemma category_hierarchy_witness :
  ca_depth mugs_row = 1 ∧
  (∃ rows s', get_ancestors_svc mug_category ordered =
     (Ok ((λ d, CategoryRes_new (category_entity d)) <$> rows), s') ∧ ca_depth <$> rows = seqZ 0 2).
Proof.
  assert (ca_depth mugs_row = 1) as Hd by (vm_compute; reflexivity). split; [exact Hd|].
  destruct (category_hierarchy mug_category mugs_row ordered (co_tree _ ordered_ok) ordered_quiet mugs_found)
    as [(rows & s' & E & _ & Hr) _].
  exists rows, s'. split; [exact E|]. rewrite Hd in Hr. exact Hr.
Defined.

(** The administrator renames a category and the answer of the commit is lost. *)
Definition rename : catalog_request := UpdateCategory admin kitchen {| uc_name := Some "Dining"; uc_description := None |}.
Definition unlucky : world :=
  MkDb (d_committed ordered) (MkEnv 2000 50 [FNone; FNone; FNone; FAfter]) (d_ext ordered).
Definition renamed := handle app rename unlucky.
Lemma catalog_refines_witness :
  is_ok renamed.1 = false ∧ ca_name <$> categories (d_committed renamed.2) = ["Dining"; "Mugs"] ∧
  (d_committed renamed.2 = d_committed unlucky ∨ effect (e_now (d_env unlucky)) rename (d_committed unlucky) (d_committed renamed.2)).
Proof.
  split; [vm_compute; reflexivity|]. split; [vm_compute; reflexivity|].
  exact (proj1 (catalog_refines app rename unlucky renamed.1 renamed.2 (surjective_pairing _))).
Defined.

(** Another seller tries to take the stock of the mug, then somebody with an old token of the
    owner, then the owner. *)
Definition secrets : AuthConfig := {| access_token_secret := "a"; refresh_token_secret := "r";
  access_token_expiry_secs := 900; refresh_token_expiry_secs := 86400 |}.
Definition header_of (user : CurrentUser) (issued : Z) : option (option string) :=
  match generate_access_token secrets issued (cu_id user) "name" (cu_role user) with
  | Ok t => Some (Some ("Bearer " +:+ t))
  | _ => None
  end.
Definition take_stock (header : option (option string)) (delta : Z) :=
  catalog_app app secrets 2000 header (OnProducts (RqAdjustStock mug_row {| as_delta := delta |})) ordered.
Definition theft := take_stock (header_of rival 1500) (-3).
Definition replay := take_stock (header_of seller 1000) (-3).
Definition taken := take_stock (header_of seller 1500) (-8).
Lemma catalog_authorized_witness :
  [is_ok theft.1; is_ok replay.1; is_ok taken.1] = [false; false; true] ∧
  (stock_quantity <$> ct_skus (d_committed theft.2)) = [10] ∧ (stock_quantity <$> ct_skus (d_committed taken.2)) = [2] ∧
  authorized (bearer secrets 2000 (header_of rival 1500)) (d_committed ordered) (d_committed theft.2) ∧
  authorized (bearer secrets 2000 (header_of seller 1500)) (d_committed ordered) (d_committed taken.2).
Proof.
  split; [vm_compute; reflexivity|]. split; [vm_compute; reflexivity|]. split; [vm_compute; reflexivity|].
  split; [exact (catalog_authorized app secrets 2000 _ _ ordered theft.1 theft.2 ordered_ok (surjective_pairing _))|].
  exact (catalog_authorized app secrets 2000 _ _ ordered taken.1 taken.2 ordered_ok (surjective_pairing _)).
Defined.

Definition any_product : ProductFilterQuery := {|
  pf_limit := None; pf_cursor := None; pf_direction := None; pf_category_id := None; pf_brand_id := None;
  pf_min_price := None; pf_max_price := Some (dec_new 10 0); pf_search := Some " Blue Mug "; pf_status := None |}.
Lemma active_products_browsed_witness :
  (lp_slug <$> concat (match (browse 2 1 None any_product ordered).1 with Ok l => l | _ => [] end)) = ["blue-mug"] ∧
  ∃ ps pages s', browse (S (length ps)) 1 None any_product ordered = (Ok pages, s') ∧
    Forall2 (listed (d_committed ordered)) ps (concat pages) ∧ Forall (λ page, length page ≤ 1)%nat pages.
Proof.
  split; [vm_compute; reflexivity|].
  destruct (active_products_browsed any_product 1 ordered ordered_ok ordered_quiet) as (ps & pages & s' & E & _ & _ & Hli & Hl);
    [split; [apply Nat.lt_0_1|apply (proj1 (Nat.leb_le 1 100)); reflexivity]|].
  exists ps, pages, s'. split; [exact E|]. split; [exact Hli|exact Hl].
Defined.

Definition blank_sku : SkuRow :=
  MkSku ("" : string) 0 None None ("" : string) "" (dec_new 0 0) 0 0 (jobj []) SkActive.
Definition the_sku : SkuRow := default blank_sku (find_sku mug_row (d_committed ordered)).
Lemma the_sku_found : find_sku mug_row (d_committed ordered) = Some the_sku.
Proof. apply some_default. vm_compute. reflexivity. Qed.
Definition blank_product : ProductRow := {|
  pd_id := ("" : string); pd_created_at := 0; pd_updated_at := None; pd_deleted_at := None; pd_seller_id := ("" : string);
  pd_name := ""; pd_slug := ""; pd_description := None; pd_base_price := dec_new 0 0; pd_currency := "";
  pd_category_id := None; pd_brand_id := None; pd_status := PdDraft |}.
Definition the_product : ProductRow :=
  default blank_product (List.find (live_product_id (sku_product_id the_sku)) (products (d_committed ordered))).
Lemma the_product_owned : owns seller (sku_product_id the_sku) (d_committed ordered) the_product.
Proof. split; [apply some_default; vm_compute; reflexivity|left; vm_compute; reflexivity]. Qed.
Definition blank_reservation : InventoryReservationEntity :=
  MkReservation ("" : string) 0 ("" : string) ("" : string) 0 Released None None.
Definition the_reservation : InventoryReservationEntity :=
  default blank_reservation (find_reserved ("order-1" : string) mug_row (d_committed ordered)).
Lemma the_reservation_found : find_reserved ("order-1" : string) mug_row (d_committed ordered) = Some the_reservation.
Proof. apply some_default. vm_compute. reflexivity. Qed.
Lemma the_quantities :
  stock_quantity the_sku = 10 ∧ reserved_quantity the_sku = 6 ∧ rs_quantity the_reservation = 6.
Proof. split_and!; vm_compute; reflexivity. Qed.

Definition reduced := handle app (AdjustStock seller mug_row {| as_delta := -8 |}) ordered.
Lemma stock_reduced_confirm_refused_witness :
  stock_quantity the_sku = 10 ∧ rs_quantity the_reservation = 6 ∧ reduced.1 = Ok tt ∧
  ∃ k', find_sku mug_row (d_committed reduced.2) = Some k' ∧ stock_quantity k' = 2 ∧ reserved_quantity k' = 6.
Proof.
  destruct the_quantities as (Hs & Hr & Hq). split; [exact Hs|]. split; [exact Hq|].
  destruct (stock_reduced_confirm_refused app seller mug_row (-8) the_sku the_product the_reservation 6
    ("order-1" : string) ordered reduced.1 reduced.2) as (Ho & _ & (k' & Hk & Hst & Hre) & _).
  - exact ordered_ok.
  - exact ordered_quiet.
  - exact the_sku_found.
  - exact the_product_owned.
  - exact the_reservation_found.
  - lia.
  - lia.
  - rewrite Hs, Hq. lia.
  - rewrite Hr. lia.
  - exact (surjective_pairing _).
  - split; [exact Ho|]. exists k'. split; [exact Hk|]. rewrite Hst, Hre, Hs, Hr. split; reflexivity.
Defined.

(** Six mugs are reserved, a second order does not fit, and the owner takes eight of the ten. *)
Definition oversold_ops : list catalog_op := order_ops ++
  [InventoryOp (OpReserve ("order-2" : string) ("buyer" : string) "42" "USD" [(mug_row, 6)]);
   ShopOp app (AdjustStock seller mug_row {| as_delta := -8 |})].
Definition oversold : world := catalog_run oversold_ops open_shop.
Lemma mug_within : within mug_row (d_committed open_shop).
Proof. apply (bool_decide_unpack _). vm_compute. exact I. Qed.
Lemma mug_oversold : within mug_row (d_committed oversold) → False.
Proof.
  intros Hin. refine (bool_decide_eq_false_1 (within mug_row (d_committed oversold)) _ Hin). vm_compute. reflexivity.
Qed.
Lemma inventory_invariant_witness :
  (av_available_quantity <$> sku_availability (d_committed oversold)) = [-4] ∧
  (stock_quantity <$> ct_skus (d_committed oversold)) = [2] ∧
  (reserved_quantity <$> ct_skus (d_committed oversold)) = [6] ∧
  inventory_ok (d_committed oversold) ∧
  ∃ past state rq later, oversold_ops = past ++ ShopOp state rq :: later ∧
    took_stock mug_row rq (d_committed (catalog_run past open_shop))
      (d_committed (catalog_run (past ++ [ShopOp state rq]) open_shop)).
Proof.
  split; [vm_compute; reflexivity|]. split; [vm_compute; reflexivity|]. split; [vm_compute; reflexivity|].
  destruct (inventory_invariant oversold_ops open_shop open_shop_ok) as (Hi & _ & Hw). split; [exact Hi|].
  destruct (Hw mug_row mug_within) as [Hin|Ht]; [exact (False_ind _ (mug_oversold Hin))|exact Ht].
Defined.
