(* ===== verification/OrderTypes.v ===== *)
(** * Order service: values, rules and requests

    order/src/orders: value_objects.rs ([OrderStatus], [ShippingAddress],
    [IdempotencyKey], [Quantity]), error.rs, rules.rs, entities.rs and dtos.rs. *)

From S2P Require Import Prelude RustStr Externals Errors NewTypes Rules Auth.

(** ** OrderStatus *)

Inductive OrderStatus : Type :=
| StPending | StInventoryReserved | StPaymentAuthorized | StConfirmed
| StShipped | StDelivered | StCancelled | StReturned.
#[export] Instance OrderStatus_eq_dec : EqDecision OrderStatus.
Proof. solve_decision. Defined.

Definition order_status_str (s : OrderStatus) : string :=
  match s with
  | StPending => "pending"
  | StInventoryReserved => "inventory_reserved"
  | StPaymentAuthorized => "payment_authorized"
  | StConfirmed => "confirmed"
  | StShipped => "shipped"
  | StDelivered => "delivered"
  | StCancelled => "cancelled"
  | StReturned => "returned"
  end.

(** ** OrderError *)

Inductive OrderError : Type :=
| OrderValidationFailed (msg : string)
| OrderInvalidTransition (from to : OrderStatus)
| OrderCancellationDenied (msg : string)
| OrderNotFound (msg : string)
| OrderAccessDenied (msg : string)
| OrderInfra (e : AppError).

(** The arrow of the transition messages, U+2192 in UTF-8. *)
Definition arrow : string := " → ".
Definition transition_msg (from to : OrderStatus) : string :=
  "Invalid order status transition: " +:+ order_status_str from +:+ arrow +:+ order_status_str to.

Definition order_error_display (e : OrderError) : string :=
  match e with
  | OrderValidationFailed m => "Validation failed: " +:+ m
  | OrderInvalidTransition from to => transition_msg from to
  | OrderCancellationDenied m => "Cancellation denied: " +:+ m
  | OrderNotFound m => "Not found: " +:+ m
  | OrderAccessDenied m => "Access denied: " +:+ m
  | OrderInfra e => app_error_display e
  end.

(** [impl From<OrderError> for AppError] *)
Definition app_of_order_error (e : OrderError) : AppError :=
  match e with
  | OrderValidationFailed m => BadRequest m
  | OrderInvalidTransition from to => BadRequest (transition_msg from to)
  | OrderCancellationDenied m => BadRequest m
  | OrderNotFound m => NotFound m
  | OrderAccessDenied m => Forbidden m
  | OrderInfra e => e
  end.

(** ** The status machine *)

Definition transition_allowed (from to : OrderStatus) : bool :=
  match from, to with
  | StPending, (StInventoryReserved | StCancelled) => true
  | StInventoryReserved, (StPaymentAuthorized | StCancelled) => true
  | StPaymentAuthorized, (StConfirmed | StCancelled) => true
  | StConfirmed, (StShipped | StCancelled) => true
  | StShipped, (StDelivered | StCancelled) => true
  | StDelivered, StReturned => true
  | _, _ => false
  end.

Definition transition_to (self target : OrderStatus) : outcome OrderError OrderStatus :=
  if transition_allowed self target then Ok target
  else Err (OrderInvalidTransition self target).

Definition can_cancel (s : OrderStatus) : bool :=
  match s with
  | StPending | StInventoryReserved | StPaymentAuthorized | StConfirmed | StShipped => true
  | _ => false
  end.

Definition terminal (s : OrderStatus) : Prop := s = StCancelled ∨ s = StReturned.

Lemma transition_to_ok a b c : transition_to a b = Ok c ↔ transition_allowed a b = true ∧ c = b.
Proof. unfold transition_to. case_match; naive_solver. Qed.

Lemma can_cancel_allowed s : can_cancel s = transition_allowed s StCancelled.
Proof. by destruct s. Qed.

(** Progress of an order along its life cycle: every legal transition increases it, so
    no order goes through more than six of them. *)
Definition rank (s : OrderStatus) : nat :=
  match s with
  | StPending => 0 | StInventoryReserved => 1 | StPaymentAuthorized => 2 | StConfirmed => 3
  | StShipped => 4 | StDelivered => 5 | StCancelled => 6 | StReturned => 6
  end.

Lemma transition_rank a b : transition_allowed a b = true → rank a < rank b.
Proof. destruct a, b; simpl; intros; done || lia. Qed.

Lemma terminal_no_transition a b : terminal a → transition_allowed a b = false.
Proof. by intros [-> | ->]. Qed.

(** [steps a l b]: the statuses in [l] lead from [a] to [b] by legal transitions. *)
Fixpoint steps (a : OrderStatus) (l : list OrderStatus) (b : OrderStatus) : Prop :=
  match l with
  | [] => a = b
  | x :: l => transition_allowed a x = true ∧ steps x l b
  end.
Definition reaches (a b : OrderStatus) : Prop := ∃ l, steps a l b.

Lemma steps_app a b c l k : steps a l b → steps b k c → steps a (l ++ k) c.
Proof. revert a. induction l as [|x l IH]; simpl; intros a; [by intros -> |]. naive_solver. Qed.

#[export] Instance reaches_preorder : PreOrder reaches.
Proof.
  split.
  - intros a. by exists [].
  - intros a b c [l Hl] [k Hk]. exists (l ++ k). by eapply steps_app.
Qed.

Lemma steps_rank a l b : steps a l b → rank a + length l ≤ rank b.
Proof.
  revert a. induction l as [|x l IH]; simpl; intros a; [intros ->; lia|].
  intros [Hx%transition_rank Hl%IH]. lia.
Qed.

Lemma reaches_terminal a b : terminal a → reaches a b → b = a.
Proof.
  intros Ha [[|x l] Hl]; [done|]. destruct Hl as [Hx _].
  by rewrite terminal_no_transition in Hx.
Qed.

Section values.
Context `{Externals}.

(** ** ShippingAddress *)

Record ShippingAddress := {
  sa_street : string; sa_city : string; sa_state : string;
  sa_postal_code : string; sa_country : string }.
(** [ShippingAddressReq] has the same fields, before validation. *)
Definition ShippingAddressReq := ShippingAddress.

Definition MAX_STREET_LEN : nat := 500.
Definition MAX_CITY_LEN : nat := 200.
Definition MAX_POSTAL_CODE_LEN : nat := 20.
Definition MAX_COUNTRY_LEN : nat := 3.

Definition too_long (what : string) (max : nat) : AppError :=
  BadRequest (what +:+ " must not exceed " +:+ pretty max +:+ " characters").

Definition ShippingAddress_new (req : ShippingAddressReq) : outcome AppError ShippingAddress :=
  let street := trim (sa_street req) in
  let city := trim (sa_city req) in
  let state := trim (sa_state req) in
  let postal_code := trim (sa_postal_code req) in
  let country := trim (sa_country req) in
  if is_empty street || is_empty city || is_empty postal_code || is_empty country then
    Err (BadRequest
      "Shipping address fields (street, city, postal_code, country) must not be empty")
  else if MAX_STREET_LEN <? str_len street then Err (too_long "Street" MAX_STREET_LEN)
  else if MAX_CITY_LEN <? str_len city then Err (too_long "City" MAX_CITY_LEN)
  else if MAX_POSTAL_CODE_LEN <? str_len postal_code then
    Err (too_long "Postal code" MAX_POSTAL_CODE_LEN)
  else if MAX_COUNTRY_LEN <? str_len country then Err (too_long "Country" MAX_COUNTRY_LEN)
  else Ok {| sa_street := street; sa_city := city; sa_state := state;
             sa_postal_code := postal_code; sa_country := country |}.

Definition is_complete (a : ShippingAddress) : bool :=
  negb (is_empty (sa_street a)) && negb (is_empty (sa_city a)) &&
  negb (is_empty (sa_postal_code a)) && negb (is_empty (sa_country a)).

(** The derived [Serialize]. *)
Definition shipping_to_value (a : ShippingAddress) : Value :=
  jobj [("street", jstr (sa_street a)); ("city", jstr (sa_city a));
        ("state", jstr (sa_state a)); ("postal_code", jstr (sa_postal_code a));
        ("country", jstr (sa_country a))].

(** ** IdempotencyKey *)

Record IdempotencyKey := MkKey { key_str : string }.

Definition IdempotencyKey_new (input : string) : outcome AppError IdempotencyKey :=
  let trimmed := trim input in
  if is_empty trimmed then Err (BadRequest "Idempotency key must not be empty")
  else if 255 <? str_len trimmed then
    Err (BadRequest "Idempotency key must not exceed 255 characters")
  else Ok (MkKey trimmed).

(** ** Quantity: an [i32] between 1 and 9999 *)

Record Quantity := MkQuantity { quantity_value : Z }.
Definition MAX_ORDER_QUANTITY : Z := 9999.

Definition Quantity_new (value : Z) : outcome AppError Quantity :=
  if (value <=? 0)%Z then Err (BadRequest "Quantity must be greater than 0")
  else if (MAX_ORDER_QUANTITY <? value)%Z then
    Err (BadRequest ("Quantity must not exceed " +:+ pretty MAX_ORDER_QUANTITY))
  else Ok (MkQuantity value).

Lemma Quantity_new_ok v q :
  Quantity_new v = Ok q ↔ q = MkQuantity v ∧ (1 ≤ v ≤ 9999)%Z.
Proof.
  unfold Quantity_new, MAX_ORDER_QUANTITY.
  destruct (Z.leb_spec v 0), (Z.ltb_spec 9999 v); naive_solver lia.
Qed.

Lemma ShippingAddress_new_complete req a :
  ShippingAddress_new req = Ok a → is_complete a = true.
Proof.
  unfold ShippingAddress_new, is_complete. repeat case_match; intros; simplify_eq; simpl.
  repeat match goal with
         | H : _ || _ = false |- _ => apply orb_false_iff in H as [H ?]
         end.
  by repeat match goal with H : is_empty _ = false |- _ => rewrite H; clear H end.
Qed.

(** ** Rules *)

Inductive OrderCheck : Type :=
| NonEmptyItems
| MinOrderAmount (min : Decimal)
| MaxItemsPerOrder (max : nat)
| SupportedCurrency
| ShippingAddressComplete
| PositiveItemPrices
| StatusAllowsCancellation.

Definition order_check_str (c : OrderCheck) : string :=
  match c with
  | NonEmptyItems => "order must have at least one item"
  | MinOrderAmount v => "order total must be at least $" +:+ dec_to_string v
  | MaxItemsPerOrder n => "order must not exceed " +:+ pretty n +:+ " items"
  | SupportedCurrency => "currency must be supported"
  | ShippingAddressComplete => "shipping address must be complete"
  | PositiveItemPrices => "all item prices must be positive"
  | StatusAllowsCancellation => "order status must allow cancellation"
  end.

Definition MIN_ORDER_AMOUNT : Decimal := dec_one.
Definition MAX_ITEMS_PER_ORDER : nat := 100.
Definition SUPPORTED_CURRENCIES : list string := ["USD"; "KRW"; "EUR"; "GBP"; "JPY"].

Definition creation_rules : Rule OrderCheck :=
  all [check NonEmptyItems; check (MaxItemsPerOrder MAX_ITEMS_PER_ORDER);
       check (MinOrderAmount MIN_ORDER_AMOUNT); check SupportedCurrency;
       check ShippingAddressComplete; check PositiveItemPrices].
Definition cancellation_rules : Rule OrderCheck := all [check StatusAllowsCancellation].

Record CreateOrderContext := {
  oc_item_count : nat; oc_total_amount : Decimal; oc_currency : string;
  oc_shipping_complete : bool; oc_all_prices_positive : bool }.
Record CancellationContext := { cc_current_status : OrderStatus }.

Definition eval_creation (ctx : CreateOrderContext) (c : OrderCheck) : bool :=
  match c with
  | NonEmptyItems => 0 <? oc_item_count ctx
  | MinOrderAmount min => dec_leb min (oc_total_amount ctx)
  | MaxItemsPerOrder max => oc_item_count ctx <=? max
  | SupportedCurrency => bool_decide (oc_currency ctx ∈ SUPPORTED_CURRENCIES)
  | ShippingAddressComplete => oc_shipping_complete ctx
  | PositiveItemPrices => oc_all_prices_positive ctx
  | StatusAllowsCancellation => false
  end.

Definition eval_cancellation (ctx : CancellationContext) (c : OrderCheck) : bool :=
  match c with
  | StatusAllowsCancellation => can_cancel (cc_current_status ctx)
  | _ => true
  end.

Lemma creation_rules_pass ctx :
  passed (evaluate_detailed (eval_creation ctx) creation_rules) = true ↔
  0 < oc_item_count ctx ≤ 100 ∧ (dec_scale ≤ dec_units (oc_total_amount ctx))%Z ∧
  oc_currency ctx ∈ SUPPORTED_CURRENCIES ∧
  oc_shipping_complete ctx = true ∧ oc_all_prices_positive ctx = true.
Proof.
  rewrite passed_evaluate_detailed. unfold creation_rules, all, check. simpl.
  rewrite !andb_true_iff, Nat.ltb_lt, Nat.leb_le, dec_leb_le, bool_decide_eq_true.
  unfold MIN_ORDER_AMOUNT, MAX_ITEMS_PER_ORDER. rewrite dec_one_units. naive_solver.
Qed.

Lemma cancellation_rules_pass s :
  passed (evaluate_detailed (eval_cancellation {| cc_current_status := s |})
    cancellation_rules) = can_cancel s.
Proof. rewrite passed_evaluate_detailed. simpl. by rewrite andb_true_r. Qed.
End values.
