(* ===== verification/OrderReq.v ===== *)
(** * Order service: requests and rows (order/src/orders/dtos.rs, entities.rs) *)

From S2P Require Import Prelude RustStr Externals Errors NewTypes Auth OrderTypes.

Section requests.
Context `{Externals}.

Record CreateOrderItemReq := {
  ci_product_id : Uuid; ci_sku_id : Uuid; ci_product_name : string; ci_sku_code : string;
  ci_quantity : Z; ci_seller_id : Uuid; ci_unit_price : Decimal }.

Record CreateOrderReq := {
  cr_items : list CreateOrderItemReq; cr_currency : option string;
  cr_shipping_address : ShippingAddressReq }.

Record ValidCreateOrderItem := {
  vi_product_id : Uuid; vi_sku_id : Uuid; vi_product_name : string; vi_sku_code : string;
  vi_quantity : Quantity; vi_seller_id : Uuid; vi_unit_price : Price;
  vi_total_price : Decimal }.

Record ValidCreateOrderReq := {
  vr_idempotency_key : IdempotencyKey; vr_currency : Currency;
  vr_shipping_address : ShippingAddress; vr_items : list ValidCreateOrderItem;
  vr_total_amount : Decimal }.

(** One round of the loop over the items: the validated item and the new total. The
    overflow of [*] or [+=] on decimals is a panic. *)
Definition validate_item (item : CreateOrderItemReq) (total : Decimal)
    : outcome AppError (ValidCreateOrderItem * Decimal) :=
  quantity ← Quantity_new (ci_quantity item);
  unit_price ← Price_new (ci_unit_price item);
  match dec_mul (price_value unit_price) (dec_of_i32 (quantity_value quantity)) with
  | None => Panic
  | Some total_price =>
      match dec_add total total_price with
      | None => Panic
      | Some total' =>
          Ok ({| vi_product_id := ci_product_id item; vi_sku_id := ci_sku_id item;
                 vi_product_name := ci_product_name item; vi_sku_code := ci_sku_code item;
                 vi_quantity := quantity; vi_seller_id := ci_seller_id item;
                 vi_unit_price := unit_price; vi_total_price := total_price |}, total')
      end
  end.

Fixpoint validate_items (items : list CreateOrderItemReq) (total : Decimal)
    : outcome AppError (list ValidCreateOrderItem * Decimal) :=
  match items with
  | [] => Ok ([], total)
  | item :: items =>
      '(v, total') ← validate_item item total;
      '(vs, total'') ← validate_items items total';
      Ok (v :: vs, total'')
  end.

Definition ValidCreateOrderReq_new (idempotency_key : string) (req : CreateOrderReq)
    : outcome AppError ValidCreateOrderReq :=
  key ← IdempotencyKey_new idempotency_key;
  currency ← match cr_currency req with
             | Some c => Currency_new c
             | None => Ok Currency_default
             end;
  shipping_address ← ShippingAddress_new (cr_shipping_address req);
  match cr_items req with
  | [] => Err (BadRequest "Order must have at least one item")
  | _ =>
      '(items, total_amount) ← validate_items (cr_items req) dec_zero;
      Ok {| vr_idempotency_key := key; vr_currency := currency;
            vr_shipping_address := shipping_address; vr_items := items;
            vr_total_amount := total_amount |}
  end.

(** What a validated item carries over from the request. *)
Definition item_valid (req : CreateOrderItemReq) (v : ValidCreateOrderItem) : Prop :=
  vi_product_id v = ci_product_id req ∧ vi_sku_id v = ci_sku_id req ∧
  vi_product_name v = ci_product_name req ∧ vi_sku_code v = ci_sku_code req ∧
  vi_seller_id v = ci_seller_id req ∧
  vi_quantity v = MkQuantity (ci_quantity req) ∧ (1 ≤ ci_quantity req ≤ 9999)%Z ∧
  vi_unit_price v = MkPrice (ci_unit_price req) ∧ (0 ≤ dec_units (ci_unit_price req))%Z ∧
  dec_mul (ci_unit_price req) (dec_of_i32 (ci_quantity req)) = Some (vi_total_price v) ∧
  (0 ≤ dec_units (vi_total_price v))%Z.

Lemma validate_item_ok item total v total' :
  validate_item item total = Ok (v, total') →
  item_valid item v ∧ dec_add total (vi_total_price v) = Some total'.
Proof.
  unfold validate_item. intros Hv. inv_ok Hv.
  apply Quantity_new_ok in Hout as [-> Hq]. apply Price_new_ok in Hout1 as [-> Hp].
  simpl in Hout2. destruct (dec_mul _ _) as [tp|] eqn:Em; [|done].
  destruct (dec_add _ _) as [tot|] eqn:Ea; [|done]. simplify_eq.
  unfold item_valid. simpl. split_and!; try done; try lia.
  eapply dec_mul_nonneg; [done| |exact Em].
  cbn [quantity_value]. rewrite dec_of_i32_units by lia. pose proof dec_scale_pos. nia.
Qed.

Lemma validate_items_ok items total vs total' :
  validate_items items total = Ok (vs, total') →
  Forall2 item_valid items vs ∧ dec_sum total (vi_total_price <$> vs) = Some total'.
Proof.
  revert total vs. induction items as [|item items IH]; intros total vs Hv; simpl in Hv.
  - simplify_eq. by split.
  - apply obind_ok in Hv as ([v t1] & Hv & Hr). apply obind_ok in Hr as ([vs1 t2] & Hvs & Hr).
    simplify_eq. apply validate_item_ok in Hv as [Hv Ha]. apply IH in Hvs as [Hvs Hs].
    split; [by constructor|]. simpl. by rewrite Ha.
Qed.

Lemma ValidCreateOrderReq_new_ok key req v :
  ValidCreateOrderReq_new key req = Ok v →
  Forall2 item_valid (cr_items req) (vr_items v) ∧ vr_items v ≠ [] ∧
  dec_sum dec_zero (vi_total_price <$> vr_items v) = Some (vr_total_amount v) ∧
  IdempotencyKey_new key = Ok (vr_idempotency_key v) ∧
  is_complete (vr_shipping_address v) = true.
Proof.
  unfold ValidCreateOrderReq_new. intros Hv.
  apply obind_ok in Hv as (key' & Hkey & Hv). apply obind_ok in Hv as (cur & _ & Hv).
  apply obind_ok in Hv as (addr & Haddr & Hv).
  destruct (cr_items req) as [|i is_] eqn:Ei; [done|].
  apply obind_ok in Hv as ([items total] & Hi & Hr).
  apply validate_items_ok in Hi as [Hi Hs]. simplify_eq. cbn. split_and!; try done.
  - intros ->. by apply Forall2_nil_inv_r in Hi.
  - by eapply ShippingAddress_new_complete.
Qed.

Definition line_total (i : CreateOrderItemReq) : Z :=
  (dec_units (ci_unit_price i) * ci_quantity i)%Z.

Lemma item_total_exact i v :
  item_valid i v → cents (dec_units (ci_unit_price i)) → (line_total i ≤ exact_bound)%Z →
  dec_units (vi_total_price v) = line_total i.
Proof.
  unfold item_valid, line_total. intros (_&_&_&_&_&_&Hq&_&Hp&Hm&_) Hc Hb.
  destruct (dec_mul_int_exact (ci_unit_price i) (ci_quantity i)) as (c & Ec & Hx); [lia|lia|done..|].
  rewrite Ec in Hm. by simplify_eq.
Qed.

Lemma item_totals_exact items vs :
  Forall2 item_valid items vs → Forall (λ i, cents (dec_units (ci_unit_price i))) items →
  (zsum (line_total <$> items) ≤ exact_bound)%Z →
  dec_units <$> (vi_total_price <$> vs) = line_total <$> items ∧
  nonneg_cents (line_total <$> items).
Proof.
  assert (∀ i v, item_valid i v → cents (dec_units (ci_unit_price i)) →
    0 ≤ line_total i ∧ cents (line_total i))%Z as Hn.
  { intros i v (_&_&_&_&_&_&Hq&_&Hp&_) Hc. split; [unfold line_total; nia|].
    by apply Z.divide_mul_l. }
  induction 1 as [|i v items vs Hv Hvs IH]; intros Hc Hb; [by split; [|constructor]|].
  apply Forall_cons in Hc as [Hci Hc]. rewrite !fmap_cons in *. simpl in Hb.
  destruct (Hn _ _ Hv Hci) as [Hi0 Hic].
  assert (nonneg_cents (line_total <$> items)) as Hnn.
  { clear IH Hb. induction Hvs as [|j w items vs Hw Hvs IH]; [constructor|].
    apply Forall_cons in Hc as [Hcj Hc]. constructor; [by eapply Hn|by apply IH]. }
  pose proof (zsum_nonneg _ Hnn) as [H0 _]. unfold zsum in *.
  destruct IH as [IH _]; [done|lia|]. rewrite IH. split; [|by constructor].
  rewrite (item_total_exact i v); [done|done|done|lia].
Qed.

(** ** Rows *)

Record OrderEntity := {
  or_id : Uuid; or_created_at : Z; or_updated_at : option Z; or_buyer_id : Uuid;
  or_status : OrderStatus; or_total_amount : Decimal; or_currency : string;
  or_idempotency_key : string; or_shipping_address : Value;
  or_cancelled_reason : option string }.

Record OrderItemEntity := {
  it_id : Uuid; it_created_at : Z; it_order_id : Uuid; it_product_id : Uuid;
  it_sku_id : Uuid; it_product_name : string; it_sku_code : string; it_quantity : Z;
  it_seller_id : Uuid; it_unit_price : Decimal; it_total_price : Decimal }.

(** ** Responses *)

Record OrderRes := {
  res_id : string; res_created_at : string; res_buyer_id : string;
  res_status : OrderStatus; res_total_amount : Decimal; res_currency : string;
  res_idempotency_key : string; res_shipping_address : Value;
  res_cancelled_reason : option string }.

Definition OrderRes_new (e : OrderEntity) : OrderRes := {|
  res_id := fmt_id (or_id e); res_created_at := fmt_datetime (or_created_at e);
  res_buyer_id := fmt_id (or_buyer_id e); res_status := or_status e;
  res_total_amount := or_total_amount e; res_currency := or_currency e;
  res_idempotency_key := or_idempotency_key e;
  res_shipping_address := or_shipping_address e;
  res_cancelled_reason := or_cancelled_reason e |}.

Record OrderItemRes := {
  ir_id : string; ir_product_id : string; ir_sku_id : string; ir_product_name : string;
  ir_sku_code : string; ir_quantity : Z; ir_seller_id : string; ir_unit_price : Decimal;
  ir_total_price : Decimal }.

Definition OrderItemRes_new (e : OrderItemEntity) : OrderItemRes := {|
  ir_id := fmt_id (it_id e); ir_product_id := fmt_id (it_product_id e);
  ir_sku_id := fmt_id (it_sku_id e); ir_product_name := it_product_name e;
  ir_sku_code := it_sku_code e; ir_quantity := it_quantity e;
  ir_seller_id := fmt_id (it_seller_id e); ir_unit_price := it_unit_price e;
  ir_total_price := it_total_price e |}.

Record OrderDetailRes := { od_order : OrderRes; od_items : list OrderItemRes }.
End requests.
