(* ===== verification/OrderRepo.v ===== *)
(** * Order service: the tables and their queries (order/src/orders/repository.rs) *)

From S2P Require Import Prelude RustStr Externals Errors NewTypes Events Db Outbox.
From S2P Require Import OrderTypes OrderReq.

Section repository.
Context `{Externals}.

Record order_tables := MkOrderTables {
  ot_orders : list OrderEntity;
  ot_items : list OrderItemEntity;
  ot_outbox : list OutboxEvent;
  ot_processed : list ProcessedEvent }.

#[export, program] Instance order_outbox : OutboxTables order_tables := {|
  outbox_events := ot_outbox;
  set_outbox_events l t := MkOrderTables (ot_orders t) (ot_items t) l (ot_processed t);
  processed_events := ot_processed;
  set_processed_events l t := MkOrderTables (ot_orders t) (ot_items t) (ot_outbox t) l;
|}.
Solve All Obligations with done.

Definition set_orders (l : list OrderEntity) (t : order_tables) : order_tables :=
  MkOrderTables l (ot_items t) (ot_outbox t) (ot_processed t).
Definition set_items (l : list OrderItemEntity) (t : order_tables) : order_tables :=
  MkOrderTables (ot_orders t) l (ot_outbox t) (ot_processed t).

(** ** Queries *)

Definition has_id (id : Uuid) (o : OrderEntity) : bool := bool_decide (or_id o = id).
Definition find_order (id : Uuid) (t : order_tables) : option OrderEntity :=
  List.find (has_id id) (ot_orders t).
Definition find_order_by_key (key : string) (t : order_tables) : option OrderEntity :=
  List.find (λ o, bool_decide (or_idempotency_key o = key)) (ot_orders t).

Definition get_order_by_id (id : Uuid) : M (conn order_tables) AppError OrderEntity :=
  map_err (λ e, NotFound ("Order not found: " +:+ sqlx_display e)) (fetch_one (find_order id)).

Definition get_order_by_idempotency_key (key : string)
    : M (conn order_tables) AppError (option OrderEntity) :=
  map_err (λ e, InternalServerError ("Failed to check idempotency key: " +:+ sqlx_display e))
    (query (find_order_by_key key)).

(** [ORDER BY created_at ASC LIMIT 100] *)
Definition list_order_items (order_id : Uuid)
    : M (conn order_tables) AppError (list OrderItemEntity) :=
  map_err (λ e, InternalServerError ("Failed to list order items: " +:+ sqlx_display e))
    (query (λ t, take 100 (order_by it_created_at
       (List.filter (λ i, bool_decide (it_order_id i = order_id)) (ot_items t))))).

(** ** Mutations *)

(** [INSERT INTO orders (..) VALUES (..) RETURNING id], with the column types,
    defaults and constraints of the migration. *)
Definition insert_order_row (buyer_id : Uuid) (req : ValidCreateOrderReq)
    (now : Z) (id : Uuid) (t : order_tables) : outcome sql_error (Uuid * order_tables) :=
  total ← numeric (vr_total_amount req);
  currency ← varchar "currency" 3 (currency_str (vr_currency req));
  key ← varchar "idempotency_key" 255 (key_str (vr_idempotency_key req));
  _ ← check_constraint "chk_orders_total" (dec_leb dec_zero total);
  _ ← unique "orders_pkey" (has_id id) (ot_orders t);
  _ ← unique "orders_idempotency_key_key" (λ o, bool_decide (or_idempotency_key o = key))
        (ot_orders t);
  Ok (id, set_orders (ot_orders t ++ [{|
    or_id := id; or_created_at := now; or_updated_at := None; or_buyer_id := buyer_id;
    or_status := StPending; or_total_amount := total; or_currency := currency;
    or_idempotency_key := key;
    or_shipping_address := shipping_to_value (vr_shipping_address req);
    or_cancelled_reason := None |}]) t).

Definition insert_item_row (order_id : Uuid) (item : ValidCreateOrderItem)
    (now : Z) (id : Uuid) (t : order_tables) : outcome sql_error (unit * order_tables) :=
  name ← varchar "product_name" 500 (vi_product_name item);
  code ← varchar "sku_code" 100 (vi_sku_code item);
  unit_price ← numeric (price_value (vi_unit_price item));
  total_price ← numeric (vi_total_price item);
  _ ← check_constraint "chk_quantity" (0 <? quantity_value (vi_quantity item))%Z;
  _ ← check_constraint "chk_unit_price" (dec_leb dec_zero unit_price);
  _ ← check_constraint "chk_total_price" (dec_leb dec_zero total_price);
  _ ← unique "order_items_pkey" (λ i, bool_decide (it_id i = id)) (ot_items t);
  _ ← (if existsb (has_id order_id) (ot_orders t) then Ok tt
       else Err (ForeignKeyViolation "order_items_order_id_fkey"));
  Ok (tt, set_items (ot_items t ++ [{|
    it_id := id; it_created_at := now; it_order_id := order_id;
    it_product_id := vi_product_id item; it_sku_id := vi_sku_id item;
    it_product_name := name; it_sku_code := code;
    it_quantity := quantity_value (vi_quantity item); it_seller_id := vi_seller_id item;
    it_unit_price := unit_price; it_total_price := total_price |}]) t).

Definition repo_create_order (buyer_id : Uuid) (req : ValidCreateOrderReq)
    : M (conn order_tables) AppError Uuid :=
  order_id ← map_err
    (λ e, InternalServerError ("Failed to create order: " +:+ sqlx_display e))
    (exec (insert_order_row buyer_id req));
  _ ← for_each (vr_items req) (λ item,
        map_err (λ e, InternalServerError ("Failed to create order item: " +:+ sqlx_display e))
          (exec (insert_item_row order_id item)));
  mret order_id.

Definition set_status (status : OrderStatus) (reason : option string) (now : Z)
    (o : OrderEntity) : OrderEntity := {|
  or_id := or_id o; or_created_at := or_created_at o; or_updated_at := Some now;
  or_buyer_id := or_buyer_id o; or_status := status; or_total_amount := or_total_amount o;
  or_currency := or_currency o; or_idempotency_key := or_idempotency_key o;
  or_shipping_address := or_shipping_address o;
  or_cancelled_reason := match reason with
                         | Some r => Some r
                         | None => or_cancelled_reason o
                         end |}.

(** [UPDATE orders SET status = .., cancelled_reason = .. WHERE id = ..] *)
Definition update_status_stmt (id : Uuid) (status : OrderStatus) (reason : option string)
    (now : Z) (_ : Uuid) (t : order_tables) : outcome sql_error (nat * order_tables) :=
  Ok (rows_affected (has_id id) (ot_orders t),
      set_orders (update_where (has_id id) (set_status status reason now) (ot_orders t)) t).

Definition update_order_status (id : Uuid) (status : OrderStatus) (reason : option string)
    : M (conn order_tables) AppError unit :=
  affected ← map_err
    (λ e, InternalServerError ("Failed to update order status: " +:+ sqlx_display e))
    (exec (update_status_stmt id status reason));
  if affected =? 0 then fail (NotFound "Order not found")
  else assert_that (affected =? 1).

(** ** What the operations do *)

Lemma find_has_id id t o : find_order id t = Some o → or_id o = id ∧ o ∈ ot_orders t.
Proof.
  intros [Hin Hid]%find_some. apply bool_decide_eq_true in Hid.
  by rewrite list_elem_of_In.
Qed.

Lemma get_order_by_id_ok id c o c' :
  get_order_by_id id c = (Ok o, c') →
  find_order id (c_tables c) = Some o ∧ c_tables c' = c_tables c ∧
  e_now (c_env c') = e_now (c_env c).
Proof. unfold get_order_by_id. intros Hr. inv_ok Hr. by apply fetch_one_ok in Hr. Qed.

Lemma update_order_status_ok id st r c u c' :
  update_order_status id st r c = (Ok u, c') →
  rows_affected (has_id id) (ot_orders (c_tables c)) = 1 ∧
  c_tables c' = set_orders (update_where (has_id id)
    (set_status st r (e_now (c_env c))) (ot_orders (c_tables c))) (c_tables c) ∧
  e_now (c_env c') = e_now (c_env c).
Proof.
  unfold update_order_status. intros Hr. apply bind_ok in Hr as (n & c1 & H1 & H2).
  inv_ok H1. apply exec_ok in H1 as (_ & _ & Hn & x & E). unfold update_status_stmt in E.
  simplify_eq. case_match; [done|]. apply assert_ok in H2 as [H2 ->].
  apply Nat.eqb_eq in H2. rewrite Hn. split_and!; [exact H2|congruence|done].
Qed.

Lemma find_update_status id id' st r now l :
  List.find (has_id id') (update_where (has_id id) (set_status st r now) l) =
  (if decide (id' = id) then set_status st r now <$> List.find (has_id id') l
   else List.find (has_id id') l).
Proof.
  case_decide as Hd; [subst id'; by apply find_update_where|].
  apply find_update_where_other. intros x Hx%bool_decide_eq_true. subst id. unfold has_id.
  simpl. by rewrite bool_decide_false.
Qed.
End repository.
