(* ===== verification/OrderService.v ===== *)
(** * Order service: the operations and the event handlers
    (order/src/orders/service.rs, order/src/consumers)

    The HTTP operations run on the connection pool and open their own transactions;
    the event handlers run inside the consumer's transaction (file Consumer). *)

From S2P Require Import Prelude RustStr Externals Errors NewTypes Rules Auth Events Db Outbox.
From S2P Require Import Consumer OrderTypes OrderReq OrderRepo.

Section service.
Context `{Externals}.

Abbreviation tx := (M (conn order_tables)).
Abbreviation svc := (M (db order_tables unit)).

(** ** create_order *)

Definition order_created_payload (order_id buyer_id : Uuid) (v : ValidCreateOrderReq) : Value :=
  jobj [("order_id", jstr (uuid_to_string order_id));
        ("buyer_id", jstr (uuid_to_string buyer_id));
        ("total_amount", jstr (dec_to_string (vr_total_amount v)));
        ("currency", jstr (currency_str (vr_currency v)));
        ("items", jarr ((λ i, jobj [
           ("product_id", jstr (uuid_to_string (vi_product_id i)));
           ("sku_id", jstr (uuid_to_string (vi_sku_id i)));
           ("quantity", jint (quantity_value (vi_quantity i)));
           ("unit_price", jstr (dec_to_string (price_value (vi_unit_price i))))])
           <$> vr_items v))].

Definition create_order_ctx (v : ValidCreateOrderReq) : CreateOrderContext := {|
  oc_item_count := length (vr_items v);
  oc_total_amount := vr_total_amount v;
  oc_currency := currency_str (vr_currency v);
  oc_shipping_complete := is_complete (vr_shipping_address v);
  oc_all_prices_positive :=
    forallb (λ i, dec_ltb dec_zero (price_value (vi_unit_price i))) (vr_items v) |}.

(** The body of the creating transaction. *)
Definition create_order_tx (buyer_id : Uuid) (v : ValidCreateOrderReq) : tx TxError Uuid :=
  order_id ← map_err tx_of_app (repo_create_order buyer_id v);
  _ ← map_err tx_of_app (write_event "orders.events" OrderCreated AggOrder order_id Order None
        (order_created_payload order_id buyer_id v));
  mret order_id.

Definition create_order (user : CurrentUser) (idempotency_key : string) (req : CreateOrderReq)
    : svc AppError OrderRes :=
  validated ← lift (ValidCreateOrderReq_new idempotency_key req);
  let result := evaluate_detailed (eval_creation (create_order_ctx validated)) creation_rules in
  if negb (passed result) then
    fail (app_of_order_error (OrderValidationFailed
      (join "; " (failure_messages order_check_str result))))
  else
    existing ← on_pool (get_order_by_idempotency_key (key_str (vr_idempotency_key validated)));
    match existing with
    | Some e => mret (OrderRes_new e)
    | None =>
        order_id ← map_err
          (λ e, InternalServerError ("Failed to create order: " +:+ tx_error_display e))
          (with_transaction (create_order_tx (cu_id user) validated));
        order ← on_pool (get_order_by_id order_id);
        mret (OrderRes_new order)
    end.

(** ** get_order_detail *)

Definition get_order_detail (user : CurrentUser) (order_id : Uuid)
    : svc AppError OrderDetailRes :=
  order ← on_pool (get_order_by_id order_id);
  _ ← lift (require_access user (or_buyer_id order));
  items ← on_pool (list_order_items order_id);
  mret {| od_order := OrderRes_new order; od_items := OrderItemRes_new <$> items |}.

(** ** cancel_order *)

Definition cancelled_payload (order_id buyer_id : Uuid) (reason : string) : Value :=
  jobj [("order_id", jstr (uuid_to_string order_id));
        ("buyer_id", jstr (uuid_to_string buyer_id)); ("reason", jstr reason)].

Definition cancel_order_tx (order : OrderEntity) (order_id : Uuid) (reason : string)
    : tx TxError unit :=
  _ ← map_err tx_of_app (update_order_status order_id StCancelled (Some reason));
  map_err tx_of_app (write_event "orders.events" OrderCancelled AggOrder order_id Order None
    (cancelled_payload order_id (or_buyer_id order) reason)).

(** The checks on the order that was read, before the transaction is opened. *)
Definition cancel_order_checks (user : CurrentUser) (order : OrderEntity)
    : outcome AppError unit :=
  _ ← require_access user (or_buyer_id order);
  let result := evaluate_detailed
    (eval_cancellation {| cc_current_status := or_status order |}) cancellation_rules in
  if negb (passed result) then
    Err (app_of_order_error (OrderCancellationDenied
      (join "; " (failure_messages order_check_str result))))
  else
    _ ← omap_err app_of_order_error (transition_to (or_status order) StCancelled);
    Ok tt.

(** The part of [cancel_order] after its read of the order. *)
Definition cancel_order_write (user : CurrentUser) (order_id : Uuid) (reason : option string)
    (order : OrderEntity) : svc AppError unit :=
  _ ← lift (cancel_order_checks user order);
  map_err (λ e, InternalServerError ("Failed to cancel order: " +:+ tx_error_display e))
    (with_transaction (cancel_order_tx order order_id (default "Cancelled by buyer" reason))).

Definition cancel_order (user : CurrentUser) (order_id : Uuid) (reason : option string)
    : svc AppError unit :=
  order ← on_pool (get_order_by_id order_id);
  cancel_order_write user order_id reason order.

(** ** Event handlers (order/src/consumers) *)

Definition write_order_outbox (order_id : Uuid) (event_type : EventType) (payload : Value)
    (causation : option Uuid) : tx AppError unit :=
  write_event "orders.events" event_type AggOrder order_id Order causation payload.

Definition bad_transition (e : OrderError) : AppError := BadRequest (order_error_display e).

Definition handle_inventory_reserved (e : EventEnvelope) : tx AppError unit :=
  order_id ← lift (payload_uuid e "order_id");
  order ← get_order_by_id order_id;
  _ ← lift (omap_err bad_transition (transition_to (or_status order) StInventoryReserved));
  update_order_status order_id StInventoryReserved None.

Definition handle_inventory_reservation_failed (e : EventEnvelope) : tx AppError unit :=
  order_id ← lift (payload_uuid e "order_id");
  order ← get_order_by_id order_id;
  _ ← lift (omap_err bad_transition (transition_to (or_status order) StCancelled));
  let reason := default "Inventory reservation failed" (payload_str e "reason") in
  update_order_status order_id StCancelled (Some reason).

Definition handle_payment_authorized (e : EventEnvelope) : tx AppError unit :=
  order_id ← lift (payload_uuid e "order_id");
  order ← get_order_by_id order_id;
  _ ← lift (omap_err bad_transition (transition_to (or_status order) StPaymentAuthorized));
  _ ← update_order_status order_id StPaymentAuthorized None;
  _ ← update_order_status order_id StConfirmed None;
  write_order_outbox order_id OrderConfirmed
    (jobj [("order_id", jstr (uuid_to_string order_id));
           ("buyer_id", jstr (uuid_to_string (or_buyer_id order)))])
    (Some (em_event_id (env_metadata e))).

Definition cancel_order_on_payment_failure (e : EventEnvelope) (default_reason : string)
    : tx AppError unit :=
  order_id ← lift (payload_uuid e "order_id");
  let reason := default default_reason (payload_str e "reason") in
  order ← get_order_by_id order_id;
  _ ← lift (omap_err bad_transition (transition_to (or_status order) StCancelled));
  _ ← update_order_status order_id StCancelled (Some reason);
  write_order_outbox order_id OrderCancelled (cancelled_payload order_id (or_buyer_id order) reason)
    (Some (em_event_id (env_metadata e))).

Definition handle_payment_failed (e : EventEnvelope) : tx AppError unit :=
  cancel_order_on_payment_failure e "Payment failed".
Definition handle_payment_timed_out (e : EventEnvelope) : tx AppError unit :=
  cancel_order_on_payment_failure e "Payment timed out".

(** [OrderEventHandler::handle], before errors become [HandlerError::transient]. *)
Definition order_event_handler (e : EventEnvelope) : tx AppError unit :=
  match em_event_type (env_metadata e) with
  | InventoryReserved => handle_inventory_reserved e
  | InventoryReservationFailed => handle_inventory_reservation_failed e
  | PaymentAuthorized => handle_payment_authorized e
  | PaymentFailed => handle_payment_failed e
  | PaymentTimedOut => handle_payment_timed_out e
  | _ => mret tt
  end.
End service.

(** ** The handler as the consumer sees it (order/src/consumers/handler.rs) *)

Section handler.
Context `{Externals}.

(** [OrderEventHandler::handle]: every error is transient. *)
Definition order_handler : handler (T := order_tables) (X := unit) := λ e,
  map_err handler_of_app (in_tx (order_event_handler e)).
End handler.
