(* ===== verification/OrderLists.v ===== *)
(** * Order service: the paginated lists (order/src/orders)

    The two list queries of repository.rs, as the clauses they are built of - joined rows,
    conditions, grouping, pagination - and the operations of service.rs over them. *)

From S2P Require Import Prelude RustStr Externals Errors NewTypes Auth Db Pagination.
From S2P Require Import OrderTypes OrderReq OrderRepo OrderService.

(** A joined row: an order with one of its items, or with none. *)
Abbreviation joined := (OrderEntity * option OrderItemEntity)%type.

Section lists.
Context `{Externals, !UuidOrder}.

(** ** Requests and rows (dtos.rs, entities.rs) *)

Record OrderFilter := { of_status : option OrderStatus }.
Record OrderFilterQuery := {
  fq_limit : option nat; fq_cursor : option Uuid; fq_direction : option PaginationDirection;
  fq_status : option OrderStatus }.
Definition into_parts (q : OrderFilterQuery) : PaginationParams * OrderFilter :=
  (into_params {| pq_limit := fq_limit q; pq_cursor := fq_cursor q; pq_direction := fq_direction q |},
   {| of_status := fq_status q |}).

Record OrderListEntity := {
  ol_id : Uuid; ol_created_at : Z; ol_buyer_id : Uuid; ol_status : OrderStatus;
  ol_total_amount : Decimal; ol_currency : string; ol_item_count : Z }.
Record OrderListRes := {
  lr_id : string; lr_created_at : string; lr_buyer_id : string; lr_status : OrderStatus;
  lr_total_amount : Decimal; lr_currency : string; lr_item_count : Z }.
Definition OrderListRes_new (e : OrderListEntity) : OrderListRes := {|
  lr_id := fmt_id (ol_id e); lr_created_at := fmt_datetime (ol_created_at e);
  lr_buyer_id := fmt_id (ol_buyer_id e); lr_status := ol_status e;
  lr_total_amount := ol_total_amount e; lr_currency := ol_currency e;
  lr_item_count := ol_item_count e |}.

(** ** The queries (repository.rs) *)

Definition items_of (t : order_tables) (o : OrderEntity) : list OrderItemEntity :=
  List.filter (λ i, bool_decide (it_order_id i = or_id o)) (ot_items t).
(** [orders o LEFT JOIN order_items oi ON oi.order_id = o.id] *)
Definition left_join (t : order_tables) : list joined :=
  flat_map (λ o, match items_of t o with
                 | [] => [(o, None)]
                 | l => (λ i, (o, Some i)) <$> l
                 end) (ot_orders t).
(** [orders o INNER JOIN order_items oi ON oi.order_id = o.id] *)
Definition inner_join (t : order_tables) : list joined :=
  flat_map (λ o, (λ i, (o, Some i)) <$> items_of t o) (ot_orders t).

(** [AND o.status = ..], when a status is asked for. *)
Definition apply_order_filters (filter : OrderFilter) (r : joined) : bool :=
  match of_status filter with Some s => bool_decide (or_status r.1 = s) | None => true end.

(** [COUNT(oi.id)]: the rows of the group that have an item. *)
Definition count_items (id : Uuid) (rows : list joined) : Z :=
  Z.of_nat (length (List.filter (λ r, bool_decide (or_id r.1 = id) && is_some r.2) rows)).
Definition list_entity (rows : list joined) (o : OrderEntity) : OrderListEntity := {|
  ol_id := or_id o; ol_created_at := or_created_at o; ol_buyer_id := or_buyer_id o;
  ol_status := or_status o; ol_total_amount := or_total_amount o; ol_currency := or_currency o;
  ol_item_count := count_items (or_id o) rows |}.
(** [GROUP BY o.id]: one row for each identifier. *)
Fixpoint first_of_each (orders : list OrderEntity) : list OrderEntity :=
  match orders with
  | [] => []
  | o :: orders => o :: List.filter (λ o', negb (bool_decide (or_id o' = or_id o))) (first_of_each orders)
  end.
Definition group_by_order (rows : list joined) : list OrderListEntity :=
  list_entity rows <$> first_of_each rows.*1.

Definition buyer_rows (buyer_id : Uuid) (filter : OrderFilter) (t : order_tables) : list OrderListEntity :=
  group_by_order (List.filter (λ r, bool_decide (or_buyer_id r.1 = buyer_id) && apply_order_filters filter r)
    (left_join t)).
Definition sold_by (seller_id : Uuid) (r : joined) : bool :=
  match r.2 with Some i => bool_decide (it_seller_id i = seller_id) | None => false end.
Definition seller_rows (seller_id : Uuid) (filter : OrderFilter) (t : order_tables) : list OrderListEntity :=
  group_by_order (List.filter (λ r, sold_by seller_id r && apply_order_filters filter r) (inner_join t)).

Definition list_select (rows : order_tables → list OrderListEntity) (params : PaginationParams)
    : M (conn order_tables) sql_error (list OrderListEntity) :=
  exec (λ _ _ t, l ← push_keyset ol_id InGroupBy params (rows t); Ok (l, t)).

Definition list_orders_by_buyer (buyer_id : Uuid) (params : PaginationParams) (filter : OrderFilter)
    : M (conn order_tables) AppError (list OrderListEntity) :=
  map_err (λ e, InternalServerError ("Failed to list orders: " +:+ sqlx_display e))
    (list_select (buyer_rows buyer_id filter) params).
Definition list_orders_by_seller (seller_id : Uuid) (params : PaginationParams) (filter : OrderFilter)
    : M (conn order_tables) AppError (list OrderListEntity) :=
  map_err (λ e, InternalServerError ("Failed to list seller orders: " +:+ sqlx_display e))
    (list_select (seller_rows seller_id filter) params).

(** ** The operations (service.rs) *)

Definition list_page (params : PaginationParams) (orders : list OrderListEntity)
    : PaginationRes OrderListRes :=
  let '(orders, cursors) := get_cursors ol_id params orders in
  PaginationRes_new (OrderListRes_new <$> orders) cursors.

Definition list_my_orders (buyer_id : Uuid) (params : PaginationParams) (filter : OrderFilter)
    : M (db order_tables unit) AppError (PaginationRes OrderListRes) :=
  orders ← on_pool (list_orders_by_buyer buyer_id params filter);
  mret (list_page params orders).
Definition list_seller_orders (seller_id : Uuid) (params : PaginationParams) (filter : OrderFilter)
    : M (db order_tables unit) AppError (PaginationRes OrderListRes) :=
  orders ← on_pool (list_orders_by_seller seller_id params filter);
  mret (list_page params orders).
End lists.

(** ** The routes (routes.rs) *)

Section routes.
Context `{Externals, !UuidOrder, !JwtApi}.
Abbreviation svc := (M (db order_tables unit)).

(** A header is absent, not a visible text, or a text. *)
Definition idempotency_header (header : option (option string)) : outcome AppError string :=
  match mjoin header with Some key => Ok key | None => Err (BadRequest "Idempotency-Key header is required") end.
Definition route_create_order (user : CurrentUser) (header : option (option string)) (req : CreateOrderReq)
    : svc AppError (Z * OrderRes) :=
  idempotency_key ← lift (idempotency_header header);
  order ← create_order user idempotency_key req;
  mret (202%Z, order).
Definition route_list_my_orders (user : CurrentUser) (query : OrderFilterQuery)
    : svc AppError (PaginatedResponse OrderListRes) :=
  let '(params, filter) := into_parts query in
  result ← list_my_orders (cu_id user) params filter;
  mret (PaginatedResponse_new result).
Definition route_list_seller_orders (user : CurrentUser) (query : OrderFilterQuery)
    : svc AppError (PaginatedResponse OrderListRes) :=
  let '(params, filter) := into_parts query in
  result ← list_seller_orders (cu_id user) params filter;
  mret (PaginatedResponse_new result).
Definition route_cancel_order (user : CurrentUser) (id : Uuid) (reason : option string)
    : svc AppError (Z * string) :=
  _ ← cancel_order user id reason;
  mret (200%Z, "Order cancelled successfully").

Inductive order_request : Type :=
| PostOrder (idempotency_key : option (option string)) (req : CreateOrderReq)
| GetOrders (query : OrderFilterQuery)
| GetOrder (id : Uuid)
| PostCancel (id : Uuid) (reason : option string)
| GetSellerOrders (query : OrderFilterQuery).
Inductive order_response : Type :=
| OrderTaken (answer : Z * OrderRes)
| OrderPage (page : PaginatedResponse OrderListRes)
| OrderDetail (detail : OrderDetailRes)
| OrderMessage (answer : Z * string).
Definition order_answer (user : CurrentUser) (rq : order_request) : svc AppError order_response :=
  match rq with
  | PostOrder header req => r ← route_create_order user header req; mret (OrderTaken r)
  | GetOrders query => r ← route_list_my_orders user query; mret (OrderPage r)
  | GetOrder id => r ← get_order_detail user id; mret (OrderDetail r)
  | PostCancel id reason => r ← route_cancel_order user id reason; mret (OrderMessage r)
  | GetSellerOrders query => r ← route_list_seller_orders user query; mret (OrderPage r)
  end.
(** Every route is behind the middleware, which trusts the claims of a token. *)
Definition order_routes (config : AuthConfig) (now : Z) (authorization : option (option string)) (rq : order_request)
    : svc (AuthMiddlewareError + AppError) order_response :=
  run_route config None now authorization (ProtectedRoute (λ user, order_answer user rq)).

(** Without a token that is valid now nothing is done; with one, the request is answered for the
    user the token names, and without a readable key no order is created. *)
Theorem order_routes_authenticated config now authorization rq s o s' :
  order_routes config now authorization rq s = (o, s') →
  (is_ok o = false ∧ s' = s) ∨
  ∃ user o', bearer config now authorization user ∧ order_answer user rq s = (o', s') ∧ o = omap_err inr o' ∧
    ∀ header req, rq = PostOrder header req → mjoin header = None →
      o' = Err (BadRequest "Idempotency-Key header is required") ∧ s' = s.
Proof.
  intros [[Ho Hr]|(user & s1 & o' & Ha & Hr & ->)]%protected_inv.
  { left. split; [done|]. by destruct Hr as [?|(? & ? & ? & ? & _)]. }
  apply admitted_bearer in Ha as [Hb ->]. right. exists user, o'. split_and!; [done..|].
  intros header req -> Hh. revert Hr.
  unfold order_answer, route_create_order, mbind, M_bind, lift, idempotency_header. rewrite Hh. by intros [= <- <-].
Qed.
End routes.

(** ** What the queries select *)

Section specification.
Context `{Externals, !UuidOrder}.
Implicit Types (t : order_tables) (h : OrderEntity → list (option OrderItemEntity)).

(** Every order with its own rows. *)
Definition joined_rows h (orders : list OrderEntity) : list joined :=
  flat_map (λ o, pair o <$> h o) orders.
Definition listed (o : OrderEntity) (item_count : nat) : OrderListEntity := {|
  ol_id := or_id o; ol_created_at := or_created_at o; ol_buyer_id := or_buyer_id o;
  ol_status := or_status o; ol_total_amount := or_total_amount o; ol_currency := or_currency o;
  ol_item_count := Z.of_nat item_count |}.

Lemma filter_pair (p : joined → bool) o (l : list (option OrderItemEntity)) :
  List.filter p (pair o <$> l) = pair o <$> List.filter (λ x, p (o, x)) l.
Proof. induction l as [|x l IH]; [done|].
  rewrite fmap_cons. cbn [List.filter]. rewrite IH. by destruct (p (o, x)). Qed.

Lemma filter_joined (p : joined → bool) h orders :
  List.filter p (joined_rows h orders) = joined_rows (λ o, List.filter (λ x, p (o, x)) (h o)) orders.
Proof.
  unfold joined_rows. induction orders as [|o l IH]; [done|]. cbn [flat_map].
  by rewrite List.filter_app, IH, filter_pair.
Qed.

Lemma joined_ids h orders r : r ∈ joined_rows h orders → r.1 ∈ orders ∧ h r.1 ≠ [].
Proof.
  unfold joined_rows. rewrite list_elem_of_In, in_flat_map. intros (o & Ho & Hr).
  rewrite <-!list_elem_of_In in *. apply list_elem_of_fmap in Hr as (x & -> & Hx).
  split; [done|]. simpl. intros E. rewrite E in Hx. by apply elem_of_nil in Hx.
Qed.

Lemma filter_all {A} (p : A → bool) (l : list A) :
  (∀ x, x ∈ l → p x = true) → List.filter p l = l.
Proof.
  induction l as [|x l IH]; intros Hp; [done|]. simpl. rewrite (Hp x) by set_solver.
  f_equal. apply IH. set_solver.
Qed.

Lemma elem_of_first_of_each o orders : o ∈ first_of_each orders → o ∈ orders.
Proof.
  revert o. induction orders as [|o' l IH]; intros o; simpl; [done|].
  intros [->|Ho]%elem_of_cons; [left|]. right. apply IH.
  rewrite list_elem_of_In, filter_In in Ho. apply list_elem_of_In. tauto.
Qed.

(** A block of rows of one order collapses to that order. *)
Lemma first_of_block (o : OrderEntity) n (rest : list OrderEntity) :
  or_id o ∉ (or_id <$> rest : list Uuid) →
  first_of_each (replicate n o ++ rest) = (if decide (n = 0) then [] else [o]) ++ first_of_each rest.
Proof.
  intros Hn. induction n as [|n IH]; [done|]. simpl. f_equal. rewrite IH, List.filter_app.
  assert (List.filter (λ o', negb (bool_decide (or_id o' = or_id o))) (first_of_each rest) = first_of_each rest) as ->.
  { apply filter_all. intros x Hx%elem_of_first_of_each. rewrite bool_decide_eq_false_2; [done|].
    intros E. apply Hn. rewrite <-E. apply list_elem_of_fmap. by exists x. }
  destruct (decide (n = 0)); simpl; [done|]. by rewrite bool_decide_eq_true_2.
Qed.

Lemma first_joined h orders : NoDup (or_id <$> orders) →
  first_of_each (joined_rows h orders).*1 = List.filter (λ o, negb (bool_decide (h o = []))) orders.
Proof.
  induction orders as [|o l IH]; intros Hid; [done|].
  rewrite fmap_cons in Hid. apply NoDup_cons in Hid as [Hn Hid].
  change (joined_rows h (o :: l)) with ((pair o <$> h o) ++ joined_rows h l).
  rewrite fmap_app. assert ((pair o <$> h o).*1 = replicate (length (h o)) o) as ->.
  { clear. induction (h o) as [|x k IH]; [done|]. rewrite !fmap_cons, IH. done. }
  rewrite first_of_block, IH by (try done; intros (x & E & Hx)%list_elem_of_fmap;
    apply list_elem_of_fmap in Hx as (r & -> & [Hr _]%joined_ids);
    apply Hn; rewrite E; apply list_elem_of_fmap; eauto).
  simpl. destruct (h o) eqn:Eh; [by rewrite bool_decide_eq_true_2|by rewrite bool_decide_eq_false_2].
Qed.

Lemma count_joined h orders o : NoDup (or_id <$> orders) → o ∈ orders →
  count_items (or_id o) (joined_rows h orders) = Z.of_nat (length (List.filter is_some (h o))).
Proof.
  intros Hid Ho. unfold count_items. f_equal. rewrite filter_joined. cbn [fst snd]. revert Hid Ho.
  induction orders as [|o' l IH]; intros Hid Ho; [by apply elem_of_nil in Ho|].
  rewrite fmap_cons in Hid. apply NoDup_cons in Hid as [Hn Hid].
  unfold joined_rows. simpl. rewrite length_app, length_fmap. fold (joined_rows (λ o0,
    List.filter (λ x, bool_decide (or_id o0 = or_id o) && is_some x) (h o0)) l).
  destruct (decide (or_id o' = or_id o)) as [E|E].
  - assert (o' = o) as ->.
    { apply elem_of_cons in Ho as [->|Ho]; [done|]. exfalso. apply Hn. rewrite E. by apply list_elem_of_fmap_2. }
    erewrite filter_ext by (intros x; by rewrite bool_decide_eq_true_2).
    assert (∀ k, k = joined_rows (λ o0, List.filter (λ x, bool_decide (or_id o0 = or_id o) && is_some x) (h o0)) l →
      k = []) as Hk.
    { intros [|r k] Er; [done|]. exfalso.
      destruct (joined_ids (λ o0, List.filter (λ x, bool_decide (or_id o0 = or_id o) && is_some x) (h o0)) l r)
        as [Hr Hne]; [rewrite <-Er; left|].
      apply Hne, filter_none. intros x _. apply andb_false_iff. left. apply bool_decide_eq_false_2.
      intros E'. apply Hn. rewrite <-E'. by apply list_elem_of_fmap_2. }
    rewrite (Hk _ eq_refl). simpl. rewrite Nat.add_0_r. reflexivity.
  - rewrite (filter_none _ (h o')), IH; [done|done| |].
    + apply elem_of_cons in Ho as [->|Ho]; done.
    + intros x _. by rewrite bool_decide_eq_false_2.
Qed.

Lemma group_joined h orders : NoDup (or_id <$> orders) →
  group_by_order (joined_rows h orders) =
    (λ o, listed o (length (List.filter is_some (h o)))) <$>
      List.filter (λ o, negb (bool_decide (h o = []))) orders.
Proof.
  intros Hid. unfold group_by_order. rewrite first_joined by done.
  apply list_fmap_ext. intros i o Ho%list_elem_of_lookup_2. unfold list_entity, listed. f_equal.
  apply count_joined; [done|]. rewrite list_elem_of_In, filter_In in Ho. apply list_elem_of_In. tauto.
Qed.

(** The orders a list is about, and what it shows of each. *)
Definition has_status (filter : OrderFilter) (o : OrderEntity) : bool :=
  match of_status filter with Some s => bool_decide (or_status o = s) | None => true end.
Definition orders_of_buyer (buyer_id : Uuid) (filter : OrderFilter) t : list OrderEntity :=
  List.filter (λ o, bool_decide (or_buyer_id o = buyer_id) && has_status filter o) (ot_orders t).
Definition sold_items (seller_id : Uuid) t (o : OrderEntity) : list OrderItemEntity :=
  List.filter (λ i, bool_decide (it_seller_id i = seller_id)) (items_of t o).
Definition orders_of_seller (seller_id : Uuid) (filter : OrderFilter) t : list OrderEntity :=
  List.filter (λ o, negb (bool_decide (sold_items seller_id t o = [])) && has_status filter o) (ot_orders t).

Lemma filter_const {A} (b : bool) (l : list A) : List.filter (λ _, b) l = if b then l else [].
Proof. destruct b; [by apply filter_all|by apply filter_none]. Qed.

Lemma left_join_rows t :
  left_join t =
    joined_rows (λ o, match items_of t o with [] => [None] | l => Some <$> l end) (ot_orders t).
Proof.
  unfold left_join, joined_rows. apply flat_map_ext. intros o. destruct (items_of t o); [done|].
  by rewrite <-list_fmap_compose.
Qed.
Lemma inner_join_rows t : inner_join t = joined_rows (λ o, Some <$> items_of t o) (ot_orders t).
Proof. apply flat_map_ext. intros o. by rewrite <-list_fmap_compose. Qed.

Lemma some_items {A} (l : list A) : List.filter is_some (Some <$> l) = Some <$> l.
Proof. apply filter_all. by intros x (y & -> & _)%list_elem_of_fmap. Qed.

Lemma fmap_filter_ext {A B} (f g : A → B) (p q : A → bool) (l : list A) :
  (∀ x, p x = q x) → (∀ x, q x = true → f x = g x) → f <$> List.filter p l = g <$> List.filter q l.
Proof.
  intros Hp Hf. induction l as [|x l IH]; [done|]. simpl. rewrite Hp.
  destruct (q x) eqn:E; [|done]. by rewrite !fmap_cons, IH, Hf.
Qed.

Lemma buyer_rows_spec buyer_id filter t : NoDup (or_id <$> ot_orders t) →
  buyer_rows buyer_id filter t =
    (λ o, listed o (length (items_of t o))) <$> orders_of_buyer buyer_id filter t.
Proof.
  intros Hid. unfold buyer_rows. rewrite left_join_rows, filter_joined, group_joined by done.
  unfold apply_order_filters, orders_of_buyer, has_status. cbn [fst snd].
  apply fmap_filter_ext; intros o; rewrite filter_const.
  - case_match; [|by rewrite bool_decide_eq_true_2].
    rewrite bool_decide_eq_false_2; [done|]. by destruct (items_of t o).
  - intros ->. f_equal. destruct (items_of t o) as [|i l]; [done|]. by rewrite some_items, length_fmap.
Qed.

Lemma filter_some {A} (p : option A → bool) (l : list A) :
  List.filter p (Some <$> l) = Some <$> List.filter (λ x, p (Some x)) l.
Proof.
  induction l as [|x l IH]; [done|]. rewrite fmap_cons. cbn [List.filter]. rewrite IH. by destruct (p (Some x)).
Qed.

Lemma filter_andb_r {A} (p : A → bool) (b : bool) (l : list A) :
  List.filter (λ x, p x && b) l = if b then List.filter p l else [].
Proof.
  destruct b; [|apply filter_none; intros; by rewrite andb_false_r].
  apply filter_ext. intros x. by rewrite andb_true_r.
Qed.

Lemma seller_rows_spec seller_id filter t : NoDup (or_id <$> ot_orders t) →
  seller_rows seller_id filter t =
    (λ o, listed o (length (sold_items seller_id t o))) <$> orders_of_seller seller_id filter t.
Proof.
  intros Hid. unfold seller_rows. rewrite inner_join_rows, filter_joined, group_joined by done.
  unfold apply_order_filters, orders_of_seller, has_status, sold_by. cbn [fst snd].
  apply fmap_filter_ext; intros o; rewrite filter_andb_r, filter_some; fold (sold_items seller_id t o).
  - case_match; [|by rewrite bool_decide_eq_true_2, andb_false_r].
    rewrite andb_true_r. f_equal. apply bool_decide_ext. split; [by intros E%fmap_nil_inv|by intros ->].
  - intros [_ ->]%andb_true_iff. by rewrite some_items, length_fmap.
Qed.

(** ** What the lists answer *)

(** The first page of some orders, in the order of their identifiers. *)
Definition reference_page (limit : nat) (item_count : OrderEntity → nat) (orders : list OrderEntity)
    : PaginationRes OrderListRes :=
  let l := order_by (key or_id) orders in
  {| pr_items := (λ o, OrderListRes_new (listed o (item_count o))) <$> take limit l;
     pr_next_cursor := if limit <? length l then or_id <$> last (take limit l) else None;
     pr_prev_cursor := None |}.
Definition forward_from (cursor : option Uuid) (limit : nat) : PaginationParams := {|
  pg_limit := limit; pg_cursor := cursor; pg_direction := Forward |}.

Lemma list_page_reference limit item_count orders :
  list_page (forward_from None limit)
    (keyset_paginate ol_id (forward_from None limit) ((λ o, listed o (item_count o)) <$> orders)) =
  reference_page limit item_count orders.
Proof.
  unfold list_page. pose proof (forward_page_spec ol_id limit None ((λ o, listed o (item_count o)) <$> orders)) as E.
  unfold forward_page, page in E. unfold forward_from. rewrite E. unfold after, reference_page. simpl.
  rewrite filter_all by done. erewrite (order_by_fmap _ (key or_id)) by done.
  rewrite <-fmap_take, length_fmap, fmap_last, <-!list_fmap_compose, <-option_fmap_compose. done.
Qed.

Lemma list_select_pool {A} rows params (g : sql_error → AppError) (k : list OrderListEntity → A)
    (s : db order_tables unit) :
  (x ← on_pool (map_err g (list_select rows params)); mret (k x)) s =
    match pop_fault (d_env s) with
    | (FNone, e) =>
        (match pg_cursor params with
         | None => Ok (k (keyset_paginate ol_id params (rows (d_committed s))))
         | Some _ => Err (g DatatypeMismatch)
         end, MkDb (d_committed s) (bump e) (d_ext s))
    | (_, e) => (Err (g ConnectionFailure), MkDb (d_committed s) (bump e) (d_ext s))
    end.
Proof.
  unfold mbind, M_bind, on_pool, map_err, list_select, exec, push_keyset, pop_fault. simpl.
  destruct (e_faults (d_env s)) as [|[] fs]; simpl; destruct (pg_cursor params); reflexivity.
Qed.

(** C31: The two order lists. Without a cursor a list answers with the first of the buyer's (seller's)
    orders in the order of their identifiers, each once and with the number of its items (of the
    seller's own items), and with a cursor exactly when there are more. The cursor is of no use: a
    request that carries one never succeeds - with nothing lost it is answered by the error of the
    database - because its condition lands in the GROUP BY clause. Lists change nothing. *)
Theorem order_lists_answer who limit filter s o s' params :
  NoDup (or_id <$> ot_orders (d_committed s)) →
  let t := d_committed s in
  let fails msg := Err (InternalServerError (msg +:+ sqlx_display DatatypeMismatch)) in
  (list_my_orders who params filter s = (o, s') →
   d_committed s' = t ∧ (pg_cursor params ≠ None → is_ok o = false) ∧
   (e_faults (d_env s) = [] →
    (params = forward_from None limit →
       o = Ok (reference_page limit (λ o, length (items_of t o)) (orders_of_buyer who filter t))) ∧
    (pg_cursor params ≠ None → o = fails "Failed to list orders: "))) ∧
  (list_seller_orders who params filter s = (o, s') →
   d_committed s' = t ∧ (pg_cursor params ≠ None → is_ok o = false) ∧
   (e_faults (d_env s) = [] →
    (params = forward_from None limit →
       o = Ok (reference_page limit (λ o, length (sold_items who t o)) (orders_of_seller who filter t))) ∧
    (pg_cursor params ≠ None → o = fails "Failed to list seller orders: "))).
Proof.
  intros Hid t fails.
  split; unfold list_my_orders, list_seller_orders, list_orders_by_buyer, list_orders_by_seller;
    rewrite list_select_pool; unfold pop_fault;
    destruct (e_faults (d_env s)) as [|[] fs] eqn:Ef; intros [= <- <-]; (split; [done|]);
    (split; [by destruct (pg_cursor params)|]); try done; intros _;
    (split; [intros ->|by destruct (pg_cursor params)]); cbn [pg_cursor forward_from].
  - by rewrite buyer_rows_spec, list_page_reference.
  - by rewrite seller_rows_spec, list_page_reference.
Qed.
End specification.
