(* ===== verification/OrderProps.v ===== *)
(** * Order service: correctness

    The life cycle of an order under any interleaving of whole operations, event
    deliveries and faults; atomicity and idempotency of order creation; what
    cancelling does; and the saga handlers. *)

From S2P Require Import Prelude RustStr Externals Sample Errors NewTypes Rules Auth Events Db.
From S2P Require Import NewTypes Outbox Consumer ConsumerProps OrderTypes OrderReq OrderRepo OrderService.

Section facts.
Context `{Externals}.
Implicit Types t : order_tables.

(** ** The outbox entry of an event *)

(** A pending outbox row for an event of the given type about the given order. *)
Definition order_event (ty : EventType) (order_id : Uuid) (payload : Value) (r : OutboxEvent)
    : Prop := event_row "orders.events" ty order_id Order payload r.

(** ** Moves of the orders table *)

(** What never changes about an order. *)
Definition frozen (o o' : OrderEntity) : Prop :=
  or_id o' = or_id o ∧ or_created_at o' = or_created_at o ∧ or_buyer_id o' = or_buyer_id o ∧
  or_total_amount o' = or_total_amount o ∧ or_currency o' = or_currency o ∧
  or_idempotency_key o' = or_idempotency_key o ∧
  or_shipping_address o' = or_shipping_address o.

#[export] Instance frozen_preorder : PreOrder frozen.
Proof.
  split; [done|]. intros x y z (?&?&?&?&?&?&?) (?&?&?&?&?&?&?).
  unfold frozen. by split_and!; etrans.
Qed.

(** [evolves t t']: every order of [t] is still there, unchanged but for its status,
    which moved by legal transitions, and its new orders started as pending. *)
Definition evolves t t' : Prop :=
  ∀ id, match find_order id t, find_order id t' with
        | Some o, Some o' => reaches (or_status o) (or_status o') ∧ frozen o o'
        | Some _, None => False
        | None, Some o' => reaches StPending (or_status o')
        | None, None => True
        end.

#[export] Instance evolves_preorder : PreOrder evolves.
Proof.
  split.
  - intros t id. destruct (find_order id t); [|done]. split; reflexivity.
  - intros t1 t2 t3 H12 H23 id. specialize (H12 id). specialize (H23 id).
    destruct (find_order id t1), (find_order id t2), (find_order id t3); try done.
    + destruct H12, H23. split; by etrans.
    + destruct H23. by etrans.
Qed.

Lemma evolves_orders t t' : ot_orders t = ot_orders t' → evolves t t'.
Proof.
  intros E id. unfold find_order. rewrite E. case_match; [|done]. split; reflexivity.
Qed.

Lemma set_status_frozen st r now o : frozen o (set_status st r now o).
Proof. done. Qed.

Lemma evolves_update id st r now t o :
  find_order id t = Some o → transition_allowed (or_status o) st = true →
  evolves t (set_orders (update_where (has_id id) (set_status st r now) (ot_orders t)) t).
Proof.
  intros Hf Ha id'. unfold find_order in *. simpl. rewrite find_update_status.
  destruct (decide (id' = id)) as [->|Hne].
  - rewrite Hf. simpl. split; [|apply set_status_frozen]. exists [st]. by split.
  - case_match; [|done]. split; reflexivity.
Qed.

(** No other order changes. *)
Definition only_order (id : Uuid) t t' : Prop := ∀ id', id' ≠ id → find_order id' t' = find_order id' t.

(** Reading an order, checking the transition and updating it is a legal move. *)
Lemma update_status_evolves id st r o c u c' :
  update_order_status id st r c = (Ok u, c') →
  find_order id (c_tables c) = Some o → transition_allowed (or_status o) st = true →
  evolves (c_tables c) (c_tables c') ∧
  find_order id (c_tables c') = Some (set_status st r (e_now (c_env c)) o) ∧
  ot_outbox (c_tables c') = ot_outbox (c_tables c) ∧
  ot_processed (c_tables c') = ot_processed (c_tables c) ∧
  ot_items (c_tables c') = ot_items (c_tables c) ∧
  e_now (c_env c') = e_now (c_env c) ∧ only_order id (c_tables c) (c_tables c').
Proof.
  intros (_ & Ht & Hn)%update_order_status_ok Hf Ha. rewrite Ht. split_and!; try done.
  - by eapply evolves_update.
  - unfold find_order in *. simpl. rewrite find_update_status, decide_True, Hf by done. done.
  - intros id' Hne. unfold find_order. simpl. by rewrite find_update_status, decide_False.
Qed.

(** ** The event handlers *)

(** The status a handler moves the order to, when it succeeds. *)
Definition moved (id : Uuid) (st : OrderStatus) (o : OrderEntity) t t' : Prop :=
  find_order id t = Some o ∧ transition_allowed (or_status o) st = true ∧ evolves t t' ∧
  ot_processed t' = ot_processed t ∧ ot_items t' = ot_items t ∧ only_order id t t'.

Lemma evolves_event t t1 l :
  evolves t t1 → evolves t (set_outbox_events l t1).
Proof. intros Hev. etrans; [done|]. by apply evolves_orders. Qed.

(** The common start of the handlers: read the order, check the transition. *)
Lemma checked_ok {A} id st (k : OrderEntity → M (conn order_tables) AppError A) c a c' :
  (o ← get_order_by_id id; _ ← lift (omap_err bad_transition (transition_to (or_status o) st));
   k o) c = (Ok a, c') →
  ∃ o c2, find_order id (c_tables c) = Some o ∧ transition_allowed (or_status o) st = true ∧
    c_tables c2 = c_tables c ∧ k o c2 = (Ok a, c').
Proof.
  intros Hr.
  apply bind_ok in Hr as (o & c2 & H2 & Hr). apply get_order_by_id_ok in H2 as (Hf & Ht & Hn).
  apply bind_ok in Hr as (st' & c3 & H3 & Hr). apply lift_ok in H3 as [H3 <-].
  apply omap_err_ok, transition_to_ok in H3 as [Ha ->]. eauto 8.
Qed.

Lemma handle_inventory_reserved_ok e c u c' :
  handle_inventory_reserved e c = (Ok u, c') →
  ∃ id o, payload_uuid e "order_id" = Ok id ∧
    moved id StInventoryReserved o (c_tables c) (c_tables c') ∧
    ot_outbox (c_tables c') = ot_outbox (c_tables c) ∧
    or_status <$> find_order id (c_tables c') = Some StInventoryReserved.
Proof.
  unfold handle_inventory_reserved. intros Hr.
  apply bind_ok in Hr as (id & c1 & H1 & Hr). apply lift_ok in H1 as [Hid <-].
  apply checked_ok in Hr as (o & c2 & Hf & Ha & Ht & Hr). rewrite <-Ht in Hf.
  apply (update_status_evolves _ _ _ o) in Hr as (Hev & Hf' & Hb & Hp & Hi & _ & Ho); [|done..].
  rewrite Ht in *. exists id, o. unfold moved. split_and!; try done. by rewrite Hf'.
Qed.

Lemma handle_inventory_reservation_failed_ok e c u c' :
  handle_inventory_reservation_failed e c = (Ok u, c') →
  ∃ id o, payload_uuid e "order_id" = Ok id ∧
    moved id StCancelled o (c_tables c) (c_tables c') ∧
    ot_outbox (c_tables c') = ot_outbox (c_tables c) ∧
    or_status <$> find_order id (c_tables c') = Some StCancelled.
Proof.
  unfold handle_inventory_reservation_failed. intros Hr.
  apply bind_ok in Hr as (id & c1 & H1 & Hr). apply lift_ok in H1 as [Hid <-].
  apply checked_ok in Hr as (o & c2 & Hf & Ha & Ht & Hr). rewrite <-Ht in Hf.
  apply (update_status_evolves _ _ _ o) in Hr as (Hev & Hf' & Hb & Hp & Hi & _ & Ho); [|done..].
  rewrite Ht in *. exists id, o. unfold moved. split_and!; try done. by rewrite Hf'.
Qed.

Lemma handle_payment_authorized_ok e c u c' :
  handle_payment_authorized e c = (Ok u, c') →
  ∃ id o r, payload_uuid e "order_id" = Ok id ∧ or_status o = StInventoryReserved ∧
    moved id StPaymentAuthorized o (c_tables c) (c_tables c') ∧
    or_status <$> find_order id (c_tables c') = Some StConfirmed ∧
    ot_outbox (c_tables c') = ot_outbox (c_tables c) ++ [r] ∧
    order_event OrderConfirmed id (jobj [("order_id", jstr (uuid_to_string id));
      ("buyer_id", jstr (uuid_to_string (or_buyer_id o)))]) r.
Proof.
  unfold handle_payment_authorized. intros Hr.
  apply bind_ok in Hr as (id & c1 & H1 & Hr). apply lift_ok in H1 as [Hid <-].
  apply checked_ok in Hr as (o & c2 & Hf & Ha & Ht & Hr). rewrite <-Ht in Hf.
  apply bind_ok in Hr as ([] & c4 & H4 & Hr).
  apply (update_status_evolves _ _ _ o) in H4 as (Hev & Hf4 & Hb4 & Hp4 & Hi4 & _ & Ho4); [|done..].
  apply bind_ok in Hr as ([] & c5 & H5 & Hr).
  eapply update_status_evolves in H5 as (Hev5 & Hf5 & Hb5 & Hp5 & Hi5 & _ & Ho5); [|exact Hf4|done].
  unfold write_order_outbox in Hr. apply write_event_ok in Hr as (r & Ht' & Hr & _).
  rewrite Ht in *. exists id, o, r. rewrite Ht'. unfold moved.
  split_and!; try done; simpl; try congruence.
  - by destruct (or_status o).
  - apply evolves_event. by etrans.
  - intros id' Hne. unfold find_order in *. simpl. etrans; [by apply Ho5|by apply Ho4].
  - unfold find_order in *. simpl. by rewrite Hf5.
Qed.

Lemma cancel_order_on_payment_failure_ok e d c u c' :
  cancel_order_on_payment_failure e d c = (Ok u, c') →
  ∃ id o r, payload_uuid e "order_id" = Ok id ∧
    moved id StCancelled o (c_tables c) (c_tables c') ∧
    or_status <$> find_order id (c_tables c') = Some StCancelled ∧
    ot_outbox (c_tables c') = ot_outbox (c_tables c) ++ [r] ∧
    order_event OrderCancelled id
      (cancelled_payload id (or_buyer_id o) (default d (payload_str e "reason"))) r.
Proof.
  unfold cancel_order_on_payment_failure. intros Hr.
  apply bind_ok in Hr as (id & c1 & H1 & Hr). apply lift_ok in H1 as [Hid <-].
  apply checked_ok in Hr as (o & c2 & Hf & Ha & Ht & Hr). rewrite <-Ht in Hf.
  apply bind_ok in Hr as ([] & c4 & H4 & Hr).
  apply (update_status_evolves _ _ _ o) in H4 as (Hev & Hf4 & Hb4 & Hp4 & Hi4 & _ & Ho4); [|done..].
  unfold write_order_outbox in Hr. apply write_event_ok in Hr as (r & Ht' & Hr & _).
  rewrite Ht in *. exists id, o, r. rewrite Ht'. unfold moved.
  split_and!; try done; simpl; try congruence.
  - unfold find_order in *. simpl. by rewrite Hf4.
Qed.

Lemma order_event_handler_ok e c u c' :
  order_event_handler e c = (Ok u, c') →
  evolves (c_tables c) (c_tables c') ∧
  ot_processed (c_tables c') = ot_processed (c_tables c).
Proof.
  unfold order_event_handler, handle_payment_failed, handle_payment_timed_out, moved.
  destruct (em_event_type (env_metadata e)); intros Hr;
    try (apply ret_ok in Hr as [_ <-]; by split).
  - apply handle_inventory_reserved_ok in Hr as (?&?&_&(?&?&?&?&?)&_). done.
  - apply handle_inventory_reservation_failed_ok in Hr as (?&?&_&(?&?&?&?&?)&_). done.
  - apply handle_payment_authorized_ok in Hr as (?&?&?&_&_&(?&?&?&?&?)&_). done.
  - apply cancel_order_on_payment_failure_ok in Hr as (?&?&?&_&(?&?&?&?&?)&_). done.
  - apply cancel_order_on_payment_failure_ok in Hr as (?&?&?&_&(?&?&?&?&?)&_). done.
Qed.

(** The handler keeps to the consumer's interface. *)
#[export] Instance order_handler_well_behaved : WellBehaved order_handler eq.
Proof.
  split; unfold order_handler, map_err, in_tx, zoom.
  - intros e ss o ss'. repeat case_match; intros; by simplify_eq/=.
  - intros e ss o ss'. repeat case_match; intros; by simplify_eq/=.
  - intros e ss u ss'. destruct (order_event_handler e (s_conn ss)) as [[[]|?|] c] eqn:E;
      intros; simplify_eq/=. by apply order_event_handler_ok in E as [_ ?].
  - intros t t' ->. done.
Qed.

(** ** Creating an order *)

Definition new_order (buyer_id : Uuid) (v : ValidCreateOrderReq) (now : Z) (id : Uuid)
    (total : Decimal) : OrderEntity := {|
  or_id := id; or_created_at := now; or_updated_at := None; or_buyer_id := buyer_id;
  or_status := StPending; or_total_amount := total;
  or_currency := currency_str (vr_currency v);
  or_idempotency_key := key_str (vr_idempotency_key v);
  or_shipping_address := shipping_to_value (vr_shipping_address v);
  or_cancelled_reason := None |}.

(** The row of an item: its prices rounded to the columns' four decimals. *)
Definition item_row (order_id : Uuid) (i : ValidCreateOrderItem) (r : OrderItemEntity) : Prop :=
  it_order_id r = order_id ∧ it_product_id r = vi_product_id i ∧ it_sku_id r = vi_sku_id i ∧
  it_product_name r = vi_product_name i ∧ it_sku_code r = vi_sku_code i ∧
  it_quantity r = quantity_value (vi_quantity i) ∧ it_seller_id r = vi_seller_id i ∧
  dec_numeric (price_value (vi_unit_price i)) = Some (it_unit_price r) ∧
  dec_numeric (vi_total_price i) = Some (it_total_price r).

(** The whole effect of creating an order: the order, its items, and the event. *)
Definition created (buyer_id : Uuid) (v : ValidCreateOrderReq) (id : Uuid) t t' : Prop :=
  ∃ now total rows ev,
    dec_numeric (vr_total_amount v) = Some total ∧
    find_order id t = None ∧ find_order_by_key (key_str (vr_idempotency_key v)) t = None ∧
    Forall2 (item_row id) (vr_items v) rows ∧
    order_event OrderCreated id (order_created_payload id buyer_id v) ev ∧
    t' = MkOrderTables (ot_orders t ++ [new_order buyer_id v now id total])
           (ot_items t ++ rows) (ot_outbox t ++ [ev]) (ot_processed t).

Lemma insert_order_row_ok buyer v now id t x t' :
  insert_order_row buyer v now id t = Ok (x, t') →
  x = id ∧ ∃ total, dec_numeric (vr_total_amount v) = Some total ∧
    find_order id t = None ∧ find_order_by_key (key_str (vr_idempotency_key v)) t = None ∧
    t' = set_orders (ot_orders t ++ [new_order buyer v now id total]) t.
Proof.
  unfold insert_order_row. intros Hr.
  apply obind_ok in Hr as (total & Hn%numeric_ok & Hr).
  apply obind_ok in Hr as (cur & [-> _]%varchar_ok & Hr).
  apply obind_ok in Hr as (key & [-> _]%varchar_ok & Hr).
  apply obind_ok in Hr as ([] & _ & Hr).
  apply obind_ok in Hr as ([] & H1%unique_ok%existsb_find & Hr).
  apply obind_ok in Hr as ([] & H2%unique_ok%existsb_find & Hr).
  simplify_eq. eauto 10.
Qed.

Lemma insert_item_row_ok oid i now id t x t' :
  insert_item_row oid i now id t = Ok (x, t') →
  ∃ r, item_row oid i r ∧ t' = set_items (ot_items t ++ [r]) t.
Proof.
  unfold insert_item_row. intros Hr.
  apply obind_ok in Hr as (name & [-> _]%varchar_ok & Hr).
  apply obind_ok in Hr as (code & [-> _]%varchar_ok & Hr).
  apply obind_ok in Hr as (up & Hup%numeric_ok & Hr).
  apply obind_ok in Hr as (tp & Htp%numeric_ok & Hr).
  repeat (apply obind_ok in Hr as ([] & _ & Hr)). simplify_eq.
  eexists. split; [|done]. done.
Qed.

Lemma insert_items_ok oid items : ∀ c u c',
  for_each items (λ item,
    map_err (λ e, InternalServerError ("Failed to create order item: " +:+ sqlx_display e))
      (exec (insert_item_row oid item))) c = (Ok u, c') →
  ∃ rows, c_tables c' = set_items (ot_items (c_tables c) ++ rows) (c_tables c) ∧
    Forall2 (item_row oid) items rows.
Proof.
  induction items as [|i items IH]; intros c u c' Hr; simpl in Hr.
  - apply ret_ok in Hr as [_ <-]. exists []. rewrite app_nil_r.
    split; [by destruct (c_tables c)|constructor].
  - apply bind_ok in Hr as ([] & c1 & H1 & Hr). apply map_err_ok in H1.
    apply exec_ok in H1 as (_ & _ & _ & id & E). apply insert_item_row_ok in E as (r & Hr1 & Ht).
    apply IH in Hr as (rows & Ht' & Hrows). exists (r :: rows). rewrite Ht', Ht. simpl.
    rewrite <-app_assoc. split; [done|by constructor].
Qed.

Lemma create_order_tx_ok buyer v c id c' :
  create_order_tx buyer v c = (Ok id, c') →
  created buyer v id (c_tables c) (c_tables c') ∧ c_status c' = TxActive.
Proof.
  unfold create_order_tx, repo_create_order. intros Hr.
  apply bind_ok in Hr as (oid & c1 & H1 & Hr). apply map_err_ok in H1.
  apply bind_ok in H1 as (oid' & c2 & H2 & H1). apply map_err_ok in H2.
  apply exec_ok in H2 as (_ & _ & _ & gid & E).
  apply insert_order_row_ok in E as (-> & total & Hn & Hf & Hk & Ht2).
  apply bind_ok in H1 as ([] & c3 & H3 & H1). apply ret_ok in H1 as [-> ->].
  apply insert_items_ok in H3 as (rows & Ht3 & Hrows).
  apply bind_ok in Hr as ([] & c4 & H4 & Hr). apply ret_ok in Hr as [-> ->].
  apply map_err_ok in H4. apply write_event_ok in H4 as (ev & Ht4 & Hev & Hs & _).
  split; [|done]. exists (e_now (c_env c)), total, rows, ev.
  rewrite Ht4, Ht3, Ht2. simpl. split_and!; done.
Qed.

Lemma find_order_created buyer v id t t' :
  created buyer v id t t' → ∀ id', find_order id' t' =
    (if decide (id' = id) then find_order id t' else find_order id' t).
Proof.
  intros (now & total & rows & ev & _ & Hf & _ & _ & _ & ->) id'.
  case_decide as Hd; [by subst|]. unfold find_order in *. simpl. rewrite find_app.
  destruct (List.find (has_id id') (ot_orders t)); [done|]. simpl. unfold has_id. simpl.
  by rewrite bool_decide_false.
Qed.

Lemma created_find buyer v id t t' :
  created buyer v id t t' →
  ∃ o, find_order id t' = Some o ∧ find_order_by_key (key_str (vr_idempotency_key v)) t' = Some o ∧
    or_status o = StPending ∧ or_buyer_id o = buyer ∧
    dec_numeric (vr_total_amount v) = Some (or_total_amount o).
Proof.
  intros (now & total & rows & ev & Hn & Hf & Hk & _ & _ & ->).
  exists (new_order buyer v now id total). unfold find_order, find_order_by_key in *. simpl.
  rewrite !find_app, Hf, Hk. simpl. unfold has_id. simpl.
  by rewrite !bool_decide_true by done.
Qed.

Lemma created_evolves buyer v id t t' : created buyer v id t t' → evolves t t'.
Proof.
  intros Hc id'. rewrite (find_order_created _ _ _ _ _ Hc).
  destruct (created_find _ _ _ _ _ Hc) as (o & Ho & _ & Hst & _).
  case_decide as Hd.
  - subst. destruct Hc as (_ & _ & _ & _ & _ & Hf & _). rewrite Hf, Ho, Hst. reflexivity.
  - case_match; [|done]. split; reflexivity.
Qed.

(** ** The operations on the pool *)

Implicit Types s : db order_tables unit.

Lemma keeps_get_order_by_id id : keeps (tables_rel eq) (get_order_by_id id).
Proof. unfold get_order_by_id. keeps_tac. Qed.
Lemma keeps_get_by_key k : keeps (tables_rel eq) (get_order_by_idempotency_key k).
Proof. unfold get_order_by_idempotency_key. keeps_tac. Qed.
Lemma keeps_list_items id : keeps (tables_rel eq) (list_order_items id).
Proof. unfold list_order_items. keeps_tac. Qed.

Lemma pool_reads {A} (m : M (conn order_tables) AppError A) s o s' :
  keeps (tables_rel eq) m → on_pool m s = (o, s') → d_committed s' = d_committed s.
Proof. intros Hm Hr. eapply (keeps_on_pool eq) in Hm. symmetry. by eapply Hm. Qed.

Definition creation_passes (v : ValidCreateOrderReq) : bool :=
  passed (evaluate_detailed (eval_creation (create_order_ctx v)) creation_rules).

(** Every run of [create_order]: nothing happens, or one order is created. *)
Lemma create_order_all_or_nothing user key req s o s' :
  create_order user key req s = (o, s') →
  d_committed s' = d_committed s ∨
  ∃ v id, ValidCreateOrderReq_new key req = Ok v ∧ creation_passes v = true ∧
    created (cu_id user) v id (d_committed s) (d_committed s').
Proof.
  unfold create_order. intros [(v & s1 & H1 & Hr)|[_ (o1 & H1 & Hno)]]%bind_inv; unfold lift in H1;
    simplify_eq; [|by left]. fold (creation_passes v) in Hr.
  destruct (creation_passes v) eqn:Ep; simpl in Hr; [|injection Hr as _ <-; by left].
  apply bind_inv in Hr as [(ex & s2 & H2 & Hr)|[_ (o2 & H2 & Hno)]];
    apply pool_reads in H2; [|apply keeps_get_by_key|by left|apply keeps_get_by_key].
  destruct ex as [ex|]; [injection Hr as _ <-; by left|].
  assert (∀ oid (sa sb : db order_tables unit), map_err (λ e, InternalServerError ("Failed to create order: " +:+
      tx_error_display e)) (with_transaction (create_order_tx (cu_id user) v)) sa = (oid, sb) →
    d_committed sb = d_committed sa ∨ ∃ id, created (cu_id user) v id (d_committed sa) (d_committed sb))
    as Htx.
  { intros oid sa sb. unfold map_err. destruct (with_transaction _ sa) as [ow sw] eqn:Ew.
    intros [= _ <-]. apply with_transaction_all_or_nothing in Ew as [_ [?|(e & id & c & Hc & _ & _ & Et)]];
      [by left|]. right. exists id. rewrite Et. apply create_order_tx_ok in Hc as [Hc _]. exact Hc. }
  apply bind_inv in Hr as [(id & s3 & H3 & Hr)|[_ (o3 & H3 & Hno)]]; apply Htx in H3; rewrite H2 in H3.
  - apply bind_inv in Hr as [(od & s4 & H4 & Hr)|[_ (o4 & H4 & Hno)]];
      apply pool_reads in H4; try apply keeps_get_order_by_id; [apply ret_ok in Hr as [_ <-] || (injection Hr as _ <-)|];
      rewrite H4; naive_solver.
  - naive_solver.
Qed.

(** What a reported success means. *)
Lemma create_order_ok user key req s res s' :
  create_order user key req s = (Ok res, s') →
  ∃ v, ValidCreateOrderReq_new key req = Ok v ∧ creation_passes v = true ∧
  ((∃ o, find_order_by_key (key_str (vr_idempotency_key v)) (d_committed s) = Some o ∧
      res = OrderRes_new o ∧ d_committed s' = d_committed s) ∨
   (∃ id o, created (cu_id user) v id (d_committed s) (d_committed s') ∧
      find_order id (d_committed s') = Some o ∧ res = OrderRes_new o)).
Proof.
  unfold create_order. intros Hr. apply bind_ok in Hr as (v & s1 & H1 & Hr).
  apply lift_ok in H1 as [Hv <-]. fold (creation_passes v) in Hr.
  destruct (creation_passes v) eqn:Ep; [|done]. simpl in Hr. exists v. split_and!; [done..|].
  apply bind_ok in Hr as (ex & s2 & H2 & Hr). apply on_pool_ok in H2 as (c2 & H2 & Ht2 & _).
  unfold get_order_by_idempotency_key in H2. apply map_err_ok in H2.
  apply query_ok in H2 as (-> & Hc2 & _). simpl in *. rewrite Hc2 in Ht2.
  destruct (find_order_by_key _ (d_committed s)) as [o|] eqn:Ek.
  - apply ret_ok in Hr as [<- <-]. left. exists o. by rewrite Ht2.
  - apply bind_ok in Hr as (id & s3 & H3 & Hr). apply map_err_ok in H3.
    apply with_transaction_ok in H3 as (e & c & Hc & _ & _ & _ & Hst).
    apply create_order_tx_ok in Hc as [Hc Hact]. simpl in Hc. rewrite Ht2 in Hc.
    apply bind_ok in Hr as (o & s4 & H4 & Hr). apply ret_ok in Hr as [<- <-].
    apply on_pool_ok in H4 as (c4 & H4 & Ht4 & _). apply get_order_by_id_ok in H4 as (Hf & Hc4 & _).
    simpl in *. rewrite Hc4 in Ht4. right. exists id, o.
    destruct Hst as [[_ Ht3]|[? _]]; [|congruence]. rewrite Ht4, Ht3 in *. split_and!; done.
Qed.

(** ** Cancelling an order *)

(** The effect of the cancelling transaction, run with the order that was read. *)
Definition cancelled (order : OrderEntity) (id : Uuid) (reason : string) t t' : Prop :=
  ∃ now ev, rows_affected (has_id id) (ot_orders t) = 1 ∧
    order_event OrderCancelled id (cancelled_payload id (or_buyer_id order) reason) ev ∧
    t' = MkOrderTables
           (update_where (has_id id) (set_status StCancelled (Some reason) now) (ot_orders t))
           (ot_items t) (ot_outbox t ++ [ev]) (ot_processed t).

Lemma cancel_order_tx_ok order id reason c u c' :
  cancel_order_tx order id reason c = (Ok u, c') →
  cancelled order id reason (c_tables c) (c_tables c') ∧ c_status c' = TxActive.
Proof.
  unfold cancel_order_tx. intros Hr. apply bind_ok in Hr as ([] & c1 & H1 & Hr).
  apply map_err_ok in H1. apply update_order_status_ok in H1 as (Ha & Ht & _).
  apply map_err_ok in Hr. apply write_event_ok in Hr as (ev & Ht' & Hev & Hs & _).
  split; [|done]. exists (e_now (c_env c)), ev. rewrite Ht', Ht. done.
Qed.

Lemma cancel_checks_ok user order u :
  cancel_order_checks user order = Ok u ↔
  (cu_id user = or_buyer_id order ∨ cu_role user = Admin) ∧ can_cancel (or_status order) = true.
Proof.
  unfold cancel_order_checks. rewrite obind_ok. setoid_rewrite require_access_ok.
  rewrite cancellation_rules_pass. destruct u, (can_cancel (or_status order)) eqn:Ec; simpl.
  - unfold transition_to. rewrite <-can_cancel_allowed, Ec. simpl.
    split; [intros (_ & ? & _); done|intros [? _]; by exists tt].
  - split; [by intros (_ & _ & ?)|by intros [_ ?]].
Qed.

Lemma cancel_order_write_effect user id reason order s o s' :
  cancel_order_write user id reason order s = (o, s') →
  d_committed s' = d_committed s ∧ (is_ok o = true → False) ∨
  (cu_id user = or_buyer_id order ∨ cu_role user = Admin) ∧ can_cancel (or_status order) = true ∧
    cancelled order id (default "Cancelled by buyer" reason) (d_committed s) (d_committed s').
Proof.
  unfold cancel_order_write. intros [([] & s1 & H1 & Hr)|[Ho (o1 & H1 & Hno)]]%bind_inv; unfold lift in H1;
    simplify_eq; [|left; split; [done|]; by rewrite Ho]. apply cancel_checks_ok in H0 as [Hacc Hcan].
  unfold map_err in Hr. destruct (with_transaction _ s1) as [ow sw] eqn:Ew. injection Hr as <- <-.
  destruct ow as [[]|e|].
  - right. split_and!; [done..|].
    apply with_transaction_ok in Ew as (e & c & Hc & _ & _ & _ & Hst).
    apply cancel_order_tx_ok in Hc as [Hc Hs]. destruct Hst as [[_ Et]|[? _]]; [|congruence].
    by rewrite Et.
  - apply with_transaction_all_or_nothing in Ew as [_ [?|(ee & [] & c & Hc & _ & _ & Et)]]; [by left|].
    right. split_and!; [done..|]. apply cancel_order_tx_ok in Hc as [Hc _]. by rewrite Et.
  - apply with_transaction_all_or_nothing in Ew as [_ [?|(ee & [] & c & Hc & _ & _ & Et)]]; [by left|].
    right. split_and!; [done..|]. apply cancel_order_tx_ok in Hc as [Hc _]. by rewrite Et.
Qed.

Lemma cancel_order_effect user id reason s o s' :
  cancel_order user id reason s = (o, s') →
  d_committed s' = d_committed s ∧ is_ok o = false ∨
  ∃ order, find_order id (d_committed s) = Some order ∧
    (cu_id user = or_buyer_id order ∨ cu_role user = Admin) ∧ can_cancel (or_status order) = true ∧
    cancelled order id (default "Cancelled by buyer" reason) (d_committed s) (d_committed s').
Proof.
  unfold cancel_order. intros [(od & s1 & H1 & Hr)|[Ho (o1 & H1 & Hno)]]%bind_inv.
  - apply on_pool_ok in H1 as (c & H1 & Ht & _). apply get_order_by_id_ok in H1 as (Hf & Hc & _).
    simpl in *. rewrite Hc in Ht. apply cancel_order_write_effect in Hr.
    rewrite Ht in Hr. destruct Hr as [[-> Hn]|Hr]; [left; split; [done|]|right; eauto].
    destruct (is_ok o); [by destruct Hn|done].
  - apply pool_reads in H1; [auto|apply keeps_get_order_by_id].
Qed.

Lemma cancelled_evolves order id reason t t' :
  find_order id t = Some order → can_cancel (or_status order) = true →
  cancelled order id reason t t' → evolves t t'.
Proof.
  intros Hf Hc (now & ev & _ & _ & ->). rewrite can_cancel_allowed in Hc.
  etrans; [by eapply (evolves_update id StCancelled (Some reason) now)|]. by apply evolves_orders.
Qed.

(** ** The whole service

    The operations that reach the order service: its HTTP requests, each run as a
    whole, and its event handler, run by the consumer. *)
Inductive order_op : Type :=
| OpCreate (user : CurrentUser) (key : string) (req : CreateOrderReq)
| OpDetail (user : CurrentUser) (id : Uuid)
| OpCancel (user : CurrentUser) (id : Uuid) (reason : option string)
| OpEvent (group : string) (e : EventEnvelope)
| OpTick (ms : Z).

Definition run_op (op : order_op) s : db order_tables unit :=
  match op with
  | OpCreate user key req => (create_order user key req s).2
  | OpDetail user id => (get_order_detail user id s).2
  | OpCancel user id reason => (cancel_order user id reason s).2
  | OpEvent group e => (attempt order_handler group e s).2
  | OpTick ms => advance ms s
  end.
Definition run_ops (ops : list order_op) s : db order_tables unit := foldl (flip run_op) s ops.

Lemma keeps_order_detail user id : keeps (db_rel (X := unit) eq) (get_order_detail user id).
Proof.
  unfold get_order_detail. apply keeps_bind; [typeclasses eauto| |].
  - apply keeps_on_pool, keeps_get_order_by_id.
  - intros od. apply keeps_bind; [typeclasses eauto|by apply keeps_lift; typeclasses eauto|].
    intros _. apply keeps_bind; [typeclasses eauto|apply keeps_on_pool, keeps_list_items|].
    intros its. apply keeps_ret. typeclasses eauto.
Qed.

Lemma run_op_evolves op s : evolves (d_committed s) (d_committed (run_op op s)).
Proof.
  destruct op as [user key req|user id|user id reason|g e|ms]; simpl.
  - destruct (create_order user key req s) as [o s'] eqn:Er. simpl.
    apply create_order_all_or_nothing in Er as [->|(v & id & _ & _ & Hc)]; [reflexivity|].
    by eapply created_evolves.
  - destruct (get_order_detail user id s) as [o s'] eqn:Er. simpl.
    apply keeps_order_detail in Er. by rewrite Er.
  - destruct (cancel_order user id reason s) as [o s'] eqn:Er. simpl.
    apply cancel_order_effect in Er as [[-> _]|(od & Hf & _ & Hc & He)]; [reflexivity|].
    by eapply cancelled_evolves.
  - destruct (attempt order_handler g e s) as [o s'] eqn:Er. simpl.
    apply (attempt_spec order_handler eq) in Er as [(<- & _)|(_ & Ha & _)]; [reflexivity|].
    destruct Ha as (c & x & ss & now & <- & Hh & _ & -> & _). unfold order_handler, in_tx in Hh.
    apply map_err_ok, zoom_ok in Hh as (c' & Hh & ->). apply order_event_handler_ok in Hh as [Hev _].
    etrans; [exact Hev|]. apply evolves_orders. unfold mark_processed_row. by case_match.
  - reflexivity.
Qed.

Lemma run_ops_evolves ops s : evolves (d_committed s) (d_committed (run_ops ops s)).
Proof.
  revert s. induction ops as [|op ops IH]; intros s; simpl; [reflexivity|].
  etrans; [apply run_op_evolves|apply IH].
Qed.

(** ** Integrity of the tables *)

Definition item_ok (t : order_tables) (i : OrderItemEntity) : Prop :=
  is_Some (find_order (it_order_id i) t) ∧ (1 ≤ it_quantity i ≤ 9999)%Z.
Definition integrity t : Prop :=
  NoDup (or_id <$> ot_orders t) ∧ NoDup (or_idempotency_key <$> ot_orders t) ∧
  ∀ i, i ∈ ot_items t → item_ok t i.

Lemma find_none_not_in {A B} `{EqDecision B} (f : A → B) b l :
  List.find (λ x, bool_decide (f x = b)) l = None → b ∉ (f <$> l).
Proof.
  intros Hf Hin. apply list_elem_of_fmap in Hin as (x & -> & Hin).
  apply list_elem_of_In in Hin. eapply find_none in Hf; [|exact Hin].
  by rewrite bool_decide_true in Hf.
Qed.

Lemma integrity_created key req buyer v id t t' :
  ValidCreateOrderReq_new key req = Ok v →
  created buyer v id t t' → integrity t → integrity t'.
Proof.
  intros Hv Hc (Hi & Hk & Hit). pose proof (created_find _ _ _ _ _ Hc) as (o & Ho & _).
  pose proof (find_order_created _ _ _ _ _ Hc) as Hfind.
  destruct Hc as (now & total & rows & ev & _ & Hfi & Hfk & Hrows & _ & Et).
  split_and!.
  - rewrite Et. simpl. rewrite fmap_app, NoDup_app. split_and!; [done| |apply NoDup_singleton].
    intros x Hx Hx'. apply list_elem_of_singleton in Hx' as ->.
    exact (find_none_not_in or_id id _ Hfi Hx).
  - rewrite Et. simpl. rewrite fmap_app, NoDup_app. split_and!; [done| |apply NoDup_singleton].
    intros x Hx Hx'. apply list_elem_of_singleton in Hx' as ->.
    exact (find_none_not_in or_idempotency_key _ _ Hfk Hx).
  - intros i Hin. unfold item_ok. rewrite Hfind. rewrite Et in Hin. simpl in Hin.
    apply elem_of_app in Hin as [Hin|Hin].
    + destruct (Hit _ Hin) as [? ?]. split; [|done]. case_decide; [by rewrite Ho|done].
    + apply ValidCreateOrderReq_new_ok in Hv as (Hitems & _).
      apply list_elem_of_lookup in Hin as [k Hk']. destruct (Forall2_lookup_r _ _ _ _ _ Hrows Hk') as (vi & Hvi & Hr).
      destruct (Forall2_lookup_r _ _ _ _ _ Hitems Hvi) as (ri & _ & Hri).
      destruct Hr as (-> & _ & _ & _ & _ & -> & _). rewrite decide_True, Ho by done.
      destruct Hri as (_ & _ & _ & _ & _ & -> & ? & _). done.
Qed.

Lemma integrity_evolves t t' :
  evolves t t' → or_id <$> ot_orders t' = or_id <$> ot_orders t →
  or_idempotency_key <$> ot_orders t' = or_idempotency_key <$> ot_orders t →
  ot_items t' = ot_items t → integrity t → integrity t'.
Proof.
  intros Hev Hi Hk Hit (H1 & H2 & H3). unfold integrity. rewrite Hi, Hk, Hit.
  split_and!; [done..|]. intros i Hin. destruct (H3 i Hin) as [[o Ho] ?]. split; [|done].
  specialize (Hev (it_order_id i)). rewrite Ho in Hev.
  destruct (find_order (it_order_id i) t'); [done|by destruct Hev].
Qed.

(** What an update of an order's status leaves alone. *)
Definition same_orders t t' : Prop :=
  or_id <$> ot_orders t' = or_id <$> ot_orders t ∧
  or_idempotency_key <$> ot_orders t' = or_idempotency_key <$> ot_orders t ∧
  ot_items t' = ot_items t.
#[local] Instance same_orders_preorder : PreOrder same_orders.
Proof.
  split; [done|]. intros x y z (?&?&?) (?&?&?). unfold same_orders. by split_and!; etrans.
Qed.

Lemma keeps_update_order_status id st r :
  keeps (tables_rel same_orders) (update_order_status id st r).
Proof.
  unfold update_order_status. apply keeps_bind; [typeclasses eauto| |keeps_tac].
  apply keeps_map_err, keeps_exec; [typeclasses eauto|].
  intros now i t a t' [= _ <-]. unfold same_orders. simpl. by rewrite !fmap_update_where.
Qed.

Lemma keeps_insert_event i : keeps (tables_rel same_orders) (insert_outbox_event i).
Proof. by apply keeps_insert_outbox_event; [typeclasses eauto|]. Qed.

Lemma keeps_get_order id : keeps (tables_rel same_orders) (get_order_by_id id).
Proof. unfold get_order_by_id. keeps_tac. Qed.
Hint Resolve keeps_update_order_status keeps_insert_event keeps_get_order : keeps.

Lemma keeps_handler e : keeps (tables_rel same_orders) (order_event_handler e).
Proof.
  unfold order_event_handler, handle_inventory_reserved, handle_inventory_reservation_failed,
    handle_payment_authorized, handle_payment_failed, handle_payment_timed_out,
    cancel_order_on_payment_failure, write_order_outbox, write_event.
  destruct (em_event_type (env_metadata e)); keeps_tac.
Qed.

Lemma run_op_integrity op s : integrity (d_committed s) → integrity (d_committed (run_op op s)).
Proof.
  intros Hi. pose proof (run_op_evolves op s) as Hev.
  destruct op as [user key req|user id|user id reason|g e|ms]; simpl in *; [| | | |done].
  - destruct (create_order user key req s) as [o s'] eqn:Er. simpl in *.
    apply create_order_all_or_nothing in Er as [->|(v & id & Hv & _ & Hc)]; [done|].
    by eapply integrity_created.
  - destruct (get_order_detail user id s) as [o s'] eqn:Er. simpl in *.
    apply keeps_order_detail in Er. by rewrite <-Er.
  - destruct (cancel_order user id reason s) as [o s'] eqn:Er. simpl in *.
    apply cancel_order_effect in Er as [[-> _]|(od & _ & _ & _ & (now & ev & _ & _ & Et))]; [done|].
    apply (integrity_evolves (d_committed s)); rewrite ?Et; simpl;
      rewrite ?fmap_update_where; try done. by rewrite <-Et.
  - destruct (attempt order_handler g e s) as [o s'] eqn:Er. simpl in *.
    apply (attempt_spec order_handler eq) in Er as [(<- & _)|(_ & Ha & _)]; [done|].
    destruct Ha as (c & x & ss & now & Ec & Hh & _ & Et & _). unfold order_handler, in_tx in Hh.
    apply map_err_ok, zoom_ok in Hh as (c' & Hh & ->). simpl in *. apply keeps_handler in Hh.
    unfold tables_rel in Hh. rewrite Ec in Hh. destruct Hh as (H1 & H2 & H3).
    apply (integrity_evolves (d_committed s)); rewrite ?Et; unfold mark_processed_row in *;
      case_match; try done; rewrite <-Et; done.
Qed.

(** ** Finding an order after an update *)

Lemma find_cancelled order id reason t t' od :
  cancelled order id reason t t' → find_order id t = Some od →
  ∃ now, find_order id t' = Some (set_status StCancelled (Some reason) now od).
Proof.
  intros (now & ev & _ & _ & ->) Hf. exists now. unfold find_order in *. simpl.
  by rewrite find_update_status, decide_True, Hf.
Qed.

(** The status an event moves its order to first, and the outbox entry it writes. *)
Definition saga_target (ty : EventType) : option OrderStatus :=
  match ty with
  | InventoryReserved => Some StInventoryReserved
  | InventoryReservationFailed => Some StCancelled
  | PaymentAuthorized => Some StPaymentAuthorized
  | PaymentFailed | PaymentTimedOut => Some StCancelled
  | _ => None
  end.

(** A statement on a healthy connection. *)
Lemma fetch_quiet {A} (f : order_tables → option A) c :
  c_status c = TxActive → e_faults (c_env c) = [] →
  fetch_one f c = (match f (c_tables c) with Some a => Ok a | None => Err RowNotFound end,
                   MkConn (c_tables c) TxActive (bump (c_env c))).
Proof.
  intros Hs Hq. unfold fetch_one, query, exec, pop_fault, mbind, M_bind. rewrite Hs, Hq. simpl.
  by destruct (f (c_tables c)).
Qed.

Lemma get_order_quiet id c :
  c_status c = TxActive → e_faults (c_env c) = [] →
  get_order_by_id id c =
    (match find_order id (c_tables c) with
     | Some o => Ok o
     | None => Err (NotFound ("Order not found: " +:+ sqlx_display RowNotFound))
     end, MkConn (c_tables c) TxActive (bump (c_env c))).
Proof.
  intros Hs Hq. unfold get_order_by_id, map_err. rewrite fetch_quiet by done.
  by destruct (find_order id (c_tables c)).
Qed.
End facts.

(** ** Properties *)

Section properties.
Context `{Externals}.
Implicit Types (t : order_tables) (s : db order_tables unit).

(** C5: The life cycle of an order. Along any sequence of requests and event
    deliveries, with any faults, an order is never lost, its identity, buyer, total,
    currency, key and address never change, its status only moves along legal
    transitions (so its rank grows, by at most six steps in all), an order that is
    cancelled or returned stays so, and an order that appears started as pending. *)
Theorem order_lifecycle ops s id :
  let t := d_committed s in
  let t' := d_committed (run_ops ops s) in
  (∀ o, find_order id t = Some o →
    ∃ o', find_order id t' = Some o' ∧ frozen o o' ∧ reaches (or_status o) (or_status o') ∧
      rank (or_status o) ≤ rank (or_status o') ≤ 6 ∧
      (terminal (or_status o) → or_status o' = or_status o)) ∧
  (∀ o', find_order id t = None → find_order id t' = Some o' →
    reaches StPending (or_status o')).
Proof.
  intros t t'. pose proof (run_ops_evolves ops s id) as Hev. fold t t' in Hev. split.
  - intros o Ho. rewrite Ho in Hev. destruct (find_order id t') as [o'|]; [|done].
    destruct Hev as [Hr Hf]. exists o'. split_and!; try done.
    + destruct Hr as [l Hl%steps_rank]. lia.
    + destruct (or_status o'); simpl; lia.
    + intros Ht. by apply reaches_terminal.
  - intros o' Ho Ho'. by rewrite Ho, Ho' in Hev.
Qed.

(** Integrity. Order ids and idempotency keys stay unique, and every item belongs
    to an existing order and has a quantity between 1 and 9999. *)
Theorem order_integrity ops s :
  integrity (d_committed s) → integrity (d_committed (run_ops ops s)).
Proof.
  revert s. induction ops as [|op ops IH]; intros s Hi; simpl; [done|].
  apply IH. by apply run_op_integrity.
Qed.

(** C6: Creating an order is all or nothing, and idempotent by key. Whatever the
    outcome - an error, a lost acknowledgement - the tables are either untouched, or
    hold exactly one new pending order of the caller with all its items and one
    OrderCreated event, for a request that validates, passes the creation rules and
    whose key was not used. A reported success is that order, or the order that
    already has the key. *)
Theorem create_order_atomic user key req s o s' :
  create_order user key req s = (o, s') →
  let t := d_committed s in
  let t' := d_committed s' in
  (t' = t ∨ ∃ v id, ValidCreateOrderReq_new key req = Ok v ∧ creation_passes v = true ∧
     created (cu_id user) v id t t') ∧
  (∀ res, o = Ok res → ∃ v od, ValidCreateOrderReq_new key req = Ok v ∧
     creation_passes v = true ∧ res = OrderRes_new od ∧
     (t' = t ∧ find_order_by_key (key_str (vr_idempotency_key v)) t = Some od ∨
      created (cu_id user) v (or_id od) t t' ∧ find_order (or_id od) t' = Some od)).
Proof.
  intros Hr t t'. split; [by apply create_order_all_or_nothing in Hr|].
  intros res ->. apply create_order_ok in Hr as (v & Hv & Hp & [(od & Hk & -> & Et)|
    (id & od & Hc & Hf & ->)]); exists v, od; split_and!; try done; [by left|right].
  pose proof (find_has_id _ _ _ Hf) as [-> _]. done.
Qed.

(** A valid request whose key already belongs to an order is answered with that
    order and changes nothing. *)
Theorem create_order_replay user key req s v od :
  ValidCreateOrderReq_new key req = Ok v → creation_passes v = true →
  find_order_by_key (key_str (vr_idempotency_key v)) (d_committed s) = Some od →
  e_faults (d_env s) = [] →
  ∃ s', create_order user key req s = (Ok (OrderRes_new od), s') ∧
    d_committed s' = d_committed s.
Proof.
  intros Hv Hp Hk Hq. unfold creation_passes in Hp.
  unfold create_order, mbind, M_bind, lift. rewrite Hv, Hp. cbn [negb].
  unfold on_pool, get_order_by_idempotency_key, map_err, query, exec, pop_fault. simpl.
  rewrite Hq. simpl. rewrite Hk. eauto.
Qed.

(** C7: The total of a validated order is exactly the sum of price times quantity
    when the prices have at most four decimals and the sum fits the decimal type. *)
Theorem order_total_exact key req v :
  ValidCreateOrderReq_new key req = Ok v →
  Forall (λ i, cents (dec_units (ci_unit_price i))) (cr_items req) →
  (zsum (line_total <$> cr_items req) ≤ exact_bound)%Z →
  dec_units (vr_total_amount v) = zsum (line_total <$> cr_items req).
Proof.
  intros (Hv & _ & Hs & _)%ValidCreateOrderReq_new_ok Hc Hb.
  destruct (item_totals_exact _ _ Hv Hc Hb) as [He Hn]. rewrite <-He in *.
  by apply dec_sum_cents.
Qed.

(** Cancelling an order. A run either changes nothing and fails, or the caller
    owns the order (or is an administrator), the order was in a status that allows
    cancellation, and then exactly this order becomes cancelled with the reason, and
    exactly one OrderCancelled event for it is written - also when the acknowledgement
    of the commit is lost. *)
Theorem cancel_order_effects user id reason s o s' :
  cancel_order user id reason s = (o, s') →
  let t := d_committed s in
  let t' := d_committed s' in
  let why := default "Cancelled by buyer" reason in
  (t' = t ∧ is_ok o = false) ∨
  ∃ od now ev, find_order id t = Some od ∧
    (cu_id user = or_buyer_id od ∨ cu_role user = Admin) ∧ can_cancel (or_status od) = true ∧
    find_order id t' = Some (set_status StCancelled (Some why) now od) ∧
    (∀ id', id' ≠ id → find_order id' t' = find_order id' t) ∧
    ot_outbox t' = ot_outbox t ++ [ev] ∧
    order_event OrderCancelled id (cancelled_payload id (or_buyer_id od) why) ev.
Proof.
  intros Hr t t' why. apply cancel_order_effect in Hr as [?|(od & Hf & Hacc & Hc & Hcan)]; [by left|].
  right. destruct (find_cancelled _ _ _ _ _ _ Hcan Hf) as [now Hf'].
  destruct Hcan as (now' & ev & _ & Hev & Et). exists od, now, ev. split_and!; try done.
  - intros id' Hne. unfold t', t, find_order. rewrite Et. simpl.
    by rewrite find_update_status, decide_False.
  - unfold t'. by rewrite Et.
Qed.

(** The guards of cancellation, in order: an unknown order is not found, a
    stranger is refused, and an order past cancellation is a bad request; nothing
    changes. *)
Theorem cancel_order_denied user id reason s :
  e_faults (d_env s) = [] →
  let t := d_committed s in
  let '(o, s') := cancel_order user id reason s in
  match find_order id t with
  | None => o = Err (NotFound ("Order not found: " +:+ sqlx_display RowNotFound)) ∧
      d_committed s' = t
  | Some od =>
      if negb (can_access user (or_buyer_id od)) then
        (∃ m, o = Err (Forbidden m)) ∧ d_committed s' = t
      else if negb (can_cancel (or_status od)) then
        o = Err (BadRequest "order status must allow cancellation") ∧ d_committed s' = t
      else True
  end.
Proof.
  intros Hq t. destruct (cancel_order user id reason s) as [o s'] eqn:Er.
  unfold cancel_order, mbind, M_bind, on_pool in Er. rewrite get_order_quiet in Er by done.
  simpl in Er. fold t in Er. destruct (find_order id t) as [od|] eqn:Ef; [|by simplify_eq/=].
  unfold cancel_order_write, mbind, M_bind, lift, cancel_order_checks, require_access in Er.
  destruct (can_access user (or_buyer_id od)) eqn:Ea; simpl in Er; [|simplify_eq/=; eauto].
  destruct (can_cancel (or_status od)) eqn:Ec; simpl; [done|].
  cbn [passed negb andb] in Er. injection Er as <- <-. done.
Qed.

(** What a handled event did. The handlers act on the order named in the
    payload, only along legal transitions, touch no other part of the service, and
    publish: PaymentAuthorized confirms the order and announces OrderConfirmed;
    PaymentFailed and PaymentTimedOut cancel it and announce OrderCancelled;
    InventoryReserved and InventoryReservationFailed announce nothing. *)
Theorem saga_events_handled e c u c' :
  order_event_handler e c = (Ok u, c') →
  let ty := em_event_type (env_metadata e) in
  let t := c_tables c in
  let t' := c_tables c' in
  match saga_target ty with
  | None => t' = t
  | Some st => ∃ id o, payload_uuid e "order_id" = Ok id ∧ moved id st o t t' ∧
      match ty with
      | PaymentAuthorized => or_status o = StInventoryReserved ∧
          or_status <$> find_order id t' = Some StConfirmed ∧
          ∃ p r, ot_outbox t' = ot_outbox t ++ [r] ∧ order_event OrderConfirmed id p r
      | PaymentFailed | PaymentTimedOut => or_status <$> find_order id t' = Some StCancelled ∧
          ∃ p r, ot_outbox t' = ot_outbox t ++ [r] ∧ order_event OrderCancelled id p r
      | _ => or_status <$> find_order id t' = Some st ∧ ot_outbox t' = ot_outbox t
      end
  end.
Proof.
  intros Hr ty t t'. unfold order_event_handler, handle_payment_failed,
    handle_payment_timed_out in Hr. unfold ty, t, t'. destruct (em_event_type (env_metadata e)) eqn:Ety;
    simpl; try (apply ret_ok in Hr as [_ <-]; done).
  - apply handle_inventory_reserved_ok in Hr as (id & o & ? & ? & ? & ?). eauto 10.
  - apply handle_inventory_reservation_failed_ok in Hr as (id & o & ? & ? & ? & ?). eauto 10.
  - apply handle_payment_authorized_ok in Hr as (id & o & r & ? & ? & ? & ? & ? & ?). eauto 12.
  - apply cancel_order_on_payment_failure_ok in Hr as (id & o & r & ? & ? & ? & ? & ?). eauto 12.
  - apply cancel_order_on_payment_failure_ok in Hr as (id & o & r & ? & ? & ? & ? & ?). eauto 12.
Qed.

(** An event that does not fit the order's status is rejected with an error that
    names both statuses, before anything is written: in particular every saga event
    that reaches a cancelled order. *)
Theorem saga_event_rejected e c id o st :
  c_status c = TxActive → e_faults (c_env c) = [] →
  saga_target (em_event_type (env_metadata e)) = Some st →
  payload_uuid e "order_id" = Ok id → find_order id (c_tables c) = Some o →
  transition_allowed (or_status o) st = false →
  ∃ c', order_event_handler e c = (Err (BadRequest (transition_msg (or_status o) st)), c') ∧
    c_tables c' = c_tables c.
Proof.
  intros Hs Hq Hst Hid Hf Ha. unfold order_event_handler, handle_inventory_reserved,
    handle_inventory_reservation_failed, handle_payment_authorized, handle_payment_failed,
    handle_payment_timed_out, cancel_order_on_payment_failure.
  destruct (em_event_type (env_metadata e)); simpl in Hst; simplify_eq;
    unfold mbind, M_bind, lift; rewrite Hid, get_order_quiet, Hf by done; simpl;
    unfold transition_to; rewrite Ha; simpl; eauto.
Qed.

(** The cancelling transaction does not look at the order again: once the order
    that was read passed the checks, a successful write cancels the order and
    announces it whatever its status has become in between - also when another
    request has already cancelled it, so that OrderCancelled is announced twice. *)
Theorem stale_cancel_overwrites user id reason stale s u s' :
  cancel_order_write user id reason stale s = (Ok u, s') →
  let t := d_committed s in
  let t' := d_committed s' in
  can_cancel (or_status stale) = true ∧
  (∀ od, find_order id t = Some od →
    ∃ now od', find_order id t' = Some od' ∧ od' = set_status StCancelled
      (Some (default "Cancelled by buyer" reason)) now od) ∧
  ∃ p ev, ot_outbox t' = ot_outbox t ++ [ev] ∧ order_event OrderCancelled id p ev.
Proof.
  intros Hr t t'. apply cancel_order_write_effect in Hr as [[_ Hn]|(_ & Hc & Hcan)].
  { by destruct Hn. }
  split_and!; [done| |].
  - intros od Hf. destruct (find_cancelled _ _ _ _ _ _ Hcan Hf) as [now Hf']. eauto.
  - destruct Hcan as (now & ev & _ & Hev & Et). unfold t', t. rewrite Et. simpl. eauto.
Qed.
End properties.
