(* ===== verification/Saga.v ===== *)
(** * The saga of an order, across the services

    The order, catalog and payment services share no data: each handles the events the others
    announced, in any order and any number of times, among requests, crashes and losses. What an
    event says is taken for granted by who handles it. This file runs the three services over one
    log of announced events, and proves what holds between their tables. *)

From S2P Require Import Prelude RustStr Externals Errors NewTypes Auth Events Db Outbox Consumer ConsumerProps Redis.
From S2P Require Import Inventory InventoryProps InventorySpec.
From S2P Require Import Gateway Ledger PaymentService PaymentBook PaymentSteps PaymentProps PaymentSpec.
From S2P Require Import OrderTypes OrderReq OrderRepo OrderService OrderProps.

Local Open Scope Z_scope.

Section saga.
Context `{Externals, RedisApi} {G : Type} (gateway : PaymentGateway G).

(** ** The services over one log *)

(** The tables of the three services, the last time the payment service booked, and every event
    that was ever announced: a relay publishes rows of an outbox, and a consumer is given records
    that were published. *)
Record saga := Saga {
  sg_orders : order_tables; sg_catalog : catalog_tables; sg_payments : payment_tables;
  sg_now : Z; sg_log : list EventEnvelope }.

(** The event a row of an outbox announces, as a consumer reads it. *)
Definition announces (r : OutboxEvent) (e : EventEnvelope) : Prop := envelope_of_value (oe_payload r) = Some e.
(** New rows of the outbox go to the log. *)
Definition announced {T} `{!OutboxTables T} (t t' : T) (log log' : list EventEnvelope) : Prop :=
  ∃ rows es, outbox_events t' = outbox_events t ++ rows ∧ Forall2 announces rows es ∧ log' = log ++ es.

(** Requests and deliveries, with any faults. The primary key of the SKUs holds when the catalog
    handles an event; the catalog's other operations, on shelves and reservations, may change its
    tables at will. Relays and clean-ups change the outboxes and the markers. *)
Inductive saga_step : saga → saga → Prop :=
| saga_create user key req (d d' : db order_tables unit) o c p now log log' :
    create_order user key req d = (o, d') → announced (d_committed d) (d_committed d') log log' →
    saga_step (Saga (d_committed d) c p now log) (Saga (d_committed d') c p now log')
| saga_cancel user id reason (d d' : db order_tables unit) o c p now log log' :
    cancel_order user id reason d = (o, d') → announced (d_committed d) (d_committed d') log log' →
    saga_step (Saga (d_committed d) c p now log) (Saga (d_committed d') c p now log')
| saga_order group e (d d' : db order_tables unit) o c p now log log' :
    e ∈ log → attempt order_handler group e d = (o, d') → announced (d_committed d) (d_committed d') log log' →
    saga_step (Saga (d_committed d) c p now log) (Saga (d_committed d') c p now log')
| saga_catalog group e (d d' : db catalog_tables unit) o t p now log log' :
    e ∈ log → NoDup (sku_id <$> ct_skus (d_committed d)) →
    attempt catalog_handler group e d = (o, d') → announced (d_committed d) (d_committed d') log log' →
    saga_step (Saga t (d_committed d) p now log) (Saga t (d_committed d') p now log')
| saga_payment lock group e (d d' : db payment_tables (G * redis)) o t c now log log' :
    e ∈ log → now < e_now (d_env d) →
    attempt (payment_handler gateway lock) group e d = (o, d') →
    announced (d_committed d) (d_committed d') log log' →
    saga_step (Saga t c (d_committed d) now log) (Saga t c (d_committed d') (e_now (d_env d)) log')
| saga_shop t c c' p now log : saga_step (Saga t c p now log) (Saga t c' p now log)
| saga_maintenance t c p now log ol om pl pm :
    saga_step (Saga t c p now log)
      (Saga (set_outbox_events ol (set_processed_events om t)) c
            (set_outbox_events pl (set_processed_events pm p)) now log).

(** The steps done so far, from services without orders and payments. *)
Inductive saga_run : list (saga * saga) → saga → Prop :=
| run_start t c p now : ot_orders t = [] → pt_transactions p = [] → pt_accounts p = [] → pt_entries p = [] →
    saga_run [] (Saga t c p now [])
| run_step past s s' : saga_run past s → saga_step s s' → saga_run (past ++ [(s, s')]) s'.

(** ** What the tables say *)

(** The SKUs and quantities of a request. *)
Definition lines (v : ValidCreateOrderReq) : list ReservationItem :=
  (λ i, (vi_sku_id i, quantity_value (vi_quantity i))) <$> vr_items v.

(** The order [o] was made from the request [v]. *)
Definition placed (t : order_tables) (id : Uuid) (v : ValidCreateOrderReq) (o : OrderEntity) : Prop :=
  find_order id t = Some o ∧ (∃ key req, ValidCreateOrderReq_new key req = Ok v) ∧
  dec_numeric (vr_total_amount v) = Some (or_total_amount o) ∧ or_currency o = currency_str (vr_currency v) ∧
  ∃ rows, Forall2 (item_row id) (vr_items v) rows ∧ rows ⊆ ot_items t.

(** One step of the run set the items of the order aside, all of them. *)
Definition reserved (past : list (saga * saga)) (id : Uuid) (v : ValidCreateOrderReq) : Prop :=
  ∃ s s', (s, s') ∈ past ∧ order_reserved id (lines v) (sg_catalog s) (sg_catalog s').

(** The total of the order was authorized. *)
Definition paid (p : payment_tables) (id : Uuid) (o : OrderEntity) : Prop :=
  ∃ st, phase id p st (dec_units (or_total_amount o)) (or_currency o) ∧ st ≠ PsNew.

(** One step of the run confirmed the order: it was reserved and its total was authorized. *)
Definition was_confirmed (past : list (saga * saga)) (id : Uuid) : Prop :=
  ∃ s s' o o', (s, s') ∈ past ∧
    find_order id (sg_orders s) = Some o ∧ or_status o = StInventoryReserved ∧ paid (sg_payments s) id o ∧
    find_order id (sg_orders s') = Some o' ∧ or_status o' = StConfirmed.

(** ** The invariant *)

(** What an event means when it has been announced. *)
Definition meant past t p (e : EventEnvelope) : Prop :=
  match em_event_type (env_metadata e) with
  | OrderCreated => ∃ id v o, placed t id v o ∧ env_payload e = order_created_payload id (or_buyer_id o) v
  | InventoryReserved => ∃ id v o, placed t id v o ∧ reserved past id v ∧
      env_payload e = reserved_payload id (or_buyer_id o) (dec_to_string (vr_total_amount v))
        (currency_str (vr_currency v)) (lines v)
  | PaymentAuthorized => ∃ id o, payload_uuid e "order_id" = Ok id ∧ find_order id t = Some o ∧ paid p id o
  | OrderConfirmed | PaymentCaptureRetryRequested =>
      ∃ id, payload_uuid e "order_id" = Ok id ∧ was_confirmed past id
  | _ => True
  end.

(** An order beyond the first status is reserved, one beyond the second is paid. *)
Definition order_ok past t p id (o : OrderEntity) : Prop :=
  (or_status o ≠ StPending → or_status o ≠ StCancelled → ∃ v, placed t id v o ∧ reserved past id v) ∧
  (or_status o ≠ StPending → or_status o ≠ StInventoryReserved → or_status o ≠ StCancelled → paid p id o).
(** A payment is for a reserved order and its total, and captured only after a confirmation. *)
Definition payment_ok past t p id : Prop :=
  ∃ st amt cur, phase id p st amt cur ∧
    (st ≠ PsNew → ∃ v o, placed t id v o ∧ reserved past id v ∧
       amt = dec_units (or_total_amount o) ∧ cur = or_currency o ∧ (st = PsCaptured → was_confirmed past id)).
Definition saga_ok past (s : saga) : Prop :=
  ledger_ok (sg_now s) (sg_payments s) ∧
  Forall (meant past (sg_orders s) (sg_payments s)) (sg_log s) ∧
  (∀ id o, find_order id (sg_orders s) = Some o → order_ok past (sg_orders s) (sg_payments s) id o) ∧
  (∀ id, payment_ok past (sg_orders s) (sg_payments s) id).

(** ** What grows keeps its meaning *)

Implicit Types (t : order_tables) (p : payment_tables) (past : list (saga * saga)).

(** The orders evolve and items stay. *)
Definition orders_grow t t' : Prop := evolves t t' ∧ ot_items t ⊆ ot_items t'.
#[local] Instance orders_grow_preorder : PreOrder orders_grow.
Proof. split; [done|]. intros x y z [? ?] [? ?]. split; by etrans. Qed.

Lemma find_grows t t' id o : orders_grow t t' → find_order id t = Some o →
  ∃ o', find_order id t' = Some o' ∧ reaches (or_status o) (or_status o') ∧ frozen o o'.
Proof.
  intros [Hev _] Hf. specialize (Hev id). rewrite Hf in Hev.
  destruct (find_order id t') as [o'|]; [|done]. by exists o'.
Qed.

Lemma placed_frozen t t' id v o o' :
  orders_grow t t' → placed t id v o → find_order id t' = Some o' → placed t' id v o'.
Proof.
  intros Hg (Hf & Hv & Htot & Hc & rows & Hr & Hi) Hf'.
  destruct (find_grows _ _ _ _ Hg Hf) as (o1 & Hf1 & _ & (_ & _ & _ & E1 & E2 & _)).
  assert (o1 = o') as -> by congruence. split_and!; [done|done|congruence|congruence|].
  exists rows. split; [done|]. etrans; [done|apply Hg].
Qed.

Lemma was_confirmed_later past past' id : past ⊆ past' → was_confirmed past id → was_confirmed past' id.
Proof. intros Hs (s & s' & o & o' & Hin & Hr). exists s, s', o, o'. split; [by apply Hs|done]. Qed.

Lemma paid_later p p' id o o' : phases_move p p' → frozen o o' → paid p id o → paid p' id o'.
Proof.
  intros Hm (_ & _ & _ & E1 & E2 & _) (st & Hp & Hst). unfold paid. rewrite E1, E2.
  destruct (Hm _ _ _ _ Hp) as (st' & amt' & cur' & Hp' & [(-> & -> & ->)|[Hmv [?|[-> ->]]]]); [by exists st|done|].
  exists st'. split; [done|]. by destruct st, st'.
Qed.

Lemma reserved_later past past' id v : past ⊆ past' → reserved past id v → reserved past' id v.
Proof. intros Hs (s & s' & Hin & Hr). exists s, s'. split; [by apply Hs|done]. Qed.

Lemma meant_later past past' t t' p p' e :
  past ⊆ past' → orders_grow t t' → phases_move p p' → meant past t p e → meant past' t' p' e.
Proof.
  intros Hpast Hg Hm. unfold meant. destruct (em_event_type (env_metadata e)); try done.
  - intros (id & v & o & Hp & He). pose proof Hp as (Hf & _).
    destruct (find_grows _ _ _ _ Hg Hf) as (o' & Hf' & _ & Hfr). exists id, v, o'.
    split; [by eapply placed_frozen|]. destruct Hfr as (_ & _ & -> & _). done.
  - intros (id & Hid & Hc). exists id. split; [done|by eapply was_confirmed_later].
  - intros (id & v & o & Hp & Hr & He). pose proof Hp as (Hf & _).
    destruct (find_grows _ _ _ _ Hg Hf) as (o' & Hf' & _ & Hfr). exists id, v, o'.
    split_and!; [by eapply placed_frozen|by eapply reserved_later|]. destruct Hfr as (_ & _ & -> & _). done.
  - intros (id & o & Hid & Hf & Hp). destruct (find_grows _ _ _ _ Hg Hf) as (o' & Hf' & _ & Hfr).
    exists id, o'. split_and!; [done|done|by eapply paid_later].
  - intros (id & Hid & Hc). exists id. split; [done|by eapply was_confirmed_later].
Qed.

Lemma payment_ok_later past past' t t' p id :
  past ⊆ past' → orders_grow t t' → payment_ok past t p id → payment_ok past' t' p id.
Proof.
  intros Hpast Hg (st & amt & cur & Hph & Hok). exists st, amt, cur. split; [done|]. intros Hst.
  destruct (Hok Hst) as (v & o & Hp & Hr & -> & -> & Hc). pose proof Hp as (Hf & _).
  destruct (find_grows _ _ _ _ Hg Hf) as (o' & Hf' & Hre & (_ & _ & _ & E1 & E2 & _)).
  exists v, o'. split_and!; [by eapply placed_frozen|by eapply reserved_later|congruence|congruence|].
  intros Hcap. eapply was_confirmed_later; [done|by apply Hc].
Qed.

Lemma order_ok_same past past' t t' p p' id o :
  past ⊆ past' → orders_grow t t' → phases_move p p' → find_order id t = Some o → find_order id t' = Some o →
  order_ok past t p id o → order_ok past' t' p' id o.
Proof.
  intros Hpast Hg Hm Hf Hf' [H1 H2]. split.
  - intros Hs1 Hs2. destruct (H1 Hs1 Hs2) as (v & Hp & Hr). exists v.
    split; [by eapply placed_frozen|by eapply reserved_later].
  - intros Hs1 Hs2 Hs3. eapply paid_later; [done|reflexivity|by apply H2].
Qed.

(** ** Announcements *)

Lemma announces_event topic ty id src payload r e :
  event_row topic ty id src payload r → announces r e →
  em_event_type (env_metadata e) = ty ∧ env_payload e = payload.
Proof.
  intros (_ & _ & _ & _ & _ & m & Hr & Hty & _) Ha. unfold announces in Ha.
  rewrite Hr, envelope_roundtrip_eq in Ha. injection Ha as <-. done.
Qed.

Section announced.
Context {T : Type} `{!OutboxTables T}.
Implicit Types (u : T).

Lemma announced_rows u u' rows log log' :
  announced u u' log log' → outbox_events u' = outbox_events u ++ rows →
  ∃ es, log' = log ++ es ∧ Forall2 announces rows es.
Proof. intros (rows' & es & E & Hes & ->) E'. rewrite E in E'. apply app_inv_head in E' as ->. by exists es. Qed.
Lemma announced_none u u' log log' :
  announced u u' log log' → outbox_events u' = outbox_events u → log' = log.
Proof.
  intros Ha E. destruct (announced_rows u u' [] _ _ Ha) as (es & -> & ->%Forall2_nil_inv_l); by rewrite ?app_nil_r.
Qed.
Lemma announced_one u u' r topic ty id src payload log log' :
  announced u u' log log' → outbox_events u' = outbox_events u ++ [r] → event_row topic ty id src payload r →
  ∃ e, log' = log ++ [e] ∧ em_event_type (env_metadata e) = ty ∧ env_payload e = payload.
Proof.
  intros Ha E Hr. destruct (announced_rows u u' [r] _ _ Ha E) as (es & -> & Hes).
  apply Forall2_cons_inv_l in Hes as (e & es' & He & ->%Forall2_nil_inv_l & ->).
  exists e. split; [done|]. by eapply announces_event.
Qed.
End announced.

(** An event of the order that has no meaning of its own. *)
Definition silent_type (ty : EventType) : Prop :=
  match ty with
  | OrderCreated | InventoryReserved | PaymentAuthorized | OrderConfirmed | PaymentCaptureRetryRequested => False
  | _ => True
  end.
Lemma silent_meant past t p e : silent_type (em_event_type (env_metadata e)) → meant past t p e.
Proof. unfold meant. by destruct (em_event_type (env_metadata e)). Qed.

Definition silent_row (r : OutboxEvent) : Prop :=
  ∃ topic ty id src payload, event_row topic ty id src payload r ∧ silent_type ty.
Lemma silent_rows past t p rows es :
  Forall silent_row rows → Forall2 announces rows es → Forall (meant past t p) es.
Proof.
  intros Hr Hes. induction Hes as [|r e rows es He _ IH]; [done|].
  apply Forall_cons in Hr as [(topic & ty & id & src & payload & Hrow & Hty) Hr]. constructor; [|by apply IH].
  apply silent_meant. by destruct (announces_event _ _ _ _ _ _ _ Hrow He) as [-> _].
Qed.

(** ** The order service *)

(** How an order may have changed. *)
Definition order_change past t p id (o' : OrderEntity) : Prop :=
  find_order id t = Some o' ∨ or_status o' = StPending ∨ or_status o' = StCancelled ∨
  (or_status o' = StInventoryReserved ∧ ∃ v o, placed t id v o ∧ reserved past id v) ∨
  (∃ o, find_order id t = Some o ∧ or_status o = StInventoryReserved ∧ paid p id o).

Lemma phases_move_refl p : phases_move p p.
Proof. intros id st amt cur Hp. exists st, amt, cur. split; [done|]. by left. Qed.

Lemma order_changed past past' t t' p id o' :
  past ⊆ past' → orders_grow t t' → (∀ id o, find_order id t = Some o → order_ok past t p id o) →
  find_order id t' = Some o' → order_change past t p id o' → order_ok past' t' p id o'.
Proof.
  intros Hpast Hg Hok Hf' [Hf|[Hs|[Hs|[(Hs & v & o & Hp & Hr)|(o & Hf & Hs & Hpaid)]]]].
  - by eapply order_ok_same; [..|apply phases_move_refl|exact Hf| |apply Hok].
  - split; intros; congruence.
  - split; intros; congruence.
  - split; [|congruence]. intros _ _. exists v.
    split; [by eapply placed_frozen|by eapply reserved_later].
  - destruct (Hok id o Hf) as [H1 _]. destruct H1 as (v & Hp & Hr); [by rewrite Hs..|].
    destruct (find_grows _ _ _ _ Hg Hf) as (o1 & Hf1 & _ & Hfr). assert (o1 = o') as -> by congruence.
    split; intros; [|by eapply paid_later; [apply phases_move_refl|..]].
    exists v. split; [by eapply placed_frozen|by eapply reserved_later].
Qed.

(** One step of the order service: the orders grow, each changes as it may, and what is announced
    has its meaning. *)
Lemma order_side past past' t t' c c' p now log log' :
  saga_ok past (Saga t c p now log) → past ⊆ past' → orders_grow t t' →
  (∀ id o', find_order id t' = Some o' → order_change past t p id o') →
  (∃ es, log' = log ++ es ∧ Forall (meant past' t' p) es) →
  saga_ok past' (Saga t' c' p now log').
Proof.
  intros (Hl & Hlog & Hord & Hpay) Hpast Hg Hch (es & -> & Hes). simpl in *. split_and!; simpl.
  - done.
  - apply Forall_app. split; [|done]. eapply Forall_impl; [exact Hlog|].
    intros e He. eapply meant_later; [exact Hpast|exact Hg|apply phases_move_refl|exact He].
  - intros id o' Hf. eapply order_changed; eauto.
  - intros id. by eapply payment_ok_later.
Qed.

Lemma create_step past past' (d d' : db order_tables unit) user key req o c p now log log' :
  create_order user key req d = (o, d') → announced (d_committed d) (d_committed d') log log' → past ⊆ past' →
  saga_ok past (Saga (d_committed d) c p now log) → saga_ok past' (Saga (d_committed d') c p now log').
Proof.
  intros [Et|(v & id & Hv & _ & Hc)]%create_order_all_or_nothing Ha Hpast Hok.
  { eapply order_side; [done|done|by rewrite Et|rewrite Et; by left|].
    exists []. by rewrite app_nil_r, (announced_none _ _ _ _ Ha) by (by rewrite Et). }
  pose proof (created_evolves _ _ _ _ _ Hc) as Hev. pose proof (find_order_created _ _ _ _ _ Hc) as Hfind.
  destruct Hc as (at_ & total & rows & ev & Htot & Hf & _ & Hrows & Hrow & Et).
  assert (find_order id (d_committed d') = Some (new_order (cu_id user) v at_ id total)) as Hnew.
  { rewrite Et. unfold find_order in *. simpl. rewrite find_app, Hf. simpl.
    unfold has_id. by rewrite bool_decide_true. }
  assert (orders_grow (d_committed d) (d_committed d')) as Hg.
  { split; [done|]. rewrite Et. simpl. intros x Hx. apply elem_of_app. by left. }
  eapply order_side; [exact Hok|done|exact Hg| |].
  - intros id' o' Hf'. destruct (decide (id' = id)) as [->|Hne].
    + right. left. rewrite Hnew in Hf'. by injection Hf' as <-.
    + left. by rewrite Hfind, decide_False in Hf'.
  - destruct (announced_one _ _ ev _ _ _ _ _ _ _ Ha ltac:(by rewrite Et) Hrow) as (e & -> & Hty & Hp).
    exists [e]. split; [done|]. constructor; [|done]. unfold meant. rewrite Hty.
    exists id, v, (new_order (cu_id user) v at_ id total). split; [|done].
    split_and!; [done|eauto|done|done|]. exists rows. split; [done|]. rewrite Et. simpl.
    intros x Hx. apply elem_of_app. by right.
Qed.

(** An order that is cancelled is left without a meaning, and so is what is announced of it. *)
Lemma cancel_step past past' (d d' : db order_tables unit) user id reason o c p now log log' :
  cancel_order user id reason d = (o, d') → announced (d_committed d) (d_committed d') log log' → past ⊆ past' →
  saga_ok past (Saga (d_committed d) c p now log) → saga_ok past' (Saga (d_committed d') c p now log').
Proof.
  intros [[Et _]|(od & Hf & _ & Hcan & Hc)]%cancel_order_effect Ha Hpast Hok.
  { eapply order_side; [done|done|by rewrite Et|rewrite Et; by left|].
    exists []. by rewrite app_nil_r, (announced_none _ _ _ _ Ha) by (by rewrite Et). }
  pose proof (cancelled_evolves _ _ _ _ _ Hf Hcan Hc) as Hev.
  destruct Hc as (at_ & ev & _ & Hrow & Et). eapply order_side; [exact Hok|done| | |].
  - split; [done|]. by rewrite Et.
  - intros id' o'. rewrite Et. unfold find_order. simpl. rewrite find_update_status.
    case_decide as Hd; [|by left]. intros (o1 & _ & ->)%fmap_Some. right. right. by left.
  - destruct (announced_one _ _ ev _ _ _ _ _ _ _ Ha ltac:(by rewrite Et) Hrow) as (e & -> & Hty & _).
    exists [e]. split; [done|]. constructor; [|done]. apply silent_meant. by rewrite Hty.
Qed.

Lemma reserved_names e id buyer total cur items :
  env_payload e = reserved_payload id buyer total cur items → payload_uuid e "order_id" = Ok id.
Proof. intros E. unfold payload_uuid. rewrite E. unfold reserved_payload. by json_simpl. Qed.

(** What the consumer commits for an event of the order service. *)
Lemma order_applied g now e t t' :
  applied order_handler g now e t t' →
  ∃ c c' : conn order_tables, c_tables c = t ∧ order_event_handler e c = (Ok tt, c') ∧
    ot_orders t' = ot_orders (c_tables c') ∧ ot_items t' = ot_items (c_tables c') ∧
    ot_outbox t' = ot_outbox (c_tables c').
Proof.
  intros (c & x & ss & at_ & Et & Hh & _ & -> & _). unfold order_handler, in_tx in Hh.
  apply map_err_ok, zoom_ok in Hh as (c' & Hh & ->). exists c, c'.
  split_and!; [done|done|..]; unfold mark_processed_row; by case_match.
Qed.

(** What a handled event does, by its type. *)
Inductive order_effect (e : EventEnvelope) t t' : list OutboxEvent → Prop :=
| effect_none : t' = t → order_effect e t t' []
| effect_reserved id o st :
    em_event_type (env_metadata e) = InventoryReserved → payload_uuid e "order_id" = Ok id →
    moved id st o t t' → or_status <$> find_order id t' = Some StInventoryReserved → order_effect e t t' []
| effect_confirmed id o st payload r :
    em_event_type (env_metadata e) = PaymentAuthorized → payload_uuid e "order_id" = Ok id →
    moved id st o t t' → or_status o = StInventoryReserved →
    or_status <$> find_order id t' = Some StConfirmed →
    (s ← as_str (jindex payload "order_id"); uuid_parse s) = Some id →
    order_event OrderConfirmed id payload r → order_effect e t t' [r]
| effect_cancelled id o st rows :
    moved id st o t t' → or_status <$> find_order id t' = Some StCancelled →
    Forall (λ r, ∃ payload, order_event OrderCancelled id payload r) rows → order_effect e t t' rows.

Lemma order_handler_effect e (cn cn' : conn order_tables) :
  order_event_handler e cn = (Ok tt, cn') →
  ∃ rows, order_effect e (c_tables cn) (c_tables cn') rows ∧
    ot_outbox (c_tables cn') = ot_outbox (c_tables cn) ++ rows.
Proof.
  intros Hr. unfold order_event_handler, handle_payment_failed, handle_payment_timed_out in Hr.
  assert (c_tables cn' = c_tables cn → ∃ rows, order_effect e (c_tables cn) (c_tables cn') rows ∧
    ot_outbox (c_tables cn') = ot_outbox (c_tables cn) ++ rows) as Hnone.
  { intros Et. exists []. rewrite Et, app_nil_r. split; [by apply effect_none|done]. }
  destruct (em_event_type (env_metadata e)) eqn:Ety; try (apply ret_ok in Hr as [_ <-]; by apply Hnone).
  - apply handle_inventory_reserved_ok in Hr as (id & o & Hid & Hm & Hout & Hst).
    exists []. rewrite app_nil_r. split; [by eapply effect_reserved|done].
  - apply handle_inventory_reservation_failed_ok in Hr as (id & o & Hid & Hm & Hout & Hst).
    exists []. rewrite app_nil_r. split; [by eapply effect_cancelled|done].
  - apply handle_payment_authorized_ok in Hr as (id & o & r & Hid & Hs & Hm & Hst & Hout & Hrow).
    exists [r]. split; [|done]. eapply effect_confirmed; [done..| |exact Hrow]. by json_simpl.
  - apply cancel_order_on_payment_failure_ok in Hr as (id & o & r & Hid & Hm & Hst & Hout & Hrow).
    exists [r]. split; [|done]. eapply effect_cancelled; [done..|]. constructor; [by eexists|done].
  - apply cancel_order_on_payment_failure_ok in Hr as (id & o & r & Hid & Hm & Hst & Hout & Hrow).
    exists [r]. split; [|done]. eapply effect_cancelled; [done..|]. constructor; [by eexists|done].
Qed.

Lemma moved_grows id st o t t' : moved id st o t t' → orders_grow t t'.
Proof. intros (_ & _ & Hev & _ & Hit & _). split; [done|]. by rewrite Hit. Qed.

(** How the orders may have changed, and what the announced events mean. *)
Lemma order_effect_ok past past' e t t' c p now log rows es :
  saga_ok past (Saga t c p now log) → past ⊆ past' → e ∈ log →
  (∀ id o o', find_order id t = Some o → or_status o = StInventoryReserved → paid p id o →
     find_order id t' = Some o' → or_status o' = StConfirmed → was_confirmed past' id) →
  order_effect e t t' rows → Forall2 announces rows es →
  orders_grow t t' ∧ (∀ id o', find_order id t' = Some o' → order_change past t p id o') ∧
  Forall (meant past' t' p) es.
Proof.
  intros (_ & Hlog & _ & _) Hpast Hin Hconf Heff Hes. simpl in Hlog.
  rewrite Forall_forall in Hlog. specialize (Hlog e Hin). unfold meant in Hlog.
  assert (∀ id o st, moved id st o t t' →
    (∀ o', find_order id t' = Some o' → order_change past t p id o') →
    ∀ id' o', find_order id' t' = Some o' → order_change past t p id' o') as Hothers.
  { intros id o st (_ & _ & _ & _ & _ & Honly) Hid id' o' Hf'.
    destruct (decide (id' = id)) as [->|Hne]; [by apply Hid|]. left. by rewrite <-(Honly id' Hne). }
  destruct Heff as [->|id o st Hty Hid Hm Hst|id o st payload r Hty Hid Hm Hs Hst Hpl Hrow|id o st rows Hm Hst Hrows].
  - apply Forall2_nil_inv_l in Hes as ->. split_and!; [done|by left|done].
  - apply Forall2_nil_inv_l in Hes as ->. split_and!; [by eapply moved_grows| |done].
    eapply Hothers; [done|]. intros o' Ho'. rewrite Ho' in Hst. injection Hst as Hst.
    rewrite Hty in Hlog. destruct Hlog as (id0 & v & o0 & Hp & Hr & He).
    rewrite (reserved_names _ _ _ _ _ _ He) in Hid. injection Hid as ->. right. right. right. left. eauto.
  - apply Forall2_cons_inv_l in Hes as (e' & es' & He' & ->%Forall2_nil_inv_l & ->).
    destruct (announces_event _ _ _ _ _ _ _ Hrow He') as [Hty' Hp'].
    rewrite Hty in Hlog. destruct Hlog as (id0 & o0 & Hid0 & Hf0 & Hpaid). rewrite Hid0 in Hid. injection Hid as ->.
    pose proof Hm as (Hf & _). assert (o0 = o) as -> by congruence. split_and!; [by eapply moved_grows| |].
    + eapply Hothers; [done|]. intros o' Ho'. right. right. right. right. by exists o.
    + constructor; [|done]. unfold meant. rewrite Hty'. exists id. split; [unfold payload_uuid; by rewrite Hp', Hpl|].
      destruct (find_order id t') as [o'|] eqn:Ho'; [|done]. injection Hst as Hst. by apply (Hconf id o o').
  - split_and!; [by eapply moved_grows| |].
    + eapply Hothers; [done|]. intros o' Ho'. rewrite Ho' in Hst. right. right. left. by injection Hst.
    + eapply silent_rows; [|exact Hes]. eapply Forall_impl; [exact Hrows|].
      intros r (payload & Hrow). by eexists _, _, _, _, _.
Qed.

Lemma order_step past past' (d d' : db order_tables unit) group e o c p now log log' :
  e ∈ log → attempt order_handler group e d = (o, d') → announced (d_committed d) (d_committed d') log log' →
  past ⊆ past' → (Saga (d_committed d) c p now log, Saga (d_committed d') c p now log') ∈ past' →
  saga_ok past (Saga (d_committed d) c p now log) → saga_ok past' (Saga (d_committed d') c p now log').
Proof.
  intros Hin Hr Ha Hpast Hstep Hok.
  apply (attempt_spec order_handler eq) in Hr as [(Et & _)|(_ & Hap & _)].
  { eapply order_side; [done|done|by rewrite Et|rewrite Et; by left|].
    exists []. by rewrite app_nil_r, (announced_none _ _ _ _ Ha) by (by rewrite Et). }
  apply order_applied in Hap as (cn & cn' & Et & Hh & E1 & E2 & E3).
  destruct (order_handler_effect _ _ _ Hh) as (rows & Heff & Hout). rewrite Et in Heff, Hout.
  destruct (announced_rows _ _ rows _ _ Ha) as (es & -> & Hes); [simpl; by rewrite E3|].
  assert (∀ id, find_order id (d_committed d') = find_order id (c_tables cn')) as Hfind
    by (intros id; unfold find_order; by rewrite E1).
  destruct (order_effect_ok _ past' _ _ _ _ _ _ _ _ _ Hok Hpast Hin
    ltac:(intros; eexists _, _, _, _; split; [exact Hstep|]; simpl; rewrite Hfind; eauto) Heff Hes) as (Hg & Hch & Hm).
  assert (orders_grow (c_tables cn') (d_committed d')) as Hg'.
  { split; [by apply evolves_orders|by rewrite E2]. }
  eapply order_side; [exact Hok|done|by etrans| |exists es; split; [done|]].
  - intros id o'. rewrite Hfind. apply Hch.
  - eapply Forall_impl; [exact Hm|]. intros e'.
    by apply meant_later; [|exact Hg'|apply phases_move_refl].
Qed.

(** ** The catalog *)

Lemma small_as_i32 z : - 2 ^ 31 <= z < 2 ^ 31 → as_i32 z = z.
Proof. intros Hz. unfold as_i32. rewrite Z.mod_small by lia. lia. Qed.

Lemma created_item (pid s : Uuid) (q : Z) (u : string) : - 2 ^ 31 <= q < 2 ^ 31 →
  parse_item (jobj [("product_id", jstr (uuid_to_string pid)); ("sku_id", jstr (uuid_to_string s));
    ("quantity", jint q); ("unit_price", jstr u)]) = Ok (s, q).
Proof. intros Hq. unfold parse_item. json_simpl. rewrite as_i64_jint by lia. simpl. by rewrite small_as_i32. Qed.

(** The catalog reads back the items of the request. *)
Lemma created_items key req v id buyer :
  ValidCreateOrderReq_new key req = Ok v → parse_items (order_created_payload id buyer v) = Ok (lines v).
Proof.
  intros (Hi & _)%ValidCreateOrderReq_new_ok. unfold parse_items, order_created_payload. json_simpl.
  unfold lines. induction Hi as [|r i reqs items Hri _ IH]; [done|].
  rewrite !fmap_cons. cbn [omap_all].
  destruct Hri as (_ & _ & _ & _ & _ & Hq & Hb & _). rewrite created_item by (rewrite Hq; simpl; lia).
  simpl. by rewrite IH.
Qed.

Lemma order_reserved_tables id items c c1 c2 :
  ct_skus c2 = ct_skus c1 → ct_reservations c2 = ct_reservations c1 →
  order_reserved id items c c1 → order_reserved id items c c2.
Proof. intros E1 E2. unfold order_reserved. by rewrite E1, E2. Qed.

(** The event that announces a reservation means one. *)
Lemma reservation_meant past t p (c c' : catalog_tables) e group clock r log log' :
  em_event_type (env_metadata e) = OrderCreated → meant past t p e → NoDup (sku_id <$> ct_skus c) →
  applied catalog_handler group clock e c c' → announced c c' log log' →
  (∀ id v, order_reserved id (lines v) c c' → reserved r id v) →
  ∃ e', log' = log ++ [e'] ∧ meant r t p e'.
Proof.
  intros Hty Hm Hnd Hap Ha Hpast. unfold meant in Hm. rewrite Hty in Hm.
  destruct Hm as (id & v & o & Hp & He). pose proof Hp as (_ & (key & req & Hv) & _).
  apply order_created_applied in Hap as (oid & buyer & items & c1 & Ho & Hb & Hi & Hres & E1 & E2 & E3); [|done..].
  rewrite He, (created_items _ _ _ _ _ Hv) in Hi. injection Hi as <-.
  unfold payload_uuid, payload_str in *. rewrite He in Ho, Hb, Hres. unfold order_created_payload in Ho, Hb, Hres.
  revert Ho Hb Hres. json_simpl. intros [= <-] [= <-] (Hres & _ & row & Hout & Hrow).
  destruct (announced_one _ _ row _ _ _ _ _ _ _ Ha ltac:(simpl; by rewrite E3) Hrow) as (e1 & -> & Hty' & Hp').
  exists e1. split; [done|]. unfold meant. rewrite Hty'. exists id, v, o. split_and!; [done| |done].
  apply Hpast. by eapply order_reserved_tables.
Qed.

Lemma catalog_step past (d d' : db catalog_tables unit) group e o t p now log log' :
  e ∈ log → NoDup (sku_id <$> ct_skus (d_committed d)) →
  attempt catalog_handler group e d = (o, d') → announced (d_committed d) (d_committed d') log log' →
  saga_ok past (Saga t (d_committed d) p now log) →
  saga_ok (past ++ [(Saga t (d_committed d) p now log, Saga t (d_committed d') p now log')])
    (Saga t (d_committed d') p now log').
Proof.
  intros Hin Hnd Hr Ha Hok. set (r := past ++ _). assert (past ⊆ r) as Hpast.
  { intros x Hx. apply elem_of_app. by left. }
  eapply order_side; [exact Hok|exact Hpast|done|by left|].
  apply (attempt_spec catalog_handler appended) in Hr as [((l & Hl & Et) & _)|(_ & Hap & _)].
  - destruct (announced_rows _ _ l _ _ Ha) as (es & -> & Hes); [by rewrite Et|]. exists es. split; [done|].
    eapply silent_rows; [|exact Hes]. eapply Forall_impl; [exact Hl|].
    intros x (oid & reason & Hrow). by eexists _, _, _, _, _.
  - destruct Hok as (_ & Hlog & _ & _). rewrite Forall_forall in Hlog. specialize (Hlog e Hin).
    destruct (decide (em_event_type (env_metadata e) = OrderCreated)) as [Hty|Hty].
    + destruct (reservation_meant _ _ _ _ _ _ _ _ r _ _ Hty Hlog Hnd Hap Ha) as (e' & -> & Hm).
      { intros id v Hres. eexists _, _. split; [apply elem_of_app; right; by left|done]. }
      exists [e']. split; [done|by constructor].
    + apply other_applied_silent in Hap; [|done]. exists [].
      by rewrite app_nil_r, (announced_none _ _ _ _ Ha Hap).
Qed.

(** ** The payment service *)

(** The row a step of the payment machine announces. *)
Lemma payment_row now oid k p p' :
  payment_step_as now oid k p p' →
  ∃ r ev payload, pt_outbox p' = pt_outbox p ++ [r] ∧ event_row "payments.events" ev oid Payment payload r ∧
    match k with
    | KReport ev' => ev = ev' ∧ (ev = PaymentFailed ∨ ev = PaymentCaptureRetryRequested) ∧ names_order oid payload
    | KAuthorize _ _ => ev = PaymentAuthorized ∧ names_order oid payload
    | KCapture | KVoid => silent_type ev
    end.
Proof.
  intros [t ev payload r Hev Hn Hr|t t' amount cur ref _ Hb|t t' x ref _ Hb|t t' x ref _ _ Hb].
  - exists r, ev, payload. by split_and!.
  - destruct Hb as (l & x & a & b & r & amt & -> & _ & _ & _ & _ & _ & _ & Hr).
    exists r, PaymentAuthorized, (authorized_payload oid (lt_id x) ref). split_and!; [done|done|done|].
    unfold names_order, authorized_payload. json_simpl. by rewrite ?uuid_parse_to_string.
  - destruct Hb as (l & y & a & b & r & amt & -> & _ & _ & _ & _ & _ & _ & Hr). by eexists r, _, _.
  - destruct Hb as (l & y & a & b & r & amt & -> & _ & _ & _ & _ & _ & _ & Hr). by eexists r, _, _.
Qed.

Lemma meant_request past t p e id v o :
  env_payload e = reserved_payload id (or_buyer_id o) (dec_to_string (vr_total_amount v))
    (currency_str (vr_currency v)) (lines v) →
  requested_amount e = Some (vr_total_amount v) ∧ requested_currency e = currency_str (vr_currency v).
Proof. intros E. unfold requested_amount, requested_currency. rewrite E. unfold reserved_payload. by json_simpl. Qed.

(** An authorization is for an order that is reserved, and for its total. *)
Lemma authorized_for past t p e oid amount cur :
  meant past t p e → about e oid → may_cause e (KAuthorize amount cur) →
  ∃ v o, placed t oid v o ∧ reserved past oid v ∧ dec_numeric amount = Some (or_total_amount o) ∧ cur = or_currency o.
Proof.
  unfold meant, may_cause. intros Hm Ha Hk. destruct (em_event_type (env_metadata e)) eqn:Hty; try done.
  destruct Hm as (id & v & o & Hp & Hr & He). destruct Hk as (a & Hreq & [?|Hk]); [done|]. injection Hk as -> ->.
  destruct (meant_request past t p _ _ _ _ He) as [Hreq' Hcur]. rewrite Hreq' in Hreq. injection Hreq as <-.
  unfold about in Ha. rewrite (reserved_names _ _ _ _ _ _ He) in Ha. injection Ha as <-.
  exists v, o. pose proof Hp as (_ & _ & Htot & Hc & _). split_and!; [done|done|done|congruence].
Qed.

(** A capture, or a retry of one, is for an order that was confirmed. *)
Lemma captured_for past t p e oid k :
  meant past t p e → about e oid → may_cause e k → k = KCapture ∨ k = KReport PaymentCaptureRetryRequested →
  was_confirmed past oid.
Proof.
  unfold meant, may_cause, about. intros Hm Ha Hk Hor. destruct (em_event_type (env_metadata e)); try done.
  - destruct Hm as (id & Hid & Hc). rewrite Ha in Hid. by injection Hid as <-.
  - by destruct Hor as [-> | ->].
  - destruct Hk as (a & _ & [-> | ->]); by destruct Hor.
  - destruct Hm as (id & Hid & Hc). rewrite Ha in Hid. by injection Hid as <-.
Qed.

(** The order of the step, in its new phase. *)
Lemma stepped_payment_ok past t p p' e oid k now0 now :
  ledger_ok now0 p → now0 < now → payment_step_as now oid k p p' →
  meant past t p e → about e oid → may_cause e k → payment_ok past t p oid → payment_ok past t p' oid.
Proof.
  intros (Hfr & Hc & _) Hnow Hs Hm Ha Hk (st & amt & cur & Hph & Hok).
  pose proof (step_phase _ _ _ _ _ _ _ _ _ Hfr Hc Hnow Hs Hph) as Hph'. unfold phase_after in Hph'.
  destruct k as [ev|amount cur'| |].
  - by exists st, amt, cur.
  - destruct Hph' as (-> & a & Hn & Hph'). exists PsAuthorized, (dec_units a), cur'. split; [done|]. intros _.
    destruct (authorized_for _ _ _ _ _ _ _ Hm Ha Hk) as (v & o & Hp & Hr & Htot & Hcur).
    exists v, o. split_and!; [done|done|congruence|done|done].
  - destruct Hph' as (-> & Hph'). exists PsCaptured, amt, cur. split; [done|]. intros _.
    destruct Hok as (v & o & Hp & Hr & Hamt & Hcur & _); [done|]. exists v, o. split_and!; try done. intros _.
    by apply (captured_for _ _ _ _ _ _ Hm Ha Hk (or_introl eq_refl)).
  - destruct Hph' as (-> & Hph'). exists PsVoided, amt, cur. split; [done|]. intros _.
    destruct Hok as (v & o & Hp & Hr & Hamt & Hcur & _); [done|]. by exists v, o.
Qed.

(** What a step announces has its meaning. *)
Lemma stepped_meant past t p p' e oid k now0 now e' ev payload :
  ledger_ok now0 p → now0 < now → payment_step_as now oid k p p' →
  meant past t p e → about e oid → may_cause e k → payment_ok past t p oid →
  em_event_type (env_metadata e') = ev → env_payload e' = payload →
  match k with
  | KReport ev' => ev = ev' ∧ (ev = PaymentFailed ∨ ev = PaymentCaptureRetryRequested) ∧ names_order oid payload
  | KAuthorize _ _ => ev = PaymentAuthorized ∧ names_order oid payload
  | KCapture | KVoid => silent_type ev
  end → meant past t p' e'.
Proof.
  intros (Hfr & Hc & _) Hnow Hs Hm Ha Hk (st & amt & cur & Hph & Hok) Hty Hp Hev.
  pose proof (step_phase _ _ _ _ _ _ _ _ _ Hfr Hc Hnow Hs Hph) as Hph'. unfold phase_after in Hph'.
  destruct k as [ev'|amount cur'| |]; [| |by apply silent_meant; rewrite Hty..].
  - destruct Hev as (<- & [-> | ->] & Hn); [by apply silent_meant; rewrite Hty|].
    pose proof (captured_for _ _ _ _ _ _ Hm Ha Hk (or_intror eq_refl)) as Hconf.
    unfold meant. rewrite Hty. exists oid. split; [|done]. unfold payload_uuid. by rewrite Hp, Hn.
  - destruct Hev as [-> Hn], Hph' as (-> & a & Hna & Hph').
    destruct (authorized_for _ _ _ _ _ _ _ Hm Ha Hk) as (v & o & (Hf & _) & _ & Htot & ->).
    unfold meant. rewrite Hty. exists oid, o. split_and!; [unfold payload_uuid; by rewrite Hp, Hn|done|].
    exists PsAuthorized. split; [|done]. congruence.
Qed.

Lemma payment_change past past' t c p p' now now' log log' oid k e :
  saga_ok past (Saga t c p now log) → past ⊆ past' → now < now' → e ∈ log →
  about e oid → may_cause e k → payment_step_as now' oid k p p' → announced p p' log log' →
  saga_ok past' (Saga t c p' now' log').
Proof.
  intros (Hl & Hlog & Hord & Hpay) Hpast Hnow Hin Hab Hk Hs Ha. simpl in *.
  destruct (payment_step_ok _ _ oid p p' Hl Hnow) as [Hl' Hmv]; [by exists k|].
  rewrite Forall_forall in Hlog. pose proof (Hlog e Hin) as He.
  assert (∀ id, payment_ok past t p' id) as Hpay'.
  { intros id. destruct (decide (id = oid)) as [->|Hne]; [exact (stepped_payment_ok _ _ _ _ _ _ _ _ _ Hl Hnow Hs He Hab Hk (Hpay oid))|].
    destruct (Hpay id) as (st & amt & cur & Hph & Hok). exists st, amt, cur. split; [|done].
    destruct Hl as (Hfr & _). by eapply step_others. }
  destruct (payment_row _ _ _ _ _ Hs) as (r & ev & payload & Hout & Hrow & Hev).
  destruct (announced_one p p' r _ _ _ _ _ _ _ Ha Hout Hrow) as (e' & -> & Hty & Hp).
  split_and!; simpl.
  - done.
  - apply Forall_app. split.
    + apply Forall_forall. intros x Hx. eapply meant_later; [exact Hpast|reflexivity|exact Hmv|by apply Hlog].
    + constructor; [|done]. eapply meant_later; [exact Hpast|reflexivity|apply phases_move_refl|].
      by eapply (stepped_meant past t p p' e oid k now now').
  - intros id o Hf. eapply order_ok_same; [done|reflexivity|exact Hmv|done|done|by apply Hord].
  - intros id. eapply payment_ok_later; [done|reflexivity|done].
Qed.

(** Time, markers and outboxes. *)
Definition same_ledger p p' : Prop :=
  pt_accounts p' = pt_accounts p ∧ pt_transactions p' = pt_transactions p ∧ pt_entries p' = pt_entries p.

Lemma same_ledger_ok p p' now : same_ledger p p' → ledger_ok now p → ledger_ok now p'.
Proof.
  intros (E1 & E2 & E3) ((H1 & H2 & H3 & H4) & Hc & Hp). unfold ledger_ok, frame_ok, entries_ok.
  rewrite E1, E2, E3. split_and!; try done. intros id. destruct (Hp id) as (st & amt & cur & Hph).
  destruct (step_report_phases p p' E1 E2 E3 _ _ _ _ Hph) as (st' & amt' & cur' & ? & _). by exists st', amt', cur'.
Qed.

Lemma beside_ok past past' t c c' p p' now now' log :
  saga_ok past (Saga t c p now log) → past ⊆ past' → now <= now' → same_ledger p p' →
  saga_ok past' (Saga t c' p' now' log).
Proof.
  intros (Hl & Hlog & Hord & Hpay) Hpast Hnow Hsame. simpl in *. pose proof Hsame as (E1 & E2 & E3).
  pose proof (step_report_phases p p' E1 E2 E3) as Hmv. split_and!; simpl.
  - eapply ledger_ok_later; [by eapply same_ledger_ok|done].
  - eapply Forall_impl; [exact Hlog|]. intros e. by apply meant_later.
  - intros id o Hf. eapply order_ok_same; [done|reflexivity|exact Hmv|done|done|by apply Hord].
  - intros id. eapply payment_ok_later; [exact Hpast|reflexivity|].
    destruct (Hpay id) as (st & amt & cur & Hph & Hok). exists st, amt, cur. split; [|done].
    eapply phase_transport; [| |exact Hph]; unfold transactions_of; rewrite ?E2; [done|].
    intros x dt ct c0 a _. unfold balanced, entries_of. by rewrite E1, E3.
Qed.

Lemma payment_event_step past past' (d d' : db payment_tables (G * redis)) lock group e o t c now log log' :
  e ∈ log → now < e_now (d_env d) → attempt (payment_handler gateway lock) group e d = (o, d') →
  announced (d_committed d) (d_committed d') log log' → past ⊆ past' →
  saga_ok past (Saga t c (d_committed d) now log) → saga_ok past' (Saga t c (d_committed d') (e_now (d_env d)) log').
Proof.
  intros Hin Hnow Hr Ha Hpast Hok.
  apply (attempt_spec (payment_handler gateway lock) eq) in Hr as [(Et & _)|(_ & Hap & _)].
  - rewrite <-Et in *. rewrite (announced_none _ _ _ _ Ha eq_refl). (eapply beside_ok; [exact Hok|done|lia|done]).
  - apply applied_step in Hap as (p1 & l & Et & Hs). rewrite Et in *.
    destruct Hs as [->|(oid & k & Hab & Hk & Hs)].
    + rewrite (announced_none _ _ _ _ Ha eq_refl). (eapply beside_ok; [exact Hok|done|lia|done]).
    + eapply (beside_ok past past' t c c p1); [|done|reflexivity|done]. exact (payment_change past past _ _ _ _ _ _ _ _ oid k e Hok ltac:(done) Hnow Hin Hab Hk Hs Ha).
Qed.

(** ** Every run *)

Lemma saga_step_ok past s s' : saga_step s s' → saga_ok past s → saga_ok (past ++ [(s, s')]) s'.
Proof.
  intros Hs Hok. assert (∀ r : list (saga * saga), past ⊆ past ++ r) as Hpast.
  { intros r x Hx. apply elem_of_app. by left. }
  destruct Hs.
  - eapply create_step; eauto.
  - eapply cancel_step; eauto.
  - eapply order_step; eauto. apply elem_of_app. right. by left.
  - eapply catalog_step; eauto.
  - eapply payment_event_step; eauto.
  - eapply beside_ok; [exact Hok|apply Hpast|reflexivity|done].
  - eapply (beside_ok past _ _ c c p); [|apply Hpast|reflexivity|done].
    eapply (order_side past past t); [exact Hok|done| |by left|].
    + split; [by apply evolves_orders|done].
    + exists []. by rewrite app_nil_r.
Qed.

Lemma saga_run_ok past s : saga_run past s → saga_ok past s.
Proof.
  induction 1 as [t c p now Ht Hx Ha He|past s s' _ IH Hs]; [|by apply saga_step_ok].
  assert (∀ id, phase id p PsNew 0 "") as Hnew.
  { intros id. constructor. unfold transactions_of. by rewrite Hx. }
  split_and!; simpl.
  - split; [|split; [by rewrite Hx|intros id; eauto]]. unfold frame_ok, accounts_ok, entries_ok.
    rewrite Hx, Ha, He. split_and!; try apply NoDup_nil_2; [done|]. by intros ? ?%elem_of_nil.
  - done.
  - intros id o Hf. unfold find_order in Hf. by rewrite Ht in Hf.
  - intros id. exists PsNew, 0, "". split; [apply Hnew|done].
Qed.

(** C3: No order is confirmed unpaid or unreserved, and nobody is charged for anything else.
    Whatever the requests, deliveries, redeliveries, interleavings, lost statements and lost
    answers: an order that left its first status is cancelled, or the catalog set aside exactly
    its items, all in one transaction; an order that went further is cancelled or exactly its
    total was authorized. A payment exists only for a placed and reserved order, over the order's
    total in its currency, and it is captured only if an earlier step of the run confirmed the
    order - took it from reserved to confirmed while its total was authorized; that the order was
    cancelled is no licence. *)
Theorem saga_safe past s :
  saga_run past s →
  (∀ id o, find_order id (sg_orders s) = Some o → or_status o ≠ StPending → or_status o ≠ StCancelled →
     ∃ v, placed (sg_orders s) id v o ∧ reserved past id v) ∧
  (∀ id o, find_order id (sg_orders s) = Some o → or_status o ≠ StPending →
     or_status o ≠ StInventoryReserved → or_status o ≠ StCancelled → paid (sg_payments s) id o) ∧
  (∀ id, ∃ st amt cur, phase id (sg_payments s) st amt cur ∧ payment_state id (sg_payments s) = st ∧
     (st ≠ PsNew → ∃ v o, placed (sg_orders s) id v o ∧ reserved past id v ∧
        amt = dec_units (or_total_amount o) ∧ cur = or_currency o ∧ (st = PsCaptured → was_confirmed past id))).
Proof.
  intros (_ & _ & Hord & Hpay)%saga_run_ok. split_and!.
  - intros id o Hf. apply (Hord id o Hf).
  - intros id o Hf. apply (Hord id o Hf).
  - intros id. destruct (Hpay id) as (st & amt & cur & Hph & Hok). exists st, amt, cur.
    split_and!; [done|by eapply phase_state|done].
Qed.
End saga.
