(* ===== verification/SagaLive.v ===== *)
(** * The saga completes

    Saga says what never happens; this file shows that an order can always be brought to its end.
    First the statements and operations of the three services on a connection where nothing is
    lost, as equations between runs; then five deliveries, one after the other. *)

From S2P Require Import Prelude RustStr Externals Errors NewTypes Rules Auth Events Db Outbox Consumer ConsumerProps Redis.
From S2P Require Import DistributedLock Inventory InventoryProps InventorySpec.
From S2P Require Import Gateway Ledger PaymentService PaymentBook PaymentSteps PaymentProps PaymentSpec.
From S2P Require Import OrderTypes OrderReq OrderRepo OrderService OrderProps Saga.

Local Open Scope Z_scope.

(** ** Runs on a calm connection *)

Lemma bind_run {S E A B} (m : M S E A) (k : A → M S E B) s a s1 :
  m s = (Ok a, s1) → (m ≫= k) s = k a s1.
Proof. intros Hm. unfold mbind, M_bind. by rewrite Hm. Qed.
Lemma map_err_run {S E F A} (f : F → E) (m : M S F A) s a s1 : m s = (Ok a, s1) → map_err f m s = (Ok a, s1).
Proof. by rewrite map_err_ok. Qed.
Lemma catch_run {S E E' A B} (m : M S E' A) (k : A → M S E B) h s a s1 :
  m s = (Ok a, s1) → catch m k h s = k a s1.
Proof. intros Hm. unfold catch. by rewrite Hm. Qed.

Lemma not_elem_existsb {A B} (f : A → B) (p : A → bool) rows b :
  (∀ x, p x = true → f x = b) → b ∉ (f <$> rows) → existsb p rows = false.
Proof.
  intros Hp Hb. apply not_true_iff_false. intros (x & Hx & Ex)%existsb_exists. apply Hb.
  apply list_elem_of_fmap. exists x. rewrite list_elem_of_In. split; [|done]. symmetry. auto.
Qed.
Lemma elem_existsb {A} (p : A → bool) rows x : x ∈ rows → p x = true → existsb p rows = true.
Proof. intros Hx Hp. apply existsb_exists. exists x. by rewrite <-list_elem_of_In. Qed.

Section calm.
Context `{Externals} {T : Type} `{!OutboxTables T}.
Implicit Types (t : T) (n : N).

(** A transaction at the time [now], whose next identifier is the [n]th, and where nothing is lost. *)
Definition calm (now : Z) n t : conn T := MkConn t TxActive (MkEnv now n []).
Definition calm_db {X} (now : Z) n t (x : X) : db T X := MkDb t (MkEnv now n []) x.

Lemma exec_run {A} (f : Z → Uuid → T → outcome sql_error (A * T)) now n t a t' :
  f now (uuid_gen n) t = Ok (a, t') → exec f (calm now n t) = (Ok a, calm now (n + 1) t').
Proof. intros Hf. unfold exec, calm. simpl. by rewrite Hf. Qed.
Lemma query_run {A} (f : T → A) now n t : query f (calm now n t) = (Ok (f t), calm now (n + 1) t).
Proof. by apply exec_run. Qed.
Lemma fetch_run {A} (f : T → option A) now n t a :
  f t = Some a → fetch_one f (calm now n t) = (Ok a, calm now (n + 1) t).
Proof. intros Hf. unfold fetch_one. rewrite (bind_run _ _ _ _ _ (query_run f now n t)), Hf. done. Qed.

Lemma now_v7_run {E} now n t : now_v7 (E := E) (calm now n t) = (Ok (uuid_gen n), calm now (n + 1) t).
Proof. done. Qed.
Lemma utc_now_run {E} now n t : utc_now (E := E) (calm now n t) = (Ok now, calm now n t).
Proof. done. Qed.

(** No identifier from the [n]th on is in the list. *)
Definition unused n (l : list Uuid) : Prop := ∀ k, (n ≤ k)%N → uuid_gen k ∉ l.
Lemma unused_later n n' l : (n ≤ n')%N → unused n l → unused n' l.
Proof. intros Hn Hl k Hk. apply Hl. lia. Qed.
Lemma unused_app n l l' : unused n (l ++ l') ↔ unused n l ∧ unused n l'.
Proof. unfold unused. setoid_rewrite not_elem_of_app. firstorder. Qed.
Lemma unused_snoc n n' k l : (n ≤ n')%N → (k < n')%N → unused n l → unused n' (l ++ [uuid_gen k]).
Proof.
  intros Hn Hk Hl. apply unused_app. split; [by eapply unused_later|].
  intros j Hj ->%list_elem_of_singleton%(inj uuid_gen). lia.
Qed.
Lemma unused_fresh {A} (f : A → Uuid) n (rows : list A) :
  unused n (f <$> rows) → existsb (λ r, bool_decide (f r = uuid_gen n)) rows = false.
Proof.
  intros Hu. apply (not_elem_existsb f _ _ (uuid_gen n)); [by intros r ?%bool_decide_eq_true|]. apply Hu. lia.
Qed.

(** ** Announcing an event *)

Definition outbox_ids t : list Uuid := (oe_id <$> outbox_events t) ++ (oe_event_id <$> outbox_events t).

(** The event that is announced under an identifier at a time, and the limit of the outbox. *)
Definition announcement (u : Uuid) (now : Z) (ty : EventType) (agg : AggregateType) (id : Uuid)
    (src : SourceService) (causation : option Uuid) (payload : Value) : EventEnvelope :=
  let m := EventMetadata_new u now ty agg id src in
  EventEnvelope_new (match causation with Some c => with_causation_id m c | None => m end) payload.
Definition small (e : EventEnvelope) : Prop :=
  Z.of_nat (str_len (json_to_string (envelope_to_value e))) <= MAX_PAYLOAD_BYTES.

Lemma write_event_run topic ty agg id src cause payload now n t :
  unused n (outbox_ids t) → small (announcement (uuid_gen n) now ty agg id src cause payload) →
  ∃ r, write_event topic ty agg id src cause payload (calm now n t) =
      (Ok tt, calm now (n + 2) (set_outbox_events (outbox_events t ++ [r]) t)) ∧
    announces r (announcement (uuid_gen n) now ty agg id src cause payload) ∧
    oe_id r = uuid_gen (n + 1) ∧ oe_event_id r = uuid_gen n.
Proof.
  intros [Hi He]%unused_app Hs. unfold write_event.
  rewrite (bind_run _ _ _ _ _ (now_v7_run now n t)), (bind_run _ _ _ _ _ (utc_now_run now (n + 1) t)).
  set (e := announcement _ _ _ _ _ _ _ _) in Hs |- *.
  assert (em_event_id (env_metadata e) = uuid_gen n) as Eid by (unfold e; by destruct cause).
  set (r := new_outbox_row now (uuid_gen (n + 1)) (from_envelope topic e)). exists r.
  split; [|split_and!; [|done|exact Eid]; unfold announces; simpl; apply envelope_roundtrip_eq].
  change (EventEnvelope_new _ _) with e. clearbody e. unfold insert_outbox_event.
  assert (Z.ltb MAX_PAYLOAD_BYTES (Z.of_nat (str_len (json_to_string (oi_payload (from_envelope topic e))))) = false)
    as -> by (apply Z.ltb_ge; exact Hs).
  rewrite (bind_run _ _ _ r (calm now (n + 1 + 1) (set_outbox_events (outbox_events t ++ [r]) t))).
  - unfold mret, M_ret. by rewrite <-N.add_assoc.
  - apply map_err_run, exec_run. unfold insert_outbox_row.
    rewrite (unused_fresh oe_id (n + 1)) by (eapply unused_later; [|done]; lia).
    simpl. rewrite Eid, (unused_fresh oe_event_id n) by done. done.
Qed.
End calm.

(** ** The catalog *)

Section catalog.
Context `{Externals}.
Implicit Types (c : catalog_tables) (n : N) (items : list ReservationItem).

Definition catalog_ids c : list Uuid := (rs_id <$> ct_reservations c) ++ outbox_ids c.

(** The column types and the checks of the SKUs. *)
Definition sku_row_ok (s : SkuRow) : Prop := 0 <= reserved_quantity s ∧ 0 <= stock_quantity s < 2 ^ 31.
(** Every item of the order can be set aside: its SKU is on sale, with enough of it left. *)
Definition in_stock (oid : Uuid) items c : Prop :=
  NoDup (sku_id <$> ct_skus c) ∧ Forall sku_row_ok (ct_skus c) ∧ NoDup items.*1 ∧
  ∀ i, i ∈ items → 0 < i.2 ∧
    (∃ s, s ∈ ct_skus c ∧ live_sku i.1 s = true ∧ i.2 <= stock_quantity s - reserved_quantity s) ∧
    (oid, i.1) ∉ ((λ r, (rs_order_id r, rs_sku_id r)) <$> ct_reservations c).

Lemma update_checked_run {A} (p : A → bool) f (l : list A) :
  (∀ x, x ∈ l → p x = true → ∃ x', f x = Ok x') →
  ∃ l', update_checked p f l = Ok (length (List.filter p l), l').
Proof.
  induction l as [|x l IH]; intros Hf; simpl; [by exists []|].
  destruct IH as [l' El]; [intros y Hy; apply Hf; by right|]. rewrite El.
  destruct (p x) eqn:Ep; [|by exists (x :: l')].
  destruct (Hf x ltac:(by left) Ep) as [x' ->]. by exists (x' :: l').
Qed.

Lemma reserve_stmt_run sku q now u c :
  0 < q → Forall sku_row_ok (ct_skus c) →
  ∃ l, reserve_stmt sku q now u c = Ok (length (List.filter (λ s, live_sku sku s &&
    (q <=? stock_quantity s - reserved_quantity s)) (ct_skus c)), set_skus l c) ∧
    sku_id <$> l = sku_id <$> ct_skus c.
Proof.
  intros Hq Hrows. unfold reserve_stmt, update_skus.
  destruct (update_checked_run (λ s, live_sku sku s && (q <=? stock_quantity s - reserved_quantity s))
    (λ s, set_quantities (stock_quantity s) (reserved_quantity s + q) now s) (ct_skus c)) as [l El].
  - intros s Hs [_ Hl%Z.leb_le]%andb_true_iff. rewrite Forall_forall in Hrows. destruct (Hrows s Hs) as [Hr [Hs0 Hs1]].
    assert (∀ z, 0 <= z < 2 ^ 31 → int4 z = Ok z) as Hi by (intros z Hz; apply int4_ok; lia).
    unfold set_quantities. rewrite Hi by lia. simpl. rewrite Hi by lia. simpl.
    rewrite (proj2 (check_constraint_ok _ _ tt)) by (apply Z.leb_le; lia). simpl.
    rewrite (proj2 (check_constraint_ok _ _ tt)) by (apply Z.leb_le; lia). simpl. eauto.
  - exists l. split; [by rewrite El|]. apply update_checked_ok in El as [_ Hl].
    induction Hl as [|s s' rows rows' Hs _ IH]; [done|]. rewrite !fmap_cons, IH by (by apply Forall_cons in Hrows as [_ ?]).
    f_equal. case_match; [|by subst]. by apply set_quantities_ok in Hs as (-> & _).
Qed.

Lemma reserve_run oid i items now n c :
  in_stock oid (i :: items) c → unused n (catalog_ids c) →
  ∃ c', reserve_inventory oid i.1 i.2 (calm now n c) = (Ok tt, calm now (n + 2) c') ∧
    in_stock oid items c' ∧ unused (n + 2) (catalog_ids c').
Proof.
  intros (Hnd & Hrows & Hitems & Hin) [Hu Ho]%unused_app.
  destruct (Hin i ltac:(by left)) as (Hq & (s & Hs & Hlive & Hav) & Hpair).
  destruct (reserve_stmt_run i.1 i.2 now (uuid_gen n) c Hq Hrows) as (l & El & Eids).
  set (r := MkReservation (uuid_gen (n + 1)) now oid i.1 i.2 Reserved None None).
  set (c' := set_reservations (ct_reservations c ++ [r]) (set_skus l c)).
  assert (reserve_inventory oid i.1 i.2 (calm now n c) = (Ok tt, calm now (n + 2) c')) as Hrun.
  { unfold reserve_inventory, ise. erewrite bind_run; [|by apply map_err_run, exec_run].
    assert (length (List.filter (λ s, live_sku i.1 s && (i.2 <=? stock_quantity s - reserved_quantity s)) (ct_skus c)) ≠ 0%nat) as Hne.
    { intros E%length_zero_iff_nil. assert (s ∈ @nil SkuRow) as []%elem_of_nil. rewrite <-E.
      apply list_elem_of_In, filter_In. rewrite <-list_elem_of_In. split; [done|]. rewrite Hlive. by apply Z.leb_le. }
    apply Nat.eqb_neq in Hne. rewrite Hne. rewrite (map_err_run _ _ _ tt (calm now (n + 1 + 1) c')).
    { by rewrite <-N.add_assoc. }
    apply exec_run. unfold insert_reservation_row.
    rewrite (proj2 (check_constraint_ok _ _ tt)) by (by apply Z.ltb_lt). simpl.
    rewrite (proj2 (unique_ok "inventory_reservations_pkey" _ _ tt)) by (apply (unused_fresh rs_id); eapply unused_later; [|done]; lia). simpl.
    rewrite (proj2 (unique_ok _ _ _ tt)).
    2:{ refine (not_elem_existsb _ _ _ _ _ Hpair). intros x [E1%bool_decide_eq_true E2%bool_decide_eq_true]%andb_true_iff. by f_equal. }
    simpl.
    rewrite (proj2 (foreign_key_ok _ _ _ tt)); [done|].
    assert (i.1 ∈ (sku_id <$> l)) as (s' & -> & Hs')%list_elem_of_fmap.
    { rewrite Eids. apply live_sku_iff in Hlive as [<- _]. by apply list_elem_of_fmap_2. }
    eapply elem_existsb; [exact Hs'|]. by apply bool_decide_eq_true_2. }
  exists c'. split; [done|]. pose proof Hrun as Heff.
  apply reserve_inventory_ok in Heff as [(l' & r' & Ec & Hl & _) _]; [|done].
  simpl in Ec, Hl. injection Ec as <- _. apply NoDup_cons in Hitems as [Hi Hitems].
  rewrite Forall_forall in Hrows. split; [split_and!; [|apply Forall_forall|done|]|].
  - simpl. by rewrite Eids.
  - intros s' Hs'. simpl in Hs'. destruct (list_elem_of_lookup_1 _ _ Hs') as [k Hk].
    destruct (Forall2_lookup_r _ _ _ _ _ Hl Hk) as (s0 & Hk0 & _ & _ & Hm).
    specialize (Hrows s0 (list_elem_of_lookup_2 _ _ _ Hk0)). unfold sku_row_ok in *. case_match; [lia|by subst].
  - intros j Hj. destruct (Hin j ltac:(by right)) as (Hqj & (s0 & Hs0 & Hl0 & Ha0) & Hpj).
    assert (j.1 ≠ i.1) as Hne. { intros E. apply Hi. rewrite <-E. by apply list_elem_of_fmap_2. }
    split_and!; [done| |].
    + destruct (list_elem_of_lookup_1 _ _ Hs0) as [k Hk].
      destruct (Forall2_lookup_l _ _ _ _ _ Hl Hk) as (s1 & Hk1 & _ & _ & Hm).
      assert (live_sku i.1 s0 = false) as E.
      { apply not_true_iff_false. intros [E _]%live_sku_iff. apply live_sku_iff in Hl0 as [E' _]. congruence. }
      rewrite E in Hm. subst s1. exists s0. split_and!; [by eapply list_elem_of_lookup_2|done|done].
    + simpl. rewrite fmap_app, not_elem_of_app. split; [done|]. intros [= ?]%list_elem_of_singleton. congruence.
  - apply unused_app. simpl. rewrite fmap_app. split; [apply (unused_snoc n); [lia..|done]|]. eapply unused_later; [|done]. lia.
Qed.

Lemma reserve_all_run oid items now : ∀ n c,
  in_stock oid items c → unused n (catalog_ids c) →
  ∃ c', for_each items (λ i : ReservationItem, reserve_inventory oid i.1 i.2) (calm now n c) =
      (Ok tt, calm now (n + 2 * N.of_nat (length items)) c') ∧
    unused (n + 2 * N.of_nat (length items)) (catalog_ids c').
Proof.
  induction items as [|i items IH]; intros n c Hs Hu; cbn [for_each].
  - exists c. rewrite N.add_0_r. done.
  - destruct (reserve_run _ _ _ now n c Hs Hu) as (c1 & Hr & Hs1 & Hu1).
    destruct (IH _ _ Hs1 Hu1) as (c' & Hr' & Hu'). exists c'. rewrite (bind_run _ _ _ _ _ Hr), Hr'.
    assert (n + 2 + 2 * N.of_nat (length items) = n + 2 * N.of_nat (length (i :: items)))%N as <- by (simpl; lia).
    done.
Qed.

(** The catalog handles OrderCreated: it ends well and announces the reservation. *)
Lemma created_run oid buyer total cur items e now n c ext tc :
  em_event_type (env_metadata e) = OrderCreated →
  payload_uuid e "order_id" = Ok oid → payload_uuid e "buyer_id" = Ok buyer →
  payload_str e "total_amount" = Some total → payload_str e "currency" = Some cur →
  parse_items (env_payload e) = Ok items → in_stock oid items c → unused n (catalog_ids c) →
  let k := (n + 2 * N.of_nat (length items))%N in
  let e' := announcement (uuid_gen k) now InventoryReserved AggInventory oid Catalog None
    (reserved_payload oid buyer total cur items) in
  small e' →
  ∃ c' r, catalog_handler e (MkSession (calm now n c) tc ext) =
      (Ok tt, MkSession (calm now (k + 2) c') tc ext) ∧
    ct_outbox c' = ct_outbox c ++ [r] ∧ announces r e'.
Proof.
  intros Hty Hid Hb Ht Hc Hi Hs Hu k e' Hsm.
  destruct (reserve_all_run _ _ now n c Hs Hu) as (c1 & Hr1 & Hu1). fold k in Hr1, Hu1.
  destruct (write_event_run "catalog.events" InventoryReserved AggInventory oid Catalog None
    (reserved_payload oid buyer total cur items) now k c1) as (r & Hr2 & Ha & _); [by apply unused_app in Hu1 as [_ ?]|done|].
  assert (do_reserve_and_write_event oid buyer total cur items (calm now n c) =
    (Ok tt, calm now (k + 2) (set_outbox_events (outbox_events c1 ++ [r]) c1))) as Hrun.
  { unfold do_reserve_and_write_event. by rewrite (bind_run _ _ _ _ _ Hr1). }
  eexists _, r. split; [|split; [|exact Ha]].
  - unfold catalog_handler, handle_order_created. rewrite Hty, Hid, Hb, Ht, Hc, Hi.
    unfold mbind, M_bind, lift, omap_err. simpl. apply map_err_run. unfold reserve_for_order_on_tx.
    erewrite catch_run; [reflexivity|]. unfold in_tx, zoom. simpl. rewrite Hrun. done.
  - pose proof Hrun as Ho. apply do_reserve_ok in Ho as (_ & _ & _ & r' & E & _); [|apply Hs].
    simpl in E. apply app_inj_tail in E as [E _]. simpl. by rewrite E.
Qed.
End catalog.

(** ** The order service *)

Section orders.
Context `{Externals}.
Implicit Types (t : order_tables) (n : N).

Lemma filter_key {A B} (f : A → B) (p : A → bool) (l : list A) x :
  NoDup (f <$> l) → x ∈ l → (∀ y, p y = true ↔ f y = f x) → length (List.filter p l) = 1%nat.
Proof.
  intros Hnd Hx Hp. induction l as [|y l IH]; [by apply elem_of_nil in Hx|].
  rewrite fmap_cons in Hnd. apply NoDup_cons in Hnd as [Hy Hnd]. simpl. apply elem_of_cons in Hx as [->|Hx].
  - rewrite (proj2 (Hp y) eq_refl). simpl. f_equal. apply length_zero_iff_nil, filter_none. intros z Hz.
    apply not_true_iff_false. intros E%Hp. apply Hy. rewrite <-E. by apply list_elem_of_fmap_2.
  - destruct (p y) eqn:Ep; [|by apply IH]. apply Hp in Ep. destruct Hy. rewrite Ep. by apply list_elem_of_fmap_2.
Qed.

Lemma get_order_run id now n t o :
  find_order id t = Some o → get_order_by_id id (calm now n t) = (Ok o, calm now (n + 1) t).
Proof. intros Hf. by apply map_err_run, fetch_run. Qed.

(** The tables with a new status of one order. *)
Definition with_order_status (id : Uuid) (st : OrderStatus) (now : Z) t : order_tables :=
  set_orders (update_where (has_id id) (set_status st None now) (ot_orders t)) t.
Definition order_ready (id : Uuid) (o : OrderEntity) t : Prop :=
  find_order id t = Some o ∧ NoDup (or_id <$> ot_orders t).

Lemma status_run id st now n t o :
  order_ready id o t →
  update_order_status id st None (calm now n t) = (Ok tt, calm now (n + 1) (with_order_status id st now t)) ∧
  order_ready id (set_status st None now o) (with_order_status id st now t).
Proof.
  intros [Hf Hnd]. split; [|split].
  - unfold update_order_status.
    rewrite (bind_run _ _ _ 1%nat (calm now (n + 1) (with_order_status id st now t))); [done|].
    apply map_err_run, exec_run. unfold update_status_stmt, rows_affected. apply find_has_id in Hf as [<- Ho].
    rewrite (filter_key or_id _ _ o Hnd Ho); [done|]. intros y. apply bool_decide_eq_true.
  - unfold find_order, with_order_status in *. simpl. by rewrite find_update_status, decide_True, Hf.
  - simpl. by rewrite fmap_update_where.
Qed.

(** InventoryReserved moves a pending order on. *)
Lemma reserved_run id o e now n t tc :
  em_event_type (env_metadata e) = InventoryReserved → payload_uuid e "order_id" = Ok id →
  order_ready id o t → or_status o = StPending →
  ∃ t', order_handler e (MkSession (calm now n t) tc tt) = (Ok tt, MkSession (calm now (n + 2) t') tc tt) ∧
    order_ready id (set_status StInventoryReserved None now o) t' ∧
    ot_outbox t' = ot_outbox t ∧ ot_processed t' = ot_processed t.
Proof.
  intros Hty Hid Ho Hst. destruct (status_run id StInventoryReserved now (n + 1) t o Ho) as [Hr Ho'].
  eexists. split; [|split; [exact Ho'|done]]. unfold order_handler, in_tx, zoom. simpl. apply map_err_run.
  unfold order_event_handler, handle_inventory_reserved. rewrite Hty. unfold mbind at 1, M_bind at 1, lift at 1.
  rewrite Hid, (bind_run _ _ _ _ _ (get_order_run id now n t o (proj1 Ho))), Hst. simpl.
  unfold mbind, M_bind, lift. simpl. by rewrite Hr, <-N.add_assoc.
Qed.

(** PaymentAuthorized confirms a reserved order and announces it. *)
Lemma authorized_run id o e now n t tc :
  em_event_type (env_metadata e) = PaymentAuthorized → payload_uuid e "order_id" = Ok id →
  order_ready id o t → or_status o = StInventoryReserved → unused n (outbox_ids t) →
  let payload := jobj [("order_id", jstr (uuid_to_string id)); ("buyer_id", jstr (uuid_to_string (or_buyer_id o)))] in
  let e' := announcement (uuid_gen (n + 3)) now OrderConfirmed AggOrder id Order (Some (event_id e)) payload in
  small e' →
  ∃ t' r, order_handler e (MkSession (calm now n t) tc tt) = (Ok tt, MkSession (calm now (n + 5) t') tc tt) ∧
    or_status <$> find_order id t' = Some StConfirmed ∧ ot_outbox t' = ot_outbox t ++ [r] ∧ announces r e'.
Proof.
  intros Hty Hid Ho Hst Hu payload e' Hsm.
  destruct (status_run id StPaymentAuthorized now (n + 1) t o Ho) as [Hr1 Ho1].
  destruct (status_run id StConfirmed now (n + 1 + 1) _ _ Ho1) as [Hr2 Ho2].
  set (t2 := with_order_status id StConfirmed now _) in Hr2, Ho2.
  destruct (write_event_run "orders.events" OrderConfirmed AggOrder id Order (Some (event_id e)) payload now (n + 3) t2)
    as (r & Hr3 & Ha & _); [by eapply unused_later; [|exact Hu]; lia|done|].
  exists (set_outbox_events (outbox_events t2 ++ [r]) t2), r.
  split; [|split; [|done]].
  2:{ change (or_status <$> find_order id t2 = Some StConfirmed). by rewrite (proj1 Ho2). }
  unfold order_handler, in_tx, zoom. simpl. unfold order_event_handler, handle_payment_authorized. rewrite Hty.
  unfold map_err, mbind at 1, M_bind at 1, lift at 1.
  rewrite Hid, (bind_run _ _ _ _ _ (get_order_run id now n t o (proj1 Ho))), Hst. simpl.
  unfold mbind at 1, M_bind at 1, lift at 1. simpl.
  rewrite (bind_run _ _ _ _ _ Hr1), (bind_run _ _ _ _ _ Hr2). unfold write_order_outbox.
  assert (n + 1 + 1 + 1 = n + 3)%N as -> by lia. fold (event_id e) payload. rewrite Hr3. simpl. by rewrite <-N.add_assoc.
Qed.
End orders.

(** ** The payment service *)

Section payments.
Context `{Externals, RedisApi} {G : Type} (gateway : PaymentGateway G).
Implicit Types (t : payment_tables) (n : N).

Definition payment_unused n t : Prop :=
  unused n (ac_id <$> pt_accounts t) ∧ unused n (lt_id <$> pt_transactions t) ∧
  unused n (le_id <$> pt_entries t) ∧ unused n (outbox_ids t).
Lemma payment_unused_later n n' t : (n ≤ n')%N → payment_unused n t → payment_unused n' t.
Proof. intros Hn (?&?&?&?). split_and!; by eapply unused_later. Qed.

Lemma account_run ty oid cur now n t :
  (char_count cur ≤ 3)%nat → unused n (ac_id <$> pt_accounts t) →
  ∃ a k l, get_or_create_account ty oid cur (calm now n t) = (Ok a, calm now (n + k) (set_accounts l t)) ∧
    (1 ≤ k ≤ 2)%N ∧ a ∈ l ∧ unused (n + k) (ac_id <$> l) ∧ pt_accounts t ⊆ l.
Proof.
  intros Hc Hu. destruct (existsb (is_account ty oid cur) (pt_accounts t)) eqn:Ee.
  - destruct (List.find (is_account ty oid cur) (pt_accounts t)) as [a|] eqn:Ef;
      [|apply existsb_find in Ef; congruence].
    exists a, 2%N, (pt_accounts t). split_and!; [|lia|lia| |by eapply unused_later; [|done]; lia|done].
    + unfold get_or_create_account, failed_to.
      rewrite (bind_run _ _ _ None (calm now (n + 1) t)).
      * erewrite map_err_run; [|by apply fetch_run]. rewrite <-N.add_assoc. by destruct t.
      * apply map_err_run, exec_run. unfold insert_account.
        rewrite (proj2 (varchar_ok _ _ _ _) (conj eq_refl Hc)). simpl. by rewrite Ee.
    + apply find_some in Ef as [Ef _]. by apply list_elem_of_In.
  - set (a := MkAccount (uuid_gen n) now ty (normal_balance ty) oid cur).
    exists a, 1%N, (pt_accounts t ++ [a]). split_and!; [|lia|lia| | |].
    + unfold get_or_create_account, failed_to.
      rewrite (bind_run _ _ _ (Some a) (calm now (n + 1) (set_accounts (pt_accounts t ++ [a]) t))); [done|].
      apply map_err_run, exec_run. unfold insert_account.
      rewrite (proj2 (varchar_ok _ _ _ _) (conj eq_refl Hc)). simpl. rewrite Ee.
      rewrite (proj2 (unique_ok _ _ _ tt)) by by apply (unused_fresh ac_id). done.
    + apply elem_of_app. right. by left.
    + rewrite fmap_app. apply (unused_snoc n); [lia..|done].
    + intros x Hx. apply elem_of_app. by left.
Qed.

Lemma transaction_run oid ty key ref now n t :
  (char_count key ≤ 255)%nat → (char_count ref ≤ 255)%nat → unused n (lt_id <$> pt_transactions t) →
  key ∉ (lt_idempotency_key <$> pt_transactions t) →
  let x := MkLedgerTx (uuid_gen n) now oid ty TxPending key (Some ref) (jobj []) in
  create_transaction oid ty key (Some ref) (calm now n t) =
    (Ok x, calm now (n + 1) (set_transactions (pt_transactions t ++ [x]) t)).
Proof.
  intros Hk Hr Hu Hkey x. apply map_err_run, exec_run. unfold insert_transaction, varchar_opt.
  rewrite !(proj2 (varchar_ok _ _ _ _) (conj eq_refl Hk)). simpl.
  rewrite (proj2 (varchar_ok _ _ _ _) (conj eq_refl Hr)). simpl.
  rewrite (proj2 (unique_ok "ledger_transactions_pkey" _ _ tt)) by by apply (unused_fresh lt_id). simpl.
  rewrite (proj2 (unique_ok _ _ _ tt)); [done|]. eapply not_elem_existsb; [|exact Hkey].
  intros y. apply bool_decide_eq_true.
Qed.

Lemma entry_run xid account dir amount amt now n t :
  dec_numeric amount = Some amt → 0 < dec_units amt → unused n (le_id <$> pt_entries t) →
  xid ∈ (lt_id <$> pt_transactions t) → account ∈ (ac_id <$> pt_accounts t) →
  let e := MkEntry (uuid_gen n) now xid account dir amt in
  create_entry xid account dir amount (calm now n t) =
    (Ok e, calm now (n + 1) (set_entries (pt_entries t ++ [e]) t)).
Proof.
  intros Ha Hp Hu Hx Hacc e. apply map_err_run, exec_run. unfold insert_entry.
  rewrite (proj2 (numeric_ok _ _) Ha). simpl.
  rewrite (proj2 (check_constraint_ok _ _ tt)).
  2:{ unfold dec_ltb. rewrite dec_leb_units, dec_zero_units. apply negb_true_iff, Z.leb_gt. lia. }
  simpl. rewrite (proj2 (unique_ok _ _ _ tt)) by by apply (unused_fresh le_id). simpl.
  apply list_elem_of_fmap in Hx as (x & -> & Hx), Hacc as (a & -> & Hacc).
  rewrite (proj2 (foreign_key_ok "ledger_entries_transaction_id_fkey" _ _ tt))
    by (eapply elem_existsb; [exact Hx|by apply bool_decide_eq_true_2]). simpl.
  rewrite (proj2 (foreign_key_ok _ _ _ tt)) by (eapply elem_existsb; [exact Hacc|by apply bool_decide_eq_true_2]).
  done.
Qed.

Lemma post_run x now n t :
  NoDup (lt_id <$> pt_transactions t) → x ∈ pt_transactions t →
  ∃ l, post_transaction (lt_id x) (calm now n t) = (Ok tt, calm now (n + 1) (set_transactions l t)) ∧
    lt_id <$> l = lt_id <$> pt_transactions t.
Proof.
  intros Hnd Hx. eexists. split.
  - unfold post_transaction, update_transaction_status, failed_to.
    erewrite bind_run; [|apply map_err_run, exec_run; reflexivity].
    unfold rows_affected. rewrite (filter_key lt_id _ _ x Hnd Hx); [reflexivity|].
    intros y. apply bool_decide_eq_true.
  - by rewrite fmap_update_where.
Qed.

(** Identifiers of a range. *)
Definition within n n' (u : Uuid) : Prop := ∃ k, (n ≤ k < n')%N ∧ u = uuid_gen k.
(** What the service may announce with these identifiers fits the outbox. *)
Definition payments_fit (now : Z) n n' (oid : Uuid) (ev : EventType) (payload : Uuid → Value) : Prop :=
  ∀ u u', within n n' u → within n n' u' → small (announcement u now ev AggPayment oid Payment None (payload u')).

(** An event of the service that was announced under one of these identifiers. *)
Definition payment_event (now : Z) n n' (oid : Uuid) (ev : EventType) (payload : Uuid → Value) (e : EventEnvelope) : Prop :=
  ∃ k u, (n ≤ k < n')%N ∧ e = announcement (uuid_gen k) now ev AggPayment oid Payment None (payload u).
Lemma payment_event_mono now n n1 n2 n' oid ev payload e :
  (n ≤ n1)%N → (n2 ≤ n')%N → payment_event now n1 n2 oid ev payload e → payment_event now n n' oid ev payload e.
Proof. intros Hn Hn' (k & u & Hk & ->). exists k, u. split; [lia|done]. Qed.

Lemma accounts_run oid cur ty1 ty2 now n t :
  (char_count cur ≤ 3)%nat → unused n (ac_id <$> pt_accounts t) →
  ∃ a b m l, create_account_pair oid cur ty1 ty2 (calm now n t) = (Ok (a, b), calm now m (set_accounts l t)) ∧
    (n ≤ m ≤ n + 4)%N ∧ unused m (ac_id <$> l) ∧ a ∈ (ac_id <$> l) ∧ b ∈ (ac_id <$> l).
Proof.
  intros Hcur Hu. destruct (account_run ty1 oid cur now n t Hcur Hu) as (a & k1 & l1 & H1 & Hk1 & Ha & Hu1 & _).
  destruct (account_run ty2 oid cur now (n + k1) (set_accounts l1 t) Hcur Hu1) as (b & k2 & l2 & H2 & Hk2 & Hb & Hu2 & Hl).
  exists (ac_id a), (ac_id b), (n + k1 + k2)%N, l2. split_and!; [|lia|lia|done| |by apply list_elem_of_fmap_2].
  - unfold create_account_pair. by rewrite (bind_run _ _ _ _ _ H1), (bind_run _ _ _ _ _ H2).
  - apply list_elem_of_fmap_2, Hl, Ha.
Qed.

Lemma entries_run xid da ka amount amt now n t :
  dec_numeric amount = Some amt → 0 < dec_units amt → unused n (le_id <$> pt_entries t) →
  xid ∈ (lt_id <$> pt_transactions t) → da ∈ (ac_id <$> pt_accounts t) → ka ∈ (ac_id <$> pt_accounts t) →
  ∃ l, write_entry_pair xid da ka amount (calm now n t) = (Ok tt, calm now (n + 2) (set_entries l t)) ∧
    unused (n + 2) (le_id <$> l).
Proof.
  intros Hamt Hpos Hu Hx Hda Hka.
  pose proof (entry_run xid da Debit amount amt now n t Hamt Hpos Hu Hx Hda) as H1. simpl in H1.
  set (t1 := set_entries _ t) in H1. assert (unused (n + 1) (le_id <$> pt_entries t1)) as Hu1.
  { simpl. rewrite fmap_app. apply (unused_snoc n); [lia..|done]. }
  pose proof (entry_run xid ka Credit amount amt now (n + 1) t1 Hamt Hpos Hu1 Hx Hka) as H2.
  cbv zeta in H2. rewrite <-N.add_assoc in H2. eexists. split.
  - unfold write_entry_pair. rewrite (bind_run _ _ _ _ _ H1), (bind_run _ _ _ _ _ H2). reflexivity.
  - rewrite fmap_app. apply (unused_snoc (n + 1)); [lia..|exact Hu1].
Qed.

Lemma book_run oid ty key ref ty1 ty2 swap cur amount amt ev payload now n t :
  (char_count cur ≤ 3)%nat → (char_count key ≤ 255)%nat → (char_count ref ≤ 255)%nat →
  key ∉ (lt_idempotency_key <$> pt_transactions t) → dec_numeric amount = Some amt → 0 < dec_units amt →
  NoDup (lt_id <$> pt_transactions t) → payment_unused n t → payments_fit now n (n + 10) oid ev payload →
  ∃ n' t' r e, book oid ty key (Some ref) ty1 ty2 swap cur amount ev payload (calm now n t) = (Ok tt, calm now n' t') ∧
    (n ≤ n' ≤ n + 10)%N ∧ payment_unused n' t' ∧ pt_outbox t' = pt_outbox t ++ [r] ∧ pt_processed t' = pt_processed t ∧
    announces r e ∧ payment_event now n n' oid ev payload e.
Proof.
  intros Hcur Hkey Href Hfresh Hamt Hpos Hnd (Hua & Hut & Hue & Huo) Hfit.
  destruct (accounts_run oid cur ty1 ty2 now n t Hcur Hua) as (a & b & m & l & H1 & Hm & Hu1 & Ha & Hb).
  pose proof (transaction_run oid ty key ref now m (set_accounts l t) Hkey Href
    ltac:(eapply unused_later; [|exact Hut]; lia) Hfresh) as H2.
  cbv zeta in H2. set (x := MkLedgerTx (uuid_gen m) _ _ _ _ _ _ _) in H2. set (t2 := set_transactions _ _) in H2.
  destruct (entries_run (uuid_gen m) (if swap then b else a) (if swap then a else b) amount amt now (m + 1) t2)
    as (le & H3 & Hue3); try done; [eapply unused_later; [|exact Hue]; lia| |by destruct swap..|].
  { simpl. rewrite fmap_app. apply elem_of_app. right. by left. }
  set (t3 := set_entries le t2) in H3.
  destruct (post_run x now (m + 1 + 2) t3) as (lx & H4 & Elx).
  { simpl. rewrite fmap_app. apply NoDup_app. split; [done|split; [|apply NoDup_singleton]].
    intros y Hy ->%list_elem_of_singleton. revert Hy. apply Hut. lia. }
  { simpl. apply elem_of_app. right. by left. }
  set (t4 := set_transactions lx t3) in H4.
  destruct (write_event_run "payments.events" ev AggPayment oid Payment None (payload (uuid_gen m)) now (m + 4) t4)
    as (r & H5 & Har & Er1 & Er2); [eapply unused_later; [|exact Huo]; lia|apply Hfit; eexists; (split; [|done]); lia|].
  rewrite <-N.add_assoc in H5. change (4 + 2)%N with 6%N in H5.
  eexists (m + 6)%N, (set_outbox_events (outbox_events t4 ++ [r]) t4), r, _.
  split_and!; [|lia|lia| |reflexivity|reflexivity|exact Har|exists (m + 4)%N, (uuid_gen m); split; [lia|done]].
  - unfold book. rewrite (bind_run _ _ _ _ _ H1). cbv beta iota.
    rewrite (bind_run _ _ _ _ _ H2), (bind_run _ _ _ _ _ H3), (bind_run _ _ _ _ _ H4).
    assert (m + 1 + 2 + 1 = m + 4)%N as -> by lia. exact H5.
  - assert (∀ k l, (k < m + 6)%N → unused n l → unused (m + 6) (l ++ [uuid_gen k])) as Hsnoc.
    { intros k l' Hk Hl'. apply (unused_snoc n); [lia|done|done]. }
    split_and!; simpl; [eapply unused_later; [|exact Hu1]; lia| |eapply unused_later; [|exact Hue3]; lia|].
    + rewrite Elx. simpl. rewrite fmap_app. apply Hsnoc; [lia|done].
    + apply unused_app in Huo as [Ho1 Ho2]. apply unused_app. simpl. rewrite !fmap_app. simpl.
      rewrite Er1, Er2. split; apply Hsnoc; (lia || done).
Qed.

(** *** Reads, the lock, and the handlers *)

Abbreviation pdb := (db payment_tables (G * redis)).
Implicit Types (x : G * redis) (g : G).

Lemma pool_query_run {A} w (f : payment_tables → A) now n t x :
  on_pool (failed_to w (query f)) (calm_db now n t x) = (Ok (f t), calm_db now (n + 1) t x).
Proof. done. Qed.

Lemma authorization_read_run oid amount cur now n t x :
  auth_key oid ∉ (lt_idempotency_key <$> pt_transactions t) →
  validate_authorization amount cur (payment_state oid t) = Ok tt →
  authorization_read oid amount cur (calm_db now n t x) = (Ok false, calm_db now (n + 2) t x).
Proof.
  intros Hk Hv. unfold authorization_read, get_transaction_by_idempotency_key, list_transactions_by_order.
  assert (List.find (has_tx_key (auth_key oid)) (pt_transactions t) = None) as Hf.
  { apply existsb_find. eapply not_elem_existsb; [|exact Hk]. intros y. apply bool_decide_eq_true. }
  rewrite (bind_run _ _ _ _ _ (pool_query_run _ (λ t, List.find (has_tx_key (auth_key oid)) (pt_transactions t)) now n t x)), Hf.
  rewrite (bind_run _ _ _ _ _ (pool_query_run _ (λ t, order_by (λ y : LedgerTransactionEntity, - lt_created_at y) (transactions_of oid t)) now (n + 1) t x)).
  unfold mbind, M_bind, lift. fold (payment_state oid t). rewrite Hv. simpl. by rewrite <-N.add_assoc.
Qed.

(** The authorization of the order as the service reads it back. *)
Definition posted_authorization (oid : Uuid) (ref : string) (amt : Decimal) t : Prop :=
  ∃ a d k, transactions_of oid t = [a] ∧ is_posted_authorization a = true ∧ lt_gateway_reference a = Some ref ∧
    lt_metadata a = jobj [] ∧ entries_of (lt_id a) t = [d; k] ∧ le_amount d = amt ∧ le_amount k = amt.

Lemma find_posted_run oid ref amt now n t x :
  posted_authorization oid ref amt t →
  ∃ id, find_posted_authorization oid "capture" (calm_db now n t x) =
    (Ok (id, ref, fallback_currency, amt), calm_db now (n + 2) t x).
Proof.
  intros (a & d & k & Ht & Hp & Href & Hm & He & Ed & Ek). exists (lt_id a).
  unfold find_posted_authorization, list_transactions_by_order, list_entries_by_transaction.
  rewrite (bind_run _ _ _ _ _ (pool_query_run _ (λ t, order_by (λ y : LedgerTransactionEntity, - lt_created_at y) (transactions_of oid t)) now n t x)).
  rewrite Ht. pose proof Hp as [Hty Hst]%andb_true_iff. apply bool_decide_eq_true in Hty, Hst.
  unfold mbind at 1, M_bind at 1, lift at 1. simpl. unfold derive_payment_state. simpl.
  rewrite Hst, bool_decide_true by done. rewrite Hty. simpl.
  unfold mbind at 1, M_bind at 1, lift at 1. rewrite Hp. simpl.
  unfold mbind at 1, M_bind at 1, lift at 1. rewrite Href. simpl.
  rewrite (bind_run _ _ _ _ _ (pool_query_run _ (λ t, order_by le_created_at (entries_of (lt_id a) t)) now (n + 1) t x)).
  rewrite He, order_by_two, Hm. unfold mret, M_ret. rewrite <-N.add_assoc. do 2 f_equal.
  assert (default dec_zero (le_amount <$> head (if le_created_at d <=? le_created_at k then [d; k] else [k; d])) = amt)
    as -> by by destruct (_ <=? _).
  by json_simpl.
Qed.

(** Whoever wants the lock of the order gets it, and gives it back. *)
Definition lock_free (lock : bool) (oid : Uuid) (r : redis) : Prop :=
  lock = true → ∀ token secs, ∃ v r1 z r2,
    redis_set_nx_ex ("payment:" +:+ uuid_to_string oid) token secs r = (Ok (Some v), r1) ∧
    redis_script RELEASE_SCRIPT ("payment:" +:+ uuid_to_string oid) token r1 = (Ok z, r2).

Lemma guard_run lock oid ty now n t tc g r :
  lock_free lock oid r →
  ∃ guard (k : N) r1, acquire_guard (G := G) lock oid ty (MkSession (calm now n t) tc (g, r)) =
      (Ok guard, MkSession (calm now (n + k) t) tc (g, r1)) ∧ (k ≤ 1)%N ∧
    ∀ c tc' g', ∃ r2, release_guard (G := G) guard (MkSession c tc' (g', r1)) = (Ok tt, MkSession c tc' (g', r2)).
Proof.
  intros Hl. destruct lock.
  - destruct (Hl eq_refl (uuid_to_string (uuid_gen n)) (Z.max (lock_ttl ty / 1000) 1)) as (v & r1 & z & r2 & H1 & H2).
    eexists (Some _), 1%N, r1. split; [|split; [done|]].
    + unfold acquire_guard. erewrite bind_run; [|reflexivity]. unfold catch, on_redis, zoom, acquire. simpl.
      unfold mbind, M_bind, map_err. rewrite H1. reflexivity.
    + intros c tc' g'. exists r2. unfold release_guard, catch, on_redis, zoom, release, mbind, M_bind, map_err. simpl.
      by rewrite H2.
  - exists None, 0%N, r. split; [|split; [done|]]; [by rewrite N.add_0_r|by eexists].
Qed.

Lemma in_tx_run {E A} (m : M (conn payment_tables) E A) now n t tc x a c' :
  m (calm now n t) = (Ok a, c') → in_tx m (MkSession (calm now n t) tc x) = (Ok a, MkSession c' tc x).
Proof. intros Hm. unfold in_tx, zoom. simpl. by rewrite Hm. Qed.
Lemma in_service_run {E A} (m : M pdb E A) now n n' t tc x a :
  m (calm_db now n tc x) = (Ok a, calm_db now n' tc x) →
  in_service m (MkSession (calm now n t) tc x) = (Ok a, MkSession (calm now n' t) tc x).
Proof. intros Hm. unfold in_service. simpl. unfold s_env. simpl. unfold calm_db in Hm. by rewrite Hm. Qed.
Lemma gateway_run {A} (m : M G GatewayError A) now n t tc g g' r a :
  m g = (Ok a, g') →
  in_service (call_gateway m) (MkSession (calm now n t) tc (g, r)) = (Ok a, MkSession (calm now n t) tc (g', r)).
Proof. intros Hm. unfold in_service, call_gateway, zoom. simpl. by rewrite Hm. Qed.

(** The handler around what the event asks for. *)
Lemma handler_run (P : conn payment_tables → Prop) lock e oid now n t g r :
  em_event_type (env_metadata e) = InventoryReserved ∨ em_event_type (env_metadata e) = OrderConfirmed →
  payload_uuid e "order_id" = Ok oid → lock_free lock oid r →
  (∀ m r1, (n ≤ m ≤ n + 1)%N → ∃ c' g', P c' ∧
    payment_dispatch gateway e (MkSession (calm now m t) t (g, r1)) = (Ok tt, MkSession c' t (g', r1))) →
  ∃ c' x', P c' ∧ payment_handler gateway lock e (MkSession (calm now n t) t (g, r)) = (Ok tt, MkSession c' t x').
Proof.
  intros Hty Hid Hl Hd.
  destruct (guard_run lock oid (em_event_type (env_metadata e)) now n t t g r Hl) as (guard & k & r1 & H1 & Hk & H2).
  destruct (Hd (n + k)%N r1 ltac:(lia)) as (c' & g' & HP & H3). destruct (H2 c' t g') as [r2 H4].
  exists c', (g', r2). split; [done|].
  assert (payment_handler gateway lock e = (order_id ← lift (omap_err PaymentService.permanent_of_app (payload_uuid e "order_id"));
      guard ← acquire_guard lock order_id (em_event_type (env_metadata e));
      catch (payment_dispatch gateway e)
        (λ r, _ ← release_guard guard; mret r) (λ err, _ ← release_guard guard; fail err))) as ->
    by (unfold payment_handler; by destruct Hty as [-> | ->]).
  unfold mbind at 1, M_bind at 1, lift at 1. rewrite Hid. simpl.
  rewrite (bind_run _ _ _ _ _ H1), (catch_run _ _ _ _ _ _ H3), (bind_run _ _ _ _ _ H4). done.
Qed.

(** InventoryReserved is authorized, when the gateway approves the amount. *)
Definition authorizes (now : Z) n (oid : Uuid) (amount : Decimal) (cur ref : string) t (c' : conn payment_tables) : Prop :=
  ∃ n' t' row e', c' = calm now n' t' ∧ (n ≤ n' ≤ n + 13)%N ∧ payment_unused n' t' ∧
    pt_outbox t' = pt_outbox t ++ [row] ∧ pt_processed t' = pt_processed t ∧ announces row e' ∧
    payment_event now n n' oid PaymentAuthorized (λ id, authorized_payload oid id ref) e' ∧
    booked now oid Authorization (auth_key oid) (Some ref) GatewayHolding Buyer cur amount PaymentAuthorized
      (λ id, authorized_payload oid id ref) t t'.

Lemma within_mono n n1 n2 n' u : (n ≤ n1)%N → (n2 ≤ n')%N → within n1 n2 u → within n n' u.
Proof. intros Hn Hn' (k & Hk & ->). exists k. split; [lia|done]. Qed.

Lemma authorize_run lock e oid amount amt cur res now n t g g' r :
  em_event_type (env_metadata e) = InventoryReserved → payload_uuid e "order_id" = Ok oid →
  requested_amount e = Some amount → requested_currency e = cur → lock_free lock oid r →
  auth_key oid ∉ (lt_idempotency_key <$> pt_transactions t) →
  validate_authorization amount cur (payment_state oid t) = Ok tt →
  gw_authorize gateway (auth_key oid) oid amount cur g = (Ok res, g') → dec_eqb (approved_amount res) amount = true →
  (char_count cur ≤ 3)%nat → (char_count (auth_key oid) ≤ 255)%nat → (char_count (gateway_reference res) ≤ 255)%nat →
  dec_numeric amount = Some amt → 0 < dec_units amt → NoDup (lt_id <$> pt_transactions t) → payment_unused n t →
  payments_fit now n (n + 13) oid PaymentAuthorized (λ id, authorized_payload oid id (gateway_reference res)) →
  ∃ c' x', authorizes now n oid amount cur (gateway_reference res) t c' ∧
    payment_handler gateway lock e (MkSession (calm now n t) t (g, r)) = (Ok tt, MkSession c' t x').
Proof.
  intros Hty Hid Hra Hrc Hl Hk Hv Hg Heq Hcur Hkey Href Hnum Hpos Hnd Hu Hfit.
  apply (handler_run _ lock e oid); [by left|done|done|]. intros m r1 Hm.
  destruct (book_run oid Authorization (auth_key oid) (gateway_reference res) Buyer GatewayHolding true cur amount amt
    PaymentAuthorized (λ id, authorized_payload oid id (gateway_reference res)) now (m + 2) t)
    as (n' & t' & row & e' & Hb & Hn' & Hu' & Hout & Hpr & Ha & He'); try done.
  { eapply payment_unused_later; [|exact Hu]. lia. }
  { intros u u' Hw Hw'. apply Hfit; (eapply within_mono; [| |eassumption]; lia). }
  exists (calm now n' t'), g'. split.
  - exists n', t', row, e'. split_and!; try done; [lia|lia|eapply payment_event_mono; [| |exact He']; lia|].
    pose proof Hb as Hbk. apply book_ok in Hbk as [Hbk _]. exact Hbk.
  - unfold payment_dispatch. rewrite Hty. apply map_err_run. unfold PaymentService.handle_inventory_reserved.
    unfold requested_amount in Hra. rewrite Hid, Hra.
    rewrite (bind_run (lift (Ok oid)) _ _ oid _ eq_refl), (bind_run (lift (ok_or _ (Some amount))) _ _ amount _ eq_refl).
    unfold requested_currency in Hrc. rewrite Hrc. unfold authorize_payment_on_tx.
    rewrite (bind_run _ _ _ _ _ (in_service_run _ now m (m + 2) t t (g, r1) false
      (authorization_read_run oid amount cur now m t (g, r1) Hk Hv))).
    rewrite (catch_run _ _ _ _ _ _ (gateway_run _ now (m + 2) t t g g' r1 res Hg)), Heq. simpl.
    by apply in_tx_run.
Qed.

(** OrderConfirmed is captured, when the gateway agrees. *)
Definition captures (now : Z) n (oid : Uuid) (ref : string) (amt : Decimal) t (c' : conn payment_tables) : Prop :=
  ∃ n' t' row e', c' = calm now n' t' ∧ pt_outbox t' = pt_outbox t ++ [row] ∧ announces row e' ∧
    payment_event now n n' oid PaymentCaptured (λ _, order_payload oid) e' ∧
    booked now oid Capture (capture_key oid) (Some ref) PlatformRevenue GatewayHolding fallback_currency amt
      PaymentCaptured (λ _, order_payload oid) t t'.

Lemma capture_run lock e oid ref amt res now n t g g' r :
  em_event_type (env_metadata e) = OrderConfirmed → payload_uuid e "order_id" = Ok oid → lock_free lock oid r →
  posted_authorization oid ref amt t → gw_capture gateway ref g = (Ok res, g') →
  capture_key oid ∉ (lt_idempotency_key <$> pt_transactions t) →
  (char_count (capture_key oid) ≤ 255)%nat → (char_count ref ≤ 255)%nat →
  dec_numeric amt = Some amt → 0 < dec_units amt → NoDup (lt_id <$> pt_transactions t) → payment_unused n t →
  payments_fit now n (n + 13) oid PaymentCaptured (λ _, order_payload oid) →
  ∃ c' x', captures now n oid ref amt t c' ∧
    payment_handler gateway lock e (MkSession (calm now n t) t (g, r)) = (Ok tt, MkSession c' t x').
Proof.
  intros Hty Hid Hl Hp Hg Hk Hkey Href Hnum Hpos Hnd Hu Hfit.
  apply (handler_run _ lock e oid); [by right|done|done|]. intros m r1 Hm.
  destruct (book_run oid Capture (capture_key oid) ref GatewayHolding PlatformRevenue true fallback_currency amt amt
    PaymentCaptured (λ _, order_payload oid) now (m + 2) t)
    as (n' & t' & row & e' & Hb & Hn' & Hu' & Hout & Hpr & Ha & He'); try done.
  { eapply payment_unused_later; [|exact Hu]. lia. }
  { intros u u' Hw Hw'. apply (Hfit u u); (eapply within_mono; [| |exact Hw]; lia). }
  destruct (find_posted_run oid ref amt now m t (g, r1) Hp) as [id Hf].
  exists (calm now n' t'), g'. split.
  - exists n', t', row, e'. split_and!; try done; [eapply payment_event_mono; [| |exact He']; lia|].
    pose proof Hb as Hbk. apply book_ok in Hbk as [Hbk _]. exact Hbk.
  - unfold payment_dispatch. rewrite Hty. apply map_err_run. unfold handle_order_confirmed. rewrite Hid.
    rewrite (bind_run (lift (Ok oid)) _ _ oid _ eq_refl). unfold capture_payment_on_tx.
    rewrite (bind_run _ _ _ _ _ (in_service_run _ now m (m + 2) t t (g, r1) _ Hf)). cbv beta iota.
    rewrite (catch_run _ _ _ _ _ _ (gateway_run _ now (m + 2) t t g g' r1 res Hg)). by apply in_tx_run.
Qed.

(** *** The ledger between the two *)

Lemma uuid_text_inj (a b : Uuid) : uuid_to_string a = uuid_to_string b → a = b.
Proof. intros E. apply (f_equal uuid_parse) in E. rewrite !uuid_parse_to_string in E. by injection E. Qed.

Lemma phase_keys oid t st amt cur y :
  phase oid t st amt cur → y ∈ transactions_of oid t →
  lt_idempotency_key y ∈ [auth_key oid; capture_key oid; void_key oid].
Proof.
  rewrite !elem_of_cons. intros Hph Hy.
  destruct Hph as [Ht|a ? ? Ht Ha _|a b ? ? Ht Ha Hb _ _ _|a b ? ? Ht Ha Hb _ _]; rewrite Ht in Hy.
  - by apply elem_of_nil in Hy.
  - apply list_elem_of_singleton in Hy as ->. destruct Ha as (_ & _ & -> & _). by left.
  - apply elem_of_cons in Hy as [->| ->%list_elem_of_singleton];
      [destruct Ha as (_ & _ & -> & _); by left|destruct Hb as (_ & _ & -> & _); by right; left].
  - apply elem_of_cons in Hy as [->| ->%list_elem_of_singleton];
      [destruct Ha as (_ & _ & -> & _); by left|destruct Hb as (_ & _ & -> & _); by right; right; left].
Qed.

(** The keys of an order without transactions are free. *)
Lemma keys_free now oid t :
  ledger_ok now t → transactions_of oid t = [] →
  (auth_key oid ∉ (lt_idempotency_key <$> pt_transactions t)) ∧
  (capture_key oid ∉ (lt_idempotency_key <$> pt_transactions t)).
Proof.
  intros (_ & _ & Hp) Ht.
  assert (∀ y, y ∈ pt_transactions t → ¬ lt_idempotency_key y ∈ [auth_key oid; capture_key oid]) as Hno.
  { intros y Hy Hk. destruct (Hp (lt_order_id y)) as (st & amt & cur & Hph).
    assert (y ∈ transactions_of (lt_order_id y) t) as Hin by by apply transactions_of_in.
    pose proof (phase_keys _ _ _ _ _ _ Hph Hin) as Hk'. assert (lt_order_id y = oid) as E.
    { apply uuid_text_inj. unfold auth_key, capture_key, void_key in *.
      apply elem_of_cons in Hk as [Hk|Hk%list_elem_of_singleton];
        apply elem_of_cons in Hk' as [Hk'|[Hk'|Hk'%list_elem_of_singleton]%elem_of_cons]; rewrite Hk in Hk';
        first [discriminate Hk'|by injection Hk']. }
    rewrite E, Ht in Hin. by apply elem_of_nil in Hin. }
  split; intros (y & Ey & Hy)%list_elem_of_fmap; apply (Hno y Hy); rewrite <-Ey;
    [by left|by right; left].
Qed.

Lemma booked_posted now oid ref cur amount ev payload t t' :
  booked now oid Authorization (auth_key oid) (Some ref) GatewayHolding Buyer cur amount ev payload t t' →
  frame_ok t → transactions_of oid t = [] → capture_key oid ∉ (lt_idempotency_key <$> pt_transactions t) →
  NoDup (lt_id <$> pt_transactions t') ∧ (capture_key oid ∉ (lt_idempotency_key <$> pt_transactions t')) ∧
  ∃ amt, dec_numeric amount = Some amt ∧ 0 < dec_units amt ∧ posted_authorization oid ref amt t'.
Proof.
  intros Hb Hfr Ht Hk. split; [by apply (booked_frame _ _ _ _ _ _ _ _ _ _ _ _ _ Hb)|].
  destruct Hb as (l & x & d & k & r & amt & -> & _ & Ex & Hid & _ & Ha & Hp & _).
  destruct Hp as (da & ka & _ & _ & _ & _ & Ed & Ek & Hpos). split; [|exists amt; split_and!; [done|done|]].
  - simpl. rewrite fmap_app, not_elem_of_app. split; [done|]. rewrite Ex. by intros ?%list_elem_of_singleton.
  - exists x, d, k. split_and!.
    + unfold transactions_of in *. simpl. rewrite transactions_of_snoc, Ht, Ex. simpl. by rewrite decide_True.
    + by rewrite Ex.
    + by rewrite Ex.
    + by rewrite Ex.
    + unfold entries_of. simpl. rewrite List.filter_app, filter_none; [rewrite Ed, Ek; simpl; by rewrite !bool_decide_true|].
      intros y Hy. apply bool_decide_eq_false. intros E. apply Hid. rewrite <-E. by apply Hfr.
    + by rewrite Ed.
    + by rewrite Ek.
Qed.

Lemma booked_captured now0 now oid key ref dty cty cur amount ev payload ref' amt t t' :
  booked now oid Capture key ref dty cty cur amount ev payload t t' →
  ledger_ok now0 t → now0 < now → posted_authorization oid ref' amt t → payment_state oid t' = PsCaptured.
Proof.
  intros Hb (Hfr & Hc & _) Hnow (a & d & k & Ht & Ha & _).
  destruct (booked_of _ _ _ _ _ _ _ _ _ _ _ _ _ Hb ltac:(apply Hfr)) as (x & _ & Ex & (_ & Hty & _ & Hst & _) & Hcx & _).
  assert (a ∈ pt_transactions t) as Hin by (apply (transactions_of_in oid); rewrite Ht; by left).
  rewrite Forall_forall in Hc. specialize (Hc a Hin). simpl in Hc.
  unfold payment_state. rewrite Ex, Ht. cbn [app]. rewrite order_by_two.
  destruct (Z.leb_spec (- lt_created_at a) (- lt_created_at x)); [lia|]. unfold derive_payment_state. cbn [List.find].
  by rewrite Hst, bool_decide_true, Hty by done.
Qed.
End payments.

(** ** Deliveries *)

Section deliver.
Context `{Externals} {T X : Type} `{!OutboxTables T}.
Implicit Types (t : T) (n : N).

(** A calm delivery of a new event, whose handler ends well, is committed with its marker. *)
Lemma deliver_run (h : handler (T := T) (X := X)) g e now n n' t t1 x x' :
  processed t (event_id e) g = false →
  h e (MkSession (calm now (n + 1) t) t x) = (Ok tt, MkSession (calm now n' t1) t x') →
  ∃ d, attempt h g e (calm_db now n t x) = (Ok Committed, d) ∧
    d_committed d = mark_processed_row (event_id e) (event_type_str (em_event_type (env_metadata e)))
      (source_service_str (em_source_service (env_metadata e))) g now t1.
Proof.
  intros Hp Hh. destruct (attempt_success h g e (calm_db now n t x) (MkSession (calm now n' t1) t x'))
    as (d & Hr & Hd); [done|done|exact Hh|done|done|]. by exists d.
Qed.

Definition marks_unused n t : Prop := unused n (pe_event_id <$> processed_events t).
Lemma unused_unprocessed n k t g : marks_unused n t → (n ≤ k)%N → processed t (uuid_gen k) g = false.
Proof.
  intros Hu Hk. unfold processed. eapply (not_elem_existsb pe_event_id); [|by apply Hu].
  intros r [Hr _]%andb_true_iff. by apply bool_decide_eq_true in Hr.
Qed.
Lemma marked_unused n n' k ty src g now t :
  marks_unused n t → (n ≤ n')%N → (k < n')%N → marks_unused n' (mark_processed_row (uuid_gen k) ty src g now t).
Proof.
  intros Hu Hn Hk. unfold mark_processed_row, marks_unused in *. case_match; [by eapply unused_later|].
  rewrite processed_set, fmap_app. by apply (unused_snoc n).
Qed.

(** The relay publishes the one row a delivery added. *)
Lemma announced_mark id ty src g now t t1 r e log :
  outbox_events t1 = outbox_events t ++ [r] → announces r e →
  announced t (mark_processed_row id ty src g now t1) log (log ++ [e]).
Proof. intros E Ha. exists [r], [e]. rewrite mark_processed_row_outbox. split_and!; [done| |done]. by repeat constructor. Qed.
Lemma announced_mark_none id ty src g now t t1 log :
  outbox_events t1 = outbox_events t → announced t (mark_processed_row id ty src g now t1) log log.
Proof. intros E. exists [], []. by rewrite mark_processed_row_outbox, E, !app_nil_r. Qed.
End deliver.

Lemma marked_order `{Externals} id ty src g now (t : order_tables) :
  ∃ l, mark_processed_row id ty src g now t = set_processed_events l t.
Proof. unfold mark_processed_row. case_match; [exists (ot_processed t); by destruct t|by eexists]. Qed.
Lemma marked_payment `{Externals} id ty src g now (t : payment_tables) :
  ∃ l, mark_processed_row id ty src g now t = set_processed_events l t.
Proof. unfold mark_processed_row. case_match; [exists (pt_processed t); by destruct t|by eexists]. Qed.

(** ** An order that can be brought to its end *)

Section completes.
Context `{Externals, RedisApi} {G : Type} (gateway : PaymentGateway G).
Context (lock : bool) (catalog_group order_group payment_group : string).
Implicit Types (s : saga) (n : N).

Definition confirmed_payload (oid : Uuid) (o : OrderEntity) : Value :=
  jobj [("order_id", jstr (uuid_to_string oid)); ("buyer_id", jstr (uuid_to_string (or_buyer_id o)))].

(** The order [o] of the event [e] is pending; the event was announced, and the catalog has not
    handled it. Its items are in stock, nothing was paid, and the gateway, in the state [g], would
    authorize the total and capture it. The clock has moved on, the identifiers from the [n]th on
    are new, what will be announced fits the outbox, and the lock is free. *)
Record ready s (e : EventEnvelope) (oid : Uuid) (o : OrderEntity) (items : list ReservationItem)
    (amount : Decimal) (cur : string) (res : GatewayAuthResult) (now : Z) n (g : G) (r : redis) : Prop := {
  rd_order : order_ready oid o (sg_orders s);
  rd_pending : or_status o = StPending;
  rd_positive : 0 < dec_units (or_total_amount o);
  rd_announced : e ∈ sg_log s;
  rd_created : em_event_type (env_metadata e) = OrderCreated;
  rd_names : payload_uuid e "order_id" = Ok oid;
  rd_items : parse_items (env_payload e) = Ok items;
  rd_amount : requested_amount e = Some amount;
  rd_currency : requested_currency e = cur;
  rd_unhandled : processed (sg_catalog s) (event_id e) catalog_group = false;
  rd_stock : in_stock oid items (sg_catalog s);
  rd_unpaid : payment_state oid (sg_payments s) = PsNew;
  rd_valid : validate_authorization amount cur PsNew = Ok tt;
  rd_approved : ∃ g1 res' g2, gw_authorize gateway (auth_key oid) oid amount cur g = (Ok res, g1) ∧
    dec_eqb (approved_amount res) amount = true ∧ gw_capture gateway (gateway_reference res) g1 = (Ok res', g2);
  rd_lock : lock_free lock oid r;
  rd_time : sg_now s < now;
  rd_fresh : unused n (catalog_ids (sg_catalog s)) ∧ unused n (outbox_ids (sg_orders s)) ∧
    marks_unused n (sg_orders s) ∧ payment_unused n (sg_payments s) ∧ marks_unused n (sg_payments s);
  rd_widths : (char_count cur ≤ 3)%nat ∧ (char_count (auth_key oid) ≤ 255)%nat ∧
    (char_count (capture_key oid) ≤ 255)%nat ∧ (char_count (gateway_reference res) ≤ 255)%nat;
  rd_small : ∀ u u', within n (n + 2 * N.of_nat (length items) + 40) u →
    within n (n + 2 * N.of_nat (length items) + 40) u' →
    small (announcement u now InventoryReserved AggInventory oid Catalog None
      (reserved_payload oid (or_buyer_id o) (dec_to_string amount) cur items)) ∧
    small (announcement u now PaymentAuthorized AggPayment oid Payment None
      (authorized_payload oid u' (gateway_reference res))) ∧
    small (announcement u now OrderConfirmed AggOrder oid Order (Some u') (confirmed_payload oid o)) ∧
    small (announcement u (now + 1) PaymentCaptured AggPayment oid Payment None (order_payload oid)) }.

Lemma created_means past s e oid o items amount cur res now n g r :
  saga_run gateway past s → ready s e oid o items amount cur res now n g r →
  ∃ v, placed (sg_orders s) oid v o ∧ env_payload e = order_created_payload oid (or_buyer_id o) v ∧
    items = lines v ∧ amount = vr_total_amount v ∧ cur = currency_str (vr_currency v).
Proof.
  intros (_ & Hlog & _ & _)%saga_run_ok Hr. rewrite Forall_forall in Hlog.
  pose proof (Hlog e (rd_announced _ _ _ _ _ _ _ _ _ _ _ _ Hr)) as Hm.
  unfold meant in Hm. rewrite (rd_created _ _ _ _ _ _ _ _ _ _ _ _ Hr) in Hm. destruct Hm as (id & v & o' & Hp & He).
  pose proof Hp as (Hf & (key & req & Hv) & _).
  pose proof (rd_names _ _ _ _ _ _ _ _ _ _ _ _ Hr) as Hid. pose proof (rd_items _ _ _ _ _ _ _ _ _ _ _ _ Hr) as Hi.
  pose proof (rd_amount _ _ _ _ _ _ _ _ _ _ _ _ Hr) as Ha. pose proof (rd_currency _ _ _ _ _ _ _ _ _ _ _ _ Hr) as Hc.
  unfold payload_uuid, requested_amount, requested_currency in *. rewrite He in Hid, Hi, Ha, Hc.
  rewrite (created_items _ _ _ _ _ Hv) in Hi. unfold order_created_payload in Hid, Ha, Hc.
  revert Hid Ha Hc. json_simpl. rewrite ?dec_parse_to_string. intros [= <-] [= <-] <-. injection Hi as <-.
  destruct (rd_order _ _ _ _ _ _ _ _ _ _ _ _ Hr) as [Hf' _]. rewrite Hf in Hf'. injection Hf' as ->. by exists v.
Qed.

(** *** The five deliveries *)

Lemma catalog_delivers s e oid buyer total cur items now n :
  e ∈ sg_log s → em_event_type (env_metadata e) = OrderCreated → payload_uuid e "order_id" = Ok oid →
  payload_uuid e "buyer_id" = Ok buyer → payload_str e "total_amount" = Some total → payload_str e "currency" = Some cur →
  parse_items (env_payload e) = Ok items → processed (sg_catalog s) (event_id e) catalog_group = false →
  in_stock oid items (sg_catalog s) → unused n (catalog_ids (sg_catalog s)) →
  let e' := announcement (uuid_gen (n + 1 + 2 * N.of_nat (length items))) now InventoryReserved AggInventory oid Catalog None
    (reserved_payload oid buyer total cur items) in
  small e' →
  ∃ c', saga_step gateway s (Saga (sg_orders s) c' (sg_payments s) (sg_now s) (sg_log s ++ [e'])).
Proof.
  intros Hin Hty Hid Hb Ht Hc Hi Hp Hs Hu e' Hsm.
  destruct (created_run oid buyer total cur items e now (n + 1) (sg_catalog s) tt (sg_catalog s))
    as (c1 & r & Hr & Hout & Ha); [done..|by eapply unused_later; [|exact Hu]; lia|done|].
  destruct (deliver_run _ _ _ _ _ _ _ _ _ _ Hp Hr) as (d & Hd & Et).
  exists (d_committed d). destruct s as [t c p nw log].
  eapply (saga_catalog gateway catalog_group e (calm_db now n c tt) d); [exact Hin|apply Hs|exact Hd|].
  rewrite Et. by eapply announced_mark.
Qed.

Lemma order_moves s e oid o now n j :
  e ∈ sg_log s → em_event_type (env_metadata e) = InventoryReserved → payload_uuid e "order_id" = Ok oid →
  order_ready oid o (sg_orders s) → or_status o = StPending →
  event_id e = uuid_gen j → (j < n)%N → marks_unused j (sg_orders s) →
  ∃ t', saga_step gateway s (Saga t' (sg_catalog s) (sg_payments s) (sg_now s) (sg_log s)) ∧
    order_ready oid (set_status StInventoryReserved None now o) t' ∧
    outbox_ids t' = outbox_ids (sg_orders s) ∧ marks_unused n t'.
Proof.
  intros Hin Hty Hid Ho Hst Hev Hj Hm.
  destruct (reserved_run oid o e now (n + 1) (sg_orders s) (sg_orders s) Hty Hid Ho Hst) as (t1 & Hr & Ho1 & Hout & Hpr).
  assert (processed (sg_orders s) (event_id e) order_group = false) as Hp.
  { rewrite Hev. by eapply unused_unprocessed. }
  destruct (deliver_run _ _ _ _ _ _ _ _ _ _ Hp Hr) as (d & Hd & Et).
  exists (d_committed d). destruct s as [t c p nw log]. simpl in *. split_and!.
  - eapply (saga_order gateway order_group e (calm_db now n t tt) d); [exact Hin|exact Hd|].
    rewrite Et. by apply announced_mark_none.
  - rewrite Et. destruct (marked_order (event_id e) (event_type_str (em_event_type (env_metadata e)))
      (source_service_str (em_source_service (env_metadata e))) order_group now t1) as [l ->]. exact Ho1.
  - rewrite Et. unfold outbox_ids. rewrite mark_processed_row_outbox. simpl. by rewrite Hout.
  - rewrite Et, Hev. apply (marked_unused j); [|lia|done]. unfold marks_unused. simpl. by rewrite Hpr.
Qed.

Lemma order_confirms s e oid o now n :
  e ∈ sg_log s → em_event_type (env_metadata e) = PaymentAuthorized → payload_uuid e "order_id" = Ok oid →
  order_ready oid o (sg_orders s) → or_status o = StInventoryReserved →
  processed (sg_orders s) (event_id e) order_group = false → unused n (outbox_ids (sg_orders s)) →
  let e' := announcement (uuid_gen (n + 4)) now OrderConfirmed AggOrder oid Order (Some (event_id e)) (confirmed_payload oid o) in
  small e' →
  ∃ t', saga_step gateway s (Saga t' (sg_catalog s) (sg_payments s) (sg_now s) (sg_log s ++ [e'])) ∧
    or_status <$> find_order oid t' = Some StConfirmed.
Proof.
  intros Hin Hty Hid Ho Hst Hp Hu e' Hsm. unfold e' in *. assert (n + 4 = n + 1 + 3)%N as E4 by lia. rewrite E4 in *.
  destruct (authorized_run oid o e now (n + 1) (sg_orders s) (sg_orders s) Hty Hid Ho Hst)
    as (t1 & r & Hr & Hf & Hout & Ha); [eapply unused_later; [|exact Hu]; lia|done|].
  destruct (deliver_run _ _ _ _ _ _ _ _ _ _ Hp Hr) as (d & Hd & Et).
  exists (d_committed d). destruct s as [t c p nw log]. simpl in *. split.
  - eapply (saga_order gateway order_group e (calm_db now n t tt) d); [exact Hin|exact Hd|].
    rewrite Et. by eapply announced_mark.
  - rewrite Et. destruct (marked_order (event_id e) (event_type_str (em_event_type (env_metadata e)))
      (source_service_str (em_source_service (env_metadata e))) order_group now t1) as [l ->]. exact Hf.
Qed.

(** What the payment service relies on to capture an authorization. *)
Definition capturable (oid : Uuid) (ref : string) (p : payment_tables) : Prop :=
  NoDup (lt_id <$> pt_transactions p) ∧ (capture_key oid ∉ (lt_idempotency_key <$> pt_transactions p)) ∧
  ∃ amt, dec_numeric amt = Some amt ∧ 0 < dec_units amt ∧ posted_authorization oid ref amt p.

Lemma payment_authorizes s e oid amount amt cur res now n j g g1 r :
  e ∈ sg_log s → em_event_type (env_metadata e) = InventoryReserved → payload_uuid e "order_id" = Ok oid →
  requested_amount e = Some amount → requested_currency e = cur → lock_free lock oid r →
  ledger_ok (sg_now s) (sg_payments s) → transactions_of oid (sg_payments s) = [] →
  validate_authorization amount cur PsNew = Ok tt →
  gw_authorize gateway (auth_key oid) oid amount cur g = (Ok res, g1) → dec_eqb (approved_amount res) amount = true →
  (char_count cur ≤ 3)%nat → (char_count (auth_key oid) ≤ 255)%nat → (char_count (gateway_reference res) ≤ 255)%nat →
  dec_numeric amount = Some amt → 0 < dec_units amt → sg_now s < now → payment_unused n (sg_payments s) →
  event_id e = uuid_gen j → (j < n)%N → marks_unused j (sg_payments s) →
  payments_fit now n (n + 14) oid PaymentAuthorized (λ id, authorized_payload oid id (gateway_reference res)) →
  ∃ n' p' e', saga_step gateway s (Saga (sg_orders s) (sg_catalog s) p' now (sg_log s ++ [e'])) ∧
    (n ≤ n' ≤ n + 14)%N ∧ payment_unused n' p' ∧ marks_unused n' p' ∧ capturable oid (gateway_reference res) p' ∧
    payment_event now (n + 1) n' oid PaymentAuthorized (λ id, authorized_payload oid id (gateway_reference res)) e'.
Proof.
  intros Hin Hty Hid Hra Hrc Hl Hok Ht Hv Hg Heq Hcur Hkey Href Hnum Hpos Hnow Hu Hev Hj Hm Hfit.
  destruct (keys_free _ _ _ Hok Ht) as [Hk1 Hk2]. pose proof Hok as (Hfr & _). pose proof Hfr as (_ & Hnd & _).
  destruct (authorize_run gateway lock e oid amount amt cur res now (n + 1) (sg_payments s) g g1 r)
    as (c' & x' & (n' & p1 & row & e' & -> & Hn' & Hu' & Hout & Hpr & Ha & He' & Hb) & Hr); try done.
  { unfold payment_state. by rewrite Ht. }
  { eapply payment_unused_later; [|exact Hu]. lia. }
  { intros u u' Hw Hw'. apply Hfit; (eapply within_mono; [| |eassumption]; lia). }
  assert (processed (sg_payments s) (event_id e) payment_group = false) as Hp.
  { rewrite Hev. by eapply unused_unprocessed. }
  destruct (deliver_run _ _ _ _ _ _ _ _ _ _ Hp Hr) as (d & Hd & Et).
  destruct (booked_posted _ _ _ _ _ _ _ _ _ Hb Hfr Ht Hk2) as (Hnd' & Hk' & a & Hna & Hpa & Hposted).
  exists n', (d_committed d), e'. rewrite Et.
  destruct (marked_payment (event_id e) (event_type_str (em_event_type (env_metadata e)))
    (source_service_str (em_source_service (env_metadata e))) payment_group now p1) as [l El].
  assert (marks_unused n' (d_committed d)) as Hm'.
  { rewrite Et, Hev. apply (marked_unused j); [|lia|lia]. unfold marks_unused. simpl. by rewrite Hpr. }
  rewrite Et in Hm'. split_and!; [|lia|lia| |done| |done].
  - rewrite <-Et. destruct s as [t c p nw log]. simpl in *.
    eapply (saga_payment gateway lock payment_group e (calm_db now n p (g, r)) d); [exact Hin|exact Hnow|exact Hd|].
    rewrite Et. by eapply announced_mark.
  - rewrite El. exact Hu'.
  - rewrite El. split_and!; [exact Hnd'|exact Hk'|]. exists a. split_and!; [by eapply dec_numeric_idem|done|exact Hposted].
Qed.

Lemma payment_captures s e oid ref res now n j g g1 r :
  e ∈ sg_log s → em_event_type (env_metadata e) = OrderConfirmed → payload_uuid e "order_id" = Ok oid →
  lock_free lock oid r → ledger_ok (sg_now s) (sg_payments s) → capturable oid ref (sg_payments s) → gw_capture gateway ref g = (Ok res, g1) →
  (char_count (capture_key oid) ≤ 255)%nat → (char_count ref ≤ 255)%nat →
  sg_now s < now → payment_unused n (sg_payments s) → event_id e = uuid_gen j → (j < n)%N → marks_unused j (sg_payments s) →
  payments_fit now n (n + 14) oid PaymentCaptured (λ _, order_payload oid) →
  ∃ p' e', saga_step gateway s (Saga (sg_orders s) (sg_catalog s) p' now (sg_log s ++ [e'])) ∧
    payment_state oid p' = PsCaptured ∧ em_event_type (env_metadata e') = PaymentCaptured.
Proof.
  intros Hin Hty Hid Hl Hok (Hnd & Hk & amt & Hnum & Hpos & Hposted) Hg Hkey Href Hnow Hu Hev Hj Hm Hfit.
  destruct (capture_run gateway lock e oid ref amt res now (n + 1) (sg_payments s) g g1 r)
    as (c' & x' & (n' & p1 & row & e' & -> & Hout & Ha & (k' & u & _ & Ee) & Hb) & Hr); try done.
  { eapply payment_unused_later; [|exact Hu]. lia. }
  { intros u u' Hw Hw'. apply (Hfit u u); (eapply within_mono; [| |exact Hw]; lia). }
  assert (processed (sg_payments s) (event_id e) payment_group = false) as Hp.
  { rewrite Hev. by eapply unused_unprocessed. }
  destruct (deliver_run _ _ _ _ _ _ _ _ _ _ Hp Hr) as (d & Hd & Et).
  exists (d_committed d), e'. split_and!; [|rewrite Et|by rewrite Ee].
  2:{ destruct (marked_payment (event_id e) (event_type_str (em_event_type (env_metadata e)))
        (source_service_str (em_source_service (env_metadata e))) payment_group now p1) as [l ->].
      by eapply (booked_captured _ _ _ _ _ _ _ _ _ _ _ _ _ _ p1). }
  destruct s as [t c p nw log]. simpl in *.
  eapply (saga_payment gateway lock payment_group e (calm_db now n p (g, r)) d); [exact Hin|exact Hnow|exact Hd|].
  rewrite Et. by eapply announced_mark.
Qed.

(** The first two: the items are set aside, and the order knows. *)
Lemma items_set_aside past s e oid o items amount cur res now n g r :
  saga_run gateway past s → ready s e oid o items amount cur res now n g r →
  let j := (n + 1 + 2 * N.of_nat (length items))%N in
  let e1 := announcement (uuid_gen j) now InventoryReserved AggInventory oid Catalog None
    (reserved_payload oid (or_buyer_id o) (dec_to_string amount) cur items) in
  ∃ s1 t c, saga_run gateway (past ++ [(s, s1); (s1, Saga t c (sg_payments s) (sg_now s) (sg_log s ++ [e1]))])
      (Saga t c (sg_payments s) (sg_now s) (sg_log s ++ [e1])) ∧
    order_ready oid (set_status StInventoryReserved None now o) t ∧
    unused (j + 2) (outbox_ids t) ∧ marks_unused (j + 2) t ∧ dec_numeric amount = Some (or_total_amount o).
Proof.
  intros Hrun Hr. destruct (created_means _ _ _ _ _ _ _ _ _ _ _ _ _ Hrun Hr) as (v & (Hf & _ & Htot & _) & He & -> & -> & ->).
  destruct Hr as [Hord Hpend _ Hann Hcr Hname Hitems _ _ Hunh Hst _ _ _ _ _ (Hfc & Hfo & Hfmo & _) _ Hsm].
  intros j e1. destruct (catalog_delivers s e oid (or_buyer_id o) (dec_to_string (vr_total_amount v)) (currency_str (vr_currency v))
    (lines v) now n) as (c1 & S1); try done.
  1-3: unfold payload_uuid, payload_str; rewrite He; unfold order_created_payload; by json_simpl.
  { apply (Hsm (uuid_gen j) (uuid_gen j)); exists j; (split; [lia|done]). }
  fold j e1 in S1. set (s1 := Saga _ _ _ _ _) in S1.
  destruct (order_moves s1 e1 oid o now (j + 2) j) as (t2 & S2 & Hord2 & Hout2 & Hm2); try done.
  { simpl. apply elem_of_app. right. by left. }
  { by eapply reserved_names. }
  { lia. }
  { eapply unused_later; [|exact Hfmo]. lia. }
  exists s1, t2, c1. split_and!; [|done| |done|done].
  - pose proof (run_step _ _ _ _ (run_step _ _ _ _ Hrun S1) S2) as R. by rewrite <-app_assoc in R.
  - rewrite Hout2. eapply unused_later; [|exact Hfo]. lia.
Qed.

(** The next: the total is authorized. *)
Lemma total_authorized past s e oid o items amount cur res now n g g1 r :
  saga_run gateway past s → ready s e oid o items amount cur res now n g r →
  gw_authorize gateway (auth_key oid) oid amount cur g = (Ok res, g1) → dec_eqb (approved_amount res) amount = true →
  let m := (n + 2 * N.of_nat (length items) + 3)%N in
  ∃ steps t c p m' e1 e3, saga_run gateway (past ++ steps) (Saga t c p now (sg_log s ++ [e1; e3])) ∧
    length steps = 3%nat ∧ em_event_type (env_metadata e1) = InventoryReserved ∧
    order_ready oid (set_status StInventoryReserved None now o) t ∧ unused m (outbox_ids t) ∧ marks_unused m t ∧
    (m ≤ m' ≤ m + 14)%N ∧ payment_unused m' p ∧ marks_unused m' p ∧ capturable oid (gateway_reference res) p ∧
    payment_event now m m' oid PaymentAuthorized (λ id, authorized_payload oid id (gateway_reference res)) e3.
Proof.
  intros Hrun Hr Hga Happ m. destruct (items_set_aside _ _ _ _ _ _ _ _ _ _ _ _ _ Hrun Hr) as (s1 & t2 & c2 & R2 & Hord2 & Hout2 & Hm2 & Htot).
  set (j := (n + 1 + _)%N) in *. set (e1 := announcement (uuid_gen j) _ _ _ _ _ _ _) in *. set (s2 := Saga t2 c2 _ _ _) in R2.
  destruct Hr as [_ Hpend Hpos _ _ _ _ _ _ _ _ Hunp Hval _
    Hlock Htime (_ & _ & _ & Hfp & Hfmp) (Hw1 & Hw2 & Hw3 & Hw4) Hsm].
  set (L := (2 * N.of_nat (length items))%N) in *.
  assert (∀ k, (n ≤ k < n + L + 40)%N → within n (n + L + 40) (uuid_gen k)) as Hwin by (intros k Hk; by exists k).
  assert (payload_uuid e1 "order_id" = Ok oid) as Hid1 by by eapply reserved_names.
  (* the payment service *)
  pose proof (saga_run_ok gateway past s Hrun) as (Hok & _ & _ & Hpay).
  assert (transactions_of oid (sg_payments s) = []) as Ht0.
  { destruct (Hpay oid) as (st & amt & cur0 & Hph & _). pose proof (phase_state _ _ _ _ _ Hph) as E.
    rewrite Hunp in E. subst st. by inversion Hph. }
  destruct (payment_authorizes s2 e1 oid amount (or_total_amount o) cur res now
    (j + 2) j g g1 r) as (n3 & p3 & e3 & S3 & Hn3 & Hu3 & Hm3 & Hcap & (k3 & u3 & Hk3 & Ee3)); try done.
  { simpl. apply elem_of_app. right. by left. }
  { unfold requested_amount, e1. simpl. unfold reserved_payload. by json_simpl. }
  { unfold requested_currency, e1. simpl. unfold reserved_payload. by json_simpl. }
  { eapply payment_unused_later; [|exact Hfp]. lia. }
  { lia. }
  { eapply unused_later; [|exact Hfmp]. lia. }
  { intros u u' (k & Hk & ->) (k' & Hk' & ->). apply Hsm; apply Hwin; lia. }
  exists [(s, s1); (s1, s2); (s2, Saga t2 c2 p3 now (sg_log s ++ [e1; e3]))], t2, c2, p3, n3, e1, e3.
  pose proof (run_step _ _ _ _ R2 S3) as R3. simpl in R3. rewrite <-!app_assoc in R3. simpl in R3.
  assert (j + 2 = m)%N as Em by (unfold j, m; lia). rewrite <-Em.
  split_and!; try done; try lia. exists k3, u3. split; [lia|done].
Qed.

(** C4: An order can always be brought to its end. From every reachable state of the three services
    in which an order is pending and nothing of it was handled yet, with its items in stock, a
    gateway that approves, and room in the outboxes, five deliveries - OrderCreated to the catalog,
    InventoryReserved to the order and the payment service, PaymentAuthorized to the order service,
    OrderConfirmed to the payment service - confirm it and capture its payment, whatever else
    happened before. Each of these events is announced by the delivery before. *)
Theorem saga_completes past s e oid o items amount cur res now n g r :
  saga_run gateway past s → ready s e oid o items amount cur res now n g r →
  ∃ steps s' es, saga_run gateway (past ++ steps) s' ∧ length steps = 5%nat ∧
    or_status <$> find_order oid (sg_orders s') = Some StConfirmed ∧
    payment_state oid (sg_payments s') = PsCaptured ∧ sg_log s' = sg_log s ++ es ∧
    (λ e, em_event_type (env_metadata e)) <$> es =
      [InventoryReserved; PaymentAuthorized; OrderConfirmed; PaymentCaptured].
Proof.
  intros Hrun Hr. destruct (rd_approved _ _ _ _ _ _ _ _ _ _ _ _ Hr) as (g1 & res' & g2 & Hga & Happ & Hgc).
  destruct (total_authorized _ _ _ _ _ _ _ _ _ _ _ _ _ _ Hrun Hr Hga Happ) as (steps & t2 & c2 & p3 & n3 & e1 & e3 & R3 &
    Hlen & Hty1 & Hord2 & Hout2 & Hm2 & Hn3 & Hu3 & Hm3 & Hcap & (k3 & u3 & Hk3 & Ee3)).
  set (o2 := set_status StInventoryReserved None now o) in *. set (s3 := Saga t2 c2 p3 _ _) in R3.
  destruct Hr as [_ _ _ _ _ _ _ _ _ _ _ _ _ _ Hlock Htime _ (_ & _ & Hw3 & Hw4) Hsm].
  set (L := (2 * N.of_nat (length items))%N) in *.
  assert (∀ k, (n ≤ k < n + L + 40)%N → within n (n + L + 40) (uuid_gen k)) as Hwin by (intros k Hk; by exists k).
  assert (payload_uuid e3 "order_id" = Ok oid) as Hid3.
  { rewrite Ee3. unfold payload_uuid. simpl. unfold authorized_payload. by json_simpl. }
  destruct (order_confirms s3 e3 oid o2 now n3) as (t4 & S4 & Hconf); try done.
  { simpl. apply elem_of_app. right. by right; left. }
  { by rewrite Ee3. }
  { rewrite Ee3. eapply unused_unprocessed; [exact Hm2|]. lia. }
  { eapply unused_later; [|exact Hout2]. lia. }
  { rewrite Ee3. apply (Hsm _ _ (Hwin (n3 + 4)%N ltac:(lia)) (Hwin k3 ltac:(lia))). }
  set (e4 := announcement (uuid_gen (n3 + 4)) _ _ _ _ _ _ _) in S4. set (s4 := Saga _ _ _ _ _) in S4.
  pose proof (run_step _ _ _ _ R3 S4) as R4.
  destruct (payment_captures s4 e4 oid (gateway_reference res) res' (now + 1) (n3 + 5) (n3 + 4) g1 g2 r)
    as (p5 & e5 & S5 & Hcaptured & Hty5); try done.
  { simpl. apply elem_of_app. right. by left. }
  { unfold payload_uuid, e4. simpl. unfold confirmed_payload. by json_simpl. }
  { by apply saga_run_ok in R4 as (? & _). }
  { simpl. lia. }
  { eapply payment_unused_later; [|exact Hu3]. lia. }
  { lia. }
  { eapply unused_later; [|exact Hm3]. lia. }
  { intros u u' (k & Hk & ->) (k' & Hk' & ->). apply (Hsm _ (uuid_gen k)); apply Hwin; lia. }
  pose proof (run_step _ _ _ _ R4 S5) as R5. rewrite <-!app_assoc in R5. simpl in R5.
  eexists _, _, [e1; e3; e4; e5]. split_and!; [exact R5|by rewrite length_app, Hlen|exact Hconf|exact Hcaptured| |].
  - simpl. by rewrite <-!app_assoc.
  - cbn. by rewrite Hty1, Ee3, Hty5.
Qed.
End completes.
