(* ===== verification/OrderWitness.v ===== *)
(** * Order service: concrete runs

    The theorems of ConsumerProps and OrderProps applied to runs on the computable
    instance: an order is created, its saga events are consumed, it is cancelled. *)

From S2P Require Import Prelude RustStr Externals Sample Errors NewTypes Rules Auth Events Db.
From S2P Require Import Outbox Consumer ConsumerProps Redis Relay Kafka.
From S2P Require Import Labels ShopTables Inventory InventoryProps InventorySpec DistributedLock Gateway Ledger.
From S2P Require Import PaymentService PaymentBook PaymentSteps PaymentProps PaymentSpec.
From S2P Require Import Pagination OrderTypes OrderReq OrderRepo OrderService OrderLists OrderProps Saga SagaLive.

#[local] Existing Instance sample.
#[local] Existing Instance sample_order.

Definition uid (s : string) : Uuid := s.
Definition buyer : CurrentUser := {| cu_id := uid "buyer-1"; cu_role := Auth.Buyer |}.
Definition stranger : CurrentUser := {| cu_id := uid "buyer-2"; cu_role := Auth.Buyer |}.
Definition request : CreateOrderReq := {|
  cr_items := [{| ci_product_id := uid "p1"; ci_sku_id := uid "sku1"; ci_product_name := "Mug";
                  ci_sku_code := "MUG"; ci_quantity := 2; ci_seller_id := uid "seller";
                  ci_unit_price := dec_new 7 0 |}];
  cr_currency := Some " usd ";
  cr_shipping_address := {| sa_street := "Main St 1"; sa_city := "Seoul"; sa_state := "";
    sa_postal_code := "04524"; sa_country := "KR" |} |}.

Definition no_orders : order_tables := MkOrderTables [] [] [] [].
Definition order_world (fs : list fault) : db order_tables unit :=
  MkDb no_orders (MkEnv 1000 1 fs) tt.
Definition run1 := create_order buyer " key-1 " request (order_world []).
Definition s1 : db order_tables unit := run1.2.
Definition oid : Uuid := uid "id-2".

(** Events of the other services. *)
Definition event (id : string) (ty : EventType) (agg : AggregateType) (src : SourceService)
    : EventEnvelope :=
  EventEnvelope_new (EventMetadata_new (uid id) 2000 ty agg oid src)
    (jobj [("order_id", jstr (uuid_to_string oid))]).
Definition reserved_event := event "ev-1" InventoryReserved AggInventory Catalog.
Definition authorized_event := event "ev-2" PaymentAuthorized AggPayment Payment.
Definition message_of (off : Z) (e : EventEnvelope) : message := {|
  msg_topic := "catalog.events"; msg_partition := 0; msg_offset := off;
  msg_payload := PJson (envelope_to_value e) |}.

Definition cfg : ConsumerConfig := ConsumerConfig_new "order-consumer" ["catalog.events"].
Definition zero_metrics : ConsumerMetricsCollector :=
  Build_ConsumerMetricsCollector 0 0 0 0 0 0 0 0.
Definition consumer_world (fs : list fault) : cworld (T := order_tables) (X := unit) :=
  MkCworld (MkDb (d_committed s1) (MkEnv 3000 100 fs) tt) [] [] [] zero_metrics [].
Definition no_text (p : payload_bytes) : string := "not an event".

(** The commit of the first delivery succeeds but its answer is lost; the message is
    delivered again and skipped. *)
Definition lost_ack : list fault := [FNone; FNone; FNone; FNone; FNone; FAfter].
Definition deliveries_run := message_loop no_text order_handler cfg
  [message_of 7 reserved_event; message_of 7 reserved_event] (consumer_world lost_ack).

Lemma consumer_at_most_once_witness :
  or_status <$> ot_orders (d_committed (w_db deliveries_run.2)) = [StInventoryReserved] ∧
  events_db_error (w_metrics deliveries_run.2) = 1%Z ∧
  events_skipped (w_metrics deliveries_run.2) = 1%Z ∧
  ∃ es, deliveries order_handler eq "order-consumer" es (d_committed (w_db (consumer_world lost_ack)))
    (d_committed (w_db deliveries_run.2)).
Proof.
  split; [vm_compute; reflexivity|]. split; [vm_compute; reflexivity|].
  split; [vm_compute; reflexivity|].
  destruct (consumer_at_most_once no_text order_handler eq cfg
    [message_of 7 reserved_event; message_of 7 reserved_event] (consumer_world lost_ack)
    deliveries_run.1 deliveries_run.2 (surjective_pairing _)) as (es & Hes & _).
  exists es. exact Hes.
Defined.

Definition one_run := process_message no_text order_handler cfg (message_of 7 reserved_event)
  (consumer_world []).

Definition one_message : message := message_of 7 reserved_event.

Lemma offset_committed_accounted_witness :
  length (w_offsets one_run.2) = 1 ∧
  (w_offsets one_run.2 = w_offsets (consumer_world []) ∨
   w_offsets one_run.2 = w_offsets (consumer_world []) ++
     [(msg_topic one_message, msg_partition one_message, msg_offset one_message)] ∧
   ((∃ e, from_slice (msg_payload one_message) = Some e ∧
      processed (d_committed (w_db one_run.2)) (event_id e) (group_id cfg) = true) ∨
    sent_new (dlq_of cfg (msg_topic one_message) (msg_payload one_message))
      (consumer_world []) one_run.2)).
Proof.
  assert (process_message no_text order_handler cfg one_message (consumer_world [])
    = (Ok tt, one_run.2)) as Hrun by (apply run_ok_unit; vm_compute; reflexivity).
  split; [vm_compute; reflexivity|].
  exact (offset_committed_accounted no_text order_handler eq cfg one_message _ _ _ Hrun).
Defined.

Lemma message_counted_once_witness :
  events_processed (w_metrics one_run.2) = 1%Z ∧
  eq64 (total_events (w_metrics one_run.2)) (total_events (w_metrics (consumer_world [])) + 1).
Proof.
  assert (process_message no_text order_handler cfg one_message (consumer_world [])
    = (Ok tt, one_run.2)) as Hrun by (apply run_ok_unit; vm_compute; reflexivity).
  split; [vm_compute; reflexivity|].
  exact (proj1 (message_counted_once no_text order_handler cfg one_message _ _ _ Hrun)).
Defined.

Definition handled := order_handler reserved_event
  (MkSession (MkConn (d_committed s1) TxActive (bump (MkEnv 3000 100 []))) (d_committed s1) tt).

Lemma message_processed_witness :
  ∃ w', process_message no_text order_handler cfg one_message (consumer_world []) = (Ok tt, w') ∧
    w_offsets w' = w_offsets (consumer_world []) ++
      [(msg_topic one_message, msg_partition one_message, msg_offset one_message)].
Proof.
  assert (order_handler reserved_event
    (MkSession (MkConn (d_committed (w_db (consumer_world []))) TxActive
       (bump (d_env (w_db (consumer_world []))))) (d_committed (w_db (consumer_world [])))
       (d_ext (w_db (consumer_world [])))) = (Ok tt, handled.2)) as Hh
    by (apply run_ok_unit; vm_compute; reflexivity).
  destruct (message_processed no_text order_handler cfg one_message reserved_event
    (consumer_world []) handled.2) as (w' & Hr & _ & Ho & _).
  - apply envelope_roundtrip_eq.
  - vm_compute. reflexivity.
  - vm_compute. reflexivity.
  - exact Hh.
  - vm_compute. reflexivity.
  - vm_compute. reflexivity.
  - exists w'. exact (conj Hr Ho).
Defined.

(** ** The order service *)

Definition order0 : OrderEntity := new_order (uid "") {|
  vr_idempotency_key := MkKey ""; vr_currency := Currency_default;
  vr_shipping_address := cr_shipping_address request; vr_items := [];
  vr_total_amount := dec_zero |} 0 (uid "") dec_zero.
Definition the_order (s : db order_tables unit) : OrderEntity :=
  default order0 (find_order oid (d_committed s)).

(** Created, reserved, authorized (and thereby confirmed), cancelled; a late
    InventoryReserved is then refused. *)
Definition life : list order_op :=
  [OpEvent "order-consumer" reserved_event; OpEvent "order-consumer" authorized_event;
   OpCancel buyer oid (Some "changed my mind");
   OpEvent "order-consumer" (event "ev-3" InventoryReserved AggInventory Catalog)].
Definition lived : db order_tables unit := run_ops life s1.

Lemma order_lifecycle_witness :
  or_status (the_order s1) = StPending ∧ or_status (the_order lived) = StCancelled ∧
  oe_event_type <$> ot_outbox (d_committed lived)
    = ["OrderCreated"; "OrderConfirmed"; "OrderCancelled"] ∧
  ∃ o', find_order oid (d_committed (run_ops life s1)) = Some o' ∧
    reaches (or_status (the_order s1)) (or_status o').
Proof.
  assert (find_order oid (d_committed s1) = Some (the_order s1)) as Hf
    by (apply some_default; vm_compute; reflexivity).
  split; [vm_compute; reflexivity|]. split; [vm_compute; reflexivity|].
  split; [vm_compute; reflexivity|].
  destruct (proj1 (order_lifecycle life s1 oid) _ Hf) as (o' & Ho' & _ & Hr & _).
  exists o'. exact (conj Ho' Hr).
Defined.

Lemma integrity_empty fs : integrity (d_committed (order_world fs)).
Proof. split_and!; [constructor..|]. intros i Hi. by apply elem_of_nil in Hi. Qed.

Definition whole_life : list order_op :=
  OpCreate buyer " key-1 " request :: OpCreate stranger "key-2" request ::
  OpCreate buyer "key-1" request :: life.
Lemma order_integrity_witness :
  or_idempotency_key <$> ot_orders (d_committed (run_ops whole_life (order_world [])))
    = ["key-1"; "key-2"] ∧
  integrity (d_committed (run_ops whole_life (order_world []))).
Proof.
  split; [vm_compute; reflexivity|].
  exact (order_integrity whole_life (order_world []) (integrity_empty [])).
Defined.

(** The commit happens, its answer is lost: the caller sees an error, the order exists. *)
Definition lossy_run := create_order buyer "key-1" request
  (order_world [FNone; FNone; FNone; FNone; FNone; FAfter]).
Lemma create_order_atomic_witness :
  is_ok lossy_run.1 = false ∧ length (ot_orders (d_committed lossy_run.2)) = 1 ∧
  (d_committed lossy_run.2 = d_committed (order_world [FNone; FNone; FNone; FNone; FNone; FAfter]) ∨
   ∃ v id, ValidCreateOrderReq_new "key-1" request = Ok v ∧ creation_passes v = true ∧
     created (cu_id buyer) v id
       (d_committed (order_world [FNone; FNone; FNone; FNone; FNone; FAfter]))
       (d_committed lossy_run.2)).
Proof.
  split; [vm_compute; reflexivity|]. split; [vm_compute; reflexivity|].
  exact (proj1 (create_order_atomic buyer "key-1" request
    (order_world [FNone; FNone; FNone; FNone; FNone; FAfter]) lossy_run.1 lossy_run.2
    (surjective_pairing _))).
Defined.

Definition valid0 : ValidCreateOrderReq := {|
  vr_idempotency_key := MkKey ""; vr_currency := Currency_default;
  vr_shipping_address := cr_shipping_address request; vr_items := [];
  vr_total_amount := dec_zero |}.
Definition valid : ValidCreateOrderReq :=
  match ValidCreateOrderReq_new "key-1" request with Ok v => v | _ => valid0 end.
Lemma valid_eq : ValidCreateOrderReq_new "key-1" request = Ok valid.
Proof. apply ok_default. vm_compute. reflexivity. Qed.

Lemma create_order_replay_witness :
  ∃ s', create_order buyer "key-1" request s1 = (Ok (OrderRes_new (the_order s1)), s') ∧
    d_committed s' = d_committed s1.
Proof.
  apply (create_order_replay buyer "key-1" request s1 valid (the_order s1) valid_eq).
  - vm_compute. reflexivity.
  - apply some_default. vm_compute. reflexivity.
  - vm_compute. reflexivity.
Defined.

Lemma order_total_exact_witness :
  dec_units (vr_total_amount valid) = zsum (line_total <$> cr_items request).
Proof.
  apply (order_total_exact "key-1" request valid valid_eq).
  - repeat constructor. exists 70000%Z. vm_compute. reflexivity.
  - apply Z.leb_le. vm_compute. reflexivity.
Defined.

Definition cancel_run := cancel_order buyer oid None s1.
Lemma cancel_order_effects_witness :
  is_ok cancel_run.1 = true ∧ or_status (the_order cancel_run.2) = StCancelled ∧
  (d_committed cancel_run.2 = d_committed s1 ∧ is_ok cancel_run.1 = false ∨
   ∃ ev, ot_outbox (d_committed cancel_run.2) = ot_outbox (d_committed s1) ++ [ev]).
Proof.
  split; [vm_compute; reflexivity|]. split; [vm_compute; reflexivity|].
  destruct (cancel_order_effects buyer oid None s1 cancel_run.1 cancel_run.2
    (surjective_pairing _)) as [Hn|(od & now & ev & _ & _ & _ & _ & _ & Ho & _)].
  - left. exact Hn.
  - right. exists ev. exact Ho.
Defined.

Lemma cancel_order_denied_witness :
  can_access stranger (or_buyer_id (the_order s1)) = false ∧
  (let '(o, s') := cancel_order stranger oid None s1 in
   (∃ m, o = Err (Forbidden m)) ∧ d_committed s' = d_committed s1).
Proof.
  split; [vm_compute; reflexivity|].
  pose proof (cancel_order_denied stranger oid None s1 eq_refl) as Hd.
  assert (find_order oid (d_committed s1) = Some (the_order s1)) as Hf
    by (apply some_default; vm_compute; reflexivity).
  cbv zeta in Hd. rewrite Hf in Hd.
  assert (can_access stranger (or_buyer_id (the_order s1)) = false) as Ha
    by (vm_compute; reflexivity).
  rewrite Ha in Hd. exact Hd.
Defined.

Definition healthy (s : db order_tables unit) : conn order_tables :=
  MkConn (d_committed s) TxActive (d_env s).
Definition s2 : db order_tables unit := run_op (OpEvent "order-consumer" reserved_event) s1.
Definition confirm_run := order_event_handler authorized_event (healthy s2).
Lemma saga_events_handled_witness :
  or_status <$> find_order oid (c_tables (healthy s2)) = Some StInventoryReserved ∧
  ∃ id, payload_uuid authorized_event "order_id" = Ok id ∧
    or_status <$> find_order id (c_tables confirm_run.2) = Some StConfirmed.
Proof.
  split; [vm_compute; reflexivity|].
  assert (order_event_handler authorized_event (healthy s2) = (Ok tt, confirm_run.2)) as Hr
    by (apply run_ok_unit; vm_compute; reflexivity).
  destruct (saga_events_handled _ _ _ _ Hr) as (id & o & Hid & _ & _ & Hst & _).
  exists id. exact (conj Hid Hst).
Defined.

Lemma saga_event_rejected_witness :
  ∃ c', order_event_handler reserved_event (healthy lived) =
    (Err (BadRequest (transition_msg (or_status (the_order lived)) StInventoryReserved)), c') ∧
    c_tables c' = c_tables (healthy lived).
Proof.
  apply (saga_event_rejected reserved_event (healthy lived) oid (the_order lived)
    StInventoryReserved).
  - reflexivity.
  - vm_compute. reflexivity.
  - reflexivity.
  - reflexivity.
  - apply some_default. vm_compute. reflexivity.
  - vm_compute. reflexivity.
Defined.

(** Two requests read the pending order; both cancel it, and it is announced twice. *)
Definition second_cancel := cancel_order_write buyer oid None (the_order s1) cancel_run.2.
Lemma stale_cancel_overwrites_witness :
  or_status (the_order cancel_run.2) = StCancelled ∧
  oe_event_type <$> ot_outbox (d_committed second_cancel.2)
    = ["OrderCreated"; "OrderCancelled"; "OrderCancelled"] ∧
  can_cancel (or_status (the_order s1)) = true.
Proof.
  split; [vm_compute; reflexivity|]. split; [vm_compute; reflexivity|].
  assert (cancel_order_write buyer oid None (the_order s1) cancel_run.2 = (Ok tt, second_cancel.2))
    as Hr by (apply run_ok_unit; vm_compute; reflexivity).
  exact (proj1 (stale_cancel_overwrites _ _ _ _ _ _ _ Hr)).
Defined.

(** Two orders of one buyer, listed one by one: the first page works, its cursor does not. *)
Definition two_orders := (create_order buyer "key-2" request s1).2.
Definition all_statuses : OrderFilter := {| of_status := None |}.
Definition first_list := list_my_orders (cu_id buyer) (forward_from None 1) all_statuses two_orders.
Definition listed_cursor : Uuid :=
  match first_list.1 with
  | Ok r => default (uid "") (pr_next_cursor r)
  | _ => uid ""
  end.
Definition second_list :=
  list_my_orders (cu_id buyer) (forward_from (Some listed_cursor) 1) all_statuses two_orders.

Lemma two_orders_ids : NoDup (or_id <$> ot_orders (d_committed two_orders)).
Proof. apply (bool_decide_unpack _). vm_compute. exact I. Qed.

Lemma order_lists_answer_witness :
  first_list.1 = Ok (reference_page 1 (λ o, length (items_of (d_committed two_orders) o))
    (orders_of_buyer (cu_id buyer) all_statuses (d_committed two_orders))) ∧
  bool_decide (listed_cursor = uid "id-2") = true ∧ is_ok second_list.1 = false.
Proof.
  assert (e_faults (d_env two_orders) = []) as Hf by (vm_compute; reflexivity).
  destruct (order_lists_answer (cu_id buyer) 1 all_statuses two_orders first_list.1 first_list.2
    (forward_from None 1) two_orders_ids) as [H1 _].
  destruct (order_lists_answer (cu_id buyer) 1 all_statuses two_orders second_list.1 second_list.2
    (forward_from (Some listed_cursor) 1) two_orders_ids) as [H2 _].
  split; [|split].
  - destruct (H1 (surjective_pairing _)) as (_ & _ & H). by apply (H Hf).
  - vm_compute. reflexivity.
  - destruct (H2 (surjective_pairing _)) as (_ & H & _). by apply H.
Defined.

(** ** The broker *)

(** A broker that keeps a log, with two partitions per topic. *)
Definition log_send (r : kafka_record) : M (list kafka_record) string unit := λ log, (Ok tt, log ++ [r]).
Definition parity (topic key : string) : Z := (Z.of_nat (String.length key) mod 2)%Z.
Definition same_partition (r r' : kafka_record) : bool :=
  bool_decide (kr_topic r' = kr_topic r) && (parity (kr_topic r') (kr_key r') =? parity (kr_topic r) (kr_key r))%Z.
Definition stored (before : list kafka_record) (r : kafka_record) : message := {|
  msg_topic := kr_topic r; msg_partition := parity (kr_topic r) (kr_key r);
  msg_offset := Z.of_nat (length (List.filter (same_partition r) before)); msg_payload := kr_payload r |}.
Fixpoint messages_from (before log : list kafka_record) : list message :=
  match log with
  | [] => []
  | r :: log => stored before r :: messages_from (before ++ [r]) log
  end.
Lemma messages_from_lookup log : ∀ before n, messages_from before log !! n = stored (before ++ take n log) <$> log !! n.
Proof.
  induction log as [|x log IH]; intros before [|n]; [done|done| |].
  - simpl. by rewrite app_nil_r.
  - simpl. by rewrite IH, <-app_assoc.
Qed.
Lemma stored_increases log n n' r r' :
  (n < n')%nat → log !! n = Some r → log !! n' = Some r' → same_partition r' r = true →
  (msg_offset (stored (take n log) r) < msg_offset (stored (take n' log) r'))%Z.
Proof.
  intros Hn Hr Hr' Hs. simpl.
  assert (∀ x, same_partition r x = same_partition r' x) as Hx.
  { intros x. unfold same_partition in *. apply andb_true_iff in Hs as [Ht%bool_decide_eq_true Hk%Z.eqb_eq].
    by rewrite Ht, <-Hk, Ht. }
  rewrite (filter_ext _ _ Hx), <-(take_drop n (take n' log)), take_take, Nat.min_l by lia.
  rewrite List.filter_app, length_app.
  assert (r ∈ List.filter (same_partition r') (drop n (take n' log))) as Hin.
  { apply list_elem_of_In, filter_In. split; [|done].
    apply list_elem_of_In, (list_elem_of_lookup_2 _ 0%nat). rewrite lookup_drop, Nat.add_0_r, lookup_take_lt by lia. done. }
  destruct (List.filter _ (drop n (take n' log))); [by apply elem_of_nil in Hin|]. simpl. lia.
Qed.
#[local] Program Instance log_broker : BrokerApi := {|
  partition_of := parity; messages := messages_from [];
  position offsets topic partition :=
    foldl (λ p o, if bool_decide (o.1 = (topic, partition)) then o.2 + 1 else p)%Z 0%Z offsets |}.
Next Obligation.
  intros log n r Hr. exists (msg_offset (stored (take n log) r)). by rewrite messages_from_lookup, Hr.
Qed.
Next Obligation.
  intros log n n' m m' Hn. rewrite !messages_from_lookup. intros (r & Hr & ->)%fmap_Some (r' & Hr' & ->)%fmap_Some Ht Hp.
  apply stored_increases; [done..|]. simpl in *. unfold same_partition.
  by rewrite bool_decide_true, Hp, Z.eqb_refl by done.
Qed.
Next Obligation. intros offsets topic partition offset. simpl. rewrite foldl_app. simpl. by rewrite bool_decide_true. Qed.
#[local] Instance journey_scan : ScanOrder OutboxEvent := table_order OutboxEvent.
#[local] Instance journey_redis : RedisApi := sample_redis (λ _ _ _ m, (0%Z, m)).

Definition published_log : list kafka_record :=
  [record_of "catalog.events" reserved_event; record_of "payments.events" authorized_event;
   record_of "catalog.events" authorized_event].
Lemma event_travels_witness :
  (msg_offset <$> messages published_log) = [0; 0; 1]%Z ∧
  ∃ m m', messages published_log !! 0%nat = Some m ∧ messages published_log !! 2%nat = Some m' ∧
    msg_partition m' = msg_partition m ∧ (msg_offset m < msg_offset m')%Z.
Proof.
  split; [vm_compute; reflexivity|].
  destruct (event_travels (T := order_tables) log_send (λ _, "") "catalog.events" reserved_event
    (MkDb no_orders (MkEnv 0 0 []) ([], (MkStore ∅ ∅ : redis (RedisApi := journey_redis))))) as (_ & _ & Ho).
  exact (Ho published_log 0%nat 2%nat _ _ authorized_event (Nat.lt_0_succ 1) eq_refl eq_refl
    (record_carries _ _) (record_carries _ _) eq_refl).
Defined.

Definition ignore_all : handler (T := order_tables) (X := unit) := λ _, mret tt.
Definition second_event := event "ev-9" InventoryReserved AggInventory Catalog.
Lemma uncommitted_message_passed_over_witness :
  ∃ w', message_loop no_text ignore_all cfg [message_of 7 reserved_event; message_of 8 second_event]
      (consumer_world [FBefore]) = (Ok tt, w') ∧
    processed (d_committed (w_db w')) (event_id reserved_event) (group_id cfg) = false ∧
    (∀ ms, message_of 7 reserved_event ∉ resumed (w_offsets w') ms).
Proof.
  destruct (uncommitted_message_passed_over no_text ignore_all cfg (message_of 7 reserved_event)
    (message_of 8 second_event) reserved_event second_event (consumer_world [FBefore]))
    as (w' & Hr & Hp & _ & Hl & _).
  - apply envelope_roundtrip_eq.
  - apply envelope_roundtrip_eq.
  - reflexivity.
  - reflexivity.
  - apply (proj1 (Z.ltb_lt 7 8)). reflexivity.
  - apply (bool_decide_unpack _). vm_compute. exact I.
  - reflexivity.
  - vm_compute. reflexivity.
  - vm_compute. reflexivity.
  - intros env Hf. eexists. split; [reflexivity|]. split; [reflexivity|]. split; [exact Hf|].
    vm_compute. reflexivity.
  - exists w'. split; [exact Hr|]. split; [exact Hp|exact Hl].
Defined.

(** ** An order through the three services *)

Section sold.
#[local] Instance sold_redis : RedisApi := sample_redis run_release.
Definition bank : PaymentGateway N := mock_gateway always_succeeds.

Definition mugs : catalog_tables := MkCatalogTables
  [MkSku (uid "sku1") 900 None None (uid "p1") "MUG" (dec_new 700 2) 10 0 (jobj []) SkActive]
  [] [] [] (MkShopTables [] [] [] [] []).
Definition opening : saga := Saga no_orders mugs (MkPaymentTables [] [] [] [] []) 0 [].

(** Relays publish what the outboxes hold, and old rows are deleted. *)
Definition events_of (rows : list OutboxEvent) : list EventEnvelope :=
  omap (λ r, envelope_of_value (oe_payload r)) rows.
Definition cleaned (s : saga) : saga := Saga
  (set_outbox_events [] (set_processed_events (ot_processed (sg_orders s)) (sg_orders s)))
  (set_outbox_events [] (sg_catalog s))
  (set_outbox_events [] (set_processed_events (pt_processed (sg_payments s)) (sg_payments s)))
  (sg_now s) (sg_log s).

Lemma announced_all {T} `{!OutboxTables T} (t t' : T) log :
  outbox_events t = [] →
  forallb (λ r, is_some (envelope_of_value (oe_payload r))) (outbox_events t') = true →
  announced t t' log (log ++ events_of (outbox_events t')).
Proof.
  intros E Hr. exists (outbox_events t'), (events_of (outbox_events t')). rewrite E. split_and!; [done| |done].
  induction (outbox_events t') as [|r l IH]; [constructor|]. apply andb_prop in Hr as [Hr Hl].
  destruct (envelope_of_value (oe_payload r)) as [v|] eqn:Ev; [|done].
  assert (events_of (r :: l) = v :: events_of l) as -> by (unfold events_of; simpl; by rewrite Ev).
  constructor; [exact Ev|by apply IH].
Qed.

(** A delivery of the [k]th event of the log to one of the services. *)
Inductive service := ToOrder | ToCatalog | ToPayment.
Definition order_after (s : saga) (n : N) e := (attempt order_handler "order" e (MkDb (sg_orders s) (MkEnv 2000 n []) tt)).2.
Definition catalog_after (s : saga) (n : N) e :=
  (attempt catalog_handler "catalog" e (MkDb (sg_catalog s) (MkEnv 2000 n []) tt)).2.
Definition payment_world (p : payment_tables) (now : Z) (n : N) : db payment_tables (N * redis) :=
  MkDb p (MkEnv now n []) (0%N, MkStore ∅ ∅).
Definition payment_after (s : saga) (n : N) e :=
  (attempt (payment_handler bank true) "payment" e (payment_world (sg_payments s) (sg_now s + 1) n)).2.
Definition hop (to : service) (n : N) (k : nat) (s : saga) : saga :=
  match sg_log s !! k with
  | None => s
  | Some e =>
      cleaned match to with
      | ToOrder =>
          let t := d_committed (order_after s n e) in
          Saga t (sg_catalog s) (sg_payments s) (sg_now s) (sg_log s ++ events_of (outbox_events t))
      | ToCatalog =>
          let c := d_committed (catalog_after s n e) in
          Saga (sg_orders s) c (sg_payments s) (sg_now s) (sg_log s ++ events_of (outbox_events c))
      | ToPayment =>
          let p := d_committed (payment_after s n e) in
          Saga (sg_orders s) (sg_catalog s) p (sg_now s + 1) (sg_log s ++ events_of (outbox_events p))
      end
  end.
Definition hop_ready (to : service) (n : N) (k : nat) (s : saga) : bool :=
  let readable (l : list OutboxEvent) := forallb (λ r, is_some (envelope_of_value (oe_payload r))) l in
  match sg_log s !! k with
  | None => false
  | Some e =>
      match to with
      | ToOrder => readable (outbox_events (d_committed (order_after s n e)))
      | ToCatalog => bool_decide (NoDup (sku_id <$> ct_skus (sg_catalog s))) &&
          readable (outbox_events (d_committed (catalog_after s n e)))
      | ToPayment => readable (outbox_events (d_committed (payment_after s n e)))
      end
  end.
Definition published (s : saga) : Prop :=
  outbox_events (sg_orders s) = [] ∧ outbox_events (sg_catalog s) = [] ∧ outbox_events (sg_payments s) = [].

Definition goes (s : saga) : Prop := (∃ past, saga_run bank past s) ∧ published s.
Lemma goes_cleaned past s : saga_run bank past s → goes (cleaned s).
Proof.
  intros Hr. split; [|done]. destruct s as [t c p now log]. eexists.
  eapply run_step; [eapply run_step; [exact Hr|]|].
  - apply (saga_shop _ _ _ (set_outbox_events [] c)).
  - apply saga_maintenance.
Qed.

Lemma hop_goes to n k s : goes s → hop_ready to n k s = true → goes (hop to n k s).
Proof.
  intros [(past & Hr) (Eo & Ec & Ep)] Hk. unfold hop, hop_ready in *.
  destruct (sg_log s !! k) as [e|] eqn:Ek; [|done]. apply list_elem_of_lookup_2 in Ek.
  destruct s as [t c p now log]. simpl in Eo, Ec, Ep, Ek. cbn [sg_orders sg_catalog sg_payments sg_now sg_log] in *. eapply goes_cleaned, run_step; [exact Hr|].
  destruct to.
  - eapply (saga_order bank "order" e (MkDb t (MkEnv 2000 n []) tt)); [exact Ek|apply surjective_pairing|].
    by apply announced_all.
  - apply andb_prop in Hk as [Hn%bool_decide_eq_true_1 Hk].
    eapply (saga_catalog bank "catalog" e (MkDb c (MkEnv 2000 n []) tt)); [exact Ek|exact Hn|apply surjective_pairing|].
    by apply announced_all.
  - eapply (saga_payment bank true "payment" e (payment_world p (now + 1) n));
      [exact Ek|simpl; lia|apply surjective_pairing|]. by apply announced_all.
Qed.

(** Created, reserved, authorized, confirmed, captured; every event comes twice. *)
Definition ordered : saga :=
  let t := d_committed s1 in
  cleaned (Saga t mugs (sg_payments opening) 0 (events_of (outbox_events t))).
Definition route : list (service * N * nat) :=
  [(ToCatalog, 200, 0%nat); (ToCatalog, 250, 0%nat); (ToOrder, 300, 1%nat); (ToPayment, 400, 1%nat);
   (ToPayment, 450, 1%nat); (ToOrder, 500, 2%nat); (ToPayment, 600, 3%nat); (ToPayment, 650, 3%nat)]%N.
Fixpoint along (l : list (service * N * nat)) (s : saga) : saga :=
  match l with [] => s | (to, n, k) :: l => along l (hop to n k s) end.
Fixpoint along_ready (l : list (service * N * nat)) (s : saga) : bool :=
  match l with [] => true | (to, n, k) :: l => hop_ready to n k s && along_ready l (hop to n k s) end.
Definition sold_out : saga := along route ordered.

Lemma along_goes l : ∀ s, goes s → along_ready l s = true → goes (along l s).
Proof.
  induction l as [|[[to n] k] l IH]; intros s Hs Hl; [exact Hs|].
  apply andb_prop in Hl as [Hh Hl]. by apply IH, Hl; apply hop_goes.
Qed.
Lemma ordered_goes : goes ordered.
Proof.
  eapply goes_cleaned, run_step; [by apply (run_start bank no_orders mugs (sg_payments opening) 0)|].
  apply (saga_create bank buyer " key-1 " request (order_world []) s1 run1.1);
    [exact (surjective_pairing run1)|].
  refine (announced_all no_orders (d_committed s1) [] eq_refl _). vm_compute. reflexivity.
Qed.

Lemma saga_safe_witness :
  or_status <$> find_order oid (sg_orders sold_out) = Some StConfirmed ∧
  payment_state oid (sg_payments sold_out) = PsCaptured ∧
  ((λ e, event_type_str (em_event_type (env_metadata e))) <$> sg_log sold_out =
    ["OrderCreated"; "InventoryReserved"; "PaymentAuthorized"; "OrderConfirmed"; "PaymentCaptured"]) ∧
  ∃ past o, saga_run bank past sold_out ∧ find_order oid (sg_orders sold_out) = Some o ∧
    paid (sg_payments sold_out) oid o.
Proof.
  assert (or_status <$> find_order oid (sg_orders sold_out) = Some StConfirmed) as Hs by (vm_compute; reflexivity).
  split; [exact Hs|]. split; [vm_compute; reflexivity|]. split; [vm_compute; reflexivity|].
  destruct (along_goes route ordered ordered_goes ltac:(vm_compute; reflexivity)) as [(past & Hr) _].
  destruct (find_order oid (sg_orders sold_out)) as [o|] eqn:Ef; [|discriminate]. injection Hs as Hs.
  exists past, o. split; [exact Hr|]. split; [reflexivity|].
  apply (proj1 (proj2 (saga_safe bank past sold_out Hr)) oid o Ef); rewrite Hs; discriminate.
Defined.

(** The same order, from the state in which nothing of it was handled yet. *)
Definition created_event : EventEnvelope := default reserved_event (head (sg_log ordered)).
Definition pending_order : OrderEntity := default order0 (find_order oid (sg_orders ordered)).
Definition mug_total : Decimal := default dec_zero (requested_amount created_event).
Definition two_mugs : list ReservationItem := [(uid "sku1", 2%Z)].
Definition approval : GatewayAuthResult := {|
  gateway_reference := "mock-auth-" +:+ uuid_to_string (uuid_gen 0); approved_amount := mug_total; auth_status := GwSuccess |}.

Lemma unused_nil n : unused n [].
Proof. intros k _. apply not_elem_of_nil. Qed.

(** The length of an event, in that of its identifiers. *)
Lemma length_append (a b : string) : String.length (a +:+ b) = String.length a + String.length b.
Proof. induction a as [|c a IH]; [done|]. simpl. by rewrite IH. Qed.
Lemma short_ids u : within 100 142 u → str_len u <= 10.
Proof.
  intros (k & Hk & ->). assert (forallb (λ i, str_len (uuid_gen (100 + N.of_nat i)) <=? 10) (seq 0 42) = true) as Hs
    by (vm_compute; reflexivity).
  rewrite forallb_forall in Hs. specialize (Hs (N.to_nat (k - 100))).
  rewrite N2Nat.id, N.add_comm, N.sub_add in Hs by lia. apply Nat.leb_le, Hs, in_seq. lia.
Qed.

Lemma small_events u u' buyer ref sum o :
  str_len u <= 10 → str_len u' <= 10 → str_len buyer <= 100 → str_len ref <= 100 → str_len sum <= 100 →
  or_buyer_id o = buyer →
  small (announcement u 10 InventoryReserved AggInventory oid Catalog None (reserved_payload oid buyer sum "USD" two_mugs)) ∧
  small (announcement u 10 PaymentAuthorized AggPayment oid Payment None (authorized_payload oid u' ref)) ∧
  small (announcement u 10 OrderConfirmed AggOrder oid Order (Some u') (confirmed_payload oid o)) ∧
  small (announcement u 11 PaymentCaptured AggPayment oid Payment None (order_payload oid)).
Proof.
  intros Hu Hu' Hb Hr Hs Ho. unfold confirmed_payload. rewrite Ho. unfold small, str_len in *.
  split_and!; cbn; rewrite !length_append; cbn; unfold MAX_PAYLOAD_BYTES; lia.
Qed.

Lemma ordered_ready : ready bank true "catalog" ordered created_event oid pending_order two_mugs mug_total "USD" approval
  10 100 0%N (MkStore ∅ ∅).
Proof.
  assert (ct_outbox (sg_catalog ordered) = [] ∧ ot_outbox (sg_orders ordered) = [] ∧ ot_processed (sg_orders ordered) = [])
    as (E1 & E2 & E3) by (split_and!; apply length_zero_iff_nil; vm_compute; reflexivity).
  split.
  - split; [apply some_default; vm_compute; reflexivity|]. apply (bool_decide_unpack _). vm_compute. exact I.
  - vm_compute. reflexivity.
  - apply Z.ltb_lt. vm_compute. reflexivity.
  - apply (list_elem_of_lookup_2 _ 0%nat). change (sg_log ordered !! 0%nat) with (head (sg_log ordered)).
    apply some_default. vm_compute. reflexivity.
  - vm_compute. reflexivity.
  - vm_compute. reflexivity.
  - vm_compute. reflexivity.
  - apply some_default. vm_compute. reflexivity.
  - vm_compute. reflexivity.
  - vm_compute. reflexivity.
  - split_and!.
    + apply (bool_decide_unpack _). vm_compute. exact I.
    + repeat constructor; apply Z.leb_le || apply Z.ltb_lt; vm_compute; reflexivity.
    + apply (bool_decide_unpack _). vm_compute. exact I.
    + intros i ->%list_elem_of_singleton. split_and!; [reflexivity| |apply not_elem_of_nil].
      eexists. split; [by left|]. split; [vm_compute; reflexivity|]. apply Z.leb_le. vm_compute. reflexivity.
  - vm_compute. reflexivity.
  - vm_compute. reflexivity.
  - exists 1%N, {| capture_status := GwSuccess |}, 1%N. split_and!; [reflexivity|vm_compute; reflexivity|reflexivity].
  - intros _ token secs. set (key := "payment:" +:+ uuid_to_string oid).
    destruct (run_release RELEASE_SCRIPT key token (<[key := token]> ∅)) as [z m] eqn:Em.
    exists "OK", (MkStore (<[key := token]> ∅) ∅), z, (MkStore m ∅). split; [reflexivity|].
    change (@redis_script sold_redis RELEASE_SCRIPT key token (MkStore (<[key := token]> ∅) ∅)) with
      (let '(z, s) := run_release RELEASE_SCRIPT key token (<[key := token]> ∅) in
       (Ok (E := string) z, MkStore s ∅)). by rewrite Em.
  - apply Z.ltb_lt. vm_compute. reflexivity.
  - unfold catalog_ids, outbox_ids, marks_unused, payment_unused.
    change (outbox_events (sg_catalog ordered)) with (ct_outbox (sg_catalog ordered)).
    change (outbox_events (sg_orders ordered)) with (ot_outbox (sg_orders ordered)).
    change (processed_events (sg_orders ordered)) with (ot_processed (sg_orders ordered)).
    rewrite E1, E2, E3. split_and!; apply unused_nil.
  - split_and!; apply Nat.leb_le; vm_compute; reflexivity.
  - intros u u' Hu%short_ids Hu'%short_ids.
    apply (small_events u u' _ _ _ pending_order); [exact Hu|exact Hu'| | | |reflexivity];
      apply Nat.leb_le; vm_compute; reflexivity.
Qed.

Lemma saga_completes_witness :
  or_status <$> find_order oid (sg_orders ordered) = Some StPending ∧
  ∃ past steps s', saga_run bank (past ++ steps) s' ∧ length steps = 5 ∧
    or_status <$> find_order oid (sg_orders s') = Some StConfirmed ∧
    payment_state oid (sg_payments s') = PsCaptured.
Proof.
  split; [vm_compute; reflexivity|]. destruct ordered_goes as [(past & Hr) _].
  destruct (saga_completes bank true "catalog" "order" "payment" past ordered created_event oid pending_order two_mugs
    mug_total "USD" approval 10 100 0%N _ Hr ordered_ready) as (steps & s' & es & H1 & H2 & H3 & H4 & _).
  exists past, steps, s'. exact (conj H1 (conj H2 (conj H3 H4))).
Defined.
End sold.
