(* ===== verification/UserTypes.v ===== *)
(** * Identity service: values and requests
    (identity/src/users/value_objects.rs, dtos.rs, entities.rs, domain.rs) *)

From S2P Require Import Prelude RustStr Externals Errors NewTypes Regex Auth.

Local Open Scope Z_scope.

Section values.
Context `{Externals, UnicodeApi}.

(** ** Email *)

Definition email_local (c : Z) : bool := ascii_letter c || ascii_digit c || one_of "._%+-" c.
Definition email_domain (c : Z) : bool := ascii_letter c || ascii_digit c || one_of ".-" c.
(** [^[a-zA-Z0-9._%+-]+@[a-zA-Z0-9.-]+\.[a-zA-Z]{2,}$] *)
Definition EMAIL_RE : regex :=
  RCat (RPlus (RChar email_local)) (RCat (RChr 64) (RCat (RPlus (RChar email_domain))
    (RCat (RChr 46) (RAtLeast 2 (RChar ascii_letter))))).

Record Email := MkEmail { email_str : string }.
Definition Email_new (input : string) : outcome AppError Email :=
  let trimmed := trim input in
  if (254 <? str_len trimmed)%nat then Err (BadRequest "Email must not exceed 254 characters")
  else if negb (is_match EMAIL_RE trimmed) then Err (BadRequest "Invalid email format")
  else Ok (MkEmail (to_lowercase trimmed)).

(** ** Password *)

(** The characters of the literal; 34 is the quotation mark. *)
Definition SPECIAL_CHARS : list Z := chars "!@#$%^&*()_+-=[]{}|;':" ++ [34] ++ chars ",./<>?".
Definition is_special (c : Z) : bool := existsb (Z.eqb c) SPECIAL_CHARS.

Record Password := MkPassword { password_str : string }.
Definition missing_parts (input : string) : list string :=
  (if (str_len input <? 8)%nat then ["at least 8 characters"] else []) ++
  (if negb (existsb is_uppercase (chars input)) then ["an uppercase letter"] else []) ++
  (if negb (existsb is_lowercase (chars input)) then ["a lowercase letter"] else []) ++
  (if negb (existsb ascii_digit (chars input)) then ["a digit"] else []) ++
  (if negb (existsb is_special (chars input)) then ["a special character"] else []).
Definition Password_new (input : string) : outcome AppError Password :=
  if (128 <? str_len input)%nat then Err (BadRequest "Password must not exceed 128 characters")
  else match missing_parts input with
       | [] => Ok (MkPassword input)
       | missing => Err (BadRequest ("Password must contain: " +:+ join ", " missing))
       end.
Record HashedPassword := MkHashedPassword { hash_str : string }.

(** ** Phone *)

(** [^\+[1-9]\d{0,2}(-?\d+)+$] *)
Definition PHONE_RE : regex :=
  RCat (RChr 43) (RCat (RChar (in_range 49 57)) (RCat (RUpTo 2 (RChar is_decimal_number))
    (RPlus (RCat (ROpt (RChr 45)) (RPlus (RChar is_decimal_number)))))).

Record Phone := MkPhone { phone_str : string }.
Definition digit_count (s : string) : nat := length (List.filter ascii_digit (chars s)).
Definition Phone_new (input : string) : outcome AppError Phone :=
  let trimmed := trim input in
  if negb (is_match PHONE_RE trimmed) then Err (BadRequest
    "Invalid phone format. Expected: +{country code}-{digits} (e.g. +82-10-1234-5678)")
  else if negb ((7 <=? digit_count trimmed)%nat && (digit_count trimmed <=? 15)%nat) then
    Err (BadRequest "Phone number must contain between 7 and 15 digits")
  else Ok (MkPhone trimmed).

(** ** Username *)

Definition username_char (c : Z) : bool := ascii_letter c || ascii_digit c || one_of "_-" c.
(** [^[a-zA-Z0-9_-]+$] *)
Definition USERNAME_RE : regex := RPlus (RChar username_char).
Definition USERNAME_BLOCKLIST : list string := ["admin"; "root"; "superuser"; "moderator"].

Record Username := MkUsername { username_str : string }.
Definition Username_new (input : string) : outcome AppError Username :=
  let trimmed := trim input in
  if (str_len trimmed <? 3)%nat then Err (BadRequest "Username must be at least 3 characters")
  else if (30 <? str_len trimmed)%nat then Err (BadRequest "Username must not exceed 30 characters")
  else if negb (is_match USERNAME_RE trimmed) then
    Err (BadRequest "Username may only contain letters, digits, underscores, and hyphens")
  else if bool_decide (to_lowercase trimmed ∈ USERNAME_BLOCKLIST) then
    Err (BadRequest "This username is not allowed")
  else Ok (MkUsername trimmed).

(** ** Rows *)

Record UserEntity := {
  us_id : Uuid; us_created_at : Z; us_updated_at : option Z; us_deleted_at : option Z;
  us_username : string; us_password : string; us_email : string; us_phone : string;
  us_role : Role; us_email_verified : bool }.
Record EmailVerificationTokenEntity := {
  ev_id : Uuid; ev_created_at : Z; ev_user_id : Uuid; ev_token : string; ev_expires_at : Z;
  ev_used_at : option Z }.
Record PasswordResetTokenEntity := {
  rt_id : Uuid; rt_created_at : Z; rt_user_id : Uuid; rt_token : string; rt_expires_at : Z;
  rt_used_at : option Z }.

(** ** The domain value of a row (domain.rs, which no request uses) *)

Record User := {
  du_id : Uuid; du_username : Username; du_password : HashedPassword; du_email : Email;
  du_phone : Phone; du_role : Role }.
Definition User_try_from (entity : UserEntity) : outcome AppError User :=
  username ← Username_new (us_username entity);
  email ← Email_new (us_email entity);
  phone ← Phone_new (us_phone entity);
  Ok {| du_id := us_id entity; du_username := username;
        du_password := MkHashedPassword (us_password entity); du_email := email;
        du_phone := phone; du_role := us_role entity |}.

(** ** Requests and responses *)

Record UserCreateReq := {
  uc_username : string; uc_password : string; uc_email : string; uc_phone : string; uc_role : Role }.
Record UserUpdateReq := {
  uu_username : string; uu_email : string; uu_phone : string; uu_role : Role }.
Record ValidUserCreateReq := {
  vc_username : Username; vc_password : Password; vc_email : Email; vc_phone : Phone; vc_role : Role }.
Definition ValidUserCreateReq_try_from (req : UserCreateReq) : outcome AppError ValidUserCreateReq :=
  username ← Username_new (uc_username req);
  password ← Password_new (uc_password req);
  email ← Email_new (uc_email req);
  phone ← Phone_new (uc_phone req);
  Ok {| vc_username := username; vc_password := password; vc_email := email; vc_phone := phone;
        vc_role := uc_role req |}.
Record ValidUserUpdateReq := {
  vu_username : Username; vu_email : Email; vu_phone : Phone; vu_role : Role }.
Definition ValidUserUpdateReq_try_from (req : UserUpdateReq) : outcome AppError ValidUserUpdateReq :=
  username ← Username_new (uu_username req);
  email ← Email_new (uu_email req);
  phone ← Phone_new (uu_phone req);
  Ok {| vu_username := username; vu_email := email; vu_phone := phone; vu_role := uu_role req |}.

Record UserRes := {
  sr_id : string; sr_created_at : string; sr_updated_at : option string; sr_deleted_at : option string;
  sr_username : string; sr_email : string; sr_phone : string; sr_role : Role;
  sr_email_verified : bool }.
Definition UserRes_new (e : UserEntity) : UserRes := {|
  sr_id := fmt_id (us_id e); sr_created_at := fmt_datetime (us_created_at e);
  sr_updated_at := fmt_datetime_opt (us_updated_at e);
  sr_deleted_at := fmt_datetime_opt (us_deleted_at e);
  sr_username := us_username e; sr_email := us_email e; sr_phone := us_phone e;
  sr_role := us_role e; sr_email_verified := us_email_verified e |}.

Record UserLoginReq := { ul_username : string; ul_password : string }.
Record UserRefreshReq := { uf_refresh_token : string }.
Record UserRefreshRes := { uf_access_token : string }.
Record VerifyEmailReq := { ve_token : string }.
Record ForgotPasswordReq := { fp_email : string }.
Record ResetPasswordReq := { rp_token : string; rp_new_password : string }.
Record ChangePasswordReq := { cp_current_password : string; cp_new_password : string }.

(** ** What is accepted *)

Lemma email_re_spec l : matches EMAIL_RE l ↔
  ∃ local domain tld, l = local ++ [64] ++ domain ++ [46] ++ tld ∧
    local ≠ [] ∧ Forall (λ c, email_local c = true) local ∧
    domain ≠ [] ∧ Forall (λ c, email_domain c = true) domain ∧
    (2 ≤ length tld)%nat ∧ Forall (λ c, ascii_letter c = true) tld.
Proof.
  unfold EMAIL_RE, RChr. split.
  - intros (local & l1 & -> & [Hl Hlc]%plus_class & Hr)%cat_spec.
    apply cat_spec in Hr as (at_ & l2 & -> & (c & -> & Hc%Z.eqb_eq)%char_spec & Hr).
    apply cat_spec in Hr as (domain & l3 & -> & [Hd Hdc]%plus_class & Hr).
    apply cat_spec in Hr as (dot & tld & -> & (c' & -> & Hc'%Z.eqb_eq)%char_spec & [Ht Htc]%at_least_class).
    subst. exists local, domain, tld. by split_and!.
  - intros (local & domain & tld & -> & Hl & Hlc & Hd & Hdc & Ht & Htc).
    apply m_cat; [by apply plus_class|]. apply (m_cat (RChar _) _ [64]); [by constructor|].
    apply m_cat; [by apply plus_class|]. apply (m_cat (RChar _) _ [46]); [by constructor|].
    by apply at_least_class.
Qed.

(** A telephone number: a plus sign and a digit from 1 to 9, then digits with single hyphens
    between them; the first hyphen may follow the first digit, and none is at the end. *)
Definition phone_shape (is_digit : Z → Prop) (l : list Z) : Prop :=
  ∃ c first groups, l = 43 :: c :: first ++ concat (cons 45 <$> groups) ∧ 49 ≤ c ≤ 57 ∧
    Forall is_digit first ∧ Forall (λ g, g ≠ [] ∧ Forall is_digit g) groups ∧
    (first = [] → groups ≠ []).

(** The digits and groups that repetitions of [-?\d+] make up. *)
Lemma groups_star (p : Z → bool) l :
  matches (RStar (RCat (ROpt (RChr 45)) (RPlus (RChar p)))) l ↔
  ∃ first groups, l = first ++ concat (cons 45 <$> groups) ∧ Forall (λ c, p c = true) first ∧
    Forall (λ g, g ≠ [] ∧ Forall (λ c, p c = true) g) groups.
Proof.
  split.
  - remember (RStar _) as r eqn:Er. induction 1 as [| | | | |r|r l k Hne Hl _ Hk IH]; simplify_eq; [by exists [], []|].
    destruct (IH eq_refl) as (first & groups & -> & Hf & Hg). clear IH Hk.
    apply cat_spec in Hl as (h & d & -> & Hh & [Hd Hdc]%plus_class).
    apply alt_inv in Hh as [Hh|(c & -> & Hc%Z.eqb_eq)%char_spec].
    + inversion Hh; subst. exists (d ++ first), groups. simpl. rewrite <-?app_assoc. split_and!; [done|by apply Forall_app|done].
    + subst c. exists [], ((d ++ first) :: groups). rewrite fmap_cons. simpl. rewrite <-!app_assoc. split_and!; [done|done|].
      constructor; [|done]. split; [by intros [? _]%app_nil|by apply Forall_app].
  - assert (∀ d k, d ≠ [] → Forall (λ c, p c = true) d → matches (RStar (RCat (ROpt (RChr 45)) (RPlus (RChar p)))) k →
      matches (RStar (RCat (ROpt (RChr 45)) (RPlus (RChar p)))) (d ++ k)) as Hdigits.
    { intros d k Hd Hdc Hk. apply m_star_cons; [done| |done].
      apply (m_cat _ _ [] d); [apply m_alt_l; constructor|by apply plus_class]. }
    intros (first & groups & -> & Hf & Hg).
    assert (matches (RStar (RCat (ROpt (RChr 45)) (RPlus (RChar p)))) (concat (cons 45 <$> groups))) as Hgs.
    { induction Hg as [|g groups [Hg Hgc] _ IH]; [constructor|]. rewrite fmap_cons. simpl.
      apply (m_star_cons _ (45 :: g)); [done| |done].
      apply (m_cat _ _ [45] g); [apply m_alt_r; by constructor|by apply plus_class]. }
    destruct first as [|c first]; [done|by apply Hdigits].
Qed.
(** Digits before the groups make no difference: a group need not begin with a hyphen. *)
Lemma digits_up_to (p : Z → bool) n l : matches (RUpTo n (RChar p)) l → Forall (λ c, p c = true) l.
Proof.
  revert l. induction n as [|n IH]; simpl; intros l Hl; [by inversion Hl|].
  apply alt_inv in Hl as [Hl|(l1 & l2 & -> & (c & -> & Hc)%char_spec & Hl)%cat_spec]; [by inversion Hl|].
  constructor; [done|by apply IH].
Qed.
Lemma phone_re_spec l : matches PHONE_RE l ↔ phone_shape (λ c, is_decimal_number c = true) l.
Proof.
  unfold PHONE_RE, phone_shape. split.
  - intros (l1 & k & -> & (a & -> & <-%Z.eqb_eq)%char_spec & Hk)%cat_spec.
    apply cat_spec in Hk as (l2 & k1 & -> & (c & -> & Hc%in_range_spec)%char_spec & Hk).
    apply cat_spec in Hk as (d & k2 & -> & Hd%digits_up_to & (x & y & -> & Hx & Hy)%cat_spec).
    apply cat_spec in Hx as (h & e & -> & Hh & [He Hec]%plus_class).
    apply groups_star in Hy as (first & groups & -> & Hf & Hg).
    apply alt_inv in Hh as [Hh|(b & -> & <-%Z.eqb_eq)%char_spec].
    + inversion Hh; subst. exists c, (d ++ e ++ first), groups. simpl. rewrite <-!app_assoc. split_and!; [done|lia|lia|..|done|].
      * by rewrite !Forall_app.
      * intros [_ [? _]%app_nil]%app_nil. done.
    + exists c, d, ((e ++ first) :: groups). rewrite fmap_cons. simpl. rewrite <-!app_assoc. split_and!; [done|lia|lia|done| |done].
      constructor; [|done]. split; [by intros [? _]%app_nil|by apply Forall_app].
  - intros (c & first & groups & -> & Hc & Hf & Hg & Hne). apply (m_cat _ _ [43]); [by constructor|].
    apply (m_cat _ _ [c]); [constructor; by apply in_range_spec|]. apply (m_cat _ _ []); [apply m_alt_l; constructor|].
    unfold RPlus at 1. destruct first as [|d first].
    + destruct groups as [|g groups]; [by destruct Hne|]. apply Forall_cons in Hg as [[Hg Hgc] Hgs].
      rewrite fmap_cons. simpl. apply (m_cat _ _ (45 :: g)).
      * apply (m_cat _ _ [45] g); [apply m_alt_r; by constructor|by apply plus_class].
      * apply groups_star. by exists [], groups.
    + apply (m_cat _ _ (d :: first)); [apply (m_cat _ _ [] (d :: first)); [apply m_alt_l; constructor|by apply plus_class]|].
      apply groups_star. by exists [], groups.
Qed.

Lemma Username_new_ok s u : Username_new s = Ok u ↔
  u = MkUsername (trim s) ∧ (3 ≤ str_len (trim s) ≤ 30)%nat ∧
  Forall (λ c, username_char c = true) (chars (trim s)) ∧ to_lowercase (trim s) ∉ USERNAME_BLOCKLIST.
Proof.
  unfold Username_new. generalize (trim s). clear s. intros s.
  assert ((3 ≤ str_len s)%nat → is_match USERNAME_RE s = true ↔ Forall (λ c, username_char c = true) (chars s)) as Hm.
  { intros Hlen. rewrite is_match_spec. unfold USERNAME_RE. rewrite plus_class, chars_nil.
    split; [tauto|]. intros Hc. split; [|done]. intros ->. simpl in Hlen. lia. }
  destruct (Nat.ltb_spec (str_len s) 3); [naive_solver lia|].
  destruct (Nat.ltb_spec 30 (str_len s)); [naive_solver lia|].
  specialize (Hm ltac:(lia)). destruct (is_match USERNAME_RE s); simpl; [|naive_solver].
  case_bool_decide; naive_solver lia.
Qed.

Lemma Email_new_ok s e : Email_new s = Ok e ↔
  e = MkEmail (to_lowercase (trim s)) ∧ (str_len (trim s) ≤ 254)%nat ∧ matches EMAIL_RE (chars (trim s)).
Proof.
  unfold Email_new. rewrite <-is_match_spec. destruct (Nat.ltb_spec 254 (str_len (trim s))); [naive_solver lia|].
  destruct (is_match EMAIL_RE (trim s)); naive_solver lia.
Qed.

Lemma Password_new_ok s p : Password_new s = Ok p ↔
  p = MkPassword s ∧ (8 ≤ str_len s ≤ 128)%nat ∧
  existsb is_uppercase (chars s) = true ∧ existsb is_lowercase (chars s) = true ∧
  existsb ascii_digit (chars s) = true ∧ existsb is_special (chars s) = true.
Proof.
  unfold Password_new, missing_parts. destruct (Nat.ltb_spec 128 (str_len s)); [naive_solver lia|].
  destruct (Nat.ltb_spec (str_len s) 8); [naive_solver lia|].
  destruct (existsb is_uppercase _), (existsb is_lowercase _), (existsb ascii_digit _), (existsb is_special _);
    naive_solver lia.
Qed.

Lemma Phone_new_ok s p : Phone_new s = Ok p ↔
  p = MkPhone (trim s) ∧ matches PHONE_RE (chars (trim s)) ∧ (7 ≤ digit_count (trim s) ≤ 15)%nat.
Proof.
  unfold Phone_new. rewrite <-is_match_spec. destruct (is_match PHONE_RE (trim s)); [|naive_solver].
  destruct (Nat.leb_spec 7 (digit_count (trim s))), (Nat.leb_spec (digit_count (trim s)) 15); naive_solver lia.
Qed.

(** An email is in ASCII; one that is typed without capital letters is stored as typed. *)
Lemma email_chars l : matches EMAIL_RE l → Forall (λ c, 0 ≤ c < 128) l.
Proof.
  assert (∀ s c, one_of s c = true → c ∈ chars s) as Hone.
  { intros s c (x & Hin & ->%Z.eqb_eq)%existsb_exists. by apply list_elem_of_In. }
  intros (lo & d & t & -> & _ & Hl & _ & Hd & _ & Ht)%email_re_spec.
  repeat (apply Forall_app; split); try (constructor; [lia|constructor]);
    (eapply Forall_impl; [eassumption|]); unfold email_local, email_domain, ascii_letter, ascii_digit; intros c;
    unfold ascii_upper, ascii_lower; rewrite !orb_true_iff, !in_range_spec.
  - intros [?|Hc%Hone]; [lia|]. revert c Hc. apply Forall_forall. by vm_compute; repeat constructor.
  - intros [?|Hc%Hone]; [lia|]. revert c Hc. apply Forall_forall. by vm_compute; repeat constructor.
  - lia.
Qed.
Lemma Email_new_again s e : Email_new s = Ok e →
  Forall (λ c, ascii_upper c = false) (chars (trim s)) → e = MkEmail (trim s) ∧ Email_new (email_str e) = Ok e.
Proof.
  intros (-> & Hlen & Hm)%Email_new_ok Hup.
  assert (to_lowercase (trim s) = trim s) as Hlow.
  { apply to_lowercase_lower, Forall_and. split; [by apply email_chars|done]. }
  rewrite Hlow. split; [done|]. apply Email_new_ok. simpl. rewrite trim_trim. by rewrite Hlow.
Qed.

(** A row that was written from a request reads back as the values of the request: they are
    accepted again, unchanged. *)
Theorem User_try_from_written req v e :
  ValidUserUpdateReq_try_from req = Ok v →
  Forall (λ c, ascii_upper c = false) (chars (trim (uu_email req))) →
  us_username e = username_str (vu_username v) → us_email e = email_str (vu_email v) →
  us_phone e = phone_str (vu_phone v) → us_role e = vu_role v →
  User_try_from e = Ok {| du_id := us_id e; du_username := vu_username v;
    du_password := MkHashedPassword (us_password e); du_email := vu_email v;
    du_phone := vu_phone v; du_role := vu_role v |}.
Proof.
  unfold ValidUserUpdateReq_try_from, User_try_from, mbind, outcome_bind. intros Hv Hup.
  destruct (Username_new (uu_username req)) as [n| |] eqn:Hn; [|done..].
  destruct (Email_new (uu_email req)) as [m| |] eqn:Hm; [|done..].
  destruct (Phone_new (uu_phone req)) as [p| |] eqn:Hp; [|done..].
  destruct (Email_new_again _ _ Hm Hup) as [_ He]. revert Hv.
  intros [= <-]; simpl; intros -> -> -> ->. rewrite He.
  assert (Username_new (username_str n) = Ok n) as ->.
  { apply Username_new_ok in Hn as (-> & Hr). apply Username_new_ok. simpl. by rewrite trim_trim. }
  assert (Phone_new (phone_str p) = Ok p) as ->; [|done].
  apply Phone_new_ok in Hp as (-> & Hr). apply Phone_new_ok. simpl. by rewrite trim_trim.
Qed.
End values.
