(* ===== verification/UserRepo.v ===== *)
(** * Identity service: the tables and their queries
    (identity/src/users/repository.rs, identity/migrations) *)

From S2P Require Import Prelude RustStr Externals Errors NewTypes Auth Db Requests UserTypes.

Local Open Scope Z_scope.

Section repository.
Context `{Externals}.

Record user_tables := MkUserTables {
  ut_users : list UserEntity;
  ut_email_tokens : list EmailVerificationTokenEntity;
  ut_reset_tokens : list PasswordResetTokenEntity }.
Definition set_users (l : list UserEntity) (t : user_tables) : user_tables :=
  MkUserTables l (ut_email_tokens t) (ut_reset_tokens t).
Definition set_email_tokens (l : list EmailVerificationTokenEntity) (t : user_tables) : user_tables :=
  MkUserTables (ut_users t) l (ut_reset_tokens t).
Definition set_reset_tokens (l : list PasswordResetTokenEntity) (t : user_tables) : user_tables :=
  MkUserTables (ut_users t) (ut_email_tokens t) l.

Abbreviation tx := (M (conn user_tables)).

(** ** Users *)

Definition is_user (id : Uuid) (u : UserEntity) : bool := bool_decide (us_id u = id).
Definition is_live (u : UserEntity) : bool := bool_decide (us_deleted_at u = None).
Definition find_live (p : UserEntity → bool) (t : user_tables) : option UserEntity :=
  List.find (λ u, p u && is_live u) (ut_users t).

Definition get_user_by_id (id : Uuid) : tx AppError UserEntity :=
  map_err (not_found "User not found: ") (fetch_one (find_live (is_user id))).
Definition get_user_by_username (username : Username) : tx AppError UserEntity :=
  map_err (not_found "User not found: ")
    (fetch_one (find_live (λ u, bool_decide (us_username u = username_str username)))).
Definition get_user_by_email (email : Email) : tx AppError UserEntity :=
  map_err (not_found "User not found: ")
    (fetch_one (find_live (λ u, bool_decide (us_email u = email_str email)))).

(** [INSERT INTO users .. RETURNING id] *)
Definition insert_user (req : ValidUserCreateReq) (hashed_password : HashedPassword)
    (now : Z) (id : Uuid) (t : user_tables) : outcome sql_error (Uuid * user_tables) :=
  username ← varchar "username" 255 (username_str (vc_username req));
  email ← varchar "email" 255 (email_str (vc_email req));
  phone ← varchar "phone" 50 (phone_str (vc_phone req));
  _ ← unique "users_pkey" (is_user id) (ut_users t);
  _ ← unique "users_username_key" (λ u, bool_decide (us_username u = username)) (ut_users t);
  _ ← unique "users_email_key" (λ u, bool_decide (us_email u = email)) (ut_users t);
  Ok (id, set_users (ut_users t ++ [{|
    us_id := id; us_created_at := now; us_updated_at := None; us_deleted_at := None;
    us_username := username; us_password := hash_str hashed_password; us_email := email;
    us_phone := phone; us_role := vc_role req; us_email_verified := false |}]) t).
Definition create_user (req : ValidUserCreateReq) (hashed_password : HashedPassword) : tx AppError Uuid :=
  map_err (internal "Failed to create user: ") (exec (insert_user req hashed_password)).

(** An UPDATE of the user with an identifier, under a condition. *)
Definition update_users (p : UserEntity → bool) (f : UserEntity → UserEntity) (t : user_tables)
    : outcome sql_error (nat * user_tables) :=
  Ok (rows_affected p (ut_users t), set_users (update_where p f (ut_users t)) t).
Definition verified (now : Z) (u : UserEntity) : UserEntity := {|
  us_id := us_id u; us_created_at := us_created_at u; us_updated_at := Some now;
  us_deleted_at := us_deleted_at u; us_username := us_username u; us_password := us_password u;
  us_email := us_email u; us_phone := us_phone u; us_role := us_role u; us_email_verified := true |}.
Definition verify_user_email (user_id : Uuid) : tx AppError unit :=
  n ← map_err (internal "Failed to verify user email: ")
    (exec (λ now _ t, update_users (is_user user_id) (verified now) t));
  assert_one n.

Definition with_profile (req : ValidUserUpdateReq) (now : Z) (u : UserEntity) : UserEntity := {|
  us_id := us_id u; us_created_at := us_created_at u; us_updated_at := Some now;
  us_deleted_at := us_deleted_at u; us_username := username_str (vu_username req);
  us_password := us_password u; us_email := email_str (vu_email req);
  us_phone := phone_str (vu_phone req); us_role := vu_role req;
  us_email_verified := us_email_verified u |}.
(** The new values are converted and checked when there is a row to update. *)
Definition update_user_stmt (id : Uuid) (req : ValidUserUpdateReq) (now : Z) (_ : Uuid) (t : user_tables)
    : outcome sql_error (nat * user_tables) :=
  let p u := is_user id u && is_live u in
  if existsb p (ut_users t) then
    _ ← varchar "username" 255 (username_str (vu_username req));
    _ ← varchar "email" 255 (email_str (vu_email req));
    _ ← varchar "phone" 50 (phone_str (vu_phone req));
    _ ← unique "users_username_key"
          (λ u, bool_decide (us_username u = username_str (vu_username req)) && negb (is_user id u)) (ut_users t);
    _ ← unique "users_email_key"
          (λ u, bool_decide (us_email u = email_str (vu_email req)) && negb (is_user id u)) (ut_users t);
    update_users p (with_profile req now) t
  else Ok (0%nat, t).
Definition update_user (id : Uuid) (req : ValidUserUpdateReq) : tx AppError unit :=
  n ← map_err (internal "Failed to update user: ") (exec (update_user_stmt id req));
  exactly_one (NotFound "User not found") n.

Definition deleted (now : Z) (u : UserEntity) : UserEntity := {|
  us_id := us_id u; us_created_at := us_created_at u; us_updated_at := us_updated_at u;
  us_deleted_at := Some now; us_username := us_username u; us_password := us_password u;
  us_email := us_email u; us_phone := us_phone u; us_role := us_role u;
  us_email_verified := us_email_verified u |}.
Definition delete_user (id : Uuid) : tx AppError unit :=
  n ← map_err (internal "Failed to delete user: ")
    (exec (λ now _ t, update_users (λ u, is_user id u && is_live u) (deleted now) t));
  exactly_one (NotFound "User not found") n.

Definition with_password (hash : HashedPassword) (now : Z) (u : UserEntity) : UserEntity := {|
  us_id := us_id u; us_created_at := us_created_at u; us_updated_at := Some now;
  us_deleted_at := us_deleted_at u; us_username := us_username u; us_password := hash_str hash;
  us_email := us_email u; us_phone := us_phone u; us_role := us_role u;
  us_email_verified := us_email_verified u |}.
Definition update_user_password (user_id : Uuid) (hashed_password : HashedPassword) : tx AppError unit :=
  n ← map_err (internal "Failed to update user password: ")
    (exec (λ now _ t, update_users (is_user user_id) (with_password hashed_password now) t));
  assert_one n.

(** ** Tokens *)

(** The reference of a token to its user. *)
Definition user_reference (name : string) (id : Uuid) (t : user_tables) : outcome sql_error unit :=
  if existsb (is_user id) (ut_users t) then Ok tt else Err (ForeignKeyViolation name).

Definition insert_email_token (user_id : Uuid) (token : string) (expires_at now : Z) (id : Uuid)
    (t : user_tables) : outcome sql_error (nat * user_tables) :=
  token ← varchar "token" 64 token;
  _ ← unique "email_verification_tokens_pkey" (λ e, bool_decide (ev_id e = id)) (ut_email_tokens t);
  _ ← unique "email_verification_tokens_token_key" (λ e, bool_decide (ev_token e = token)) (ut_email_tokens t);
  _ ← user_reference "email_verification_tokens_user_id_fkey" user_id t;
  Ok (1%nat, set_email_tokens (ut_email_tokens t ++ [{|
    ev_id := id; ev_created_at := now; ev_user_id := user_id; ev_token := token;
    ev_expires_at := expires_at; ev_used_at := None |}]) t).
Definition create_verification_token (user_id : Uuid) (token : string) (expires_at : Z) : tx AppError unit :=
  n ← map_err (internal "Failed to create verification token: ")
    (exec (insert_email_token user_id token expires_at));
  assert_one n.

Definition valid_email_token (token : string) (now : Z) (e : EmailVerificationTokenEntity) : bool :=
  bool_decide (ev_token e = token) && bool_decide (ev_used_at e = None) && (now <? ev_expires_at e).
Definition get_valid_verification_token (token : string) : tx AppError EmailVerificationTokenEntity :=
  map_err (λ _, BadRequest "Invalid or expired verification token")
    (fetch_one_at (λ now t, List.find (valid_email_token token now) (ut_email_tokens t))).

Definition email_token_used (now : Z) (e : EmailVerificationTokenEntity) : EmailVerificationTokenEntity := {|
  ev_id := ev_id e; ev_created_at := ev_created_at e; ev_user_id := ev_user_id e; ev_token := ev_token e;
  ev_expires_at := ev_expires_at e; ev_used_at := Some now |}.
Definition mark_token_used (token_id : Uuid) : tx AppError unit :=
  n ← map_err (internal "Failed to mark token as used: ")
    (exec (λ now _ t, let p e := bool_decide (ev_id e = token_id) in
       Ok (rows_affected p (ut_email_tokens t),
           set_email_tokens (update_where p (email_token_used now) (ut_email_tokens t)) t)));
  assert_one n.

Definition insert_reset_token (user_id : Uuid) (token : string) (expires_at now : Z) (id : Uuid)
    (t : user_tables) : outcome sql_error (nat * user_tables) :=
  token ← varchar "token" 64 token;
  _ ← unique "password_reset_tokens_pkey" (λ e, bool_decide (rt_id e = id)) (ut_reset_tokens t);
  _ ← unique "password_reset_tokens_token_key" (λ e, bool_decide (rt_token e = token)) (ut_reset_tokens t);
  _ ← user_reference "password_reset_tokens_user_id_fkey" user_id t;
  Ok (1%nat, set_reset_tokens (ut_reset_tokens t ++ [{|
    rt_id := id; rt_created_at := now; rt_user_id := user_id; rt_token := token;
    rt_expires_at := expires_at; rt_used_at := None |}]) t).
Definition create_password_reset_token (user_id : Uuid) (token : string) (expires_at : Z) : tx AppError unit :=
  n ← map_err (internal "Failed to create password reset token: ")
    (exec (insert_reset_token user_id token expires_at));
  assert_one n.

Definition valid_reset_token (token : string) (now : Z) (e : PasswordResetTokenEntity) : bool :=
  bool_decide (rt_token e = token) && bool_decide (rt_used_at e = None) && (now <? rt_expires_at e).
Definition get_valid_password_reset_token (token : string) : tx AppError PasswordResetTokenEntity :=
  map_err (λ _, BadRequest "Invalid or expired password reset token")
    (fetch_one_at (λ now t, List.find (valid_reset_token token now) (ut_reset_tokens t))).

Definition reset_token_used (now : Z) (e : PasswordResetTokenEntity) : PasswordResetTokenEntity := {|
  rt_id := rt_id e; rt_created_at := rt_created_at e; rt_user_id := rt_user_id e; rt_token := rt_token e;
  rt_expires_at := rt_expires_at e; rt_used_at := Some now |}.
Definition mark_reset_token_used (token_id : Uuid) : tx AppError unit :=
  n ← map_err (internal "Failed to mark reset token as used: ")
    (exec (λ now _ t, let p e := bool_decide (rt_id e = token_id) in
       Ok (rows_affected p (ut_reset_tokens t),
           set_reset_tokens (update_where p (reset_token_used now) (ut_reset_tokens t)) t)));
  assert_one n.
End repository.
