(* ===== verification/UserService.v ===== *)
(** * Identity service: the operations
    (identity/src/users/service.rs, routes.rs, grpc_service.rs, identity/src/lib.rs) *)

From S2P Require Import Prelude RustStr Externals Errors NewTypes Regex Auth Db Requests Redis UserTypes UserRepo.

Local Open Scope Z_scope.

(** Argon2: [argon2_hash password salt] is a PHC text or an error text; [phc_parse] an error
    text for a text that is not a hash. *)
Inductive argon2_answer : Type := PasswordMatches | PasswordDiffers | OtherFailure (msg : string).
Class Argon2Api := {
  argon2_hash : string → string → string + string;
  phc_parse : string → option string;
  argon2_verify : string → string → argon2_answer;
  argon2_verify_hash p salt h : argon2_hash p salt = inr h → phc_parse h = None ∧ argon2_verify p h = PasswordMatches }.

(** The random generators: the [n]-th salt, and the [n]-th 32 random bytes. *)
Class RandomApi := {
  random_salt : N → string;
  random_bytes : N → list nat;
  random_bytes_32 n : length (random_bytes n) = 32%nat ∧ Forall (λ b, b < 256)%nat (random_bytes n) }.

(** The email provider. *)
Record EmailMessage := { em_to : string; em_subject : string; em_body_html : string }.
Class EmailService := {
  mailer : Type;
  send_email : EmailMessage → M mailer AppError unit }.

(** The derived JSON form of the cached user. *)
Class CurrentUserCodec `{Externals} := {
  current_user_to_json : CurrentUser → option string;
  current_user_of_json : string → option CurrentUser;
  current_user_of_to_json u d : current_user_to_json u = Some d → current_user_of_json d = Some u }.

Class IdentityApi `{Externals} := {
  #[global] ia_jwt :: JwtApi;
  #[global] ia_unicode :: UnicodeApi;
  #[global] ia_argon2 :: Argon2Api;
  #[global] ia_random :: RandomApi;
  #[global] ia_email :: EmailService;
  #[global] ia_codec :: CurrentUserCodec;
  #[global] ia_redis :: RedisApi }.

Section service.
Context `{IdentityApi}.

(** What the service talks to besides its database. *)
Record ident_ext := MkIdentExt { ie_redis : redis; ie_mailer : mailer }.
(** [AppState]: the configuration; pool, Redis and provider are the world. *)
Record AppState := { as_cache : RedisCache; as_auth_config : AuthConfig }.
Abbreviation svc := (M (db user_tables ident_ext)).

Definition on_cache {E A} (m : M redis E A) : svc E A :=
  zoom (λ s, ie_redis (d_ext s)) (λ r s, MkDb (d_committed s) (d_env s) (MkIdentExt r (ie_mailer (d_ext s)))) m.
Definition on_mailer {E A} (m : M mailer E A) : svc E A :=
  zoom (λ s, ie_mailer (d_ext s)) (λ r s, MkDb (d_committed s) (d_env s) (MkIdentExt (ie_redis (d_ext s)) r)) m.
(** The clock of the application, and one draw of a random generator. *)
Definition app_now {E} : svc E Z := gets (λ s, e_now (d_env s)).
Definition draw {E A} (f : N → A) : svc E A := λ s,
  (Ok (f (e_next (d_env s))), MkDb (d_committed s) (bump (d_env s)) (d_ext s)).

(** ** Helpers *)

(** [format!("{:02x}", b)] *)
Definition hex_digit (n : nat) : string := default "" (String.get n "0123456789abcdef" ≫= λ a, Some (String a "")).
Definition hex_byte (b : nat) : string := hex_digit (b / 16) +:+ hex_digit (b mod 16).
Definition hex (l : list nat) : string := foldr (λ b s, hex_byte b +:+ s) "" l.
Definition generate_verification_token {E} : svc E string := draw (λ n, hex (random_bytes n)).

Definition hash_password (password : string) : svc AppError HashedPassword :=
  salt ← draw random_salt;
  lift match argon2_hash password salt with
       | inr h => Ok (MkHashedPassword h)
       | inl e => Err (InternalServerError ("Failed to hash password: " +:+ e))
       end.
Definition verify_password (password : string) (hash : HashedPassword) : outcome AppError unit :=
  match phc_parse (hash_str hash) with
  | Some e => Err (InternalServerError ("Invalid password hash: " +:+ e))
  | None =>
      match argon2_verify password (hash_str hash) with
      | PasswordMatches => Ok tt
      | PasswordDiffers => Err (Unauthorized "Invalid credentials")
      | OtherFailure e => Err (InternalServerError ("Failed to verify password: " +:+ e))
      end
  end.

Definition USER_CACHE_TTL_SECS : Z := 300.
Definition USER_CACHE_PREFIX : string := "user:".
Definition user_cache_key (id : Uuid) : string := USER_CACHE_PREFIX +:+ uuid_to_string id.

(** An email that cannot be sent is only logged. *)
Definition send_or_log (message : EmailMessage) : svc AppError unit :=
  catch (E' := AppError) (on_mailer (send_email message)) (λ _, mret tt) (λ _, mret tt).

(** ** Accounts *)

Definition create_account_tx (validated : ValidUserCreateReq) (hashed : HashedPassword) (token : string)
    (expires_at : Z) : M (conn user_tables) TxError unit :=
  user_id ← other (create_user validated hashed);
  other (create_verification_token user_id token expires_at).
Definition verification_email (to token : string) : EmailMessage := {|
  em_to := to; em_subject := "Verify your email address";
  em_body_html := "<h1>Email Verification</h1><p>Your verification token is: <strong>" +:+ token +:+
    "</strong></p>" |}.
Definition create_user_account (req : UserCreateReq) : svc AppError unit :=
  validated ← lift (ValidUserCreateReq_try_from req);
  hashed_password ← hash_password (password_str (vc_password validated));
  token ← generate_verification_token;
  now ← app_now;
  _ ← in_transaction "Failed to create user: "
        (create_account_tx validated hashed_password token (now + 24 * 3600));
  send_or_log (verification_email (email_str (vc_email validated)) token).

Definition verify_email (req : VerifyEmailReq) : svc AppError unit :=
  token_entity ← on_pool (get_valid_verification_token (ve_token req));
  in_transaction "Failed to verify email: "
    (_ ← other (verify_user_email (ev_user_id token_entity));
     other (mark_token_used (ev_id token_entity))).

Definition get_user (id : Uuid) : svc AppError UserRes :=
  user ← on_pool (get_user_by_id id);
  mret (UserRes_new user).

Definition update_user_account (state : AppState) (id : Uuid) (req : UserUpdateReq) : svc AppError unit :=
  validated ← lift (ValidUserUpdateReq_try_from req);
  _ ← in_transaction "Failed to update user: " (other (update_user id validated));
  on_cache (evict (as_cache state) (user_cache_key id)).

Definition delete_user_account (state : AppState) (id : Uuid) : svc AppError unit :=
  _ ← in_transaction "Failed to delete user: " (other (delete_user id));
  on_cache (evict (as_cache state) (user_cache_key id)).

(** ** Sessions *)

Definition unauthorized {A} (o : outcome AuthError A) : svc AppError A :=
  lift (omap_err (λ e, Unauthorized (auth_error_display e)) o).
(** The tokens of a user; [jti] is drawn at random. *)
Definition access_token_of (state : AppState) (user : UserEntity) : svc AppError string :=
  now ← app_now;
  unauthorized (generate_access_token (as_auth_config state) now (us_id user) (us_username user) (us_role user)).
Definition login_user (state : AppState) (req : UserLoginReq) : svc AppError JwtTokens :=
  username ← lift (Username_new (ul_username req));
  user ← on_pool (get_user_by_username username);
  if negb (us_email_verified user) then fail (Forbidden "Please verify your email before logging in")
  else
    _ ← lift (verify_password (ul_password req) (MkHashedPassword (us_password user)));
    access_token ← access_token_of state user;
    now ← app_now;
    jti ← draw uuid_gen;
    refresh_token ← unauthorized (generate_refresh_token (as_auth_config state) now jti (us_id user));
    mret {| access_token := access_token; refresh_token := refresh_token |}.

Definition refresh_session (state : AppState) (req : UserRefreshReq) : svc AppError UserRefreshRes :=
  now ← app_now;
  claims ← unauthorized (validate_refresh_token (as_auth_config state) now (uf_refresh_token req));
  user ← on_pool (get_user_by_id (rc_sub claims));
  access_token ← access_token_of state user;
  mret {| uf_access_token := access_token |}.

(** ** Passwords *)

Definition reset_email (to token : string) : EmailMessage := {|
  em_to := to; em_subject := "Reset your password";
  em_body_html := "<h1>Password Reset</h1><p>Your password reset token is: <strong>" +:+ token +:+
    "</strong></p>" |}.
Definition forgot_password (req : ForgotPasswordReq) : svc AppError unit :=
  email ← lift (Email_new (fp_email req));
  catch (E' := AppError) (on_pool (get_user_by_email email))
    (λ user,
       token ← generate_verification_token;
       now ← app_now;
       _ ← in_transaction "Failed to create password reset token: "
             (other (create_password_reset_token (us_id user) token (now + 24 * 3600)));
       send_or_log (reset_email (fp_email req) token))
    (λ _, mret tt).

Definition reset_password_tx (token_entity : PasswordResetTokenEntity) (hashed : HashedPassword)
    : M (conn user_tables) TxError unit :=
  _ ← other (update_user_password (rt_user_id token_entity) hashed);
  other (mark_reset_token_used (rt_id token_entity)).
Definition reset_password (req : ResetPasswordReq) : svc AppError unit :=
  token_entity ← on_pool (get_valid_password_reset_token (rp_token req));
  validated_password ← lift (Password_new (rp_new_password req));
  hashed_password ← hash_password (password_str validated_password);
  in_transaction "Failed to reset password: " (reset_password_tx token_entity hashed_password).

Definition change_password (state : AppState) (user_id : Uuid) (req : ChangePasswordReq) : svc AppError unit :=
  user ← on_pool (get_user_by_id user_id);
  _ ← lift (verify_password (cp_current_password req) (MkHashedPassword (us_password user)));
  if bool_decide (cp_current_password req = cp_new_password req) then
    fail (BadRequest "New password must be different from the current password")
  else
    validated_password ← lift (Password_new (cp_new_password req));
    hashed_password ← hash_password (password_str validated_password);
    _ ← in_transaction "Failed to change password: "
          (other (update_user_password user_id hashed_password));
    on_cache (evict (as_cache state) (user_cache_key user_id)).

(** ** The current user of a request (lib.rs), cached *)

Definition get_by_id (state : AppState) (id : Uuid) : svc AppError CurrentUser :=
  cached ← on_cache (cache_get current_user_of_json (as_cache state) (user_cache_key id));
  match cached with
  | Some u => mret u
  | None =>
      user ← on_pool (get_user_by_id id);
      let current_user := {| cu_id := us_id user; cu_role := us_role user |} in
      _ ← on_cache (cache_set current_user_to_json (as_cache state) (user_cache_key id) current_user);
      mret current_user
  end.

(** ** The protected handlers (routes.rs), for the user the middleware found *)

Definition route_get_one (id : Uuid) (current_user : CurrentUser) : svc AppError UserRes :=
  _ ← lift (require_access current_user id);
  get_user id.
Definition route_update (state : AppState) (id : Uuid) (current_user : CurrentUser) (req : UserUpdateReq)
    : svc AppError unit :=
  _ ← lift (require_access current_user id);
  update_user_account state id req.
Definition route_delete_user (state : AppState) (id : Uuid) (current_user : CurrentUser) : svc AppError unit :=
  _ ← lift (require_access current_user id);
  delete_user_account state id.
Definition route_change_password (state : AppState) (current_user : CurrentUser) (req : ChangePasswordReq)
    : svc AppError unit :=
  change_password state (cu_id current_user) req.

(** ** The gRPC endpoint (grpc_service.rs) *)

Inductive Status : Type :=
| StatusInvalidArgument (msg : string)
| StatusNotFound (msg : string)
| StatusInternal (msg : string).
Record GetUserResponse := {
  gr_id : string; gr_username : string; gr_email : string; gr_role : string; gr_email_verified : bool }.
(** The text of a [uuid] parse error is an argument. *)
Definition grpc_get_user (parse_error : string → string) (user_id : string) : svc Status GetUserResponse :=
  match uuid_parse user_id with
  | None => fail (StatusInvalidArgument ("Invalid UUID: " +:+ parse_error user_id))
  | Some id =>
      user ← map_err (λ e, match e with
                           | NotFound msg => StatusNotFound msg
                           | other => StatusInternal (app_error_display other)
                           end) (on_pool (get_user_by_id id));
      mret {| gr_id := uuid_to_string (us_id user); gr_username := us_username user;
              gr_email := us_email user; gr_role := role_str (us_role user);
              gr_email_verified := us_email_verified user |}
  end.

(** ** The routes (routes.rs) *)

Inductive user_call : Type :=
| RqRegister (req : UserCreateReq)
| RqLogin (req : UserLoginReq)
| RqRefreshToken (req : UserRefreshReq)
| RqVerifyEmail (req : VerifyEmailReq)
| RqForgotPassword (req : ForgotPasswordReq)
| RqResetPassword (req : ResetPasswordReq)
| RqGetOne (id : Uuid)
| RqUpdate (id : Uuid) (req : UserUpdateReq)
| RqDeleteUser (id : Uuid)
| RqChangePassword (req : ChangePasswordReq).
(** The bodies of the answers. *)
Inductive user_response : Type :=
| AnMessage (r : Z * MessageResponse)
| AnTokens (r : JwtTokens)
| AnAccess (r : UserRefreshRes)
| AnUser (r : UserRes).
Definition reported (status : Z) (message : string) (m : svc AppError unit) : svc AppError user_response :=
  answered (λ _, AnMessage (success status message)) m.
Definition user_router (state : AppState) (rq : user_call) : routed (db user_tables ident_ext) AppError user_response :=
  match rq with
  | RqRegister req => PublicRoute (reported 201 "User registered successfully" (create_user_account req))
  | RqLogin req => PublicRoute (answered AnTokens (login_user state req))
  | RqRefreshToken req => PublicRoute (answered AnAccess (refresh_session state req))
  | RqVerifyEmail req => PublicRoute (reported 200 "Email verified successfully" (verify_email req))
  | RqForgotPassword req => PublicRoute
      (reported 200 "If the email exists, a password reset link has been sent" (forgot_password req))
  | RqResetPassword req => PublicRoute (reported 200 "Password has been reset successfully" (reset_password req))
  | RqGetOne id => ProtectedRoute (λ user, answered AnUser (route_get_one id user))
  | RqUpdate id req => ProtectedRoute (λ user, reported 200 "User updated successfully" (route_update state id user req))
  | RqDeleteUser id => ProtectedRoute (λ user, reported 200 "User deleted successfully" (route_delete_user state id user))
  | RqChangePassword req => ProtectedRoute
      (λ user, reported 200 "Password changed successfully" (route_change_password state user req))
  end.
(** The middleware of this service looks the user up. *)
Definition user_routes (state : AppState) (header : option (option string)) (rq : user_call)
    : M (db user_tables ident_ext) (AuthMiddlewareError + AppError) user_response := λ s,
  run_route (as_auth_config state) (Some (get_by_id state)) (e_now (d_env s)) header (user_router state rq) s.
End service.
