(* ===== verification/UserProps.v ===== *)
(** * Identity service: what a request does to the tables

    Every request is at most one step of an abstract machine on the tables ([effect]), whatever
    statement is lost; the invariants follow from the machine. *)

From S2P Require Import Prelude RustStr Externals Sample Errors NewTypes Regex Auth Db Requests Redis.
From S2P Require Import UserTypes UserRepo UserService.

Local Open Scope Z_scope.

Section effects.
Context `{IdentityApi}.
Implicit Types (s : db user_tables ident_ext) (t : user_tables).

(** ** Requests *)

Inductive identity_request : Type :=
| Register (req : UserCreateReq)
| VerifyEmail (req : VerifyEmailReq)
| Login (req : UserLoginReq)
| Refresh (req : UserRefreshReq)
| ForgotPassword (req : ForgotPasswordReq)
| ResetPassword (req : ResetPasswordReq)
| CurrentUserOf (id : Uuid)
| GetOne (id : Uuid) (user : CurrentUser)
| Update (id : Uuid) (user : CurrentUser) (req : UserUpdateReq)
| Delete (id : Uuid) (user : CurrentUser)
| ChangePassword (user : CurrentUser) (req : ChangePasswordReq).

Definition handle (state : AppState) (rq : identity_request) : M (db user_tables ident_ext) AppError unit :=
  match rq with
  | Register req => create_user_account req
  | VerifyEmail req => verify_email req
  | Login req => _ ← login_user state req; mret tt
  | Refresh req => _ ← refresh_session state req; mret tt
  | ForgotPassword req => forgot_password req
  | ResetPassword req => reset_password req
  | CurrentUserOf id => _ ← get_by_id state id; mret tt
  | GetOne id user => _ ← route_get_one id user; mret tt
  | Update id user req => route_update state id user req
  | Delete id user => route_delete_user state id user
  | ChangePassword user req => route_change_password state user req
  end.

(** ** The machine *)

Definition DAY : Z := 24 * 3600.
(** A hash of the password with a salt of the generator. *)
Definition fresh_hash (password : string) (h : HashedPassword) : Prop :=
  ∃ n, argon2_hash password (random_salt n) = inr (hash_str h).

Definition email_verified_tables (now : Z) (e : EmailVerificationTokenEntity) t : user_tables :=
  MkUserTables (update_where (is_user (ev_user_id e)) (verified now) (ut_users t))
    (update_where (λ x, bool_decide (ev_id x = ev_id e)) (email_token_used now) (ut_email_tokens t))
    (ut_reset_tokens t).
Definition password_reset_tables (now : Z) (e : PasswordResetTokenEntity) (h : HashedPassword) t
    : user_tables :=
  MkUserTables (update_where (is_user (rt_user_id e)) (with_password h now) (ut_users t))
    (ut_email_tokens t)
    (update_where (λ x, bool_decide (rt_id x = rt_id e)) (reset_token_used now) (ut_reset_tokens t)).

Definition effect (now : Z) (rq : identity_request) (t t' : user_tables) : Prop :=
  match rq with
  | Register req => ∃ v h n id1 id2 t1,
      ValidUserCreateReq_try_from req = Ok v ∧ fresh_hash (password_str (vc_password v)) h ∧
      insert_user v h now id1 t = Ok (id1, t1) ∧
      insert_email_token id1 (hex (random_bytes n)) (now + DAY) now id2 t1 = Ok (1%nat, t')
  | VerifyEmail req => ∃ e,
      List.find (valid_email_token (ve_token req) now) (ut_email_tokens t) = Some e ∧
      t' = email_verified_tables now e t
  | ForgotPassword req => ∃ email u n id,
      Email_new (fp_email req) = Ok email ∧
      find_live (λ u, bool_decide (us_email u = email_str email)) t = Some u ∧
      insert_reset_token (us_id u) (hex (random_bytes n)) (now + DAY) now id t = Ok (1%nat, t')
  | ResetPassword req => ∃ e p h,
      List.find (valid_reset_token (rp_token req) now) (ut_reset_tokens t) = Some e ∧
      Password_new (rp_new_password req) = Ok p ∧ fresh_hash (password_str p) h ∧
      t' = password_reset_tables now e h t
  | Update id user req => ∃ v id',
      require_access user id = Ok tt ∧ ValidUserUpdateReq_try_from req = Ok v ∧
      update_user_stmt id v now id' t = Ok (1%nat, t')
  | Delete id user =>
      require_access user id = Ok tt ∧
      t' = set_users (update_where (λ u, is_user id u && is_live u) (deleted now) (ut_users t)) t
  | ChangePassword user req => ∃ u p h,
      find_live (is_user (cu_id user)) t = Some u ∧
      verify_password (cp_current_password req) (MkHashedPassword (us_password u)) = Ok tt ∧
      cp_current_password req ≠ cp_new_password req ∧
      Password_new (cp_new_password req) = Ok p ∧ fresh_hash (password_str p) h ∧
      t' = set_users (update_where (is_user (cu_id user)) (with_password h now) (ut_users t)) t
  | Login _ | Refresh _ | CurrentUserOf _ | GetOne _ _ => False
  end.

(** ** Code that leaves the tables and the clock alone *)

Lemma quiet_draw {E A} (f : N → A) : keeps quiet (draw (E := E) f).
Proof. by intros s o s' [= _ <-]. Qed.
Lemma quiet_on_cache {E A} (m : M redis E A) : keeps quiet (on_cache m).
Proof. apply (quiet_zoom ie_redis (λ r x, MkIdentExt r (ie_mailer x))). Qed.
Lemma quiet_send_or_log msg : keeps quiet (send_or_log msg).
Proof.
  apply keeps_catch; [apply _| |intros; apply keeps_ret, _..].
  apply (quiet_zoom ie_mailer (λ m x, MkIdentExt (ie_redis x) m)).
Qed.
Lemma quiet_hash password : keeps quiet (hash_password password).
Proof. apply keeps_bind; [apply _|apply quiet_draw|]. intros salt. apply keeps_lift, _. Qed.
Lemma quiet_token {E} : keeps quiet (generate_verification_token (E := E)).
Proof. apply quiet_draw. Qed.
#[local] Hint Resolve quiet_token quiet_draw quiet_on_cache quiet_send_or_log quiet_hash : quiet.

Lemma hash_fresh password h s s' : hash_password password s = (Ok h, s') → fresh_hash password h.
Proof.
  intros (salt & s1 & [= <- _] & [Hr _]%lift_ok)%bind_ok.
  destruct (argon2_hash password _) as [e|x] eqn:Eh; [done|]. injection Hr as <-. by eexists.
Qed.

(** ** Every request is at most one step *)

(** Requests that may succeed without a step: those that only read, and a forgotten password of an
    address without a live account - or whose account is not found because the lookup is lost. *)
Definition silent s (rq : identity_request) : bool :=
  match rq with
  | Login _ | Refresh _ | CurrentUserOf _ | GetOne _ _ => true
  | ForgotPassword req =>
      match Email_new (fp_email req) with
      | Ok email =>
          match find_live (λ u, bool_decide (us_email u = email_str email)) (d_committed s) with
          | Some _ => next_lost (d_env s)
          | None => true
          end
      | _ => false
      end
  | _ => false
  end.
Abbreviation request_stepped rq s := (stepped (λ now, effect now rq) (silent s rq) s).

(** The bodies of the transactions. *)
Lemma create_account_ok v h token exp c u c' :
  create_account_tx v h token exp c = (Ok u, c') →
  c_status c' = TxActive ∧ ∃ id1 id2 t1, insert_user v h (e_now (c_env c)) id1 (c_tables c) = Ok (id1, t1) ∧
    insert_email_token id1 token exp (e_now (c_env c)) id2 t1 = Ok (1%nat, c_tables c').
Proof.
  intros (user_id & c1 & (_ & Hs & Hn & id & E)%map_err_ok%map_err_ok%exec_ok & Hr)%bind_ok.
  apply map_err_ok, statement_ok in Hr as (id2 & n & c2 & E2 & Hs2 & Hn2 & [-> ->]%assert_one_ok).
  split; [done|]. exists id, id2, (c_tables c1). rewrite Hn in E2.
  assert (user_id = id) as -> by (unfold insert_user in E; inv_ok E; by simplify_eq). done.
Qed.

Lemma create_account_stepped state req s o s' :
  handle state (Register req) s = (o, s') → request_stepped (Register req) s o s'.
Proof.
  intros Hr. unfold handle, create_user_account in Hr.
  quiet_step Hr v Hv. apply lift_ok in Hv as [Hv ->].
  quiet_step Hr h Hh. apply hash_fresh in Hh.
  quiet_step Hr token Ht. injection Ht as <- _.
  quiet_step Hr now Hnow. injection Hnow as <- _.
  eapply stepped_transaction in Hr; [exact Hr|reflexivity| |intros; apply quiet_send_or_log].
  intros e a c He Hc. apply create_account_ok in Hc as (Hs & id1 & id2 & t1 & Hi & Hm). simpl in *.
  rewrite He in Hi, Hm. rewrite <-(proj2 Hq2) in Hm.
  split; [done|]. exists v, h. eexists _, id1, id2, t1. split_and!; [done..|exact Hm].
Qed.

Lemma verify_email_stepped state req s o s' :
  handle state (VerifyEmail req) s = (o, s') → request_stepped (VerifyEmail req) s o s'.
Proof.
  intros Hr. unfold handle, verify_email in Hr. quiet_step Hr e He. apply pool_read in He.
  rewrite <-(proj1 Hq), <-(proj2 Hq) in He. rewrite <-bind_ret_same in Hr.
  eapply stepped_transaction in Hr; [exact Hr|reflexivity| |intros; apply keeps_ret, _].
  intros env u c Hn Hc. apply bind_ok in Hc as (u1 & c1 & Hc1 & Hc2).
  apply map_err_ok, statement_ok in Hc1 as (id1 & n1 & c2 & E1 & Hs1 & Hn1 & [-> ->]%assert_one_ok).
  apply map_err_ok, statement_ok in Hc2 as (id2 & n2 & c3 & E2 & Hs2 & Hn2 & [-> ->]%assert_one_ok).
  split; [done|]. exists e. split; [exact He|]. simpl in *. rewrite Hn1, Hn in E2. rewrite Hn in E1.
  injection E1 as _ E1. injection E2 as _ E2. by rewrite <-E2, <-E1.
Qed.

Lemma delete_stepped state id user s o s' :
  handle state (Delete id user) s = (o, s') → request_stepped (Delete id user) s o s'.
Proof.
  intros Hr. unfold handle, route_delete_user in Hr. quiet_step Hr x Hx. apply lift_ok in Hx as [Hx ->].
  unfold delete_user_account in Hr.
  eapply stepped_transaction in Hr; [exact Hr|reflexivity| |intros; apply quiet_on_cache].
  intros env u c Hn Hc.
  apply map_err_ok, statement_ok in Hc as (id1 & n1 & c2 & E1 & Hs1 & Hn1 & Ha). destruct x.
  apply exactly_one_ok in Ha as [-> ->].
  split; [done|]. split; [done|]. simpl in *. rewrite Hn in E1. by injection E1.
Qed.

Lemma update_stepped state id user req s o s' :
  handle state (Update id user req) s = (o, s') → request_stepped (Update id user req) s o s'.
Proof.
  intros Hr. unfold handle, route_update, update_user_account in Hr.
  quiet_step Hr x Hx. apply lift_ok in Hx as [Hx ->].
  quiet_step Hr v Hv. apply lift_ok in Hv as [Hv ->].
  eapply stepped_transaction in Hr; [exact Hr|reflexivity| |intros; apply quiet_on_cache].
  intros env u c Hn Hc.
  apply map_err_ok, statement_ok in Hc as (id1 & n1 & c2 & E1 & Hs1 & Hn1 & Ha). destruct x.
  apply exactly_one_ok in Ha as [-> ->].
  split; [done|]. simpl in *. rewrite Hn in E1. by exists v, id1.
Qed.

Lemma forgot_password_stepped state req s o s' :
  handle state (ForgotPassword req) s = (o, s') → request_stepped (ForgotPassword req) s o s'.
Proof.
  intros Hr. unfold handle, forgot_password in Hr. quiet_step Hr email He. apply lift_ok in He as [He ->].
  unfold catch in Hr. destruct (on_pool (get_user_by_email email) s0) as [ou s1] eqn:Eu.
  pose proof Eu as Hq1. apply quiet_pool in Hq1.
  destruct ou as [u|err|]; [|injection Hr as <- <-; apply stepped_quiet; auto..].
  2:{ right. apply pool_read_fails in Eu. simpl. rewrite He. by destruct Eu as [->| ->]; [|case_match]. }
  apply pool_read in Eu. apply (stepped_from _ _ _ s1 _ _ Hq1). rewrite <-(proj1 Hq1) in Eu.
  quiet_step Hr token Ht. injection Ht as <- _.
  quiet_step Hr now Hnow. injection Hnow as <- _.
  eapply stepped_transaction in Hr; [exact Hr|reflexivity| |intros; apply quiet_send_or_log].
  intros env x c Hn Hc.
  apply map_err_ok, statement_ok in Hc as (id1 & n1 & c2 & E1 & Hs1 & Hn1 & [-> ->]%assert_one_ok).
  split; [done|]. simpl in *. rewrite Hn in E1. rewrite <-(proj2 Hq2) in E1.
  exists email, u. eexists _, id1. split_and!; [done| |exact E1]. by rewrite (proj1 Hq2), (proj1 Hq0).
Qed.

Lemma change_password_stepped state user req s o s' :
  handle state (ChangePassword user req) s = (o, s') → request_stepped (ChangePassword user req) s o s'.
Proof.
  intros Hr. unfold handle, route_change_password, change_password in Hr.
  quiet_step Hr u Hu. apply pool_read in Hu. rewrite <-(proj1 Hq) in Hu.
  quiet_step Hr x Hx. apply lift_ok in Hx as [Hx ->]. destruct x.
  case_bool_decide as Hne; [injection Hr as <- <-; apply stepped_quiet; auto; reflexivity|].
  quiet_step Hr p Hp. apply lift_ok in Hp as [Hp ->].
  quiet_step Hr h Hh. apply hash_fresh in Hh.
  eapply stepped_transaction in Hr; [exact Hr|reflexivity| |intros; apply quiet_on_cache].
  intros env x c Hn Hc.
  apply map_err_ok, statement_ok in Hc as (id1 & n1 & c2 & E1 & Hs1 & Hn1 & [-> ->]%assert_one_ok).
  split; [done|]. simpl in *. rewrite Hn in E1. injection E1 as _ E1.
  exists u, p, h. split_and!; [|done..|by rewrite <-E1]. by rewrite (proj1 Hq2).
Qed.

Lemma reset_password_stepped state req s o s' :
  handle state (ResetPassword req) s = (o, s') → request_stepped (ResetPassword req) s o s'.
Proof.
  intros Hr. unfold handle, reset_password in Hr. quiet_step Hr e He. apply pool_read in He.
  rewrite <-(proj1 Hq), <-(proj2 Hq) in He.
  quiet_step Hr p Hp. apply lift_ok in Hp as [Hp ->].
  quiet_step Hr h Hh. apply hash_fresh in Hh. rewrite <-bind_ret_same in Hr.
  eapply stepped_transaction in Hr; [exact Hr|reflexivity| |intros; apply keeps_ret, _].
  intros env u c Hn Hc. apply bind_ok in Hc as (u1 & c1 & Hc1 & Hc2).
  apply map_err_ok, statement_ok in Hc1 as (id1 & n1 & c2 & E1 & Hs1 & Hn1 & [-> ->]%assert_one_ok).
  apply map_err_ok, statement_ok in Hc2 as (id2 & n2 & c3 & E2 & Hs2 & Hn2 & [-> ->]%assert_one_ok).
  split; [done|]. simpl in *. rewrite Hn1, Hn in E2. rewrite Hn in E1.
  exists e, p, h. split_and!; [|done|done|].
  - by rewrite (proj1 Hq1), (proj2 Hq1).
  - injection E1 as _ E1. injection E2 as _ E2. by rewrite <-E2, <-E1.
Qed.

Lemma handle_stepped state rq s o s' : handle state rq s = (o, s') → request_stepped rq s o s'.
Proof.
  destruct rq; intros Hr;
    [by eapply create_account_stepped|by eapply verify_email_stepped| | |by eapply forgot_password_stepped
    |by eapply reset_password_stepped| | |by eapply update_stepped|by eapply delete_stepped
    |by eapply change_password_stepped]; apply stepped_quiet; auto; revert s o s' Hr.
  - change (keeps quiet (handle state (Login req))).
    unfold handle, login_user, access_token_of, unauthorized. quiet_tac.
  - change (keeps quiet (handle state (Refresh req))).
    unfold handle, refresh_session, access_token_of, unauthorized. quiet_tac.
  - change (keeps quiet (handle state (CurrentUserOf id))). unfold handle, get_by_id. quiet_tac.
  - change (keeps quiet (handle state (GetOne id user))). unfold handle, route_get_one, get_user. quiet_tac.
Qed.

(** ** The routes *)

(** The request that a call is, for the user of the middleware. *)
Definition request_of (rq : user_call) (user : CurrentUser) : identity_request :=
  match rq with
  | RqRegister req => Register req | RqLogin req => Login req | RqRefreshToken req => Refresh req
  | RqVerifyEmail req => VerifyEmail req | RqForgotPassword req => ForgotPassword req
  | RqResetPassword req => ResetPassword req
  | RqGetOne id => GetOne id user | RqUpdate id req => Update id user req | RqDeleteUser id => Delete id user
  | RqChangePassword req => ChangePassword user req
  end.
Definition protected_call (rq : user_call) : bool :=
  match rq with RqGetOne _ | RqUpdate _ _ | RqDeleteUser _ | RqChangePassword _ => true | _ => false end.

Lemma request_of_router state rq who : match user_router state rq with
  | PublicRoute m => protected_call rq = false ∧
      ∀ s o s', m s = (o, s') → ∃ o1, handle state (request_of rq who) s = (o1, s') ∧ is_ok o1 = is_ok o
  | ProtectedRoute m => protected_call rq = true ∧
      ∀ user s o s', m user s = (o, s') → ∃ o1, handle state (request_of rq user) s = (o1, s') ∧ is_ok o1 = is_ok o
  end.
Proof.
  assert (∀ A (m : M (db user_tables ident_ext) AppError A) s o s', m s = (o, s') →
    ∃ o1, (_ ← m; mret tt) s = (o1, s') ∧ is_ok o1 = is_ok o) as Hdone.
  { intros A m s o s' E. unfold mbind, M_bind. rewrite E. destruct o; eauto. }
  destruct rq; simpl; (split; [done|]); intros;
    match goal with H : _ = _ |- _ => apply answered_run in H as (o1 & Hr & <-) end;
    first [by apply Hdone|by exists o1].
Qed.

(** A request on the routes leaves the accounts alone, or is one request of the service on the same
    accounts, for the user the middleware found if the route is protected. *)
Lemma user_routes_handled state header rq s o s' :
  user_routes state header rq s = (o, s') →
  (is_ok o = false ∧ d_committed s' = d_committed s) ∨
  ∃ user s1 o1, quiet s s1 ∧ handle state (request_of rq user) s1 = (o1, s') ∧ is_ok o1 = is_ok o ∧
    (protected_call rq = true →
       admitted (as_auth_config state) (Some (get_by_id state)) (e_now (d_env s)) header s user s1).
Proof.
  assert (∀ id s o s', get_by_id state id s = (o, s') → quiet s s') as Hq.
  { intros id. change (keeps quiet (get_by_id state id)). unfold get_by_id. quiet_tac. }
  intros Hr. unfold user_routes in Hr. pose proof (λ who, request_of_router state rq who) as Hroute.
  destruct (user_router state rq) as [m|m]; simpl in Hr.
  - right. unfold map_err in Hr. destruct (m s) as [o1 s1] eqn:Em. injection Hr as <- <-.
    set (nobody := {| cu_id := uuid_gen 0; cu_role := Buyer |}). destruct (Hroute nobody) as [Hp Hm].
    destruct (Hm _ _ _ Em) as (o2 & Hh & E). exists nobody, s, o2. split_and!; [done|done|by rewrite is_ok_omap_err|congruence].
  - destruct (Hroute {| cu_id := uuid_gen 0; cu_role := Buyer |}) as [_ Hm].
    apply protected_inv in Hr as [[Ho Hr]|(user & s1 & o1 & Ha & Hr & ->)].
    + left. split; [done|]. destruct Hr as [->|(g & id & o1 & [= <-] & Hg)]; [done|]. by apply Hq in Hg as [? _].
    + right. destruct (Hm _ _ _ _ Hr) as (o2 & Hh & E2). exists user, s1, o2.
      split_and!; [|done|by rewrite is_ok_omap_err|done]. destruct Ha as (t & claims & _ & _ & Hg). by eapply Hq.
Qed.
End effects.
