(* ===== verification/UserTheorems.v ===== *)
(** * Identity service: the theorems

    The invariant of the tables along runs, and what the requests guarantee: who may change an
    account, and that a reset token works once. *)

From S2P Require Import Prelude RustStr Regex Externals Errors NewTypes Auth Db Requests Redis UserTypes UserRepo UserService UserProps.

Local Open Scope Z_scope.

Section invariant.
Context `{IdentityApi}.
Implicit Types (s : db user_tables ident_ext) (t : user_tables) (u : UserEntity).

(** ** Well-formed tables *)

Record users_ok (t : user_tables) : Prop := {
  ok_ids : NoDup (us_id <$> ut_users t);
  ok_usernames : NoDup (us_username <$> ut_users t);
  ok_emails : NoDup (us_email <$> ut_users t);
  ok_email_tokens : NoDup (ev_id <$> ut_email_tokens t);
  ok_reset_tokens : NoDup (rt_id <$> ut_reset_tokens t);
  ok_email_texts : NoDup (ev_token <$> ut_email_tokens t);
  ok_reset_texts : NoDup (rt_token <$> ut_reset_tokens t);
  ok_email_token_users e : e ∈ ut_email_tokens t → ∃ u, u ∈ ut_users t ∧ us_id u = ev_user_id e;
  ok_reset_token_users e : e ∈ ut_reset_tokens t → ∃ u, u ∈ ut_users t ∧ us_id u = rt_user_id e;
  (** A verified user has used a token that was issued to them. *)
  ok_verified u : u ∈ ut_users t → us_email_verified u = true →
    ∃ e, e ∈ ut_email_tokens t ∧ ev_user_id e = us_id u ∧ ev_used_at e ≠ None;
  (** Only hashes of acceptable passwords are stored. *)
  ok_passwords u : u ∈ ut_users t →
    ∃ p x h, Password_new p = Ok x ∧ fresh_hash p h ∧ us_password u = hash_str h }.

(** Updates of rows that keep their identifier. *)
Lemma updated_row {A} (id : A → Uuid) (p : A → bool) (f : A → A) (l : list A) x y :
  (∀ x, p x = true → id (f x) = id x) → NoDup (id <$> l) → x ∈ l → y ∈ update_where p f l → id y = id x →
  y = if p x then f x else x.
Proof.
  intros Hf Hid Hx (z & Hz & ->)%elem_of_update_where Hy.
  assert (z = x) as ->; [|done]. eapply NoDup_fmap_inj_in; [exact Hid|done|done|].
  rewrite <-Hy. destruct (p z) eqn:E; [by rewrite Hf|done].
Qed.

Lemma users_ok_empty : users_ok (MkUserTables [] [] []).
Proof. split; simpl; try constructor; intros x Hx; by apply elem_of_nil in Hx. Qed.

(** The parts of the invariant that do not look at the contents of a user. *)
Lemma users_ok_update t (p : UserEntity → bool) f evs rts :
  users_ok t →
  (∀ u, p u = true → us_id (f u) = us_id u) →
  NoDup (us_username <$> update_where p f (ut_users t)) →
  NoDup (us_email <$> update_where p f (ut_users t)) →
  (ev_id <$> evs = ev_id <$> ut_email_tokens t) → (rt_id <$> rts = rt_id <$> ut_reset_tokens t) →
  (ev_token <$> evs = ev_token <$> ut_email_tokens t) → (rt_token <$> rts = rt_token <$> ut_reset_tokens t) →
  (∀ e, e ∈ evs → ∃ e0, e0 ∈ ut_email_tokens t ∧ ev_user_id e0 = ev_user_id e) →
  (∀ e, e ∈ rts → ∃ e0, e0 ∈ ut_reset_tokens t ∧ rt_user_id e0 = rt_user_id e) →
  (∀ u, u ∈ ut_users t → us_email_verified (if p u then f u else u) = true →
     ∃ e, e ∈ evs ∧ ev_user_id e = us_id u ∧ ev_used_at e ≠ None) →
  (∀ u, u ∈ ut_users t → p u = true →
     ∃ q x h, Password_new q = Ok x ∧ fresh_hash q h ∧ us_password (f u) = hash_str h) →
  users_ok (MkUserTables (update_where p f (ut_users t)) evs rts).
Proof.
  intros Hok Hf Hnames Hemails Hevs Hrts Hetexts Htexts Hevu Hrtu Hver Hpw.
  assert (∀ u, us_id (if p u then f u else u) = us_id u) as Hfid by (intros u; destruct (p u) eqn:E; auto).
  assert (∀ id, (∃ u, u ∈ ut_users t ∧ us_id u = id) →
    ∃ u, u ∈ update_where p f (ut_users t) ∧ us_id u = id) as Hkept.
  { intros id (u & Hu & <-). exists (if p u then f u else u). rewrite Hfid, elem_of_update_where. eauto. }
  destruct Hok as [Hids _ _ Het Hrt Hex Htx Heu Hru Hv Hp]. split; simpl; try done.
  - by rewrite (fmap_update_where p f us_id) by done.
  - by rewrite Hevs.
  - by rewrite Hrts.
  - by rewrite Hetexts.
  - by rewrite Htexts.
  - intros e (e0 & He & <-)%Hevu. by apply Hkept, Heu.
  - intros e (e0 & He & <-)%Hrtu. by apply Hkept, Hru.
  - intros u (u0 & Hu & ->)%elem_of_update_where Hver'. rewrite Hfid. by apply Hver.
  - intros u (u0 & Hu & ->)%elem_of_update_where. destruct (p u0) eqn:E; [by apply Hpw|by apply Hp].
Qed.
End invariant.

Section steps.
Context `{IdentityApi}.
Implicit Types (t : user_tables) (u : UserEntity).

Lemma existsb_not_in {A B} `{EqDecision B} (f : A → B) b (l : list A) :
  existsb (λ x, bool_decide (f x = b)) l = false → b ∉ (f <$> l).
Proof.
  intros He (x & -> & Hx)%list_elem_of_fmap.
  assert (existsb (λ x0, bool_decide (f x0 = f x)) l = true) as E; [|congruence].
  apply existsb_exists. exists x. rewrite <-list_elem_of_In, bool_decide_eq_true. done.
Qed.

Lemma insert_user_ok v h now id t id1 t1 p x :
  Password_new p = Ok x → fresh_hash p h → insert_user v h now id t = Ok (id1, t1) →
  users_ok t → id1 = id ∧ users_ok t1 ∧ ∃ u, ut_users t1 = ut_users t ++ [u] ∧ us_id u = id ∧
    us_email_verified u = false ∧ (id ∉ (us_id <$> ut_users t)) ∧ ut_email_tokens t1 = ut_email_tokens t ∧
    ut_reset_tokens t1 = ut_reset_tokens t.
Proof.
  intros Hp Hh Hi Hok. unfold insert_user in Hi. inv_ok Hi. simplify_eq.
  repeat match goal with
         | H : varchar _ _ _ = Ok _ |- _ => apply varchar_ok in H as [-> _]
         | H : unique _ _ _ = Ok _ |- _ => apply unique_ok, existsb_not_in in H
         end.
  split; [done|]. split; [|eexists; by split_and!]. destruct Hok.
  split; simpl; rewrite ?fmap_app; try (by apply NoDup_fmap_snoc); try done.
  all: try (apply NoDup_app; split_and!; [done| |apply NoDup_singleton];
    intros y Hy ->%list_elem_of_singleton; done).
  - intros e He. destruct (ok_email_token_users0 e He) as (u & Hu & E). exists u. set_solver.
  - intros e He. destruct (ok_reset_token_users0 e He) as (u & Hu & E). exists u. set_solver.
  - intros u [Hu| ->%list_elem_of_singleton]%elem_of_app; [by apply ok_verified0|done].
  - intros u [Hu| ->%list_elem_of_singleton]%elem_of_app; [by apply ok_passwords0|]. by exists p, x, h.
Qed.

Lemma insert_email_token_ok uid token exp now id t n t1 :
  insert_email_token uid token exp now id t = Ok (n, t1) → users_ok t → users_ok t1 ∧
  ∃ e, t1 = set_email_tokens (ut_email_tokens t ++ [e]) t ∧ ev_user_id e = uid ∧ ev_used_at e = None ∧
    ev_token e = token ∧ ev_expires_at e = exp ∧ (ev_id e ∉ (ev_id <$> ut_email_tokens t)).
Proof.
  intros Hi Hok. unfold insert_email_token, user_reference in Hi. inv_ok Hi. simplify_eq.
  repeat match goal with
         | H : varchar _ _ _ = Ok _ |- _ => apply varchar_ok in H as [-> _]
         | H : unique _ _ _ = Ok _ |- _ => apply unique_ok, existsb_not_in in H
         end.
  apply existsb_exists in Hif as (u0 & Hu0 & Hid%bool_decide_eq_true). apply list_elem_of_In in Hu0.
  split; [|eexists; split_and!; done]. destruct Hok.
  split; simpl; try done; [by apply NoDup_fmap_snoc..| |].
  - intros e [He| ->%list_elem_of_singleton]%elem_of_app; [by apply ok_email_token_users0|by exists u0].
  - intros u Hu Hv. destruct (ok_verified0 u Hu Hv) as (e & He & Hrest). exists e. set_solver.
Qed.

Lemma insert_reset_token_ok uid token exp now id t n t1 :
  insert_reset_token uid token exp now id t = Ok (n, t1) → users_ok t → users_ok t1 ∧
  ∃ e, t1 = set_reset_tokens (ut_reset_tokens t ++ [e]) t ∧ rt_user_id e = uid ∧ rt_used_at e = None ∧
    rt_token e = token ∧ rt_expires_at e = exp ∧ (rt_id e ∉ (rt_id <$> ut_reset_tokens t)).
Proof.
  intros Hi Hok. unfold insert_reset_token, user_reference in Hi. inv_ok Hi. simplify_eq.
  repeat match goal with
         | H : varchar _ _ _ = Ok _ |- _ => apply varchar_ok in H as [-> _]
         | H : unique _ _ _ = Ok _ |- _ => apply unique_ok, existsb_not_in in H
         end.
  apply existsb_exists in Hif as (u0 & Hu0 & Hid%bool_decide_eq_true). apply list_elem_of_In in Hu0.
  split; [|eexists; split_and!; done]. destruct Hok.
  split; simpl; try done; [by apply NoDup_fmap_snoc..|].
  intros e [He| ->%list_elem_of_singleton]%elem_of_app; [by apply ok_reset_token_users0|by exists u0].
Qed.

(** Columns the update of a row leaves alone. *)
Lemma marked_tokens {A} (p : A → bool) (f : A → A) (g : A → Uuid) (l : list A) e :
  (∀ x, g (f x) = g x) → e ∈ update_where p f l → ∃ e0, e0 ∈ l ∧ g e0 = g e.
Proof.
  intros Hg (x & Hx & ->)%elem_of_update_where. exists x. split; [done|]. by destruct (p x).
Qed.

(** The update of a name that no other row has. *)
Lemma renamed_unique (g : UserEntity → string) (p : UserEntity → bool) f (l : list UserEntity) id name :
  NoDup (us_id <$> l) → NoDup (g <$> l) → (∀ u, p u = true → us_id u = id) → (∀ u, g (f u) = name) →
  (∀ u, u ∈ l → g u = name → us_id u = id) → NoDup (g <$> update_where p f l).
Proof.
  intros Hid Hg Hp Hf Hn. induction l as [|u l IH]; [constructor|].
  rewrite !fmap_cons in *. apply NoDup_cons in Hid as [Hu Hid]. apply NoDup_cons in Hg as [Hgu Hg].
  unfold update_where in *. rewrite !fmap_cons. apply NoDup_cons. split; [|apply IH; [done|done|set_solver]].
  intros (y & Ey & (x & -> & Hx)%list_elem_of_fmap)%list_elem_of_fmap.
  assert (us_id u ≠ us_id x) as Hne by (intros E; apply Hu; rewrite E; by apply list_elem_of_fmap_2).
  destruct (p u) eqn:Epu, (p x) eqn:Epx; rewrite ?Hf in Ey.
  - apply Hne. by rewrite (Hp u), (Hp x).
  - apply Hne. rewrite (Hp u) by done. symmetry. apply Hn; [set_solver|done].
  - apply Hne. rewrite (Hp x) by done. apply Hn; [set_solver|done].
  - apply Hgu. rewrite Ey. by apply list_elem_of_fmap_2.
Qed.

(** An update of users alone, which leaves the verification alone. *)
Lemma users_ok_set t (p : UserEntity → bool) f :
  users_ok t → (∀ u, p u = true → us_id (f u) = us_id u) →
  NoDup (us_username <$> update_where p f (ut_users t)) →
  NoDup (us_email <$> update_where p f (ut_users t)) →
  (∀ u, us_email_verified (f u) = us_email_verified u) →
  (∀ u, u ∈ ut_users t → p u = true →
     ∃ q x h, Password_new q = Ok x ∧ fresh_hash q h ∧ us_password (f u) = hash_str h) →
  users_ok (set_users (update_where p f (ut_users t)) t).
Proof.
  intros Hok Hf Hn He Hv Hp. apply users_ok_update; try done.
  - intros x Hx. by exists x.
  - intros x Hx. by exists x.
  - intros u Hu Hver. apply (ok_verified t Hok u Hu). destruct (p u); [by rewrite <-Hv|done].
Qed.

Lemma verify_email_ok now e t :
  e ∈ ut_email_tokens t → users_ok t → users_ok (email_verified_tables now e t).
Proof.
  intros He Hok. unfold email_verified_tables. apply users_ok_update; try done; try apply Hok.
  - by rewrite fmap_update_where; [apply Hok|].
  - by rewrite fmap_update_where; [apply Hok|].
  - by rewrite fmap_update_where.
  - by rewrite fmap_update_where.
  - intros x. by apply marked_tokens.
  - intros x Hx. by exists x.
  - intros u Hu. destruct (is_user (ev_user_id e) u) eqn:Eu.
    + intros _. apply bool_decide_eq_true in Eu. exists (email_token_used now e). split_and!; [|done|done].
      apply elem_of_update_where. exists e. split; [done|]. by rewrite bool_decide_eq_true_2.
    + intros Hv. destruct (ok_verified t Hok u Hu Hv) as (x & Hx & Hxu & Hus).
      exists (if bool_decide (ev_id x = ev_id e) then email_token_used now x else x).
      split_and!; [apply elem_of_update_where; eauto|by case_bool_decide|by case_bool_decide].
  - intros u Hu _. exact (ok_passwords t Hok u Hu).
Qed.

Lemma new_password_ok s p h :
  Password_new s = Ok p → fresh_hash (password_str p) h →
  ∃ q x h', Password_new q = Ok x ∧ fresh_hash q h' ∧ hash_str h = hash_str h'.
Proof. intros Hp Hh. exists s, p, h. split_and!; [done| |done]. by apply Password_new_ok in Hp as [-> _]. Qed.

Lemma reset_password_ok now e s p h t :
  Password_new s = Ok p → fresh_hash (password_str p) h → users_ok t →
  users_ok (password_reset_tables now e h t).
Proof.
  intros Hp Hh Hok. unfold password_reset_tables. apply users_ok_update; try done; try apply Hok.
  - by rewrite fmap_update_where; [apply Hok|].
  - by rewrite fmap_update_where; [apply Hok|].
  - by rewrite fmap_update_where.
  - by rewrite fmap_update_where.
  - intros x Hx. by exists x.
  - intros x. by apply marked_tokens.
  - intros u Hu Hv. apply (ok_verified t Hok u Hu). by destruct (is_user _ u).
  - intros u Hu _. by eapply new_password_ok.
Qed.

(** A name that an update may give to the user [id]: no other user has it. *)
Lemma free_name (g : UserEntity → string) id b t :
  existsb (λ u, bool_decide (g u = b) && negb (is_user id u)) (ut_users t) = false →
  ∀ u, u ∈ ut_users t → g u = b → us_id u = id.
Proof.
  intros Hex u Hin <-. destruct (is_user id u) eqn:Eu; [by apply bool_decide_eq_true in Eu|].
  exfalso. assert (existsb (λ x, bool_decide (g x = g u) && negb (is_user id x)) (ut_users t) = true); [|congruence].
  apply existsb_exists. exists u. split; [by apply list_elem_of_In|]. by rewrite Eu, bool_decide_eq_true_2.
Qed.

Lemma update_user_stmt_ok id v now id' t t' :
  update_user_stmt id v now id' t = Ok (1%nat, t') →
  t' = set_users (update_where (λ u, is_user id u && is_live u) (with_profile v now) (ut_users t)) t ∧
  (users_ok t → users_ok t').
Proof.
  intros Hu. unfold update_user_stmt, update_users in Hu. inv_ok Hu; simplify_eq. split; [done|]. intros Hok.
  repeat match goal with
         | H : unique _ _ _ = Ok _ |- _ => apply unique_ok in H
         end.
  assert (∀ u, is_user id u && is_live u = true → us_id u = id) as Hpid
    by (intros u [Hu _]%andb_true_iff; by apply bool_decide_eq_true in Hu).
  apply users_ok_set; try done.
  - eapply (renamed_unique us_username _ _ _ id (username_str (vu_username v))); try done;
      [apply Hok|apply Hok|by apply free_name].
  - eapply (renamed_unique us_email _ _ _ id (email_str (vu_email v))); try done;
      [apply Hok|apply Hok|by apply free_name].
  - intros u Hu _. exact (ok_passwords t Hok u Hu).
Qed.

Lemma effect_ok now rq t t' : effect now rq t t' → users_ok t → users_ok t'.
Proof.
  intros He Hok. destruct rq as [req|req|req|req|req|req|id|id user|id user req|id user|user req];
    try done; simpl in He.
  - destruct He as (v & h & n & id1 & id2 & t1 & Hv & Hh & Hi & Ht).
    assert (∃ p x, Password_new p = Ok x ∧ fresh_hash p h) as (p & x & Hp & Hph).
    { unfold ValidUserCreateReq_try_from in Hv. apply obind_ok in Hv as (un & _ & Hv).
      apply obind_ok in Hv as (pw & Hpw & Hv). inv_ok Hv. simplify_eq. simpl in Hh.
      exists (uc_password req), pw. split; [done|]. by apply Password_new_ok in Hpw as [-> _]. }
    destruct (insert_user_ok v h now id1 t id1 t1 p x Hp Hph Hi Hok) as (_ & Hok1 & _).
    by eapply insert_email_token_ok.
  - destruct He as (e & Hf & ->). apply find_some in Hf as [He _]. apply list_elem_of_In in He.
    by apply verify_email_ok.
  - destruct He as (email & u & n & id & _ & _ & Ht). by eapply insert_reset_token_ok.
  - destruct He as (e & p & h & _ & Hp & Hh & ->). by eapply reset_password_ok.
  - destruct He as (v & id' & _ & _ & Hu). by eapply update_user_stmt_ok.
  - destruct He as [_ ->]. apply users_ok_set; try done.
    + rewrite fmap_update_where; [apply Hok|done].
    + rewrite fmap_update_where; [apply Hok|done].
    + intros u Hu _. exact (ok_passwords t Hok u Hu).
  - destruct He as (u0 & p & h & _ & _ & _ & Hp & Hh & ->). apply users_ok_set; try done.
    + rewrite fmap_update_where; [apply Hok|done].
    + rewrite fmap_update_where; [apply Hok|done].
    + intros u Hu _. by eapply new_password_ok.
Qed.
End steps.

Section runs.
Context `{IdentityApi}.
Implicit Types (s : db user_tables ident_ext) (t : user_tables) (u : UserEntity).

(** A run of the service: requests, time, and anything that happens to Redis, the provider and
    the connection between requests. *)
Inductive identity_step (s : db user_tables ident_ext) : db user_tables ident_ext → Prop :=
| step_request state rq o s' : handle state rq s = (o, s') → identity_step s s'
| step_outside e x : identity_step s (MkDb (d_committed s) e x).

Lemma step_tables s s' : identity_step s s' →
  d_committed s' = d_committed s ∨ ∃ now rq, effect now rq (d_committed s) (d_committed s').
Proof.
  intros [state rq o s1 Hr|e x]; [|by left].
  apply handle_stepped in Hr as [[Hr|Hr] _]; [by left|right; eauto].
Qed.
(** An invariant of the tables that every step of the machine keeps. *)
Lemma run_invariant (P : user_tables → Prop) s s' :
  (∀ now rq t t', effect now rq t t' → P t → P t') →
  rtc identity_step s s' → P (d_committed s) → P (d_committed s').
Proof.
  intros HP Hrun. induction Hrun as [s|s s1 s' Hs _ IH]; [done|]. intros Hp. apply IH.
  apply step_tables in Hs as [->|(now & rq & He)]; [done|by eapply HP].
Qed.
Lemma users_ok_run s s' : rtc identity_step s s' → users_ok (d_committed s) → users_ok (d_committed s').
Proof. apply (run_invariant users_ok). intros now rq t t' He. by eapply effect_ok. Qed.

(** ** Rows before and after a step *)

(** Two rows with one identifier are one row. *)
Lemma same_user t u u' : users_ok t → u ∈ ut_users t → u' ∈ ut_users t → us_id u' = us_id u → u' = u.
Proof. intros Hok ???. by apply (NoDup_fmap_inj_in us_id (ut_users t)); [apply ok_ids|..]. Qed.

Definition credentials u : string := us_password u.
Definition profile u : string * string * string * Role := (us_username u, us_email u, us_phone u, us_role u).

(** What a step does to the row of one account. *)
Inductive row_change (now : Z) (rq : identity_request) (t : user_tables) (u : UserEntity) : UserEntity → Prop :=
| row_same : row_change now rq t u u
| row_verified req e : rq = VerifyEmail req →
    List.find (valid_email_token (ve_token req) now) (ut_email_tokens t) = Some e → ev_user_id e = us_id u →
    row_change now rq t u (verified now u)
| row_reset req e p h : rq = ResetPassword req →
    List.find (valid_reset_token (rp_token req) now) (ut_reset_tokens t) = Some e → rt_user_id e = us_id u →
    Password_new (rp_new_password req) = Ok p → fresh_hash (password_str p) h →
    row_change now rq t u (with_password h now u)
| row_updated user req v : rq = Update (us_id u) user req → require_access user (us_id u) = Ok tt →
    us_deleted_at u = None → ValidUserUpdateReq_try_from req = Ok v → row_change now rq t u (with_profile v now u)
| row_deleted user : rq = Delete (us_id u) user → require_access user (us_id u) = Ok tt →
    us_deleted_at u = None → row_change now rq t u (deleted now u)
| row_changed user req p h : rq = ChangePassword user req → cu_id user = us_id u → us_deleted_at u = None →
    verify_password (cp_current_password req) (MkHashedPassword (us_password u)) = Ok tt →
    Password_new (cp_new_password req) = Ok p → fresh_hash (password_str p) h →
    row_change now rq t u (with_password h now u).

Lemma find_live_in p t u : find_live p t = Some u → u ∈ ut_users t ∧ p u = true ∧ us_deleted_at u = None.
Proof.
  intros [Hin Hp]%find_some. apply list_elem_of_In in Hin.
  apply andb_true_iff in Hp as [Hp Hl%bool_decide_eq_true]. done.
Qed.

Lemma effect_row now rq t t' u : effect now rq t t' → users_ok t → u ∈ ut_users t →
  ∃ u', u' ∈ ut_users t' ∧ row_change now rq t u u'.
Proof.
  intros He Hok Hu.
  assert (∀ (p : UserEntity → bool) f, (if p u then f u else u) ∈ update_where p f (ut_users t)) as Hin
    by (intros p f; apply elem_of_update_where; eauto).
  destruct rq as [req|req|req|req|req|req|id|id user|id user req|id user|user req]; try done; simpl in He.
  - destruct He as (v & h & n & id1 & id2 & t1 & _ & _ & Hi & Ht). exists u. split; [|constructor].
    unfold insert_user in Hi. inv_ok Hi. simplify_eq.
    unfold insert_email_token in Ht. inv_ok Ht. simplify_eq. simpl. set_solver.
  - destruct He as (e & Hf & ->). eexists. split; [apply (Hin (is_user (ev_user_id e)))|].
    destruct (is_user _ u) eqn:E; [|constructor]. apply bool_decide_eq_true in E. by econstructor.
  - destruct He as (email & u0 & n & id & _ & _ & Ht). exists u. split; [|constructor].
    unfold insert_reset_token in Ht. inv_ok Ht. by simplify_eq.
  - destruct He as (e & p & h & Hf & Hp & Hh & ->). eexists. split; [apply (Hin (is_user (rt_user_id e)))|].
    destruct (is_user _ u) eqn:E; [|constructor]. apply bool_decide_eq_true in E. by econstructor.
  - destruct He as (v & id' & Ha & Hv & Hs). apply update_user_stmt_ok in Hs as [-> _].
    eexists. split; [apply (Hin (λ u, is_user id u && is_live u))|]. cbv beta.
    destruct (is_user id u) eqn:E, (is_live u) eqn:El; try constructor. simpl.
    apply bool_decide_eq_true in E as <-, El. by econstructor.
  - destruct He as [Ha ->]. eexists. split; [apply (Hin (λ u, is_user id u && is_live u))|]. cbv beta.
    destruct (is_user id u) eqn:E, (is_live u) eqn:El; try constructor. simpl.
    apply bool_decide_eq_true in E as <-, El. by econstructor.
  - destruct He as (u0 & p & h & Hf & Hv & _ & Hp & Hh & ->).
    eexists. split; [apply (Hin (is_user (cu_id user)))|].
    destruct (is_user _ u) eqn:E; [|constructor]. apply bool_decide_eq_true in E.
    apply find_live_in in Hf as (Hu0 & E0%bool_decide_eq_true & Hl).
    assert (u0 = u) as -> by (by eapply same_user; [..|congruence]). by econstructor.
Qed.
Lemma row_change_id now rq t u u' : row_change now rq t u u' → us_id u' = us_id u.
Proof. by intros []. Qed.

(** ** Used reset tokens *)

(** A used reset token with this text; nothing removes one. *)
Definition spent (token : string) (t : user_tables) : Prop :=
  ∃ e, e ∈ ut_reset_tokens t ∧ rt_token e = token ∧ rt_used_at e ≠ None.

Lemma effect_spent token now rq t t' : effect now rq t t' → spent token t → spent token t'.
Proof.
  intros He (e & Hin & Ht & Hu).
  assert (∀ l, ut_reset_tokens t' = ut_reset_tokens t ++ l → spent token t') as Hsnoc
    by (intros l E; exists e; rewrite E; set_solver).
  specialize (Hsnoc []) as Hsame. rewrite app_nil_r in Hsame.
  destruct rq as [req|req|req|req|req|req|id|id user|id user req|id user|user req]; try done; simpl in He.
  - destruct He as (v & h & n & id1 & id2 & t1 & _ & _ & Hi & Hm). apply Hsame.
    unfold insert_user in Hi. inv_ok Hi. simplify_eq.
    unfold insert_email_token in Hm. inv_ok Hm. by simplify_eq.
  - destruct He as (e0 & _ & ->). by apply Hsame.
  - destruct He as (email & u0 & n & id & _ & _ & Hm).
    unfold insert_reset_token in Hm. inv_ok Hm. simplify_eq. by eapply Hsnoc.
  - destruct He as (e0 & p & h & _ & _ & _ & ->).
    exists (if bool_decide (rt_id e = rt_id e0) then reset_token_used now e else e).
    split; [apply elem_of_update_where; eauto|]. by case_bool_decide.
  - destruct He as (v & id' & _ & _ & Hs). apply update_user_stmt_ok in Hs as [-> _]. by apply Hsame.
  - destruct He as [_ ->]. by apply Hsame.
  - destruct He as (u0 & p & h & _ & _ & _ & _ & _ & ->). by apply Hsame.
Qed.

Lemma spent_invalid token now t :
  users_ok t → spent token t → List.find (valid_reset_token token now) (ut_reset_tokens t) = None.
Proof.
  intros Hok (e & Hin & Ht & Hu). destruct (List.find _ _) as [e'|] eqn:Ef; [|done]. exfalso.
  apply find_some in Ef as [Hin' Hv]. apply list_elem_of_In in Hin'.
  unfold valid_reset_token in Hv. apply andb_true_iff in Hv as [[E1 E2]%andb_true_iff _].
  apply bool_decide_eq_true in E1, E2. assert (e' = e) as ->; [|congruence].
  eapply (NoDup_fmap_inj_in rt_token); [apply ok_reset_texts, Hok|done|done|congruence].
Qed.

Lemma verify_fresh p h : fresh_hash p h → verify_password p h = Ok tt.
Proof. intros (n & Hh). apply argon2_verify_hash in Hh as [Hp Hv]. unfold verify_password. by rewrite Hp, Hv. Qed.
End runs.

Section claims.
Context `{IdentityApi}.
Implicit Types (s : db user_tables ident_ext) (t : user_tables) (u : UserEntity).

(** C36: whatever statement or answer the database loses, a request of the identity service is at
    most one step of the account machine - one row inserted with its token, one row changed
    under the guard of the request, or nothing; a request that reports success took its step,
    unless it only reads, or asks for a new password of an address that no live account has; the
    one other exception is a request for a new password whose lookup of the account was lost, which
    the code takes for an unknown address and answers with success. *)
Theorem identity_refines state rq s o s' :
  handle state rq s = (o, s') →
  (d_committed s' = d_committed s ∨ effect (e_now (d_env s)) rq (d_committed s) (d_committed s')) ∧
  (is_ok o = true →
     effect (e_now (d_env s)) rq (d_committed s) (d_committed s') ∨
     silent s rq = true ∧ d_committed s' = d_committed s).
Proof. apply handle_stepped. Qed.

(** C37: in every run of the service from empty tables, user names, email addresses, identifiers
    and the texts of the verification and of the reset tokens are unique, tokens belong to existing
    users, a verified user has used a token that was issued to them, and every stored password is a
    hash, with a salt of the generator, of a password that passes the password rules. *)
Theorem identity_invariant s s' :
  d_committed s = MkUserTables [] [] [] → rtc identity_step s s' → users_ok (d_committed s').
Proof. intros Hs Hrun. eapply users_ok_run; [exact Hrun|]. rewrite Hs. apply users_ok_empty. Qed.

(** What one request of the service may change of an account. *)
Lemma account_changed state rq s o s' u :
  users_ok (d_committed s) → u ∈ ut_users (d_committed s) → handle state rq s = (o, s') →
  let now := e_now (d_env s) in
  ∃ u', u' ∈ ut_users (d_committed s') ∧ us_id u' = us_id u ∧ us_created_at u' = us_created_at u ∧
  (us_password u' ≠ us_password u →
     (∃ req e, rq = ResetPassword req ∧ e ∈ ut_reset_tokens (d_committed s) ∧ rt_user_id e = us_id u ∧
        rt_token e = rp_token req ∧ rt_used_at e = None ∧ now < rt_expires_at e) ∨
     (∃ user req, rq = ChangePassword user req ∧ cu_id user = us_id u ∧
        verify_password (cp_current_password req) (MkHashedPassword (us_password u)) = Ok tt)) ∧
  (profile u' ≠ profile u → ∃ user req, rq = Update (us_id u) user req ∧ us_deleted_at u = None ∧
     (cu_id user = us_id u ∨ cu_role user = Admin)) ∧
  (us_deleted_at u' ≠ us_deleted_at u → us_deleted_at u = None ∧ ∃ user, rq = Delete (us_id u) user ∧
     (cu_id user = us_id u ∨ cu_role user = Admin)) ∧
  (us_email_verified u' ≠ us_email_verified u → ∃ req e, rq = VerifyEmail req ∧
     e ∈ ut_email_tokens (d_committed s) ∧ ev_user_id e = us_id u ∧ ev_token e = ve_token req ∧
     ev_used_at e = None ∧ now < ev_expires_at e).
Proof.
  intros Hok Hu Hr now. apply handle_stepped in Hr as [Hr _].
  assert (∃ u', u' ∈ ut_users (d_committed s') ∧ row_change now rq (d_committed s) u u') as (u' & Hu' & Hc).
  { destruct Hr as [->|Hr]; [|by eapply effect_row]. exists u. split; [done|constructor]. }
  exists u'. split; [done|]. split; [by eapply row_change_id|].
  destruct Hc as [|req e -> Hf He|req e p h -> Hf He _ _|user req v -> Ha Hl _|user -> Ha Hl
                 |user req p h -> Hid Hl Hv _ _]; simpl; split_and!; try done.
  - intros _. apply find_some in Hf as [Hin Hv]. apply list_elem_of_In in Hin. unfold valid_email_token in Hv.
    apply andb_true_iff in Hv as [[E1%bool_decide_eq_true E2%bool_decide_eq_true]%andb_true_iff E3%Z.ltb_lt].
    exists req, e. by split_and!.
  - intros _. left. apply find_some in Hf as [Hin Hv]. apply list_elem_of_In in Hin. unfold valid_reset_token in Hv.
    apply andb_true_iff in Hv as [[E1%bool_decide_eq_true E2%bool_decide_eq_true]%andb_true_iff E3%Z.ltb_lt].
    exists req, e. by split_and!.
  - intros _. apply require_access_ok in Ha. eauto.
  - intros _. apply require_access_ok in Ha. eauto.
  - intros _. right. eauto.
Qed.

(** C32: an account never disappears, and a request on the routes changes it only with the right to:
    the password by a valid reset token of this user or by the user's current password, the
    profile and the role of a live account by this user or an administrator, the deletion
    likewise, and the verification by a valid token of this user; where a user is needed it is
    the one the middleware found for a token that is valid now. *)
Theorem account_changes_authorized state header rq s o s' u :
  users_ok (d_committed s) → u ∈ ut_users (d_committed s) → user_routes state header rq s = (o, s') →
  let now := e_now (d_env s) in
  let by_user user := ∃ s1, admitted (as_auth_config state) (Some (get_by_id state)) now header s user s1 in
  ∃ u', u' ∈ ut_users (d_committed s') ∧ us_id u' = us_id u ∧ us_created_at u' = us_created_at u ∧
  (us_password u' ≠ us_password u →
     (∃ req e, rq = RqResetPassword req ∧ e ∈ ut_reset_tokens (d_committed s) ∧ rt_user_id e = us_id u ∧
        rt_token e = rp_token req ∧ rt_used_at e = None ∧ now < rt_expires_at e) ∨
     (∃ user req, rq = RqChangePassword req ∧ by_user user ∧ cu_id user = us_id u ∧
        verify_password (cp_current_password req) (MkHashedPassword (us_password u)) = Ok tt)) ∧
  (profile u' ≠ profile u → ∃ user req, rq = RqUpdate (us_id u) req ∧ by_user user ∧ us_deleted_at u = None ∧
     (cu_id user = us_id u ∨ cu_role user = Admin)) ∧
  (us_deleted_at u' ≠ us_deleted_at u → us_deleted_at u = None ∧ ∃ user, rq = RqDeleteUser (us_id u) ∧
     by_user user ∧ (cu_id user = us_id u ∨ cu_role user = Admin)) ∧
  (us_email_verified u' ≠ us_email_verified u → ∃ req e, rq = RqVerifyEmail req ∧
     e ∈ ut_email_tokens (d_committed s) ∧ ev_user_id e = us_id u ∧ ev_token e = ve_token req ∧
     ev_used_at e = None ∧ now < ev_expires_at e).
Proof.
  intros Hok Hu Hr now by_user. apply user_routes_handled in Hr as [[_ E]|(user & s1 & o1 & [Et En] & Hr & _ & Ha)].
  { exists u. rewrite E. split_and!; done. }
  rewrite <-Et in Hok, Hu. destruct (account_changed _ _ _ _ _ _ Hok Hu Hr) as (u' & Hu' & Hid & Hc & Hp & Hf & Hd & Hv).
  rewrite Et, En in *. exists u'. split_and!; [done..| | | |].
  - intros [(req & e & E & He)|(who & req & E & He)]%Hp; [left|right]; destruct rq; simplify_eq/=; unfold by_user; eauto 8.
  - intros (who & req & E & He)%Hf. destruct rq; simplify_eq/=. unfold by_user. eauto 8.
  - intros (Hl & who & E & He)%Hd. destruct rq; simplify_eq/=. unfold by_user. eauto 8.
  - intros (req & e & E & He)%Hv. destruct rq; simplify_eq/=. eauto 8.
Qed.

(** C33: a password reset that reports success has replaced the password of the token's user by
    one that the new password opens, and the token is spent: in every later state of every run,
    a reset with the same token fails and leaves the tables alone. *)
Theorem reset_token_once state req s s1 :
  users_ok (d_committed s) → handle state (ResetPassword req) s = (Ok tt, s1) →
  (∃ e u, e ∈ ut_reset_tokens (d_committed s) ∧ rt_token e = rp_token req ∧
     u ∈ ut_users (d_committed s1) ∧ us_id u = rt_user_id e ∧
     verify_password (rp_new_password req) (MkHashedPassword (us_password u)) = Ok tt) ∧
  ∀ s2 state' req' o s3, rtc identity_step s1 s2 → rp_token req' = rp_token req →
    handle state' (ResetPassword req') s2 = (o, s3) → is_ok o = false ∧ d_committed s3 = d_committed s2.
Proof.
  intros Hok Hr. pose proof (handle_stepped _ _ _ _ _ Hr) as [_ [He|[Hs _]]]; [done| |done].
  pose proof He as (e & p & h & Hf & Hp & Hh & Ht). pose proof Hf as [Hin Hv]%find_some.
  apply list_elem_of_In in Hin. unfold valid_reset_token in Hv.
  apply andb_true_iff in Hv as [[E1%bool_decide_eq_true E2]%andb_true_iff _]. split.
  - destruct (ok_reset_token_users _ Hok e Hin) as (u & Hu & Eu).
    exists e, (with_password h (e_now (d_env s)) u). split_and!; [done..| |done|].
    + rewrite Ht. apply elem_of_update_where. exists u. unfold is_user. by rewrite bool_decide_eq_true_2.
    + apply Password_new_ok in Hp as [-> _]. destruct h. by apply verify_fresh.
  - intros s2 state' req' o s3 Hrun Etok Hr'. apply handle_stepped in Hr' as [Hr' Hr''].
    assert (spent (rp_token req) (d_committed s1)) as Hsp.
    { exists (reset_token_used (e_now (d_env s)) e). split_and!; [|done|done]. rewrite Ht.
      apply elem_of_update_where. exists e. by rewrite bool_decide_eq_true_2. }
    assert (users_ok (d_committed s2)) as Hok2 by (eapply users_ok_run; [exact Hrun|by eapply effect_ok]).
    assert (spent (rp_token req) (d_committed s2)) as Hsp2
      by (eapply (run_invariant (spent (rp_token req))); [|exact Hrun|done]; intros ????; apply effect_spent).
    assert (∀ t, ¬ effect (e_now (d_env s2)) (ResetPassword req') (d_committed s2) t) as Hno.
    { intros t (e' & p' & h' & Hf' & _). rewrite Etok, spent_invalid in Hf' by done. done. }
    split; [|by destruct Hr' as [?|[]%Hno]].
    destruct (is_ok o); [|done]. by destruct (Hr'' eq_refl) as [[]%Hno|[? _]].
Qed.
End claims.
