(* ===== verification/UserSessions.v ===== *)
(** * Identity service: sessions and the cached current user *)

From S2P Require Import Prelude RustStr Externals Errors NewTypes Regex Auth Db Requests Redis.
From S2P Require Import UserTypes UserRepo UserService UserProps UserTheorems.

Local Open Scope Z_scope.

Section sessions.
Context `{IdentityApi}.
Implicit Types (s : db user_tables ident_ext) (t : user_tables) (u : UserEntity).

(** The claims of the access token that is issued to [u] at [now]. *)
Definition access_claims (config : AuthConfig) (now : Z) u : AccessTokenClaims := {|
  ac_sub := us_id u; ac_name := us_username u; ac_role := us_role u; ac_iat := now;
  ac_exp := now + access_token_expiry_secs config |}.
(** The current user that stands for [u]. *)
Definition current u : CurrentUser := {| cu_id := us_id u; cu_role := us_role u |}.

Lemma unauthorized_ok {A} (o : outcome AuthError A) s a s' :
  unauthorized o s = (Ok a, s') → o = Ok a ∧ s' = s.
Proof. unfold unauthorized. intros [Ho ->]%lift_ok. destruct o; naive_solver. Qed.

Lemma login_ok state req s tokens s1 : login_user state req s = (Ok tokens, s1) →
  quiet s s1 ∧ ∃ u jti, u ∈ ut_users (d_committed s) ∧ us_deleted_at u = None ∧
    us_username u = trim (ul_username req) ∧ us_email_verified u = true ∧
    verify_password (ul_password req) (MkHashedPassword (us_password u)) = Ok tt ∧
    generate_access_token (as_auth_config state) (e_now (d_env s)) (us_id u) (us_username u) (us_role u)
      = Ok (access_token tokens) ∧
    generate_refresh_token (as_auth_config state) (e_now (d_env s)) jti (us_id u) = Ok (refresh_token tokens).
Proof.
  unfold login_user. intros (name & s2 & [Hn ->]%lift_ok & (u & s3 & Hu & Hr)%bind_ok)%bind_ok.
  pose proof Hu as [Hq1 Hq2]%quiet_pool. apply pool_read in Hu. apply find_live_in in Hu as (Hin & Hp & Hl).
  destruct (us_email_verified u) eqn:Ev; simpl in Hr; [|by apply fail_ok in Hr].
  apply bind_ok in Hr as ([] & s4 & [Hv ->]%lift_ok & Hr).
  apply bind_ok in Hr as (at_ & s5 & (now & s6 & [= <- <-] & [Ha ->]%unauthorized_ok)%bind_ok & Hr).
  apply bind_ok in Hr as (now' & s7 & [= <- <-] & (jti & s8 & [= <- <-] & Hr)%bind_ok).
  apply bind_ok in Hr as (rt & s9 & [Hrt ->]%unauthorized_ok & [= <- <-]).
  split; [split; simpl; congruence|]. rewrite Hq2 in Ha, Hrt.
  apply bool_decide_eq_true in Hp. apply Username_new_ok in Hn as (-> & _). eexists u, _. by split_and!.
Qed.

(** C34: a login that succeeds names a live account with a verified address and the right
    password. Until the lifetime is over, a header that carries the access token authenticates
    exactly this account with its role at login, and after that it is refused as expired; and
    a refresh, until its token expires, issues an access token with the name and role the
    account then has - or refuses when the account is gone. *)
Theorem login_session state req s tokens s1 :
  let config := as_auth_config state in
  let now := e_now (d_env s) in
  sane config now → login_user state req s = (Ok tokens, s1) →
  d_committed s1 = d_committed s ∧
  ∃ u, u ∈ ut_users (d_committed s) ∧ us_deleted_at u = None ∧ us_username u = trim (ul_username req) ∧
    us_email_verified u = true ∧
    verify_password (ul_password req) (MkHashedPassword (us_password u)) = Ok tt ∧
    (∀ header later (W : Type) (w : W), extract_bearer_token header = Ok (access_token tokens) →
       authenticate config None later header w =
         if now + access_token_expiry_secs config <? later then (Err MwTokenExpired, w)
         else (Ok (current u, access_claims config now u), w)) ∧
    (∀ s2, e_faults (d_env s2) = [] →
       (refresh_session state {| uf_refresh_token := refresh_token tokens |} s2).1 =
         if now + refresh_token_expiry_secs config <? e_now (d_env s2) then Err (Unauthorized "Token Expired")
         else match find_live (is_user (us_id u)) (d_committed s2) with
              | None => Err (NotFound ("User not found: " +:+ sqlx_display RowNotFound))
              | Some u2 =>
                  match generate_access_token config (e_now (d_env s2)) (us_id u2) (us_username u2) (us_role u2) with
                  | Ok token => Ok {| uf_access_token := token |}
                  | Err e => Err (Unauthorized (auth_error_display e))
                  | Panic => Panic
                  end
              end).
Proof.
  intros config now Hsane [[Hc _] (u & jti & Hin & Hl & Hn & Hv & Hp & Ha & Hr)]%login_ok.
  split; [done|]. exists u. do 5 (split; [done|]). split.
  - intros header later W w Hh. unfold authenticate. rewrite Hh. unfold mbind, M_bind, lift. simpl.
    rewrite (access_token_lifetime _ _ _ _ _ _ _ Hsane Ha). fold config now. by destruct (_ <? later).
  - intros s2 Hf. unfold refresh_session, unauthorized, app_now, gets, mbind, M_bind, lift. simpl.
    rewrite (refresh_token_lifetime _ _ _ _ _ _ Hsane Hr). fold config now.
    destruct (_ <? e_now (d_env s2)); simpl; [done|].
    destruct (pool_read_calm (find_live (is_user (us_id u)))
      (not_found "User not found: ") s2 Hf) as (s3 & Hg & _ & _ & Hn3 & _).
    unfold get_user_by_id. rewrite Hg. destruct (find_live _ _) as [u2|]; [|done].
    unfold access_token_of, unauthorized, app_now, gets, mbind, M_bind, lift, omap_err. simpl. rewrite Hn3.
    fold config. by destruct (generate_access_token config _ _ _ _).
Qed.

(** The characters of the values. *)
Definition letter (c : Z) : Prop := 65 ≤ c ≤ 90 ∨ 97 ≤ c ≤ 122.
Definition digit (c : Z) : Prop := 48 ≤ c ≤ 57.
Lemma letter_iff c : ascii_letter c = true ↔ letter c.
Proof. unfold ascii_letter, ascii_upper, ascii_lower, letter. by rewrite orb_true_iff, !in_range_spec. Qed.
Lemma digit_iff c : ascii_digit c = true ↔ digit c.
Proof. apply in_range_spec. Qed.
Lemma one_of_iff (text : string) c : one_of text c = true ↔ c ∈ chars text.
Proof.
  unfold one_of. rewrite existsb_exists, list_elem_of_In. split; [by intros (x & Hx & ->%Z.eqb_eq)|].
  intros Hc. exists c. by rewrite Z.eqb_refl.
Qed.
Lemma Forall_iff_char (p : Z → bool) (P : Z → Prop) l :
  (∀ c, p c = true ↔ P c) → Forall (λ c, p c = true) l ↔ Forall P l.
Proof. intros E. split; intros Hl; (eapply Forall_impl; [exact Hl|]); intros c; apply E. Qed.
Lemma existsb_char (p : Z → bool) l : existsb p l = true ↔ ∃ c, c ∈ l ∧ p c = true.
Proof. rewrite existsb_exists. by setoid_rewrite list_elem_of_In. Qed.
Lemma special_iff c : is_special c = true ↔ c ∈ chars "!@#$%^&*()_+-=[]{}|;':,./<>?" ∨ c = 34.
Proof.
  unfold is_special. rewrite existsb_char. setoid_rewrite Z.eqb_eq.
  assert (chars "!@#$%^&*()_+-=[]{}|;':,./<>?" = chars "!@#$%^&*()_+-=[]{}|;':" ++ chars ",./<>?") as ->
    by (vm_compute; reflexivity).
  unfold SPECIAL_CHARS. setoid_rewrite elem_of_app. setoid_rewrite elem_of_app.
  setoid_rewrite list_elem_of_singleton. naive_solver.
Qed.

(** C38: the values the service accepts, exactly, and what each becomes; all lengths are numbers of
    bytes, although the messages of the code call them characters. A user name is trimmed, of 3 to
    30 letters, digits, underscores and hyphens, and not a reserved word in any case; an email has
    at most 254 bytes in the form local@domain.tld and is stored in lower case; a password has 8
    to 128 bytes with an upper case letter, a lower case letter, a digit and a special character; a
    phone number is a plus sign, a digit from 1 to 9, and digits in groups that single hyphens
    separate - digits of any script, of which 7 to 15 must be ASCII digits. *)
Theorem user_values_exact (input : string) :
  (∀ u : Username, Username_new input = Ok u ↔
     u = MkUsername (trim input) ∧ (3 ≤ str_len (trim input) ≤ 30)%nat ∧
     Forall (λ c, letter c ∨ digit c ∨ c = 95 ∨ c = 45) (chars (trim input)) ∧
     to_lowercase (trim input) ∉ ["admin"; "root"; "superuser"; "moderator"]) ∧
  (∀ e, Email_new input = Ok e ↔
     e = MkEmail (to_lowercase (trim input)) ∧ (str_len (trim input) ≤ 254)%nat ∧
     ∃ local domain tld, chars (trim input) = local ++ [64] ++ domain ++ [46] ++ tld ∧
       local ≠ [] ∧ Forall (λ c, letter c ∨ digit c ∨ c ∈ chars "._%+-") local ∧
       domain ≠ [] ∧ Forall (λ c, letter c ∨ digit c ∨ c ∈ chars ".-") domain ∧
       (2 ≤ length tld)%nat ∧ Forall letter tld) ∧
  (∀ p, Password_new input = Ok p ↔
     p = MkPassword input ∧ (8 ≤ str_len input ≤ 128)%nat ∧
     (∃ c, c ∈ chars input ∧ is_uppercase c = true) ∧ (∃ c, c ∈ chars input ∧ is_lowercase c = true) ∧
     (∃ c, c ∈ chars input ∧ digit c) ∧
     (∃ c, c ∈ chars input ∧ (c ∈ chars "!@#$%^&*()_+-=[]{}|;':,./<>?" ∨ c = 34))) ∧
  (∀ p, Phone_new input = Ok p ↔
     p = MkPhone (trim input) ∧ phone_shape (λ c, is_decimal_number c = true) (chars (trim input)) ∧
     (7 ≤ length (List.filter (λ c, bool_decide (48 ≤ c ≤ 57)%Z) (chars (trim input))) ≤ 15)%nat).
Proof.
  split_and!; intros x.
  - rewrite Username_new_ok. rewrite (Forall_iff_char _ (λ c, letter c ∨ digit c ∨ c = 95 ∨ c = 45)); [done|].
    intros c. unfold username_char. rewrite !orb_true_iff, letter_iff, digit_iff, one_of_iff.
    change (chars "_-") with [95; 45]. rewrite !elem_of_cons, elem_of_nil. naive_solver.
  - rewrite Email_new_ok, email_re_spec.
    assert (∀ c, email_local c = true ↔ letter c ∨ digit c ∨ c ∈ chars "._%+-") as Hl.
    { intros c. unfold email_local. rewrite !orb_true_iff, letter_iff, digit_iff, one_of_iff. tauto. }
    assert (∀ c, email_domain c = true ↔ letter c ∨ digit c ∨ c ∈ chars ".-") as Hd.
    { intros c. unfold email_domain. rewrite !orb_true_iff, letter_iff, digit_iff, one_of_iff. tauto. }
    setoid_rewrite (Forall_iff_char _ _ _ Hl). setoid_rewrite (Forall_iff_char _ _ _ Hd).
    by setoid_rewrite (Forall_iff_char _ _ _ letter_iff).
  - rewrite Password_new_ok, !existsb_char. setoid_rewrite digit_iff. by setoid_rewrite special_iff.
  - rewrite Phone_new_ok, phone_re_spec. unfold digit_count.
    rewrite (List.filter_ext ascii_digit (λ c, bool_decide (48 ≤ c ≤ 57))); [done|].
    intros c. apply eq_iff_eq_true. by rewrite digit_iff, bool_decide_eq_true.
Qed.
End sessions.

(** ** Requests when the database answers *)

Section calm.
Context `{IdentityApi}.
Implicit Types (s : db user_tables ident_ext) (t : user_tables) (u : UserEntity).

(** ** The cached current user *)

Context `{!RedisView, !RedisStringLaws}.

(** What the cache says of an account is what the account is. *)
Definition coherent s : Prop := ∀ id d v,
  r_str (ie_redis (d_ext s)) !! user_cache_key id = Some d → current_user_of_json d = Some v →
  ∃ u, find_live (is_user id) (d_committed s) = Some u ∧ v = current u.

Lemma find_live_id t u : users_ok t → u ∈ ut_users t → us_deleted_at u = None →
  find_live (is_user (us_id u)) t = Some u.
Proof.
  intros Hok Hu Hl. unfold find_live.
  destruct (List.find _ _) as [u'|] eqn:Ef.
  - pose proof (find_live_in _ _ _ Ef) as (Hu' & E%bool_decide_eq_true & _). f_equal. by eapply same_user.
  - exfalso. apply list_elem_of_In in Hu. pose proof (find_none _ _ Ef u Hu) as Hn. simpl in Hn.
    apply andb_false_iff in Hn as [Hn%bool_decide_eq_false|Hn%bool_decide_eq_false]; done.
Qed.

(** A live account that a step does not touch in role or deletion. *)
Lemma live_current now rq t t' id u : effect now rq t t' → users_ok t →
  find_live (is_user id) t = Some u →
  (∀ user, rq ≠ Delete id user) → (∀ user req, rq ≠ Update id user req) →
  ∃ u', find_live (is_user id) t' = Some u' ∧ current u' = current u.
Proof.
  intros He Hok Hf Hd Hup. apply find_live_in in Hf as (Hu & E%bool_decide_eq_true & Hl). subst id.
  destruct (effect_row _ _ _ _ _ He Hok Hu) as (u' & Hu' & Hc).
  exists u'. pose proof (row_change_id _ _ _ _ _ Hc) as Eid. rewrite <-Eid.
  assert (us_deleted_at u' = None ∧ current u' = current u) as [Hl' ?].
  { destruct Hc; subst; try done; exfalso; [by eapply Hup|by eapply Hd]. }
  split; [|done]. apply find_live_id; [by eapply effect_ok|done|done].
Qed.
(** Code that writes nothing to the cache, and loses nothing. *)
Definition shrinks s s' : Prop :=
  (e_faults (d_env s) = [] → e_faults (d_env s') = []) ∧
  ∀ k d, r_str (ie_redis (d_ext s')) !! k = Some d → r_str (ie_redis (d_ext s)) !! k = Some d.
#[local] Instance shrinks_preorder : PreOrder shrinks.
Proof. unfold shrinks. split; [by intros s|]. intros s1 s2 s3 [??] [??]; auto. Qed.

Lemma shrinks_pool {A} (f : Z → user_tables → option A) (g : sql_error → AppError) :
  keeps shrinks (on_pool (X := ident_ext) (map_err g (fetch_one_at f))).
Proof.
  intros s o s'. unfold on_pool, map_err, fetch_one_at, shrinks, mbind, M_bind, exec, pop_fault. simpl.
  destruct (e_faults (d_env s)) as [|[] fs] eqn:E; simpl; try (destruct (f _ _)); intros [= <- <-]; done.
Qed.
Lemma shrinks_draw {E A} (f : N → A) : keeps shrinks (draw (E := E) f).
Proof. by intros s o s' [= _ <-]. Qed.
Lemma shrinks_mail message : keeps shrinks (send_or_log message).
Proof.
  apply keeps_catch; [apply _| |intros; apply keeps_ret, _..].
  intros s o s'. unfold on_mailer, zoom. destruct (send_email _ _) as [o1 r]. by intros [= _ <-].
Qed.
Lemma shrinks_evict {E} cache key : keeps shrinks (on_cache (E := E) (evict cache key)).
Proof.
  intros s o s'. unfold on_cache, zoom. destruct (evict _ _ _) as [o1 r] eqn:Er. intros [= _ <-].
  split; [done|]. intros k d. simpl. apply evict_spec in Er as (_ & Hk & Hs).
  destruct (decide (k = key)) as [->|Hne]; [|by rewrite Hk]. by destruct Hs as [-> | ->].
Qed.
Lemma shrinks_transaction {A} msg (f : M (conn user_tables) TxError A) :
  keeps calm_rel f → keeps shrinks (in_transaction msg f).
Proof.
  intros Hk s o s' Hr. split; [intros Hf; by eapply in_transaction_calm|].
  unfold in_transaction, map_err in Hr. destruct (with_transaction f s) as [o1 s1] eqn:Ew.
  injection Hr as _ <-. by apply with_transaction_all_or_nothing in Ew as [-> _].
Qed.

Ltac shrinks_tac :=
  repeat match goal with
    | |- keeps _ (_ ≫= _) => apply keeps_bind; [apply _| |intros]
    | |- keeps _ (catch _ _ _) => apply keeps_catch; [apply _| |intros..]
    | |- keeps _ (match _ with _ => _ end) => case_match
    | |- keeps _ (in_transaction _ _) => apply shrinks_transaction
    | _ => first [apply keeps_ret, _|apply keeps_fail, _|apply keeps_lift, _|apply keeps_gets, _|apply shrinks_draw
        |apply shrinks_evict|apply shrinks_mail|apply shrinks_pool|apply keeps_calm_exec|apply keeps_assert, _
        |apply keeps_map_err
        |progress unfold create_user, create_verification_token, verify_user_email, mark_token_used,
           create_password_reset_token, update_user_password, mark_reset_token_used, update_user, delete_user, exactly_one, assert_one]
    end.

Definition reads_cache (rq : identity_request) : bool :=
  match rq with CurrentUserOf _ => true | _ => false end.
Lemma handle_shrinks state rq : reads_cache rq = false → keeps shrinks (handle state rq).
Proof.
  destruct rq; try done; intros _.
  - unfold handle, create_user_account, hash_password, generate_verification_token, create_account_tx. shrinks_tac.
  - unfold handle, verify_email. shrinks_tac.
  - unfold handle, login_user, access_token_of, unauthorized. shrinks_tac.
  - unfold handle, refresh_session, access_token_of, unauthorized. shrinks_tac.
  - unfold handle, forgot_password, generate_verification_token. shrinks_tac.
  - unfold handle, reset_password, hash_password, reset_password_tx. shrinks_tac.
  - unfold handle, route_get_one, get_user. shrinks_tac.
  - unfold handle, route_update, update_user_account. shrinks_tac.
  - unfold handle, route_delete_user, delete_user_account. shrinks_tac.
  - unfold handle, route_change_password, change_password, hash_password. shrinks_tac.
Qed.

Context `{!RedisUp}.

(** The entry of an account is gone when a connected cache has evicted it. *)
Lemma transaction_evicts state msg (f : M (conn user_tables) TxError unit) id s o s' :
  rc_connected (as_cache state) = true → e_faults (d_env s) = [] → keeps calm_rel f →
  (in_transaction msg f ≫= λ _, on_cache (evict (as_cache state) (user_cache_key id))) s = (o, s') →
  d_committed s' = d_committed s ∨ r_str (ie_redis (d_ext s')) !! user_cache_key id = None.
Proof.
  intros Hc Hf Hk [(u & s1 & _ & Hr)|[(e & -> & Ht)|[-> Ht]]]%bind_cases;
    [|left; by eapply in_transaction_calm..].
  right. unfold on_cache, zoom, evict in Hr. rewrite Hc in Hr.
  pose proof (up_del (user_cache_key id) (ie_redis (d_ext s1))) as Hup.
  destruct (redis_del _ _) as [o1 r] eqn:Ed. apply del_str_law in Ed as [_ Hd].
  destruct o1; try done. by injection Hr as _ <-.
Qed.

Lemma user_cache_key_inj id id' : user_cache_key id = user_cache_key id' → id = id'.
Proof.
  intros E. assert (uuid_to_string id = uuid_to_string id') as E'.
  { unfold user_cache_key, USER_CACHE_PREFIX in E. simpl in E. by injection E. }
  apply (inj Some). by rewrite <-!uuid_parse_to_string, E'.
Qed.

(** A request evicts the account that it may change in role or deletion. *)
Definition touches (rq : identity_request) (id : Uuid) : Prop :=
  (∃ user, rq = Delete id user) ∨ (∃ user req, rq = Update id user req).
Lemma handle_evicts state rq id s o s' :
  rc_connected (as_cache state) = true → e_faults (d_env s) = [] → touches rq id →
  handle state rq s = (o, s') →
  d_committed s' = d_committed s ∨ r_str (ie_redis (d_ext s')) !! user_cache_key id = None.
Proof.
  intros Hc Hf [(user & ->)|(user & req & ->)] Hr; unfold handle, route_delete_user, route_update in Hr.
  - apply bind_cases in Hr as [(u & s1 & [_ ->]%lift_ok & Hr)|[(e & -> & [= _ <-])|[-> [= _ <-]]]]; [|by left..].
    unfold delete_user_account in Hr. eapply transaction_evicts; [done|done| |exact Hr]. shrinks_tac.
  - apply bind_cases in Hr as [(u & s1 & [_ ->]%lift_ok & Hr)|[(e & -> & [= _ <-])|[-> [= _ <-]]]]; [|by left..].
    unfold update_user_account in Hr.
    apply bind_cases in Hr as [(v & s2 & [_ ->]%lift_ok & Hr)|[(e & -> & [= _ <-])|[-> [= _ <-]]]]; [|by left..].
    eapply transaction_evicts; [done|done| |exact Hr]. shrinks_tac.
Qed.

(** The user of an account, from the cache or from the database. *)
Lemma get_by_id_coherent state id s o s' :
  0 < rc_default_ttl (as_cache state) → e_faults (d_env s) = [] → coherent s → get_by_id state id s = (o, s') →
  coherent s' ∧ e_faults (d_env s') = [] ∧
  o = match find_live (is_user id) (d_committed s) with
      | Some u => Ok (current u)
      | None => Err (NotFound ("User not found: " +:+ sqlx_display RowNotFound))
      end.
Proof.
  intros Httl Hf Hco. unfold get_by_id, on_cache, zoom, mbind, M_bind. simpl.
  destruct (cache_get _ _ _ _) as [oc r] eqn:Eg. apply cache_get_spec in Eg as (Hr & v & -> & Hv).
  destruct v as [v|].
  - intros [= <- <-]. destruct Hv as [Hv|Hv]; [done|]. symmetry in Hv.
    apply bind_Some in Hv as (d & Hd & Hv). split; [|split; [done|]].
    + intros id' d' v'. simpl. rewrite Hr. apply Hco.
    + destruct (Hco id d v Hd Hv) as (u & -> & ->). done.
  - set (s1 := MkDb _ _ _).
    destruct (pool_read_calm (find_live (is_user id)) (not_found "User not found: ") s1 Hf)
      as (s2 & Hg & Hc2 & Hx2 & _ & Hf2).
    unfold get_user_by_id. rewrite Hg. simpl. destruct (find_live _ _) as [u|] eqn:Eu.
    + destruct (cache_set _ _ _ _ _) as [os r2] eqn:Es.
      apply cache_set_spec in Es as (-> & Hoth & Hset); [|done].
      intros [= <- <-]. split; [|split; done]. intros id' d v. simpl. rewrite Hc2, Hx2 in *. simpl in *.
      destruct (decide (id' = id)) as [->|Hne].
      * destruct Hset as [Hset|(d1 & Hj & Hset)]; rewrite Hset; [rewrite Hr; apply Hco|].
        intros [= <-] Hv'. exists u. split; [done|].
        rewrite (current_user_of_to_json _ _ Hj) in Hv'. injection Hv' as <-. f_equal; done.
      * rewrite Hoth by (by intros ?%user_cache_key_inj). rewrite Hr. apply Hco.
    + intros [= <- <-]. split; [|split; done]. intros id' d v. rewrite Hc2, Hx2. simpl. rewrite Hr. apply Hco.
Qed.

Lemma handle_coherent state rq s o s' :
  rc_connected (as_cache state) = true → 0 < rc_default_ttl (as_cache state) →
  e_faults (d_env s) = [] → users_ok (d_committed s) → coherent s →
  handle state rq s = (o, s') → coherent s' ∧ e_faults (d_env s') = [].
Proof.
  intros Hconn Httl Hf Hok Hco Hr. destruct (reads_cache rq) eqn:Erq.
  { destruct rq; try done. unfold handle in Hr.
    assert (∃ o1, get_by_id state id s = (o1, s')) as (o1 & Hg).
    { unfold mbind, M_bind in Hr. destruct (get_by_id _ _ _) as [o1 s1]. destruct o1; injection Hr as _ <-; eauto. }
    apply get_by_id_coherent in Hg as (? & ? & _); done. }
  pose proof (handle_shrinks state rq Erq s o s' Hr) as [Hf' Hsub]. split; [|by apply Hf'].
  intros id d v Hd Hv. destruct (Hco id d v (Hsub _ _ Hd) Hv) as (u & Hu & ->).
  pose proof (handle_stepped _ _ _ _ _ Hr) as [[Heq|He] _]; [rewrite Heq; eauto|].
  assert (∀ P : Prop, touches rq id → (d_committed s' = d_committed s → P) → P) as Htouch.
  { intros P Ht HP. destruct (handle_evicts state rq id s o s' Hconn Hf Ht Hr) as [?|Hgone]; [auto|congruence]. }
  assert (d_committed s' = d_committed s ∨ ¬ touches rq id) as [->|Hno].
  { destruct rq; try (right; intros [(? & ?)|(? & ? & ?)]; done).
    - destruct (decide (id0 = id)) as [->|Hne]; [|right; intros [(? & ?)|(? & ? & ?)]; congruence].
      left. apply Htouch; [right; eauto|done].
    - destruct (decide (id0 = id)) as [->|Hne]; [|right; intros [(? & ?)|(? & ? & ?)]; congruence].
      left. apply Htouch; [left; eauto|done]. }
  { eauto. }
  destruct (live_current _ _ _ _ _ _ He Hok Hu) as (u' & Hu' & <-); [| |eauto].
  - intros user ->. apply Hno. left. eauto.
  - intros user req ->. apply Hno. right. eauto.
Qed.

(** C35: with a working database and Redis, every request leaves the cache of current users in
    agreement with the accounts, and the middleware of the identity service then finds for a
    valid token exactly the live account it names with the role the account has now - whatever
    role the token claims - and refuses a token of an account that is gone. *)
Theorem current_user_coherent state rq s o s' :
  rc_connected (as_cache state) = true → 0 < rc_default_ttl (as_cache state) →
  e_faults (d_env s) = [] → users_ok (d_committed s) → coherent s → handle state rq s = (o, s') →
  coherent s' ∧
  ∀ header now token claims, extract_bearer_token header = Ok token →
    validate_access_token (as_auth_config state) now token = Ok claims →
    (authenticate (as_auth_config state) (Some (get_by_id state)) now header s').1 =
      match find_live (is_user (ac_sub claims)) (d_committed s') with
      | Some u => Ok (current u, claims)
      | None => Err UserNotFound
      end.
Proof.
  intros Hconn Httl Hf Hok Hco Hr.
  destruct (handle_coherent state rq s o s' Hconn Httl Hf Hok Hco Hr) as [Hco' Hf']. split; [done|].
  intros header now token claims Hh Hv. unfold authenticate. rewrite Hh. unfold mbind, M_bind, lift. simpl.
  rewrite Hv. simpl. unfold map_err. destruct (get_by_id state (ac_sub claims) s') as [o1 s1] eqn:Eg.
  apply get_by_id_coherent in Eg as (_ & _ & ->); [|done..]. by destruct (find_live _ _).
Qed.
End calm.
