(* ===== verification/UserWitness.v ===== *)
(** * Identity service: concrete runs

    The theorems of the identity service applied to runs on computable third-party components. *)

From S2P Require Import Prelude RustStr Externals Sample Errors NewTypes Regex Auth Db Requests Redis.
From S2P Require Import UserTypes UserRepo UserService UserProps UserTheorems UserSessions.

Local Open Scope Z_scope.

#[local] Existing Instance sample.

(** ** The components *)

#[local] Existing Instance sample_jwt.
#[local] Existing Instance sample_unicode.

#[local] Instance sample_argon2 : Argon2Api.
Proof.
  refine {| argon2_hash p salt := inr (pack (p, salt));
            phc_parse h := if unpack (A := string * string) h is Some _ then None else Some "invalid";
            argon2_verify p h := match unpack (A := string * string) h with
                                 | Some (q, _) => if bool_decide (p = q) then PasswordMatches else PasswordDiffers
                                 | None => OtherFailure "invalid"
                                 end |}.
  intros p salt h [= <-]. rewrite unpack_pack. by rewrite bool_decide_eq_true_2.
Defined.

#[local] Instance sample_random : RandomApi.
Proof.
  refine {| random_salt n := pretty n; random_bytes n := replicate 32 (N.to_nat (n mod 256)) |}.
  intros n. split; [by rewrite length_replicate|]. apply Forall_replicate.
  assert (n mod 256 < 256)%N by (by apply N.mod_lt). lia.
Defined.

#[local] Instance sample_mailer : EmailService := {|
  mailer := list EmailMessage; send_email m := λ sent, (Ok tt, sent ++ [m]) |}.
#[local] Instance sample_user_codec : CurrentUserCodec.
Proof.
  refine {| current_user_to_json u := Some (pack ((cu_id u : string), role_code (cu_role u)));
            current_user_of_json d := match unpack (A := string * N) d with
                                      | Some (id, r) => Some {| cu_id := (id : string); cu_role := role_of r |}
                                      | None => None
                                      end |}.
  intros [id r] d [= <-]. by rewrite unpack_pack, role_of_code.
Defined.
#[local] Instance user_redis : RedisApi := sample_redis (λ _ _ _ m, (0, m)).
#[local] Instance user_redis_view : RedisView := sample_redis_view (λ _ _ _ m, (0, m)).
#[local] Instance user_redis_laws : RedisStringLaws := sample_redis_string_laws (λ _ _ _ m, (0, m)).
#[local] Instance user_redis_up : RedisUp := sample_redis_up (λ _ _ _ m, (0, m)).
#[local] Instance sample_identity : IdentityApi := {|
  ia_jwt := sample_jwt; ia_unicode := sample_unicode; ia_argon2 := sample_argon2; ia_random := sample_random;
  ia_email := sample_mailer; ia_codec := sample_user_codec; ia_redis := user_redis |}.

(** ** An account *)

Definition settings : AuthConfig := {|
  access_token_secret := "access"; refresh_token_secret := "refresh";
  access_token_expiry_secs := 900; refresh_token_expiry_secs := 604800 |}.
Definition app : AppState := {| as_cache := RedisCache_new true 300; as_auth_config := settings |}.
Definition fresh (e : env) : db user_tables ident_ext :=
  MkDb (MkUserTables [] [] []) e (MkIdentExt (MkStore ∅ ∅ : redis) ([] : list EmailMessage)).
Definition empty_world : db user_tables ident_ext := fresh (MkEnv 1000 1 []).

Definition alice : UserCreateReq := {|
  uc_username := " alice "; uc_password := "Passw0rd!"; uc_email := "Alice@Example.com"; uc_phone := "+82-10-1234-5678";
  uc_role := Buyer |}.
Definition registered := handle app (Register alice) empty_world.
Definition email_token_of (s : db user_tables ident_ext) : string :=
  default "" (ev_token <$> head (ut_email_tokens (d_committed s))).
Definition verified_run := handle app (VerifyEmail {| ve_token := email_token_of registered.2 |}) registered.2.
Definition member : db user_tables ident_ext := verified_run.2.
Definition alice_id : Uuid := default ("" : string) (us_id <$> head (ut_users (d_committed member))).
Definition login_req : UserLoginReq := {| ul_username := "alice"; ul_password := "Passw0rd!" |}.
Definition forgot := handle app (ForgotPassword {| fp_email := "alice@example.com" |}) member.
Definition reset_token_of (s : db user_tables ident_ext) : string :=
  default "" (rt_token <$> head (ut_reset_tokens (d_committed s))).
Definition reset_req : ResetPasswordReq := {|
  rp_token := reset_token_of forgot.2; rp_new_password := "N3w-secret" |}.
Definition reset_run := handle app (ResetPassword reset_req) forgot.2.

Lemma member_runs : is_ok registered.1 = true ∧ is_ok verified_run.1 = true ∧ is_ok forgot.1 = true ∧
  is_ok reset_run.1 = true ∧ length (ut_users (d_committed member)) = 1%nat.
Proof. vm_compute. auto. Qed.

(** ** The theorems at these runs *)

Lemma handled rq s : handle app rq s = ((handle app rq s).1, (handle app rq s).2).
Proof. apply surjective_pairing. Qed.
Lemma one_request rq s : rtc identity_step s (handle app rq s).2.
Proof. apply rtc_once. eapply step_request, handled. Qed.
Lemma forgot_reachable : rtc identity_step empty_world forgot.2.
Proof.
  apply (transitivity (y := registered.2)); [exact (one_request (Register alice) empty_world)|].
  apply (transitivity (y := member)); [exact (one_request (VerifyEmail _) registered.2)|].
  exact (one_request (ForgotPassword _) member).
Qed.
Lemma users_ok_forgot : users_ok (d_committed forgot.2).
Proof. exact (users_ok_run empty_world forgot.2 forgot_reachable users_ok_empty). Qed.
Lemma users_ok_member : users_ok (d_committed member).
Proof.
  apply (users_ok_run empty_world member); [|apply users_ok_empty].
  apply (transitivity (y := registered.2)); [exact (one_request (Register alice) empty_world)|].
  exact (one_request (VerifyEmail _) registered.2).
Qed.

Lemma identity_refines_witness :
  is_ok reset_run.1 = true ∧
  (effect (e_now (d_env forgot.2)) (ResetPassword reset_req) (d_committed forgot.2) (d_committed reset_run.2) ∨
   silent forgot.2 (ResetPassword reset_req) = true ∧ d_committed reset_run.2 = d_committed forgot.2).
Proof.
  assert (is_ok reset_run.1 = true) as Hok by apply member_runs. split; [exact Hok|].
  exact (proj2 (identity_refines app (ResetPassword reset_req) forgot.2 reset_run.1 reset_run.2 (handled _ _)) Hok).
Defined.

Lemma identity_invariant_witness :
  length (ut_reset_tokens (d_committed forgot.2)) = 1%nat ∧ users_ok (d_committed forgot.2).
Proof.
  split; [vm_compute; reflexivity|].
  exact (identity_invariant empty_world forgot.2 eq_refl forgot_reachable).
Defined.

Definition row_of (s : db user_tables ident_ext) : option UserEntity := head (ut_users (d_committed s)).
Definition nobody : UserEntity := {|
  us_id := ("" : string); us_created_at := 0; us_updated_at := None; us_deleted_at := None; us_username := "";
  us_password := ""; us_email := ""; us_phone := ""; us_role := Buyer; us_email_verified := false |}.
Definition alice_row : UserEntity := default nobody (row_of forgot.2).
Lemma head_in {A} (d : A) l : l ≠ [] → default d (head l) ∈ l.
Proof. destruct l; [done|]. intros _. by left. Qed.
Lemma alice_in : alice_row ∈ ut_users (d_committed forgot.2).
Proof.
  apply head_in. assert (length (ut_users (d_committed forgot.2)) = 1%nat) as Hl by (vm_compute; reflexivity).
  by destruct (ut_users _).
Qed.

(** Alice logs in and changes her telephone number; without the token nothing changes. *)
Definition alice_header : option (option string) :=
  match (login_user app {| ul_username := "alice"; ul_password := "Passw0rd!" |} forgot.2).1 with
  | Ok t => Some (Some ("Bearer " +:+ access_token t))
  | _ => None
  end.
Definition new_phone : user_call := RqUpdate alice_id {|
  uu_username := "alice"; uu_email := "alice@example.com"; uu_phone := "+82-10-9999-0000"; uu_role := Buyer |}.
Definition phone_run := user_routes app alice_header new_phone forgot.2.
Definition stranger_run := user_routes app None new_phone forgot.2.
Lemma account_changes_authorized_witness :
  is_ok stranger_run.1 = false ∧ is_ok phone_run.1 = true ∧
  us_phone <$> row_of phone_run.2 = Some "+82-10-9999-0000" ∧
  ∃ u', u' ∈ ut_users (d_committed phone_run.2) ∧ us_id u' = us_id alice_row.
Proof.
  split; [vm_compute; reflexivity|]. split; [vm_compute; reflexivity|]. split; [vm_compute; reflexivity|].
  destruct (account_changes_authorized app alice_header new_phone forgot.2 phone_run.1 phone_run.2 alice_row
    users_ok_forgot alice_in (surjective_pairing _)) as (u' & Hu & Hid & _).
  exists u'. split; [exact Hu|exact Hid].
Defined.

Lemma reset_ok : handle app (ResetPassword reset_req) forgot.2 = (Ok tt, reset_run.2).
Proof.
  assert (is_ok reset_run.1 = true) as Hok by apply member_runs. unfold reset_run in *.
  rewrite handled at 1. destruct (handle _ _ _) as [[[]|e|] s]; done.
Qed.
Lemma reset_token_once_witness :
  is_ok (handle app (ResetPassword reset_req) reset_run.2).1 = false ∧
  d_committed (handle app (ResetPassword reset_req) reset_run.2).2 = d_committed reset_run.2.
Proof.
  exact (proj2 (reset_token_once app reset_req forgot.2 reset_run.2 users_ok_forgot reset_ok)
    reset_run.2 app reset_req _ _ (rtc_refl _ _) eq_refl (handled _ _)).
Defined.

Definition no_tokens : JwtTokens := {| access_token := ""; refresh_token := "" |}.
Definition session := login_user app login_req member.
Definition session_tokens : JwtTokens := match session.1 with Ok t => t | _ => no_tokens end.
Lemma session_ok : login_user app login_req member = (Ok session_tokens, session.2).
Proof.
  assert (is_ok session.1 = true) as Hok by (vm_compute; reflexivity).
  unfold session_tokens. unfold session in *. destruct (login_user _ _ _) as [[t|e|] s]; done.
Qed.
Definition header : option (option string) := Some (Some ("Bearer " +:+ access_token session_tokens)).
Definition carried (o : outcome AuthMiddlewareError string) : bool :=
  match o with Ok t => bool_decide (t = access_token session_tokens) | _ => false end.
Lemma header_carries : extract_bearer_token header = Ok (access_token session_tokens).
Proof.
  assert (carried (extract_bearer_token header) = true) as Hc by (vm_compute; reflexivity).
  unfold carried in Hc. destruct (extract_bearer_token header) as [t|e|]; try done.
  by apply bool_decide_eq_true in Hc as ->.
Qed.

Lemma login_session_witness :
  ∃ u, us_username u = "alice" ∧
    authenticate settings None 1500 header tt = (Ok (current u, access_claims settings 1000 u), tt) ∧
    authenticate settings None 2000 header tt = (Err MwTokenExpired, tt).
Proof.
  assert (sane settings (e_now (d_env member))) as Hs.
  { assert (e_now (d_env member) = 1000) as -> by (vm_compute; reflexivity). unfold sane. simpl. lia. }
  destruct (login_session app login_req member session_tokens session.2 Hs session_ok)
    as (_ & u & _ & _ & Hn & _ & _ & Ha & _).
  assert (e_now (d_env member) = 1000) as Hnow by (vm_compute; reflexivity). rewrite Hnow in Ha.
  exists u. split; [rewrite Hn; vm_compute; reflexivity|]. split.
  - exact (Ha header 1500 unit tt header_carries).
  - exact (Ha header 2000 unit tt header_carries).
Defined.

(** The cached user of a deleted account is gone. *)
Definition cached := handle app (CurrentUserOf alice_id) member.
Definition himself : CurrentUser := {| cu_id := alice_id; cu_role := Buyer |}.
Definition removed := handle app (Delete alice_id himself) cached.2.
Lemma empty_cache_coherent (s : db user_tables ident_ext) : st_str (ie_redis (d_ext s)) = ∅ → coherent s.
Proof.
  intros E id d v Hd. change (st_str (ie_redis (d_ext s)) !! user_cache_key id = Some d) in Hd.
  by rewrite E, lookup_empty in Hd.
Qed.
Lemma member_empty_cache : coherent member.
Proof.
  apply empty_cache_coherent. vm_compute. reflexivity.
Qed.
Lemma current_user_coherent_witness :
  bool_decide (size (st_str (ie_redis (d_ext cached.2))) = 1%nat) = true ∧ is_ok removed.1 = true ∧ coherent removed.2.
Proof.
  split; [vm_compute; reflexivity|]. split; [vm_compute; reflexivity|].
  assert (coherent cached.2) as Hc.
  { refine (proj1 (current_user_coherent app (CurrentUserOf alice_id) member _ _ eq_refl eq_refl _ users_ok_member
      member_empty_cache (handled _ _))). vm_compute. reflexivity. }
  refine (proj1 (current_user_coherent app (Delete alice_id himself) cached.2 _ _ eq_refl eq_refl _ _ Hc (handled _ _))).
  - vm_compute. reflexivity.
  - exact (users_ok_run member cached.2 (one_request (CurrentUserOf alice_id) member) users_ok_member).
Defined.
